(* ===== verification/_CoqProject ===== *)
-Q . S2P
Prelude.v
Effects.v
Types.v
LogProtocol.v
ReceivedRanges.v
Crc32.v
ChunkCoverage.v
Sha256.v
DataFlash.v
FcSampleOffsets.v
Session.v
SessionProofs.v
SessionSuccess.v
Json.v
JsonSample.v
CompanionTypes.v
Config.v
CompanionProtocol.v
VideoRecorder.v
Keepalive.v
FlightMonitor.v
Database.v
Storage.v
Downloader.v
Sqlite.v
Reports.v
DownloaderProofs.v
ArchiveProofs.v
Reread.v
ArchiveSuccess.v
RereadSuccess.v
EnumerationProofs.v
Threads.v
CompanionServer.v
Transports.v
Client.v
Service.v
ServiceSafety.v
ServiceProofs.v
ClientStream.v
ServiceJobs.v
ServiceCycle.v
CycleSuccess.v
ServiceFaults.v
ServiceCompanion.v
Program.v
