(* ===== verification/Prelude.v ===== *)
(** * MAVLink Companion Log Service: a verification library

    The program (src/include/mcls, src/src) runs on a companion computer next to
    an ArduPilot flight controller.  It watches the vehicle over MAVLink; after a
    flight it lists the flight controller's DataFlash logs, downloads, verifies
    and catalogues them, and may then erase them.  A companion app asks over UDP
    for the same jobs, for the state, and for video recordings.  Losing a log is the
    failure that matters: most theorems say what is in the archive when the program
    says a log is archived, and when it sends LOG_ERASE.

    ** Files

    The library is read bottom up; every file models the source it names, with the
    names of the source.

    - [Prelude]: widths of integers, arithmetic tactics ([zb], [case_bool]),
      lemmas on words, bits, sorting and lists.
    - [Effects]: the monad of the stateful components ([Ok], a thrown exception, or
      out of fuel) and its triples [spec D P m Q].  The proposition [D] is a licence
      to diverge: with [D := False] a triple says that the program ends.
    - [Types]: Types.hpp, ArchiveSummary.hpp, the download settings of Config.hpp.
      [CompanionTypes]: the data the companion and the service share
      (CompanionCommandQueue.hpp, ServiceSnapshot.hpp, CompanionProtocol.hpp and two
      groups of settings).  [Config]: Config.cpp, with a table of all settings.
    - [LogProtocol], [ReceivedRanges], [Crc32], [ChunkCoverage], [Sha256],
      [DataFlash], [FcSampleOffsets]: the components without shared state
      (MavlinkLogProtocol.hpp, ReceivedRanges.cpp, Crc32.cpp,
      ChunkCoverageTracker.cpp, Sha256.cpp, DataFlashValidator.cpp,
      FcSampleOffsets.cpp), with their theorems.
    - [Session], [SessionProofs]: StreamDownloadSession.cpp, the download of one log
      as a stream of chunks, against the class [SessionOwner] of what it needs from
      its downloader and the laws [SessionOwnerLaws] it relies on.  [SessionSuccess]:
      the converse, against the class [OwnerDelivers] of an owner that is answered.
    - [FlightMonitor], [Database], [Storage]: FlightMonitor.cpp, Database.cpp,
      StorageManager.cpp, with their theorems.
    - [Downloader]: LogDownloader.cpp, whose object, catalog, archive directory and
      outgoing messages are the record [World].  [DownloaderProofs] discharges
      [SessionOwnerLaws] for it, so that the session's theorems apply;
      [ArchiveProofs] follows a log and a whole cycle; [ArchiveSuccess] shows that
      the downloader is answered ([OwnerDelivers]) when the frames arrive, and
      [RereadSuccess] that a log is then archived, with the re-read of samples or
      without; [EnumerationProofs]: the listing and the receiving side; [Reread]: the
      comparison of samples where [char] is signed.
    - [Sqlite]: Database.cpp again, call by call, with the errors it throws.
    - [Reports]: the messages the program computes for its log (ArchiveSummary.cpp,
      CompanionDiagnostics.cpp, the benchmark, the statistics and the throttled warning
      about dropped chunks) and its logger (Logger.cpp).
    - [Json]: JSON values, the class [JsonLibrary] of what the protocol calls in the
      third-party library and the laws [JsonLaws] of that library's documentation;
      [JsonSample] is a concrete printer and parser that keeps them.
      [CompanionProtocol]: CompanionProtocol.cpp, requests and responses.
    - [Threads]: programs of atomic steps over a shared state, schedules, the rule
      [guarded] for assertions that survive the other threads, and the class
      [ProgClass] of the properties of programs that are closed under sequencing.
    - [CompanionServer]: the requests and the receiving thread of
      CompanionUdpServer.cpp over the record [Callbacks] of what its owner gives it;
      [Keepalive]: its other thread.  [VideoRecorder]: VideoRecorder.cpp.
    - [Transports]: TcpTransport.cpp, UdpTransport.cpp, Transport.cpp as instances of
      the class [Transport], and the byte loop of MavlinkClient.cpp over it.
    - [Client]: the flags of MavlinkClient.cpp.  [Service]: DroneLogService.cpp and
      CompanionCommandQueue.hpp as five threads (main loop, receiving thread, companion
      thread, time, signals); it gives the server its [Callbacks].  [ServiceSafety]:
      the invariant of every schedule, with an assertion for each thread;
      [ServiceProofs]: what follows for LOG_ERASE.  [ClientStream]: the inbox of the
      service against the bytes of a transport.  [ServiceJobs]: its operations one at
      a time.  [ServiceCycle]: the turns of a whole cycle; [CycleSuccess]: a cycle all of
      whose logs are answered.  [ServiceFaults]: two ways in which it fails.
      [ServiceCompanion]: the laws of its callbacks, and what the companion sees.
    - [Program]: main.cpp, from the configuration file to the running service.

    ** How the parts interact

    [Service.processState] calls [Downloader.enumerateLogs], [archiveAll] and
    [eraseFlightControllerLogs]; [archiveOne] asks [Database.findCandidate], runs the
    [Session] on a partial file of [Storage], checks the result with [DataFlash],
    [FcSampleOffsets] and [Sha256], then finalizes the file and inserts the catalog
    row.  The receiving thread hands every frame to [Downloader.onMessage] and every
    heartbeat to [FlightMonitor.onHeartbeat], whose events move the state machine and
    set the downloader's cancel flag.  The companion thread runs
    [CompanionServer.server_turn] with [Service.companion_callbacks]: jobs go through
    [requestCompanionJob] and the command queue to the main thread, a cancellation
    and the recorder are called directly.  [Program.main] builds all of it from a
    [Config] and opens the catalog ([Sqlite.initialize]).  When the main loop ends, or
    an operation of the downloader throws, the destructors follow
    ([Service.service_destroy]).

    ** Concurrency

    Two views of the same threads.  Inside the downloader, a script of [Tick]s says
    what the rest of the world does before each atomic step of the main thread: time
    passes, frames arrive through [onMessage], a cancellation comes, a send or a disk
    operation fails.  The theorems hold for every script their hypothesis admits:
    [ArchiveProofs.any_link] is any script of decoded frames, [link_ok] one in which
    moreover the frames are [honest] and the disk is reliable.  In the service, the
    threads' programs are interleaved by an arbitrary schedule; an atomic step is an
    access to an atomic or a critical section of a mutex.  [std::terminate], called
    when an exception leaves a thread, is the flag [Service.terminated]: a process in
    which it is set takes no step.  A call of the flight
    monitor is one step, before the steps of its events; a long operation of the
    downloader is one step of the main thread in which its script stands for the
    other threads.  The script is not tied to the schedule, so that the service's
    theorems cover more runs than the program has.

    ** Groups of theorems

    - Safety of erasure, for every schedule: [ServiceProofs.erase_is_justified] (asked
      for, or a whole cycle archived), [erased_logs_are_archived] (the bytes of every
      erased log are in a file of the archive, unless it was a confirmed duplicate or
      a later log took its name), and [Program.program_erases_on_request_only] from
      the configuration file.
    - Archives: [ArchiveProofs.archiveOne_faithful] (a log reported as downloaded is in
      the archive and in the catalog), [RereadSuccess.archiveOne_succeeds] (a log whose
      chunks arrive in time, and once more for the samples read again, is downloaded),
      [archiveOne_harmless] (what every other
      result leaves), [archiveAll_correct] (a cycle ends, its counters and
      [all_archived] mean what they say), [CycleSuccess.cycle_succeeds] (logs that are
      all answered are all archived, then erased), and
      [Reread.signed_char_rejects_logs] (a platform on which the check of samples
      rejects every DataFlash log of a chunk or more).
    - The catalog: [Sqlite.sqlite_refines] (without errors its calls do what
      [Database] says) and [Sqlite.sqlite_errors] (what is left when some fail).
    - Sessions: [session_delivers], [session_file_is_log], [session_terminates], [session_succeeds],
      [requestMergedGaps_requests], [duplicate_changes_digest].
    - Components: ranges as sets of bytes, coverage as a finite map, incremental against
      one-shot SHA-256, the DataFlash walk and a writer of logs, sample offsets, catalog,
      eviction and finalizing of files, edges of the armed flag, the sinks of the logger
      ([Reports.sinks_agree]).
    - The companion: only authorised requests act, each is answered once
      ([CompanionServer]), the service's callbacks keep what the server relies on and
      a request is taken, done and answered ([ServiceCompanion.served],
      [service_answers]), requests are typed and read back, pages and statuses keep to
      the byte budget ([CompanionProtocol]), and when the threads send and end
      ([server_turn_ends], [keepalive_on_time]).
    - The recorder: no subprocess and no sync thread is lost ([recorder_accounts]), and
      the disk is synced on time.
    - Inputs: [transports_agree] (messages do not depend on the transport),
      [read_message_refines] (the service's inbox is what the parser finds in them),
      [loadFromFile_correct] (the loader against a table of settings).
    - The service's operations: [requestCompanionJob_correct], [disarm_starts_cycle],
      [cycle_completes] (a cycle ends, with one LOG_ERASE or none),
      pages of the log list, and what is lost: a cancellation
      ([arming_in_delay_is_forgotten]), a request ([disarm_during_erase_is_lost]), the
      process on a link timeout ([link_timeout_terminates]), and the only copy of a
      log ([evicted_log_is_erased]).

    ** Integers, bounds and fuel

    Integers are [Z] with the reductions of their C++ types written out ([u8], [u32],
    [i32], [i64], ...) wherever the value can leave its range; times are nanoseconds
    of the steady clock.  The theorems on downloads take logs below 2 GiB
    ([entry_ok]) and [probe_bytes] within an [int], where the source's 32-bit
    arithmetic does not wrap.

    Loops that are not structural take fuel.  [SessionProofs.enough_fuel] bounds a
    session (each turn receives a byte or lets the clock advance towards the timeout),
    [DownloaderProofs.settle_fuel] the 15 s of an enumeration, and
    [DownloaderProofs.cycle_fuel] everything in an archive cycle; with more fuel than
    that the theorems give a result, never [OutOfFuel].  The safety theorems hold for
    every fuel.  A wait takes at least one nanosecond ([Downloader.ld_wait]): without
    this the clock need not reach any deadline.

    ** What is outside the source

    SQLite (tables with the meaning of the statements; the row of a [LIMIT 1] query is
    chosen by the class [RowChoice]), the file system (a finite map with failing
    writes, flushes and renames in the script), the local-time formatting, the
    signedness of [char] and the bytes after the [data] field of a frame are
    parameters, gathered in the class [Platform].  The MAVLink parser is a parameter of
    the byte loop in [Transports], and delivers frames to the service.  The JSON and
    TOML libraries are the classes [JsonLibrary] and [TomlLibrary]; the results of
    system calls on sockets, processes and mount points are inputs.

    ** Not modelled

    Log lines with a fixed text, and when a line is written: no decision reads them
    (the logger itself, with what spdlog promises, is in [Reports]).  SQLite errors in
    the middle of a cycle: the downloader's catalog is [Database], which [Sqlite]
    refines when no call fails; an exception would end the main thread's program as
    any other does.  The full re-read ([verify_fc_reread = "full"]) is modelled, but
    no theorem says when it succeeds: its digests agree only if the chunks of both
    downloads come in the same order.  The packing and parsing of MAVLink frames, which
    is the generated library's; the socket addresses; the Windows branches.  The
    keepalive thread and the recorder's sync thread and watcher are modelled on their
    own and are not among the service's scheduled threads, since they share no state
    with them but a stop flag.

    ** What the modelling showed

    A retransmitted or reordered chunk is hashed in arrival order, so that the digest
    is not the log's ([duplicate_changes_digest]); the sample comparison rejects bytes
    above 127 where [char] is signed, so that with the default settings no
    DataFlash log of a chunk or more is archived there ([signed_char_rejects_logs]); a LOG_DATA count above 90 reads
    past the field ([onMessage_queues]); arming during the delay is forgotten, a disarm
    during a manual erase starts no cycle, and two requests can be queued
    ([ServiceJobs]); two archives of one second share a name ([Storage]); two heartbeat
    sources in turn hide every arming ([FlightMonitor]).  An archive that was evicted
    still counts in the catalog, so that its log can be erased without a copy, and a
    link timeout on the receiving thread makes it join itself, which terminates the
    process ([ServiceFaults]).  A
    signal does not cancel the download in flight ([signal_leaves_download]).  An empty datagram ends the
    companion's receiving thread while the server still counts as listening
    ([server_turn_ends]), and closes the UDP transport ([transports_agree]); a status
    that fits no budget is sent as an empty datagram ([buildStatus_fits]).  A lookup in
    the catalog that fails is taken for one that found nothing, which resets counters
    ([sqlite_errors]). *)

From Stdlib Require Export ZArith Lia List Bool String Ascii.
From stdpp Require Export base list numbers option strings gmap.
From Stdlib Require Import Sorting.Sorted Sorting.Permutation.

#[global] Open Scope Z_scope.

(** Arithmetic stays folded under [simpl]: [lia] and the rewrite lemmas see it. *)
#[global] Arguments Z.pow : simpl never.
#[global] Arguments Z.modulo : simpl never.
#[global] Arguments Z.div : simpl never.
#[global] Arguments Z.mul : simpl never.
#[global] Arguments Z.add : simpl never.
#[global] Arguments Z.sub : simpl never.
#[global] Arguments Z.of_nat : simpl never.
#[global] Arguments Z.to_nat : simpl never.
#[global] Arguments Nat.modulo : simpl never.
#[global] Arguments Nat.div : simpl never.

(** * Machine integers *)

(** Unsigned integers are non-negative [Z]; arithmetic that can wrap in the
    C++ is followed by a reduction to the width of its type. *)
Definition u8 (x : Z) : Z := x mod 2 ^ 8.
Definition u16 (x : Z) : Z := x mod 2 ^ 16.
Definition u32 (x : Z) : Z := x mod 2 ^ 32.
Definition u64 (x : Z) : Z := x mod 2 ^ 64.

(** [static_cast<int>] of a wider or unsigned value (C++20: modulo 2^32). *)
Definition i32 (x : Z) : Z := (x + 2 ^ 31) mod 2 ^ 32 - 2 ^ 31.
Definition i64 (x : Z) : Z := (x + 2 ^ 63) mod 2 ^ 64 - 2 ^ 63.

(** [~x] at width 32. *)
Definition not32 (x : Z) : Z := 2 ^ 32 - 1 - x.

Definition is_u32 (x : Z) : Prop := 0 <= x < 2 ^ 32.
Definition is_byte (x : Z) : Prop := 0 <= x < 2 ^ 8.

(** * Automation *)

Create HintDb mcls discriminated.
Create Rewrite HintDb mcls.

(** Reflect the boolean comparisons of the hypotheses and the goal. *)
Ltac zb :=
  repeat match goal with
  | H : (_ <=? _) = true |- _ => apply Z.leb_le in H
  | H : (_ <=? _) = false |- _ => apply Z.leb_gt in H
  | H : (_ <? _) = true |- _ => apply Z.ltb_lt in H
  | H : (_ <? _) = false |- _ => apply Z.ltb_ge in H
  | H : (_ =? _) = true |- _ => apply Z.eqb_eq in H
  | H : (_ =? _) = false |- _ => apply Z.eqb_neq in H
  | H : (_ && _)%bool = true |- _ => apply andb_true_iff in H as [? ?]
  | H : (_ || _)%bool = false |- _ => apply orb_false_iff in H as [? ?]
  | H : negb _ = true |- _ => apply negb_true_iff in H
  | H : negb _ = false |- _ => apply negb_false_iff in H
  end.

(** Split on the boolean tests of the goal (or of [H]), reflected. *)
Ltac case_bool :=
  match goal with
  | |- context [if ?b then _ else _] => destruct b eqn:?; zb
  end.
Ltac case_bool_in H :=
  match type of H with
  | context [if ?b then _ else _] => destruct b eqn:?; zb
  end.

(** Decide an arithmetic test, in either orientation of the equation. *)
Ltac ztest :=
  match goal with
  | |- true = _ => symmetry
  | |- false = _ => symmetry
  | _ => idtac
  end;
  first [ apply Z.ltb_lt | apply Z.ltb_ge | apply Z.leb_le | apply Z.leb_gt
        | apply Z.eqb_eq | apply Z.eqb_neq | apply Nat.ltb_lt | apply Nat.ltb_ge
        | apply Nat.leb_le | apply Nat.leb_gt | apply Nat.eqb_eq | apply Nat.eqb_neq ];
  lia.

(** Linear arithmetic with division and remainder by constants. *)
Ltac zmod := Z.to_euclidean_division_equations; lia.

Section Words.
Lemma u32_range x : 0 <= u32 x < 2 ^ 32.
Proof. unfold u32. apply Z.mod_pos_bound. lia. Qed.

Lemma u32_small x : 0 <= x < 2 ^ 32 -> u32 x = x.
Proof. intros. unfold u32. by apply Z.mod_small. Qed.

Lemma u64_range x : 0 <= u64 x < 2 ^ 64.
Proof. unfold u64. apply Z.mod_pos_bound. lia. Qed.

Lemma u64_small x : 0 <= x < 2 ^ 64 -> u64 x = x.
Proof. intros. unfold u64. by apply Z.mod_small. Qed.

Lemma u8_range x : 0 <= u8 x < 2 ^ 8.
Proof. unfold u8. apply Z.mod_pos_bound. lia. Qed.

Lemma i32_small x : - 2 ^ 31 <= x < 2 ^ 31 -> i32 x = x.
Proof. intros. unfold i32. rewrite Z.mod_small; lia. Qed.

Lemma u16_range x : 0 <= u16 x < 2 ^ 16.
Proof. unfold u16. apply Z.mod_pos_bound. lia. Qed.

Lemma u16_small x : 0 <= x < 2 ^ 16 -> u16 x = x.
Proof. intros. unfold u16. by apply Z.mod_small. Qed.

Lemma i64_small x : - 2 ^ 63 <= x < 2 ^ 63 -> i64 x = x.
Proof. intros. unfold i64. rewrite Z.mod_small; lia. Qed.

Lemma i32_range x : - 2 ^ 31 <= i32 x < 2 ^ 31.
Proof. unfold i32. pose proof (Z.mod_pos_bound (x + 2 ^ 31) (2 ^ 32)). lia. Qed.

Lemma not32_range x : is_u32 x -> is_u32 (not32 x).
Proof. unfold is_u32, not32. lia. Qed.

Lemma not32_involutive x : not32 (not32 x) = x.
Proof. unfold not32. lia. Qed.
End Words.
#[export] Hint Resolve u32_range u64_range u8_range u16_range i32_range not32_range : mcls.
#[export] Hint Rewrite u32_small u64_small u16_small i32_small i64_small using lia : mcls.

(** * Bit-level lemmas *)

Section Bits.
(** A value below [2^n] is one whose bits from [n] up are clear. *)
Lemma bits_bound n x : 0 <= n -> 0 <= x ->
  (forall i, n <= i -> Z.testbit x i = false) -> x < 2 ^ n.
Proof.
  intros Hn Hx Hb. destruct (decide (x = 0)) as [->|Hne]; [lia|].
  destruct (Z.lt_ge_cases x (2 ^ n)) as [|Hge]; [done|].
  assert (Hlog : n <= Z.log2 x) by (apply Z.log2_le_pow2; lia).
  specialize (Hb _ Hlog). rewrite Z.bit_log2 in Hb by lia. done.
Qed.

Lemma bits_above n x i : 0 <= x < 2 ^ n -> n <= i -> Z.testbit x i = false.
Proof.
  intros [Hx Hlt] Hi. destruct (decide (x = 0)) as [->|Hne]; [apply Z.bits_0|].
  apply Z.bits_above_log2; [lia|].
  assert (Z.log2 x < n) by (apply Z.log2_lt_pow2; lia). lia.
Qed.

Lemma lxor_range n x y : 0 <= n ->
  0 <= x < 2 ^ n -> 0 <= y < 2 ^ n -> 0 <= Z.lxor x y < 2 ^ n.
Proof.
  intros Hn Hx Hy. assert (0 <= Z.lxor x y) by (apply Z.lxor_nonneg; lia).
  split; [done|]. apply bits_bound; [done..|].
  intros i Hi. rewrite Z.lxor_spec, !(bits_above n) by done. done.
Qed.

Lemma lxor_cancel_l x y z : Z.lxor x y = Z.lxor x z -> y = z.
Proof.
  intros H. apply (f_equal (Z.lxor x)) in H.
  by rewrite <- !Z.lxor_assoc, Z.lxor_nilpotent, !Z.lxor_0_l in H.
Qed.

Lemma lxor_cancel_r x y z : Z.lxor y x = Z.lxor z x -> y = z.
Proof. rewrite !(Z.lxor_comm _ x). apply lxor_cancel_l. Qed.
End Bits.
#[export] Hint Resolve lxor_range : mcls.

(** * Sorting *)

(** [std::sort] with a total order, as the stable insertion sort. *)
Section InsertionSort.
Context {A : Type} (leb : A -> A -> bool).

Fixpoint insert_sorted (x : A) (l : list A) : list A :=
  match l with
  | [] => [x]
  | y :: l' => if leb x y then x :: l else y :: insert_sorted x l'
  end.

Definition sort_list (l : list A) : list A := foldr insert_sorted [] l.

Lemma insert_sorted_perm x l : insert_sorted x l ≡ₚ x :: l.
Proof.
  induction l as [|y l IH]; simpl; [done|].
  destruct (leb x y); [done|]. rewrite IH. apply Permutation_swap.
Qed.

Lemma sort_list_perm l : sort_list l ≡ₚ l.
Proof.
  induction l as [|x l IH]; simpl; [done|].
  by rewrite insert_sorted_perm, IH.
Qed.

Context (leb_total : forall x y, leb x y = true \/ leb y x = true).
Context (leb_trans : forall x y z, leb x y = true -> leb y z = true -> leb x z = true).

Lemma insert_sorted_sorted x l :
  StronglySorted (fun a b => leb a b = true) l ->
  StronglySorted (fun a b => leb a b = true) (insert_sorted x l).
Proof using leb_total leb_trans.
  induction 1 as [|y l Hs IH Hall]; simpl.
  - repeat constructor.
  - destruct (leb x y) eqn:E.
    + constructor; [by constructor|]. constructor; [done|].
      eapply Forall_impl; [exact Hall|]. intros z Hz. by eapply leb_trans.
    + constructor; [done|]. rewrite insert_sorted_perm.
      constructor; [destruct (leb_total x y); congruence | done].
Qed.

Lemma sort_list_sorted l :
  StronglySorted (fun a b => leb a b = true) (sort_list l).
Proof using leb_total leb_trans.
  induction l; simpl; [constructor | by apply insert_sorted_sorted].
Qed.
End InsertionSort.

(** * Lists *)

Section Lists.
Context {A : Type}.

Definition zlen (l : list A) : Z := Z.of_nat (length l).

Lemma zlen_nonneg (l : list A) : 0 <= zlen l.
Proof. unfold zlen. lia. Qed.

Lemma zlen_app (l k : list A) : zlen (l ++ k) = zlen l + zlen k.
Proof. unfold zlen. rewrite length_app. lia. Qed.

Lemma zlen_cons (x : A) (l : list A) : zlen (x :: l) = 1 + zlen l.
Proof. unfold zlen. simpl. lia. Qed.

Lemma filter_all (P : A -> Prop) `{forall x, Decision (P x)} (l : list A) :
  (forall x, x ∈ l -> P x) -> filter P l = l.
Proof.
  induction l as [|x l IH]; intros Hall; [done|].
  rewrite filter_cons, decide_True by (apply Hall; left).
  f_equal. apply IH. intros y Hy. apply Hall. by right.
Qed.

Lemma Forall_filter_weaken (P Q : A -> Prop) `{forall x, Decision (P x)} (l : list A) :
  Forall Q l -> Forall Q (filter P l).
Proof. rewrite !Forall_forall. intros Hl x [_ Hx]%list_elem_of_filter. auto. Qed.

Lemma in_drop k (l : list A) x : x ∈ drop k l -> x ∈ l.
Proof. intros. rewrite <- (take_drop k l). apply elem_of_app. by right. Qed.

Lemma take_clip (l : list A) n k : Nat.min n (length l) = Nat.min k (length l) -> take n l = take k l.
Proof.
  intros He. rewrite <- (take_ge l (length l)) by lia. by rewrite !take_take, !(Nat.min_comm _ (length l)),
    (Nat.min_comm (length l) n), (Nat.min_comm (length l) k), He.
Qed.

Lemma in_take k (l : list A) x : x ∈ take k l -> x ∈ l.
Proof. intros. rewrite <- (take_drop k l). apply elem_of_app. by left. Qed.
End Lists.
#[export] Hint Resolve zlen_nonneg : mcls.
#[export] Hint Rewrite @zlen_app @zlen_cons : mcls.
