(* ===== verification/Effects.v ===== *)
(** The effect monad of the stateful components, and its Hoare triples.

    A computation runs against a world [W] (the object it belongs to, the
    clock, the other threads) and ends with a value, an exception, or out of
    fuel; fuel bounds the turns of the source's loops. *)

From S2P Require Import Prelude.

Inductive outcome (A : Type) :=
| Ok (a : A)
| Throw (what : string)
| OutOfFuel.
Arguments Ok {A} a.
Arguments Throw {A} what.
Arguments OutOfFuel {A}.

Definition M (W A : Type) : Type := W -> outcome A * W.

#[global] Instance M_ret W : MRet (M W) := fun A a w => (Ok a, w).
#[global] Instance M_bind W : MBind (M W) := fun A B f m w =>
  match m w with
  | (Ok a, w') => f a w'
  | (Throw e, w') => (Throw e, w')
  | (OutOfFuel, w') => (OutOfFuel, w')
  end.

Section Operations.
Context {W A : Type}.

(** A primitive step of the world. *)
Definition op (f : W -> A * W) : M W A := fun w => let '(a, w') := f w in (Ok a, w').
Definition act (f : W -> W) : M W unit := fun w => (Ok tt, f w).
Definition throw (what : string) : M W A := fun w => (Throw what, w).
Definition out_of_fuel : M W A := fun w => (OutOfFuel, w).
Definition or_throw (what : string) (o : option A) : M W A :=
  match o with Some a => mret a | None => throw what end.
End Operations.

(** [when b m]: the statement [if (b) m;]. *)
Definition when {W} (b : bool) (m : M W unit) : M W unit := if b then m else mret tt.

(** [spec D P m Q]: from a world in [P], [m] does not throw, its value and
    world satisfy [Q], and it only runs out of fuel if [D] allows it. *)
Definition spec {W A} (D : Prop) (P : W -> Prop) (m : M W A) (Q : A -> W -> Prop) : Prop :=
  forall w, P w ->
    match m w with
    | (Ok a, w') => Q a w'
    | (Throw _, _) => False
    | (OutOfFuel, _) => D
    end.

Section Rules.
Context {W : Type} (D : Prop).

Lemma spec_ret {A} (P : W -> Prop) (Q : A -> W -> Prop) a :
  (forall w, P w -> Q a w) -> spec D P (mret a) Q.
Proof. intros H w Hw. simpl. by apply H. Qed.

Lemma spec_bind {A B} P (m : M W A) R (k : A -> M W B) Q :
  spec D P m R -> (forall a, spec D (R a) (k a) Q) -> spec D P (m ≫= k) Q.
Proof.
  intros Hm Hk w Hw. specialize (Hm w Hw). unfold mbind, M_bind.
  destruct (m w) as [[a|e|] w']; try done. by apply Hk.
Qed.

Lemma spec_op {A} P (f : W -> A * W) Q :
  (forall w, P w -> Q (f w).1 (f w).2) -> spec D P (op f) Q.
Proof. intros H w Hw. unfold op. specialize (H w Hw). by destruct (f w). Qed.

Lemma spec_act P (f : W -> W) Q : (forall w, P w -> Q tt (f w)) -> spec D P (act f) Q.
Proof. intros H w Hw. by apply H. Qed.

Lemma spec_weaken {A} (P P' : W -> Prop) (m : M W A) (Q Q' : A -> W -> Prop) :
  spec D P' m Q' -> (forall w, P w -> P' w) -> (forall a w, Q' a w -> Q a w) -> spec D P m Q.
Proof.
  intros Hm HP HQ w Hw. specialize (Hm w (HP w Hw)).
  destruct (m w) as [[a|e|] w']; try done. by apply HQ.
Qed.

Lemma spec_post {A} P (m : M W A) (Q Q' : A -> W -> Prop) :
  spec D P m Q' -> (forall a w, Q' a w -> Q a w) -> spec D P m Q.
Proof. intros Hm HQ. by eapply spec_weaken. Qed.

(** A precondition that does not depend on the world. *)
Lemma spec_pure {A} (R : Prop) P (m : M W A) Q :
  (R -> spec D P m Q) -> spec D (fun w => R /\ P w) m Q.
Proof. intros H w [HR Hw]. by apply H. Qed.

Lemma spec_ex {A X} (P : X -> W -> Prop) (m : M W A) Q :
  (forall x, spec D (P x) m Q) -> spec D (fun w => exists x, P x w) m Q.
Proof. intros H w [x Hw]. exact (H x w Hw). Qed.

Lemma spec_or_throw {A} P what (o : option A) (Q : A -> W -> Prop) a :
  o = Some a -> (forall w, P w -> Q a w) -> spec D P (or_throw what o) Q.
Proof. intros ->. apply spec_ret. Qed.

Lemma spec_when P b (m : M W unit) Q :
  (b = true -> spec D P m Q) -> (b = false -> forall w, P w -> Q tt w) -> spec D P (when b m) Q.
Proof. intros Ht Hf. destruct b; [by apply Ht|]. apply spec_ret. by apply Hf. Qed.

Lemma spec_fuel {A} P (Q : A -> W -> Prop) : D -> spec D P out_of_fuel Q.
Proof. intros HD w _. exact HD. Qed.
End Rules.

(** What a triple says of one run. *)
Lemma spec_run {W A} D P (m : M W A) Q w a w' :
  spec D P m Q -> P w -> m w = (Ok a, w') -> Q a w'.
Proof. intros Hm Hw He. specialize (Hm w Hw). by rewrite He in Hm. Qed.

Lemma spec_total {W A} P (m : M W A) Q w :
  spec False P m Q -> P w -> exists a w', m w = (Ok a, w') /\ Q a w'.
Proof.
  intros Hm Hw. specialize (Hm w Hw). destruct (m w) as [[a|e|] w']; try done. eauto.
Qed.

Lemma spec_no_throw {W A} D P (m : M W A) Q w what w' :
  spec D P m Q -> P w -> m w <> (Throw what, w').
Proof. intros Hm Hw He. specialize (Hm w Hw). by rewrite He in Hm. Qed.

Arguments mret {_ _ _} _ : simpl never.
