(* ===== verification/Types.v ===== *)
(** The shared data types (include/mcls/Types.hpp, ArchiveSummary.hpp) and the
    download settings of include/mcls/Config.hpp with their defaults. *)

From S2P Require Import Prelude.
From Stdlib Require Import Floats.SpecFloat.

Record LogEntry := {
  le_id : Z;
  le_num_logs : Z;
  le_last_log_num : Z;
  le_time_utc : Z;
  le_size : Z;
}.

Record ArchivedLogCandidate := {
  ca_sha256 : string;
  ca_probe_sha256 : string;
  ca_probe_bytes : Z;
  ca_filename : string;
}.

Inductive ArchiveResult := SkippedDuplicate | Downloaded | ArchiveFailed | ArchiveCancelled.

(** [ArchiveFailureReason]; its [None] and [Cancelled] carry a prefix here. *)
Inductive ArchiveFailureReason :=
| NoFailure
| LogDataTimeout
| EmptyPayload
| NoProgress
| IncompleteDownload
| VerificationFailed
| ParseFailed
| RereadMismatch
| OverlapConflict
| StorageError
| ReasonCancelled
| TransportSendFailed
| TransportClosed
| LinkTimeout.

#[global] Instance ArchiveResult_eq_dec : EqDecision ArchiveResult.
Proof. solve_decision. Defined.
#[global] Instance ArchiveFailureReason_eq_dec : EqDecision ArchiveFailureReason.
Proof. solve_decision. Defined.

Definition reason_toString (reason : ArchiveFailureReason) : string :=
  match reason with
  | NoFailure => "none"
  | LogDataTimeout => "log_data_timeout"
  | EmptyPayload => "empty_payload"
  | NoProgress => "no_progress"
  | IncompleteDownload => "incomplete_download"
  | VerificationFailed => "verification_failed"
  | ParseFailed => "parse_failed"
  | RereadMismatch => "reread_mismatch"
  | OverlapConflict => "overlap_conflict"
  | StorageError => "storage_error"
  | ReasonCancelled => "cancelled"
  | TransportSendFailed => "transport_send_failed"
  | TransportClosed => "transport_closed"
  | LinkTimeout => "link_timeout"
  end.

Definition isTransportFailure (reason : ArchiveFailureReason) : bool :=
  bool_decide (reason = TransportSendFailed) ||
  bool_decide (reason = TransportClosed) ||
  bool_decide (reason = LinkTimeout).

Record ArchiveCycleResult := {
  cy_downloaded : Z;
  cy_skipped : Z;
  cy_failed : Z;
  cy_cancelled : Z;
  cy_all_archived : bool;
  cy_last_failure_reason : ArchiveFailureReason;
}.

Definition default_cycle : ArchiveCycleResult :=
  {| cy_downloaded := 0; cy_skipped := 0; cy_failed := 0; cy_cancelled := 0;
     cy_all_archived := false; cy_last_failure_reason := NoFailure |}.

Inductive FcRereadMode := RereadNone | RereadSample | RereadFull.

#[global] Instance FcRereadMode_eq_dec : EqDecision FcRereadMode.
Proof. solve_decision. Defined.

Definition parseFcRereadMode (value : string) : FcRereadMode :=
  if String.eqb value "none" then RereadNone
  else if String.eqb value "full" then RereadFull
  else RereadSample.

(** [StreamDownloadMetrics]; the unused RTT estimate is left out. *)
Record StreamDownloadMetrics := {
  m_duplicate_packets : Z;
  m_gap_fill_requests : Z;
  m_log_data_packets : Z;
  m_log_request_packets : Z;
  m_retries : Z;
  m_overlap_conflicts : Z;
  m_queue_depth_max : Z;
}.

Definition no_metrics : StreamDownloadMetrics :=
  {| m_duplicate_packets := 0; m_gap_fill_requests := 0; m_log_data_packets := 0;
     m_log_request_packets := 0; m_retries := 0; m_overlap_conflicts := 0;
     m_queue_depth_max := 0 |}.

(** [Config::DownloadSettings]; every integer is an [int].  The resync ratio
    is a [double]. *)
Record DownloadSettings := {
  delay_after_disarm_sec : Z;
  enumerate_attempts : Z;
  enumerate_retry_delay_sec : Z;
  download_timeout_sec : Z;
  retry_count : Z;
  retry_delay_sec : Z;
  probe_bytes : Z;
  verify_after_download : bool;
  erase_after_success : bool;
  stall_abort_attempts : Z;
  fc_busy_retry_attempts : Z;
  fc_busy_retry_delay_sec : Z;
  max_queued_log_data : Z;
  reconnect_on_transport_failure : bool;
  reconnect_after_consecutive_failures : Z;
  gap_fill_idle_ms : Z;
  verify_dataflash_parse : bool;
  verify_max_bad_header_ratio : spec_float;
  detect_overlap_conflict : bool;
  verify_fc_reread : string;
  verify_fc_reread_sample_count : Z;
  benchmark_download : bool;
}.

Definition default_download : DownloadSettings :=
  {| delay_after_disarm_sec := 5;
     enumerate_attempts := 6;
     enumerate_retry_delay_sec := 3;
     download_timeout_sec := 5;
     retry_count := 3;
     retry_delay_sec := 2;
     probe_bytes := 51200;
     verify_after_download := true;
     erase_after_success := true;
     stall_abort_attempts := 3;
     fc_busy_retry_attempts := 8;
     fc_busy_retry_delay_sec := 3;
     max_queued_log_data := 2048;
     reconnect_on_transport_failure := true;
     reconnect_after_consecutive_failures := 3;
     gap_fill_idle_ms := 500;
     verify_dataflash_parse := true;
     verify_max_bad_header_ratio :=
       SFdiv 53 1024 (binary_normalize 53 1024 1 0 false) (binary_normalize 53 1024 1000 0 false);
     detect_overlap_conflict := true;
     verify_fc_reread := "sample";
     verify_fc_reread_sample_count := 64;
     benchmark_download := false |}.
