(* ===== verification/LogProtocol.v ===== *)
(** The MAVLink log-transfer constants and the chunk arithmetic of
    [include/mcls/MavlinkLogProtocol.hpp]. *)

From S2P Require Import Prelude.

(** [MAVLINK_MSG_LOG_DATA_FIELD_DATA_LEN]: the length of the data field of LOG_DATA. *)
Definition kLogChunkSize : Z := 90.
Definition kLogStreamRequestCount : Z := 0xFFFFFFFF.

Definition alignDownToChunk (offset : Z) : Z := u32 (offset - offset mod kLogChunkSize).

Definition chunkSlotIndex (offset : Z) : Z := offset / kLogChunkSize.

Definition chunkCountForSize (size : Z) : Z :=
  if size =? 0 then 0
  else u32 (u32 (size + kLogChunkSize) - 1) / kLogChunkSize.

Lemma alignDownToChunk_spec offset :
  is_u32 offset ->
  alignDownToChunk offset = kLogChunkSize * chunkSlotIndex offset /\
  alignDownToChunk offset <= offset < alignDownToChunk offset + kLogChunkSize /\
  alignDownToChunk offset mod kLogChunkSize = 0.
Proof.
  unfold is_u32, alignDownToChunk, chunkSlotIndex, kLogChunkSize. intros.
  rewrite u32_small by zmod. zmod.
Qed.

(** The slot count is the ceiling of the division as long as the rounding
    addition does not wrap. *)
Lemma chunkCountForSize_spec size :
  0 <= size -> size + kLogChunkSize <= 2 ^ 32 ->
  kLogChunkSize * (chunkCountForSize size - 1) < size <= kLogChunkSize * chunkCountForSize size.
Proof.
  unfold chunkCountForSize, kLogChunkSize. intros. case_bool; [lia|].
  assert (size + 90 = 2 ^ 32 \/ size + 90 < 2 ^ 32) as [He|Hlt] by lia.
  - rewrite He. replace size with 4294967206 by lia. vm_compute. intuition congruence.
  - rewrite (u32_small (size + 90)) by lia. rewrite u32_small by lia. zmod.
Qed.

Lemma chunkCountForSize_range size :
  0 <= size < 2 ^ 32 -> 0 <= chunkCountForSize size <= 2 ^ 32 / kLogChunkSize.
Proof.
  unfold chunkCountForSize, kLogChunkSize. intros. case_bool; [zmod|].
  pose proof (u32_range (u32 (size + 90) - 1)). zmod.
Qed.

(** An offset inside the log lies in one of its slots. *)
Lemma chunkSlotIndex_lt size offset :
  0 <= offset < size -> size + kLogChunkSize <= 2 ^ 32 ->
  0 <= chunkSlotIndex offset < chunkCountForSize size.
Proof.
  intros Ho Hs. pose proof (chunkCountForSize_spec size ltac:(lia) Hs).
  unfold chunkSlotIndex, kLogChunkSize in *. zmod.
Qed.
