(* ===== verification/ReceivedRanges.v ===== *)
(** [ReceivedRanges] (src/ReceivedRanges.cpp): the set of received byte
    intervals of one download, kept as a sorted vector of disjoint,
    non-adjacent half-open ranges.  The theorems relate it to the set of bytes
    it stands for: [add] is union, [gaps] is complement, [bytesReceived] is
    cardinality and [complete] is coverage of [[0, total)]. *)

From S2P Require Import Prelude.
From Stdlib Require Import Sorting.Sorted.

Definition Range : Type := Z * Z.
Definition Ranges : Type := list Range.

(** [std::pair]'s lexicographic [operator<]. *)
Definition range_leb (a b : Range) : bool :=
  (a.1 <? b.1) || ((a.1 =? b.1) && (a.2 <=? b.2)).

Definition reset (r : Ranges) : Ranges := [].

(** The loop of [merge]: [last] is [merged.back()], the ranges before it are
    already in the output. *)
Fixpoint merge_loop (last : Range) (rest : Ranges) : Ranges :=
  match rest with
  | [] => [last]
  | r :: rest' =>
      if r.1 <=? last.2
      then merge_loop (last.1, Z.max last.2 r.2) rest'
      else last :: merge_loop r rest'
  end.

Definition merge (r : Ranges) : Ranges :=
  match sort_list range_leb r with
  | [] => []
  | first :: rest => merge_loop first rest
  end.

Definition add (r : Ranges) (offset count : Z) : Ranges :=
  if count =? 0 then r else merge (r ++ [(offset, u32 (offset + count))]).

Definition complete (r : Ranges) (total_size : Z) : bool :=
  (total_size =? 0) ||
  match r with
  | [(s, e)] => (s =? 0) && (total_size <=? e)
  | _ => false
  end.

(** The loop of [gaps] over the ranges, from [cursor]. *)
Fixpoint gaps_from (cursor : Z) (r : Ranges) (total_size : Z) : list (Z * Z) :=
  match r with
  | [] => if cursor <? total_size then [(cursor, total_size - cursor)] else []
  | (s, e) :: r' =>
      (if cursor <? s then [(cursor, s - cursor)] else []) ++
      gaps_from (Z.max cursor e) r' total_size
  end.

Definition gaps (r : Ranges) (total_size : Z) : list (Z * Z) := gaps_from 0 r total_size.

Definition bytesReceived (r : Ranges) : Z :=
  foldl (fun total se => u32 (total + u32 (se.2 - se.1))) 0 r.

(** * The set of bytes a value stands for *)

Definition in_range (x : Z) (se : Range) : Prop := se.1 <= x < se.2.

Definition covered (r : Ranges) (x : Z) : Prop := Exists (in_range x) r.

#[global] Instance in_range_dec x se : Decision (in_range x se).
Proof. unfold in_range. apply _. Defined.
#[global] Instance covered_dec r x : Decision (covered r x).
Proof. unfold covered. apply _. Defined.

(** Representation invariant: non-empty ranges of uint32 positions, in order,
    with at least one byte missing between neighbours. *)
Definition range_ok (se : Range) : Prop := 0 <= se.1 < se.2 /\ se.2 < 2 ^ 32.

Inductive ranges_ok : Ranges -> Prop :=
| ranges_ok_nil : ranges_ok []
| ranges_ok_one se : range_ok se -> ranges_ok [se]
| ranges_ok_cons se se' r :
    range_ok se -> se.2 < se'.1 -> ranges_ok (se' :: r) -> ranges_ok (se :: se' :: r).
#[export] Hint Constructors ranges_ok : mcls.

(** The bytes a gap list [(offset, count)] asks for. *)
Definition in_gaps (g : list (Z * Z)) (x : Z) : Prop :=
  Exists (fun oc => oc.1 <= x < oc.1 + oc.2) g.

Section Merge.
Lemma range_leb_total a b : range_leb a b = true \/ range_leb b a = true.
Proof. unfold range_leb. destruct a, b; simpl. lia. Qed.

Lemma range_leb_trans a b c :
  range_leb a b = true -> range_leb b c = true -> range_leb a c = true.
Proof. unfold range_leb. destruct a, b, c; simpl. lia. Qed.

Lemma range_leb_fst a b : range_leb a b = true -> a.1 <= b.1.
Proof. unfold range_leb. lia. Qed.

Lemma covered_perm r r' x : r ≡ₚ r' -> covered r x <-> covered r' x.
Proof.
  intros Hp. unfold covered. rewrite !Exists_exists. by setoid_rewrite Hp.
Qed.

Definition by_start (a b : Range) : Prop := a.1 <= b.1.

Lemma sort_by_start r : StronglySorted by_start (sort_list range_leb r).
Proof.
  pose proof (sort_list_sorted _ range_leb_total range_leb_trans r) as Hs.
  induction Hs as [|a l Hs IH Hall]; constructor; [done|].
  eapply Forall_impl; [exact Hall|]. intros b. apply range_leb_fst.
Qed.

(** Merging keeps exactly the bytes of the ranges. *)
Lemma merge_loop_covered rest : forall last x,
  range_ok last -> Forall range_ok rest -> StronglySorted by_start (last :: rest) ->
  covered (merge_loop last rest) x <-> in_range x last \/ covered rest x.
Proof.
  unfold covered.
  induction rest as [|r rest IH]; intros last x Hl Hr Hs; simpl.
  - by rewrite Exists_cons.
  - apply Forall_cons in Hr as [Hr Hrest].
    apply StronglySorted_inv in Hs as [Hs Hall].
    apply Forall_cons in Hall as [Hle Hall].
    case_bool.
    + rewrite IH, Exists_cons; [|unfold range_ok in *; simpl; lia | done |].
      * assert (in_range x (last.1, Z.max last.2 r.2) <-> in_range x last \/ in_range x r)
          by (clear -Hl Hr Hle Heqb; unfold in_range, range_ok, by_start in *; simpl; lia).
        tauto.
      * constructor; [by eapply StronglySorted_inv|]. done.
    + by rewrite !Exists_cons, IH.
Qed.

(** The output of the loop satisfies the invariant, and starts where [last] does. *)
Lemma merge_loop_ok rest : forall last,
  range_ok last -> Forall range_ok rest ->
  exists e r', merge_loop last rest = (last.1, e) :: r' /\ ranges_ok ((last.1, e) :: r').
Proof.
  induction rest as [|r rest IH]; intros [s e] Hl Hr; simpl.
  - eauto with mcls.
  - apply Forall_cons in Hr as [Hr Hrest]. case_bool.
    + apply (IH (s, Z.max e r.2)); [|done]. unfold range_ok in *. simpl in *. lia.
    + destruct (IH r Hr Hrest) as (e' & r' & -> & Hok).
      eexists _, _. split; [done|]. by constructor.
Qed.

Lemma merge_covered r x : Forall range_ok r -> covered (merge r) x <-> covered r x.
Proof.
  intros Hr. unfold merge.
  rewrite <- (covered_perm _ _ x (sort_list_perm range_leb r)).
  rewrite <- (sort_list_perm range_leb r) in Hr. pose proof (sort_by_start r) as Hs.
  destruct (sort_list range_leb r) as [|a l]; [done|].
  apply Forall_cons in Hr as [Ha Hl]. rewrite merge_loop_covered by done.
  unfold covered. by rewrite Exists_cons.
Qed.

Lemma merge_ok r : Forall range_ok r -> ranges_ok (merge r).
Proof.
  intros Hr. unfold merge. rewrite <- (sort_list_perm range_leb r) in Hr.
  destruct (sort_list range_leb r) as [|a l]; [constructor|].
  apply Forall_cons in Hr as [Ha Hl].
  by destruct (merge_loop_ok l a Ha Hl) as (e & r' & -> & Hok).
Qed.
End Merge.

Section Invariant.
Lemma ranges_ok_inv se r : ranges_ok (se :: r) ->
  range_ok se /\ ranges_ok r /\ Forall (fun se' => se.2 < se'.1) r.
Proof.
  revert se. induction r as [|se' r IH]; intros se H; inversion H; subst.
  - eauto with mcls.
  - destruct (IH se') as (? & ? & Hafter); [done|]. split_and!; try done.
    constructor; [done|]. eapply Forall_impl; [exact Hafter|].
    unfold range_ok in *. simpl. lia.
Qed.

Lemma ranges_ok_forall r : ranges_ok r -> Forall range_ok r.
Proof.
  induction r as [|se r IH]; intros H; [constructor|].
  apply ranges_ok_inv in H as (? & ? & ?). eauto.
Qed.

Lemma covered_cons se r x : covered (se :: r) x <-> in_range x se \/ covered r x.
Proof. unfold covered. apply Exists_cons. Qed.

Lemma covered_nil x : ~ covered [] x.
Proof. unfold covered. inversion 1. Qed.

(** Bytes covered by the tail lie strictly after the head. *)
Lemma covered_tail_after se r x : ranges_ok (se :: r) -> covered r x -> se.2 < x.
Proof.
  intros (_ & _ & Hall)%ranges_ok_inv Hc. unfold covered in Hc.
  apply Exists_exists in Hc as (se' & Hin & Hx). rewrite Forall_forall in Hall.
  specialize (Hall _ Hin). unfold in_range in Hx. lia.
Qed.

Lemma covered_bounds r x : ranges_ok r -> covered r x -> 0 <= x < 2 ^ 32.
Proof.
  intros Hok%ranges_ok_forall Hc. unfold covered in Hc.
  apply Exists_exists in Hc as (se & Hin & Hx). rewrite Forall_forall in Hok.
  specialize (Hok _ Hin). unfold in_range, range_ok in *. lia.
Qed.
End Invariant.

(** The number of received bytes, computed in Z: what [bytesReceived] is
    before its uint32 reductions. *)
Definition total_bytes (r : Ranges) : Z := foldr (fun se n => (se.2 - se.1) + n) 0 r.

Section BytesReceived.
Lemma total_bytes_bounds se r :
  ranges_ok (se :: r) -> 0 < total_bytes (se :: r) /\ se.1 + total_bytes (se :: r) < 2 ^ 32.
Proof.
  revert se. induction r as [|se' r IH]; intros se H.
  - inversion H. unfold range_ok in *. simpl. lia.
  - apply ranges_ok_inv in H as (Hse & Hok & Hafter).
    apply Forall_cons in Hafter as [Hlt _]. specialize (IH _ Hok).
    unfold range_ok in *. simpl in *. lia.
Qed.

Lemma bytesReceived_total r : ranges_ok r -> bytesReceived r = total_bytes r.
Proof.
  intros Hok. unfold bytesReceived.
  assert (forall acc, 0 <= acc -> acc + total_bytes r < 2 ^ 32 ->
    foldl (fun total se => u32 (total + u32 (se.2 - se.1))) acc r = acc + total_bytes r)
    as Hgen.
  { induction r as [|se r IH]; intros acc Ha Hb; simpl; [lia|].
    pose proof Hok as Hok'. apply ranges_ok_inv in Hok' as (Hse & Hr & _).
    assert (0 <= total_bytes r) by (destruct r; [done | pose proof (total_bytes_bounds _ _ Hr); lia]).
    unfold range_ok in Hse. simpl in Hb.
    rewrite (u32_small (se.2 - se.1)), u32_small by lia.
    rewrite IH by (done || lia). lia. }
  rewrite Hgen; [done|done|]. destruct r as [|se r]; [done|].
  pose proof (total_bytes_bounds _ _ Hok). apply ranges_ok_inv in Hok as (Hse & _).
  unfold range_ok in Hse. lia.
Qed.

(** Counting covered positions below [n]. *)
Definition count_covered (r : Ranges) (n : nat) : nat :=
  length (filter (covered r) (Z.of_nat <$> seq 0 n)).

Lemma count_covered_S r n :
  count_covered r (S n) =
    (count_covered r n + if decide (covered r (Z.of_nat n)) then 1 else 0)%nat.
Proof.
  unfold count_covered. rewrite seq_S, fmap_app, filter_app, length_app. simpl.
  rewrite filter_cons, filter_nil. by case_decide.
Qed.

Lemma count_covered_nil n : count_covered [] n = 0%nat.
Proof.
  induction n as [|n IH]; [done|]. rewrite count_covered_S, IH.
  by rewrite decide_False by apply covered_nil.
Qed.

Lemma count_covered_cons se r n : ranges_ok (se :: r) ->
  Z.of_nat (count_covered (se :: r) n) =
    Z.max 0 (Z.min (Z.of_nat n) se.2 - se.1) + Z.of_nat (count_covered r n).
Proof.
  intros Hok. pose proof (ranges_ok_inv _ _ Hok) as (Hse & _ & _). unfold range_ok in Hse.
  induction n as [|n IH]; [unfold count_covered; simpl; lia|].
  rewrite !count_covered_S, !Nat2Z.inj_add, IH.
  pose proof (covered_tail_after _ _ (Z.of_nat n) Hok) as Htail.
  destruct (decide (covered (se :: r) (Z.of_nat n))) as [Hc|Hc];
    destruct (decide (covered r (Z.of_nat n))) as [Ht|Ht];
    rewrite covered_cons in Hc; unfold in_range in Hc;
    try specialize (Htail Ht); try (exfalso; tauto).
  - lia.
  - destruct Hc as [Hc|]; [lia|done].
  - assert (~ (se.1 <= Z.of_nat n < se.2)) by tauto. lia.
Qed.

Lemma count_covered_total r n : ranges_ok r -> Forall (fun se => se.2 <= Z.of_nat n) r ->
  Z.of_nat (count_covered r n) = total_bytes r.
Proof.
  induction r as [|se r IH]; intros Hok Hle; [by rewrite count_covered_nil|].
  rewrite count_covered_cons by done. apply Forall_cons in Hle as [Hle Hr].
  apply ranges_ok_inv in Hok as (Hse & Hok & _). unfold range_ok in Hse.
  rewrite IH by done. simpl. lia.
Qed.
Lemma bytesReceived_count r total : ranges_ok r -> 0 <= total ->
  Forall (fun se => se.2 <= total) r ->
  bytesReceived r = Z.of_nat (count_covered r (Z.to_nat total)).
Proof.
  intros Hok Ht Hle. rewrite bytesReceived_total by done.
  rewrite (count_covered_total _ (Z.to_nat total)); [done..|]. by rewrite Z2Nat.id by lia.
Qed.

Lemma bytesReceived_bound r total : ranges_ok r -> 0 <= total ->
  Forall (fun se => se.2 <= total) r -> 0 <= bytesReceived r <= total.
Proof.
  intros Hok Ht Hle. rewrite (bytesReceived_count r total) by done. unfold count_covered.
  pose proof (length_filter (covered r) (Z.of_nat <$> seq 0 (Z.to_nat total))) as Hl.
  rewrite length_fmap, length_seq in Hl. lia.
Qed.

(** A fully covered log counts all of its bytes. *)
Lemma bytesReceived_full r total : ranges_ok r -> 0 <= total ->
  Forall (fun se => se.2 <= total) r -> (forall x, 0 <= x < total -> covered r x) ->
  bytesReceived r = total.
Proof.
  intros Hok Ht Hle Hall. rewrite (bytesReceived_count r total) by done. unfold count_covered.
  rewrite filter_all, length_fmap, length_seq; [lia|].
  intros x Hx%list_elem_of_fmap. destruct Hx as (n & -> & Hn%elem_of_seq). apply Hall. lia.
Qed.
End BytesReceived.

Section Gaps.
Lemma gaps_from_spec r : forall cursor total x,
  ranges_ok r -> Forall (fun se => se.2 <= total) r -> 0 <= cursor ->
  in_gaps (gaps_from cursor r total) x <-> cursor <= x < total /\ ~ covered r x.
Proof.
  unfold in_gaps.
  induction r as [|[s e] r IH]; intros cursor total x Hok Hle Hc; simpl.
  - pose proof (covered_nil x). case_bool.
    + rewrite Exists_cons, Exists_nil. simpl. intuition lia.
    + rewrite Exists_nil. intuition lia.
  - apply Forall_cons in Hle as [He Hle].
    pose proof (covered_tail_after _ _ x Hok) as Htail.
    apply ranges_ok_inv in Hok as (Hse & Hok & _). unfold range_ok in Hse. simpl in *.
    rewrite Exists_app, IH, covered_cons by (done || lia). unfold in_range. simpl.
    case_bool; [rewrite Exists_cons|]; rewrite Exists_nil; simpl;
      (destruct (decide (covered r x)) as [Ht|Ht];
       [specialize (Htail Ht); assert (covered r x <-> True) as -> by tauto
       |assert (covered r x <-> False) as -> by tauto]; clear -Hse He Hc Htail Heqb); lia.
Qed.

(** Every gap is a non-empty interval below the total, in order. *)
Lemma gaps_from_bounds r : forall cursor total,
  ranges_ok r -> Forall (fun se => se.2 <= total) r -> 0 <= cursor ->
  Forall (fun oc => 0 <= oc.1 /\ 0 < oc.2 /\ oc.1 + oc.2 <= total) (gaps_from cursor r total).
Proof.
  induction r as [|[s e] r IH]; intros cursor total Hok Hle Hc; simpl.
  - case_bool; repeat constructor; simpl; lia.
  - apply Forall_cons in Hle as [He Hle]. apply ranges_ok_inv in Hok as (Hse & Hok & _).
    unfold range_ok in Hse. simpl in *. apply Forall_app. split; [|apply IH; (done || lia)].
    case_bool; repeat constructor; simpl; lia.
Qed.
End Gaps.

Section Completeness.
Lemma complete_covered r total :
  ranges_ok r -> 0 < total -> Forall (fun se => se.2 <= total) r ->
  complete r total = true <-> (forall x, 0 <= x < total -> covered r x).
Proof.
  intros Hok Ht Hle. unfold complete.
  replace (total =? 0) with false by lia. rewrite orb_false_l. split.
  - destruct r as [|[s e] [|]]; try done. intros H x Hx. zb.
    apply covered_cons. left. unfold in_range. simpl. lia.
  - intros Hall. destruct r as [|[s e] r].
    { by destruct (covered_nil 0 (Hall 0 ltac:(lia))). }
    pose proof (covered_tail_after _ _ 0 Hok) as H0.
    pose proof (covered_tail_after _ _ e Hok) as He.
    pose proof (ranges_ok_inv _ _ Hok) as (Hse & Hok' & Hafter).
    apply Forall_cons in Hle as [Hle Hler]. unfold range_ok in Hse. simpl in *.
    assert (s = 0) as ->.
    { destruct (proj1 (covered_cons _ _ _) (Hall 0 ltac:(lia))) as [Hx|Hx].
      - unfold in_range in Hx. simpl in Hx. lia.
      - specialize (H0 Hx). lia. }
    assert (total <= e) as Hte.
    { destruct (Z.lt_ge_cases e total) as [Hlt|]; [|done].
      destruct (proj1 (covered_cons _ _ _) (Hall e ltac:(lia))) as [Hx|Hx].
      - unfold in_range in Hx. simpl in Hx. lia.
      - specialize (He Hx). lia. }
    destruct r as [|se' r]; [lia|].
    apply Forall_cons in Hafter as [? _]. apply Forall_cons in Hler as [? _].
    apply ranges_ok_inv in Hok' as (Hse' & _). unfold range_ok in Hse'. lia.
Qed.
End Completeness.

(** Two well-formed values that stand for the same bytes are equal. *)
Section Canonical.
Lemma canonical_end s e r s' e' r' :
  ranges_ok ((s, e) :: r) -> ranges_ok ((s', e') :: r') -> s < e' ->
  (forall x, covered ((s, e) :: r) x -> covered ((s', e') :: r') x) -> e <= e'.
Proof.
  intros Hok Hok' Hs Hsub. destruct (Z.lt_ge_cases e' e) as [Hlt|]; [|done].
  pose proof (covered_tail_after _ _ e' Hok') as Ht. simpl in Ht.
  assert (covered ((s, e) :: r) e') as Hc.
  { apply covered_cons. left. unfold in_range. simpl. lia. }
  apply Hsub, covered_cons in Hc as [Hc|Hc]; [unfold in_range in Hc; simpl in Hc; lia|].
  specialize (Ht Hc). lia.
Qed.

Lemma canonical_start s e r s' e' r' :
  ranges_ok ((s, e) :: r) -> ranges_ok ((s', e') :: r') ->
  (forall x, covered ((s, e) :: r) x -> covered ((s', e') :: r') x) -> s' <= s.
Proof.
  intros Hok Hok' Hsub. pose proof (ranges_ok_inv _ _ Hok) as (Hse & _).
  pose proof (ranges_ok_inv _ _ Hok') as (Hse' & _). unfold range_ok in *. simpl in *.
  assert (covered ((s, e) :: r) s) as Hc.
  { apply covered_cons. left. unfold in_range. simpl. lia. }
  apply Hsub, covered_cons in Hc as [Hc|Hc]; [unfold in_range in Hc; simpl in Hc; lia|].
  pose proof (covered_tail_after _ _ s Hok' Hc). simpl in *. lia.
Qed.

Lemma canonical_head se r se' r' :
  ranges_ok (se :: r) -> ranges_ok (se' :: r') ->
  (forall x, covered (se :: r) x <-> covered (se' :: r') x) -> se = se'.
Proof.
  destruct se as [s e], se' as [s' e']. intros Hok Hok' Heq.
  pose proof (ranges_ok_inv _ _ Hok) as (Hse & _).
  pose proof (ranges_ok_inv _ _ Hok') as (Hse' & _). unfold range_ok in *. simpl in *.
  assert (s' <= s) by (eapply canonical_start; [exact Hok|exact Hok'|apply Heq]).
  assert (s <= s') by (eapply canonical_start; [exact Hok'|exact Hok|apply Heq]).
  assert (e <= e') by (eapply canonical_end; [exact Hok|exact Hok'|lia|apply Heq]).
  assert (e' <= e) by (eapply canonical_end; [exact Hok'|exact Hok|lia|apply Heq]).
  f_equal; lia.
Qed.

Lemma canonical r : forall r', ranges_ok r -> ranges_ok r' ->
  (forall x, covered r x <-> covered r' x) -> r = r'.
Proof.
  induction r as [|se r IH]; intros [|se' r'] Hok Hok' Heq; [done| | |].
  - apply ranges_ok_inv in Hok' as (Hse & _). unfold range_ok in Hse.
    destruct (covered_nil se'.1). apply Heq, covered_cons. left. unfold in_range. lia.
  - apply ranges_ok_inv in Hok as (Hse & _). unfold range_ok in Hse.
    destruct (covered_nil se.1). apply Heq, covered_cons. left. unfold in_range. lia.
  - pose proof (canonical_head _ _ _ _ Hok Hok' Heq) as <-. f_equal.
    pose proof (fun x => covered_tail_after _ _ x Hok) as Ht.
    pose proof (fun x => covered_tail_after _ _ x Hok') as Ht'.
    apply ranges_ok_inv in Hok as (_ & Hok & _). apply ranges_ok_inv in Hok' as (_ & Hok' & _).
    apply IH; [done..|]. intros x. specialize (Heq x). rewrite !covered_cons in Heq.
    unfold in_range in Heq. specialize (Ht x). specialize (Ht' x).
    split; intros Hx; [specialize (Ht Hx)|specialize (Ht' Hx)];
      destruct Heq as [H1 H2]; [destruct H1|destruct H2]; auto; lia.
Qed.
End Canonical.

Section Add.
(** The chunk [(offset, count)] is a byte interval of a uint32 address space. *)
Definition chunk_ok (oc : Z * Z) : Prop := 0 <= oc.1 /\ 0 <= oc.2 /\ oc.1 + oc.2 < 2 ^ 32.

Lemma add_spec r offset count : ranges_ok r -> chunk_ok (offset, count) ->
  ranges_ok (add r offset count) /\
  (forall x, covered (add r offset count) x <-> covered r x \/ offset <= x < offset + count).
Proof.
  unfold chunk_ok. simpl. intros Hok (Ho & Hc & Hlt). unfold add. case_bool.
  - split; [done|]. intros x. assert (~ offset <= x < offset + count) by lia. tauto.
  - rewrite u32_small by lia.
    assert (Forall range_ok (r ++ [(offset, offset + count)])) as Hall.
    { apply Forall_app. split; [by apply ranges_ok_forall|]. repeat constructor; simpl; lia. }
    split; [by apply merge_ok|]. intros x. rewrite merge_covered by done.
    unfold covered. rewrite Exists_app, Exists_cons, Exists_nil. unfold in_range. simpl. tauto.
Qed.

Definition add_all (r : Ranges) (cs : list (Z * Z)) : Ranges :=
  foldl (fun r oc => add r oc.1 oc.2) r cs.

Lemma add_all_spec cs : forall r, ranges_ok r -> Forall chunk_ok cs ->
  ranges_ok (add_all r cs) /\
  (forall x, covered (add_all r cs) x <-> covered r x \/ in_gaps cs x).
Proof.
  unfold in_gaps.
  induction cs as [|[o c] cs IH]; intros r Hok Hcs; simpl.
  - split; [done|]. intros x. rewrite Exists_nil. tauto.
  - apply Forall_cons in Hcs as [Hc Hcs]. destruct (add_spec r o c Hok Hc) as [Hok' Hcov].
    destruct (IH _ Hok' Hcs) as [Hok'' Hcov'']. split; [done|].
    intros x. rewrite Hcov'', Hcov, Exists_cons. simpl. tauto.
Qed.

Lemma ranges_within cs total : Forall chunk_ok cs ->
  Forall (fun oc => oc.1 + oc.2 <= total) cs ->
  Forall (fun se => se.2 <= total) (add_all [] cs).
Proof.
  intros Hok Hle. destruct (add_all_spec cs [] ltac:(constructor) Hok) as [Hr Hcov].
  rewrite Forall_forall. intros [s e] Hin.
  pose proof (ranges_ok_forall _ Hr) as Hall. rewrite Forall_forall in Hall.
  specialize (Hall _ Hin). unfold range_ok in Hall. simpl in *.
  assert (covered (add_all [] cs) (e - 1)) as Hc.
  { unfold covered. apply Exists_exists. exists (s, e). split; [done|].
    unfold in_range. simpl. lia. }
  apply Hcov in Hc as [Hc|Hc]; [by apply covered_nil in Hc|].
  unfold in_gaps in Hc. apply Exists_exists in Hc as (oc & Hoc & Hx).
  rewrite Forall_forall in Hle. specialize (Hle _ Hoc). lia.
Qed.
End Add.
#[export] Hint Resolve ranges_ok_forall : mcls.

(** * Properties *)

(** C30. [add] keeps the ranges sorted, non-empty and separated, and adds exactly
    the bytes of the chunk, for any chunk whose end does not wrap in uint32. *)
Theorem add_correct (r : Ranges) (offset count : Z) :
  ranges_ok r -> 0 <= offset -> 0 <= count -> offset + count < 2 ^ 32 ->
  ranges_ok (add r offset count) /\
  (forall x, covered (add r offset count) x <-> covered r x \/ offset <= x < offset + count).
Proof. intros. by apply add_spec. Qed.

Definition sample_ranges : Ranges := add (add (add [] 0 360) 360 360) 810 90.

Lemma sample_ranges_ok : ranges_ok sample_ranges.
Proof. repeat constructor; simpl; lia. Qed.

Lemma add_correct_witness :
  add sample_ranges 720 90 = [(0, 900)] /\
  (ranges_ok (add sample_ranges 720 90) /\
   (forall x, covered (add sample_ranges 720 90) x <->
      covered sample_ranges x \/ 720 <= x < 720 + 90)).
Proof.
  split; [reflexivity|].
  apply (add_correct sample_ranges 720 90); [apply sample_ranges_ok|lia..].
Defined.

(** The order in which the chunks of a log arrive, and repeated chunks, do
    not matter: chunk lists that stand for the same bytes give equal ranges. *)
Theorem add_order_independent (cs cs' : list (Z * Z)) :
  Forall chunk_ok cs -> Forall chunk_ok cs' ->
  (forall x, in_gaps cs x <-> in_gaps cs' x) ->
  add_all [] cs = add_all [] cs'.
Proof.
  intros H H' Heq.
  destruct (add_all_spec cs [] ltac:(constructor) H) as [Hok Hcov].
  destruct (add_all_spec cs' [] ltac:(constructor) H') as [Hok' Hcov'].
  apply canonical; [done..|]. intros x. by rewrite Hcov, Hcov', Heq.
Qed.

Lemma add_order_independent_witness :
  add_all [] [(90, 90); (0, 90); (90, 90); (180, 20)] = add_all [] [(0, 100); (100, 100)].
Proof.
  apply add_order_independent; [repeat constructor; simpl; lia..|].
  intros x. unfold in_gaps. rewrite !Exists_cons, !Exists_nil. simpl. lia.
Defined.

(** The gaps of [[0, total)] are exactly its missing bytes, each gap is a
    non-empty interval inside it, and [complete] answers whether there is none. *)
Theorem gaps_complement (r : Ranges) (total : Z) :
  ranges_ok r -> 0 < total -> Forall (fun se => se.2 <= total) r ->
  (forall x, in_gaps (gaps r total) x <-> 0 <= x < total /\ ~ covered r x) /\
  Forall (fun oc => 0 <= oc.1 /\ 0 < oc.2 /\ oc.1 + oc.2 <= total) (gaps r total) /\
  (complete r total = true <-> gaps r total = []).
Proof.
  intros Hok Ht Hle.
  pose proof (fun x => gaps_from_spec r 0 total x Hok Hle ltac:(lia)) as Hspec.
  pose proof (gaps_from_bounds r 0 total Hok Hle ltac:(lia)) as Hb.
  split_and!; [done..|]. rewrite complete_covered by done. unfold gaps in *. split.
  - intros Hall. destruct (gaps_from 0 r total) as [|[o c] g]; [done|]. exfalso.
    apply Forall_cons in Hb as [Hb _]. simpl in Hb.
    destruct (proj1 (Hspec o)) as [Hx Hn]; [|by apply Hn, Hall].
    unfold in_gaps. apply Exists_cons. left. simpl. lia.
  - intros He x Hx. rewrite He in Hspec. destruct (decide (covered r x)) as [|Hn]; [done|].
    pose proof (proj2 (Hspec x) (conj Hx Hn)) as Hc. inversion Hc.
Qed.

Lemma gaps_complement_witness :
  gaps sample_ranges 900 = [(720, 90)] /\
  (complete sample_ranges 900 = true <-> gaps sample_ranges 900 = []).
Proof.
  split; [reflexivity|].
  apply (gaps_complement sample_ranges 900); [apply sample_ranges_ok|lia|].
  change sample_ranges with [(0, 720); (810, 900)]. repeat constructor; simpl; lia.
Defined.

(** [bytesReceived] is the number of distinct bytes received: its uint32
    sums do not wrap, and it reaches [total] exactly when the log is complete. *)
Theorem bytesReceived_correct (r : Ranges) (total : Z) :
  ranges_ok r -> 0 < total < 2 ^ 32 -> Forall (fun se => se.2 <= total) r ->
  bytesReceived r = Z.of_nat (count_covered r (Z.to_nat total)) /\
  (complete r total = true <-> bytesReceived r = total).
Proof.
  intros Hok Ht Hle.
  pose proof (bytesReceived_count r total Hok ltac:(lia) Hle) as Hb.
  split; [done|]. rewrite complete_covered by (done || lia). split.
  - intros Hall. apply bytesReceived_full; (done || lia).
  - rewrite Hb. unfold count_covered. intros Heq x Hx.
    destruct (decide (covered r x)) as [|Hn]; [done|]. exfalso.
    assert (x ∈ Z.of_nat <$> seq 0 (Z.to_nat total)) as Hin.
    { apply list_elem_of_fmap. exists (Z.to_nat x). rewrite elem_of_seq. lia. }
    pose proof (length_filter_lt (covered r) _ _ Hin Hn) as Hlt.
    rewrite length_fmap, length_seq in Hlt. lia.
Qed.

Lemma bytesReceived_correct_witness :
  bytesReceived sample_ranges = 810 /\
  (complete sample_ranges 900 = true <-> bytesReceived sample_ranges = 900).
Proof.
  split; [reflexivity|].
  apply (bytesReceived_correct sample_ranges 900); [apply sample_ranges_ok|lia|].
  change sample_ranges with [(0, 720); (810, 900)]. repeat constructor; simpl; lia.
Defined.
