(* ===== verification/Crc32.v ===== *)
(** [crc32] (src/Crc32.cpp): the bitwise reflected CRC-32 that fingerprints
    log chunks.  The theorems give its streaming law, its standard check
    value, and the errors it detects. *)

From S2P Require Import Prelude.

Definition kPolynomial : Z := 0xEDB88320.

(** One turn of the inner loop over the bits of a byte. *)
Definition crc_bit (crc : Z) : Z :=
  let mask := u32 (- Z.land crc 1) in
  Z.lxor (Z.shiftr crc 1) (Z.land kPolynomial mask).

(** One turn of the loop over the bytes. *)
Definition crc_byte (crc : Z) (byte : Z) : Z := Nat.iter 8 crc_bit (Z.lxor crc byte).

Definition crc_bytes (crc : Z) (data : list Z) : Z := foldl crc_byte crc data.

(** [crc32(data, len, seed)]; the header gives [seed] the default [0xFFFFFFFF]. *)
Definition crc32 (data : list Z) (seed : Z) : Z := not32 (crc_bytes (not32 seed) data).
Definition kDefaultSeed : Z := 0xFFFFFFFF.

(** * The register *)

Section Register.
Lemma land_poly_mask x : Z.land kPolynomial (u32 (- Z.land x 1)) =
  if Z.odd x then kPolynomial else 0.
Proof.
  rewrite Z.land_ones with (n := 1) by lia. change (2 ^ 1) with 2.
  rewrite Zmod_odd. destruct (Z.odd x); reflexivity.
Qed.

Lemma crc_bit_alt x : crc_bit x = Z.lxor (Z.shiftr x 1) (if Z.odd x then kPolynomial else 0).
Proof. unfold crc_bit. by rewrite land_poly_mask. Qed.

Lemma shiftr1_range x : is_u32 x -> 0 <= Z.shiftr x 1 < 2 ^ 31.
Proof. unfold is_u32. intros. rewrite Z.shiftr_div_pow2 by lia. zmod. Qed.

Lemma crc_bit_range x : is_u32 x -> is_u32 (crc_bit x).
Proof.
  intros Hx. rewrite crc_bit_alt. pose proof (shiftr1_range x Hx).
  apply lxor_range; [lia|lia|]. destruct (Z.odd x); unfold kPolynomial; lia.
Qed.

(** The register step is injective: the top bit of the result tells the bit
    that was shifted out. *)
Lemma crc_bit_top x : is_u32 x -> Z.testbit (crc_bit x) 31 = Z.odd x.
Proof.
  intros Hx. rewrite crc_bit_alt, Z.lxor_spec, (bits_above 31) by (by apply shiftr1_range || lia).
  by destruct (Z.odd x).
Qed.

Lemma crc_bit_inj x y : is_u32 x -> is_u32 y -> crc_bit x = crc_bit y -> x = y.
Proof.
  intros Hx Hy Heq.
  assert (Z.odd x = Z.odd y) as Hodd by (rewrite <- !crc_bit_top by done; by rewrite Heq).
  rewrite !crc_bit_alt, Hodd in Heq. apply lxor_cancel_r in Heq.
  apply Z.bits_inj'. intros n Hn. destruct (Z.eq_dec n 0) as [->|].
  - by rewrite !Z.bit0_odd.
  - apply (f_equal (fun z => Z.testbit z (n - 1))) in Heq.
    rewrite !Z.shiftr_spec in Heq by lia. by replace (n - 1 + 1) with n in Heq by lia.
Qed.

Lemma iter_bit_range n x : is_u32 x -> is_u32 (Nat.iter n crc_bit x).
Proof. intros. induction n; simpl; auto using crc_bit_range. Qed.

Lemma iter_bit_inj n x y : is_u32 x -> is_u32 y ->
  Nat.iter n crc_bit x = Nat.iter n crc_bit y -> x = y.
Proof.
  intros Hx Hy. induction n as [|n IH]; simpl; [done|]. intros Heq.
  apply IH, crc_bit_inj; auto using iter_bit_range.
Qed.

Lemma byte_u32 b : is_byte b -> is_u32 b.
Proof. unfold is_byte, is_u32. lia. Qed.

Lemma lxor_u32 x y : is_u32 x -> is_u32 y -> is_u32 (Z.lxor x y).
Proof. unfold is_u32. apply lxor_range. lia. Qed.

Lemma crc_byte_range c b : is_u32 c -> is_byte b -> is_u32 (crc_byte c b).
Proof. intros. apply iter_bit_range, lxor_u32; auto using byte_u32. Qed.

Lemma crc_bytes_range data : forall c, is_u32 c -> Forall is_byte data ->
  is_u32 (crc_bytes c data).
Proof.
  induction data as [|b data IH]; intros c Hc Hd; simpl; [done|].
  apply Forall_cons in Hd as [Hb Hd]. auto using crc_byte_range.
Qed.

Lemma crc_byte_inj_l c c' b : is_u32 c -> is_u32 c' -> is_byte b ->
  crc_byte c b = crc_byte c' b -> c = c'.
Proof.
  unfold crc_byte. intros Hc Hc' Hb Heq. apply iter_bit_inj in Heq; [|apply lxor_u32; auto using byte_u32..].
  by apply lxor_cancel_r in Heq.
Qed.

(** Reading the same bytes preserves a difference of the registers. *)
Lemma crc_bytes_inj_l data : forall c c', is_u32 c -> is_u32 c' -> Forall is_byte data ->
  crc_bytes c data = crc_bytes c' data -> c = c'.
Proof.
  induction data as [|b data IH]; intros c c' Hc Hc' Hd Heq; simpl in *; [done|].
  apply Forall_cons in Hd as [Hb Hd]. eapply crc_byte_inj_l; [..|apply IH]; eauto using crc_byte_range.
Qed.

Lemma crc_bytes_app c data data' : crc_bytes c (data ++ data') = crc_bytes (crc_bytes c data) data'.
Proof. apply foldl_app. Qed.
End Register.

(** * Word-at-a-time reading *)

Section Words.
(** A bit of the input that is not at the bottom of the register commutes
    with a step. *)
Lemma crc_bit_shifted x y : crc_bit (Z.lxor x (Z.shiftl y 1)) = Z.lxor (crc_bit x) y.
Proof.
  rewrite !crc_bit_alt, Z.shiftr_lxor, Z.shiftr_shiftl_l by lia.
  rewrite Z.shiftl_0_r.
  replace (Z.odd (Z.lxor x (Z.shiftl y 1))) with (Z.odd x).
  - rewrite !Z.lxor_assoc. f_equal. apply Z.lxor_comm.
  - rewrite <- !Z.bit0_odd, Z.lxor_spec, Z.shiftl_spec_low by lia. by rewrite xorb_false_r.
Qed.

Lemma iter_bit_shifted n : forall x y,
  Nat.iter n crc_bit (Z.lxor x (Z.shiftl y (Z.of_nat n))) = Z.lxor (Nat.iter n crc_bit x) y.
Proof.
  induction n as [|n IH]; intros x y; simpl.
  - by rewrite Z.shiftl_0_r.
  - replace (Z.shiftl y (Z.of_nat (S n))) with (Z.shiftl (Z.shiftl y 1) (Z.of_nat n))
      by (rewrite Z.shiftl_shiftl by lia; f_equal; lia).
    by rewrite IH, crc_bit_shifted.
Qed.

Lemma iter_add {A} (f : A -> A) n m x : Nat.iter (n + m) f x = Nat.iter n f (Nat.iter m f x).
Proof. induction n; simpl; congruence. Qed.

(** The little-endian word of some bytes. *)
Fixpoint le_word (bs : list Z) : Z :=
  match bs with
  | [] => 0
  | b :: bs' => Z.lxor b (Z.shiftl (le_word bs') 8)
  end.

(** Reading [bs] byte by byte is reading their word at once. *)
Lemma crc_bytes_word bs : forall c,
  crc_bytes c bs = Nat.iter (8 * length bs) crc_bit (Z.lxor c (le_word bs)).
Proof.
  induction bs as [|b bs IH]; intros c; cbn [crc_bytes foldl le_word length].
  - by rewrite Z.lxor_0_r.
  - fold (crc_bytes (crc_byte c b) bs). rewrite IH.
    replace (8 * S (length bs))%nat with (8 * length bs + 8)%nat by lia.
    rewrite iter_add. f_equal. unfold crc_byte.
    rewrite <- Z.lxor_assoc. change 8 with (Z.of_nat 8). by rewrite iter_bit_shifted.
Qed.

Lemma le_word_range bs : Forall is_byte bs -> 0 <= le_word bs < 2 ^ (8 * zlen bs).
Proof.
  unfold zlen. induction 1 as [|b bs Hb Hbs IH]; cbn [le_word length]; [lia|].
  replace (8 * Z.of_nat (S (length bs))) with (8 + 8 * Z.of_nat (length bs)) by lia.
  unfold is_byte in Hb. rewrite Z.pow_add_r by lia.
  rewrite <- Z.pow_add_r by lia. apply lxor_range; [lia| |].
  - assert (2 ^ 8 <= 2 ^ (8 + 8 * Z.of_nat (length bs))) by (apply Z.pow_le_mono_r; lia). lia.
  - rewrite Z.shiftl_mul_pow2, Z.pow_add_r by lia. nia.
Qed.

Lemma le_word_inj bs : forall bs', length bs = length bs' ->
  Forall is_byte bs -> Forall is_byte bs' -> le_word bs = le_word bs' -> bs = bs'.
Proof.
  induction bs as [|b bs IH]; intros [|b' bs'] Hlen Hbs Hbs' Heq; try done.
  apply Forall_cons in Hbs as [Hb Hbs]. apply Forall_cons in Hbs' as [Hb' Hbs'].
  simpl in *. unfold is_byte in *.
  assert (forall n, 0 <= n -> Z.testbit (Z.lxor b (Z.shiftl (le_word bs) 8)) n =
                  Z.testbit (Z.lxor b' (Z.shiftl (le_word bs') 8)) n) as Hbit by (by rewrite Heq).
  assert (b = b') as <-.
  { apply Z.bits_inj'. intros n Hn. destruct (Z.lt_ge_cases n 8).
    - specialize (Hbit n Hn). rewrite !Z.lxor_spec, !Z.shiftl_spec_low, !xorb_false_r in Hbit by lia.
      done.
    - by rewrite !(bits_above 8) by done. }
  f_equal. apply IH; [lia|done..|]. apply lxor_cancel_l in Heq.
  apply (f_equal (fun z => Z.shiftr z 8)) in Heq.
  by rewrite !Z.shiftr_shiftl_l, !Z.shiftl_0_r in Heq by lia.
Qed.

(** Up to four bytes read from the same register are told apart. *)
Lemma crc_bytes_inj_r c bs bs' : is_u32 c -> (length bs <= 4)%nat -> length bs = length bs' ->
  Forall is_byte bs -> Forall is_byte bs' -> crc_bytes c bs = crc_bytes c bs' -> bs = bs'.
Proof.
  intros Hc Hn Hlen Hbs Hbs' Heq. rewrite !crc_bytes_word, <- Hlen in Heq.
  assert (forall l, (length l <= 4)%nat -> Forall is_byte l -> is_u32 (le_word l)) as Hw.
  { intros l Hl Hbytes. pose proof (le_word_range l Hbytes).
    assert (2 ^ (8 * zlen l) <= 2 ^ 32) by (apply Z.pow_le_mono_r; unfold zlen; lia).
    unfold is_u32. lia. }
  apply iter_bit_inj in Heq; [|apply lxor_u32; [done|apply Hw; [lia|done]]..].
  by apply le_word_inj, lxor_cancel_l with c.
Qed.
End Words.

(** * Properties *)

(** The CRC detects every corruption confined to four consecutive bytes:
    two buffers that differ only there have different values, for any seed. *)
Theorem crc32_detects_burst (seed : Z) (before bs bs' after : list Z) :
  is_u32 seed -> Forall is_byte before -> Forall is_byte bs -> Forall is_byte bs' ->
  Forall is_byte after -> (length bs <= 4)%nat -> length bs = length bs' -> bs <> bs' ->
  crc32 (before ++ bs ++ after) seed <> crc32 (before ++ bs' ++ after) seed.
Proof.
  intros Hseed Hb Hbs Hbs' Ha Hn Hlen Hne Heq. apply Hne.
  unfold crc32 in Heq. apply (f_equal not32) in Heq. rewrite !not32_involutive, !crc_bytes_app in Heq.
  assert (is_u32 (crc_bytes (not32 seed) before)) as Hc
    by (apply crc_bytes_range; [by apply not32_range | done]).
  apply crc_bytes_inj_l in Heq; [|by apply crc_bytes_range..|done].
  by apply crc_bytes_inj_r in Heq.
Qed.

Lemma crc32_detects_burst_witness :
  crc32 ([1; 2] ++ [3] ++ [4; 5]) kDefaultSeed <> crc32 ([1; 2] ++ [7] ++ [4; 5]) kDefaultSeed.
Proof.
  apply crc32_detects_burst; try (repeat constructor; done); unfold is_u32, kDefaultSeed; try lia; done.
Defined.

(** The value can be computed piecewise (the CRC of the first part seeds the
    second), and with seed 0 it is the standard CRC-32; but with the default
    seed the register starts at zero, so leading zero bytes are ignored. *)
Theorem crc32_streaming (seed : Z) (a b : list Z) :
  crc32 (a ++ b) seed = crc32 b (crc32 a seed) /\
  crc32 [49; 50; 51; 52; 53; 54; 55; 56; 57] 0 = 0xCBF43926 /\
  crc32 (0 :: a) kDefaultSeed = crc32 a kDefaultSeed.
Proof.
  split_and!; [|reflexivity|reflexivity].
  unfold crc32. by rewrite not32_involutive, crc_bytes_app.
Qed.
