(* ===== verification/ChunkCoverage.v ===== *)
(** [ChunkCoverageTracker] (src/ChunkCoverageTracker.cpp): one bit and one
    CRC-32 fingerprint per 90-byte slot of a log, used to see when every slot
    has arrived and to notice a slot that arrives twice with different bytes.

    The state keeps the arrays of the class; the abstract view is the finite
    map from the slots received to their fingerprints, and every operation is
    proved to implement the corresponding operation on that map. *)

From S2P Require Import Prelude LogProtocol Crc32.

Definition kEmptyFingerprint : Z := 0.

Definition slot_bit (slot : Z) : Z := u8 (Z.shiftl 1 (slot mod 8)).

Definition bitmapTest (bitmap : list Z) (slot : Z) : bool :=
  match bitmap !! Z.to_nat (slot / 8) with
  | Some byte => negb (Z.land byte (slot_bit slot) =? 0)
  | None => false
  end.

(** [alter] does nothing out of range, as the bounds test of the source. *)
Definition bitmapSet (bitmap : list Z) (slot : Z) : list Z :=
  alter (fun byte => Z.lor byte (slot_bit slot)) (Z.to_nat (slot / 8)) bitmap.

(** [padded]: the first [take] bytes of the chunk in a zeroed 90-byte array. *)
Definition fingerprintForSlot (data : list Z) (count : Z) : Z :=
  let take_n := Z.to_nat (Z.min count kLogChunkSize) in
  let padded := take take_n data ++ replicate (Z.to_nat kLogChunkSize - take_n) 0 in
  let fp := crc32 padded kDefaultSeed in
  if fp =? kEmptyFingerprint then 1 else fp.

Record Tracker := {
  total_size : Z;
  slot_count : Z;
  slots_received : Z;
  overlap_conflicts : Z;
  bitmap : list Z;
  fingerprints : list Z;
}.

Definition new_tracker (total : Z) : Tracker :=
  let n := chunkCountForSize total in
  {| total_size := total;
     slot_count := n;
     slots_received := 0;
     overlap_conflicts := 0;
     bitmap := replicate (Z.to_nat (u32 (n + 7) / 8)) 0;
     fingerprints := replicate (Z.to_nat n) kEmptyFingerprint |}.

Definition set_slot (t : Tracker) (slot fingerprint : Z) : Tracker :=
  {| total_size := total_size t;
     slot_count := slot_count t;
     slots_received := u32 (slots_received t + 1);
     overlap_conflicts := overlap_conflicts t;
     bitmap := bitmapSet (bitmap t) slot;
     fingerprints := <[Z.to_nat slot := fingerprint]> (fingerprints t) |}.

Definition add_conflict (t : Tracker) : Tracker :=
  {| total_size := total_size t;
     slot_count := slot_count t;
     slots_received := slots_received t;
     overlap_conflicts := u32 (overlap_conflicts t + 1);
     bitmap := bitmap t;
     fingerprints := fingerprints t |}.

(** [fingerprints_[slot]]; the callers stay below [slot_count_], the vector's length. *)
Definition fingerprint_at (t : Tracker) (slot : Z) : Z :=
  default kEmptyFingerprint (fingerprints t !! Z.to_nat slot).

Definition markSlot (t : Tracker) (slot fingerprint : Z) (detect_overlap : bool) : Tracker :=
  if slot_count t <=? slot then t
  else
    let was_set := bitmapTest (bitmap t) slot in
    if was_set && detect_overlap then
      if negb (fingerprint_at t slot =? fingerprint) then add_conflict t else t
    else if negb was_set then set_slot t slot fingerprint
    else if negb (fingerprint_at t slot =? fingerprint) && detect_overlap then add_conflict t
    else t.

(** [record]; [data] is the non-null chunk. *)
Definition record (t : Tracker) (offset : Z) (data : list Z) (count : Z) (detect_overlap : bool)
  : bool * Tracker :=
  if count =? 0 then (true, t)
  else if negb (offset mod kLogChunkSize =? 0) then (true, t)
  else
    let slot := chunkSlotIndex offset in
    if slot_count t <=? slot then (true, t)
    else
      let t' := markSlot t slot (fingerprintForSlot data count) detect_overlap in
      ((overlap_conflicts t' =? 0) || negb detect_overlap, t').

Definition allSlotsReceived (t : Tracker) : bool :=
  if slot_count t =? 0 then total_size t =? 0
  else slot_count t <=? slots_received t.

(** * Bits *)

Section BitmapBits.
Lemma slot_bit_spec slot : 0 <= slot -> slot_bit slot = 2 ^ (slot mod 8).
Proof.
  intros. unfold slot_bit, u8. rewrite Z.shiftl_1_l. apply Z.mod_small.
  pose proof (Z.mod_pos_bound slot 8 ltac:(lia)). split; [lia|].
  apply Z.pow_lt_mono_r; lia.
Qed.

Lemma land_pow2_zero x k : 0 <= k -> (Z.land x (2 ^ k) =? 0) = negb (Z.testbit x k).
Proof.
  intros Hk. destruct (Z.testbit x k) eqn:E; simpl.
  - apply Z.eqb_neq. intros H. apply (f_equal (fun z => Z.testbit z k)) in H.
    by rewrite Z.land_spec, Z.pow2_bits_true, E, Z.bits_0 in H by done.
  - apply Z.eqb_eq, Z.bits_inj'. intros n Hn. rewrite Z.land_spec, Z.bits_0.
    destruct (Z.eq_dec n k) as [->|Hne]; [by rewrite E|].
    by rewrite Z.pow2_bits_false, andb_false_r by done.
Qed.

Lemma bitmapTest_bit bm slot byte : 0 <= slot -> bm !! Z.to_nat (slot / 8) = Some byte ->
  bitmapTest bm slot = Z.testbit byte (slot mod 8).
Proof.
  intros Hs Hb. unfold bitmapTest. rewrite Hb, slot_bit_spec by done.
  rewrite land_pow2_zero by (apply Z.mod_pos_bound; lia). apply negb_involutive.
Qed.

Lemma bitmapTest_set bm slot slot' : 0 <= slot -> 0 <= slot' ->
  (Z.to_nat (slot / 8) < length bm)%nat ->
  bitmapTest (bitmapSet bm slot) slot' = bitmapTest bm slot' || (slot =? slot').
Proof.
  intros Hs Hs' Hlen. destruct (lookup_lt_is_Some_2 bm _ Hlen) as [byte Hbyte].
  assert (Hm : 0 <= slot mod 8 < 8) by (apply Z.mod_pos_bound; lia).
  assert (Hm' : 0 <= slot' mod 8 < 8) by (apply Z.mod_pos_bound; lia).
  unfold bitmapSet. destruct (decide (slot / 8 = slot' / 8)) as [He|Hne].
  - rewrite (bitmapTest_bit _ slot' (Z.lor byte (slot_bit slot))), (bitmapTest_bit bm slot' byte);
      [|done|by rewrite <- He|done|].
    + rewrite Z.lor_spec, slot_bit_spec, Z.pow2_bits_eqb by lia. f_equal.
      destruct (Z.eqb_spec slot slot') as [->|Hn]; [by apply Z.eqb_eq|].
      apply Z.eqb_neq. zmod.
    + rewrite <- He, list_lookup_alter, Hbyte. by rewrite decide_True.
  - replace (slot =? slot') with false by (symmetry; apply Z.eqb_neq; congruence).
    rewrite orb_false_r. unfold bitmapTest. rewrite list_lookup_alter_ne; [done|].
    intros Heq%Z2Nat.inj; [done|apply Z.div_pos; lia..].
Qed.

Lemma bitmapTest_replicate n slot : bitmapTest (replicate n 0) slot = false.
Proof.
  unfold bitmapTest. destruct (replicate n 0 !! Z.to_nat (slot / 8)) as [b|] eqn:E; [|done].
  apply lookup_replicate in E as [-> _]. by rewrite Z.land_0_l.
Qed.

Lemma length_bitmapSet bm slot : length (bitmapSet bm slot) = length bm.
Proof. apply length_alter. Qed.
End BitmapBits.

(** * The abstract tracker *)

(** The slots received so far, each with the fingerprint of its first arrival. *)
Record AbsTracker := { a_slots : gmap Z Z; a_conflicts : Z }.

Definition abs_new : AbsTracker := {| a_slots := ∅; a_conflicts := 0 |}.

Definition abs_mark (a : AbsTracker) (slot fp : Z) (detect : bool) : AbsTracker :=
  match a_slots a !! slot with
  | None => {| a_slots := <[slot := fp]> (a_slots a); a_conflicts := a_conflicts a |}
  | Some fp' =>
      if detect && negb (fp' =? fp)
      then {| a_slots := a_slots a; a_conflicts := u32 (a_conflicts a + 1) |}
      else a
  end.

Record tracker_wf (t : Tracker) : Prop := {
  wf_slots : 0 <= slot_count t <= 2 ^ 32 / kLogChunkSize;
  wf_bitmap : zlen (bitmap t) = (slot_count t + 7) / 8;
  wf_fingerprints : zlen (fingerprints t) = slot_count t;
}.

(** [t] implements [a]. *)
Record implements (t : Tracker) (a : AbsTracker) : Prop := {
  imp_wf : tracker_wf t;
  imp_dom : forall slot, is_Some (a_slots a !! slot) -> 0 <= slot < slot_count t;
  imp_bits : forall slot, 0 <= slot < slot_count t ->
    bitmapTest (bitmap t) slot = bool_decide (is_Some (a_slots a !! slot));
  imp_fps : forall slot fp, a_slots a !! slot = Some fp -> fingerprint_at t slot = fp;
  imp_count : slots_received t = Z.of_nat (size (a_slots a));
  imp_conflicts : overlap_conflicts t = a_conflicts a;
}.

Section Refinement.
Lemma new_tracker_implements total : 0 <= total < 2 ^ 32 -> implements (new_tracker total) abs_new.
Proof.
  intros Ht. pose proof (chunkCountForSize_range total Ht) as Hn.
  assert (chunkCountForSize total + 7 < 2 ^ 32) as Hlt by (unfold kLogChunkSize in Hn; zmod).
  constructor; simpl.
  - constructor; simpl; [done| |]; unfold zlen; rewrite length_replicate;
      rewrite ?u32_small, Z2Nat.id; (lia || zmod).
  - intros slot [fp Hfp]. by rewrite lookup_empty in Hfp.
  - intros slot Hs. rewrite bitmapTest_replicate, lookup_empty. symmetry.
    apply bool_decide_eq_false_2. by intros [? ?].
  - intros slot fp Hfp. by rewrite lookup_empty in Hfp.
  - by rewrite map_size_empty.
  - done.
Qed.

(** All received slots are among the [n] slots, so there are at most [n]. *)
Lemma slots_subset (m : gmap Z Z) (n : Z) : 0 <= n ->
  (forall slot, is_Some (m !! slot) -> 0 <= slot < n) ->
  (dom m : gset Z) ⊆ list_to_set (Z.of_nat <$> seq 0 (Z.to_nat n)).
Proof.
  intros Hn Hdom slot Hs%elem_of_dom. apply Hdom in Hs.
  apply elem_of_list_to_set, list_elem_of_fmap. exists (Z.to_nat slot).
  rewrite elem_of_seq. lia.
Qed.

Lemma size_all_slots n :
  size (list_to_set (Z.of_nat <$> seq 0 n) : gset Z) = n.
Proof.
  rewrite size_list_to_set; [by rewrite length_fmap, length_seq|].
  apply NoDup_fmap; [intros ? ?; lia|]. apply NoDup_seq.
Qed.

Lemma slots_size_le (m : gmap Z Z) (n : Z) : 0 <= n ->
  (forall slot, is_Some (m !! slot) -> 0 <= slot < n) -> Z.of_nat (size m) <= n.
Proof.
  intros Hn Hdom. pose proof (slots_subset m n Hn Hdom) as Hsub%subseteq_size.
  rewrite size_dom, size_all_slots in Hsub. lia.
Qed.

Lemma slots_full (m : gmap Z Z) (n : Z) : 0 <= n ->
  (forall slot, is_Some (m !! slot) -> 0 <= slot < n) ->
  n <= Z.of_nat (size m) <-> (forall slot, 0 <= slot < n -> is_Some (m !! slot)).
Proof.
  intros Hn Hdom. pose proof (slots_subset m n Hn Hdom) as Hsub. split.
  - intros Hsize slot Hs. apply elem_of_dom.
    apply set_subseteq_size_eq in Hsub; [|rewrite size_dom, size_all_slots; lia].
    rewrite Hsub. apply elem_of_list_to_set, list_elem_of_fmap. exists (Z.to_nat slot).
    rewrite elem_of_seq. lia.
  - intros Hall.
    assert (list_to_set (Z.of_nat <$> seq 0 (Z.to_nat n)) ⊆ (dom m : gset Z)) as Hsup.
    { intros slot Hs%elem_of_list_to_set%list_elem_of_fmap.
      destruct Hs as (k & -> & Hk%elem_of_seq). apply elem_of_dom, Hall. lia. }
    apply subseteq_size in Hsup. rewrite size_all_slots, size_dom in Hsup. lia.
Qed.

Lemma set_slot_implements t a slot fp : implements t a -> 0 <= slot < slot_count t ->
  a_slots a !! slot = None ->
  implements (set_slot t slot fp)
    {| a_slots := <[slot := fp]> (a_slots a); a_conflicts := a_conflicts a |}.
Proof.
  intros [Hwf Hdom Hbits Hfps Hcount Hconf] Hs Hnone. destruct Hwf as [Hn Hbm Hfp].
  assert (Hlen : (Z.to_nat (slot / 8) < length (bitmap t))%nat) by (unfold zlen in Hbm; zmod).
  constructor; simpl.
  - constructor; simpl; unfold zlen in *; rewrite ?length_bitmapSet, ?length_insert; done.
  - intros slot'. rewrite lookup_insert. case_decide; [by subst|apply Hdom].
  - intros slot' Hs'. rewrite bitmapTest_set, Hbits, lookup_insert by lia.
    destruct (Z.eqb_spec slot slot') as [->|Hne].
    + by rewrite decide_True, orb_true_r, bool_decide_eq_true_2.
    + by rewrite decide_False, orb_false_r.
  - intros slot' fp'. rewrite lookup_insert. unfold fingerprint_at in *. simpl. case_decide.
    + subst. intros [= ->]. rewrite list_lookup_insert_eq; [done|]. unfold zlen in Hfp. lia.
    + intros Hf. rewrite list_lookup_insert_ne; [by apply Hfps|].
      assert (is_Some (a_slots a !! slot')) as Hin%Hdom by done. lia.
  - rewrite map_size_insert_None by done. rewrite Hcount.
    pose proof (slots_size_le (a_slots a) (slot_count t) ltac:(lia) Hdom).
    unfold kLogChunkSize in Hn. rewrite u32_small by zmod. lia.
  - done.
Qed.

Lemma add_conflict_implements t a : implements t a ->
  implements (add_conflict t)
    {| a_slots := a_slots a; a_conflicts := u32 (a_conflicts a + 1) |}.
Proof. intros [[] ? ? ? ? Hc]. constructor; simpl; try done. by rewrite Hc. Qed.

Lemma markSlot_implements t a slot fp detect : implements t a -> 0 <= slot < slot_count t ->
  implements (markSlot t slot fp detect) (abs_mark a slot fp detect).
Proof.
  intros Himp Hs. unfold markSlot, abs_mark. replace (slot_count t <=? slot) with false by lia.
  rewrite (imp_bits _ _ Himp) by done.
  destruct (a_slots a !! slot) as [fp'|] eqn:E.
  - rewrite bool_decide_eq_true_2 by done. rewrite (imp_fps _ _ Himp _ _ E).
    destruct detect, (fp' =? fp); simpl; auto using add_conflict_implements.
  - rewrite bool_decide_eq_false_2 by (by intros [? ?]). simpl.
    by apply set_slot_implements.
Qed.
End Refinement.

(** The abstract [record]. *)
Definition abs_record (nslots : Z) (a : AbsTracker) (offset : Z) (data : list Z) (count : Z)
    (detect : bool) : bool * AbsTracker :=
  if (count =? 0) || negb (offset mod kLogChunkSize =? 0) || (nslots <=? chunkSlotIndex offset)
  then (true, a)
  else
    let a' := abs_mark a (chunkSlotIndex offset) (fingerprintForSlot data count) detect in
    ((a_conflicts a' =? 0) || negb detect, a').

Section RecordLemmas.
Lemma markSlot_count t slot fp detect : slot_count (markSlot t slot fp detect) = slot_count t.
Proof.
  unfold markSlot. case_bool; [done|]. destruct (bitmapTest _ _), detect; simpl; try done;
    by destruct (fingerprint_at t slot =? fp).
Qed.

Lemma record_slot_count t offset data count detect :
  slot_count (record t offset data count detect).2 = slot_count t.
Proof. unfold record. repeat case_bool; simpl; auto using markSlot_count. Qed.

Lemma record_implements t a offset data count detect : implements t a -> 0 <= offset ->
  (record t offset data count detect).1 = (abs_record (slot_count t) a offset data count detect).1 /\
  implements (record t offset data count detect).2
             (abs_record (slot_count t) a offset data count detect).2.
Proof.
  intros Himp Ho. unfold record, abs_record.
  destruct (count =? 0); [done|]. destruct (offset mod kLogChunkSize =? 0); [|done]. simpl.
  case_bool; [done|]. simpl.
  assert (implements (markSlot t (chunkSlotIndex offset) (fingerprintForSlot data count) detect)
            (abs_mark a (chunkSlotIndex offset) (fingerprintForSlot data count) detect)) as Hm.
  { apply markSlot_implements; [done|]. split; [|done]. apply Z.div_pos; [done|].
    unfold kLogChunkSize. lia. }
  split; [|done]. by rewrite (imp_conflicts _ _ Hm).
Qed.

Lemma allSlotsReceived_implements t a : implements t a -> 0 < slot_count t ->
  allSlotsReceived t = true <-> (forall slot, 0 <= slot < slot_count t -> is_Some (a_slots a !! slot)).
Proof.
  intros Himp Hn. unfold allSlotsReceived. replace (slot_count t =? 0) with false by lia.
  rewrite Z.leb_le, (imp_count _ _ Himp). apply slots_full; [lia|]. apply (imp_dom _ _ Himp).
Qed.
End RecordLemmas.
#[export] Hint Resolve new_tracker_implements : mcls.
#[export] Hint Rewrite record_slot_count markSlot_count : mcls.

(** * Properties *)

(** C36. [record] implements recording on the finite map from received slots to
    fingerprints: same answer, related states, for every chunk of the log. *)
Theorem record_refines (t : Tracker) (a : AbsTracker) (offset : Z) (data : list Z) (count : Z)
    (detect : bool) :
  implements t a -> 0 <= offset ->
  (record t offset data count detect).1 = (abs_record (slot_count t) a offset data count detect).1 /\
  implements (record t offset data count detect).2
             (abs_record (slot_count t) a offset data count detect).2.
Proof. apply record_implements. Qed.

Lemma record_refines_witness :
  (record (new_tracker 180) 90 (replicate 90 7) 90 true).1 =
    (abs_record 2 abs_new 90 (replicate 90 7) 90 true).1 /\
  implements (record (new_tracker 180) 90 (replicate 90 7) 90 true).2
             (abs_record 2 abs_new 90 (replicate 90 7) 90 true).2.
Proof.
  apply (record_refines (new_tracker 180) abs_new); [apply new_tracker_implements|]; lia.
Defined.

(** All slots are received exactly when each slot of the log has been
    recorded: the counter never disagrees with the bitmap. *)
Theorem allSlotsReceived_correct (t : Tracker) (a : AbsTracker) :
  implements t a -> 0 < slot_count t ->
  allSlotsReceived t = true <->
    (forall slot, 0 <= slot < slot_count t -> bitmapTest (bitmap t) slot = true).
Proof.
  intros Himp Hn. rewrite (allSlotsReceived_implements _ a) by done.
  split; intros H slot Hs; specialize (H slot Hs).
  - rewrite (imp_bits _ _ Himp) by done. by apply bool_decide_eq_true_2.
  - rewrite (imp_bits _ _ Himp) in H by done. by apply bool_decide_eq_true_1 in H.
Qed.

Lemma allSlotsReceived_correct_witness :
  let t := (record (new_tracker 90) 0 [1; 2] 2 true).2 in
  allSlotsReceived t = true /\
  (allSlotsReceived t = true <->
    (forall slot, 0 <= slot < slot_count t -> bitmapTest (bitmap t) slot = true)).
Proof.
  split; [vm_compute; reflexivity|].
  apply (allSlotsReceived_correct _ (abs_record 1 abs_new 0 [1; 2] 2 true).2); [|vm_compute; reflexivity].
  apply (record_implements (new_tracker 90) abs_new); [apply new_tracker_implements|]; lia.
Defined.

(** Once a slot has been recorded, recording it again with the fingerprint
    it has changes nothing, and with another fingerprint it is refused. *)
Theorem overlap_detected (t : Tracker) (a : AbsTracker) (offset : Z) (d d' : list Z) (n n' : Z) :
  implements t a -> overlap_conflicts t = 0 -> 0 <= offset ->
  offset mod kLogChunkSize = 0 -> chunkSlotIndex offset < slot_count t ->
  n <> 0 -> n' <> 0 -> a_slots a !! chunkSlotIndex offset = None ->
  let t' := (record t offset d n true).2 in
  (record t offset d n true).1 = true /\
  (record t' offset d' n' true).1 = bool_decide (fingerprintForSlot d n = fingerprintForSlot d' n').
Proof.
  intros Himp H0 Ho Hal Hlt Hn Hn' Hnone t'.
  destruct (record_implements t a offset d n true Himp Ho) as [Hr Himp'].
  destruct (record_implements t' _ offset d' n' true Himp' Ho) as [Hr' _].
  rewrite (imp_conflicts _ _ Himp) in H0. rewrite Hr, Hr'. unfold t'. rewrite record_slot_count.
  assert (forall k, k <> 0 -> (k =? 0) || negb (offset mod kLogChunkSize =? 0) ||
    (slot_count t <=? chunkSlotIndex offset) = false) as Hg by (intros; lia).
  unfold abs_record. rewrite !Hg by done. simpl. unfold abs_mark. rewrite Hnone. simpl.
  rewrite H0. split; [done|]. rewrite lookup_insert_eq.
  destruct (Z.eqb_spec (fingerprintForSlot d n) (fingerprintForSlot d' n')) as [He|He]; simpl.
  - by rewrite bool_decide_eq_true_2.
  - by rewrite bool_decide_eq_false_2.
Qed.

Lemma overlap_detected_witness :
  let t' := (record (new_tracker 180) 0 (replicate 90 1) 90 true).2 in
  (record (new_tracker 180) 0 (replicate 90 1) 90 true).1 = true /\
  (record t' 0 (replicate 90 2) 90 true).1 =
    bool_decide (fingerprintForSlot (replicate 90 1) 90 = fingerprintForSlot (replicate 90 2) 90).
Proof.
  apply (overlap_detected (new_tracker 180) abs_new); try done; try lia.
  apply new_tracker_implements. lia.
Defined.
