(* ===== verification/Sha256.v ===== *)
(** [Sha256] (src/Sha256.cpp): the incremental SHA-256 context, with its
    64-byte buffer, byte counter and finalized flag.  [None] is the
    [std::runtime_error] of a context used after it was finalized.

    The specification [sha256] is the one-shot hash of FIPS 180-4: pad, cut
    into 64-byte blocks, fold the compression function.  The theorems show
    that the incremental code computes it however the input is cut. *)

From S2P Require Import Prelude.

Definition kRoundConstants : list Z :=
  [ 0x428A2F98; 0x71374491; 0xB5C0FBCF; 0xE9B5DBA5; 0x3956C25B; 0x59F111F1; 0x923F82A4; 0xAB1C5ED5;
    0xD807AA98; 0x12835B01; 0x243185BE; 0x550C7DC3; 0x72BE5D74; 0x80DEB1FE; 0x9BDC06A7; 0xC19BF174;
    0xE49B69C1; 0xEFBE4786; 0x0FC19DC6; 0x240CA1CC; 0x2DE92C6F; 0x4A7484AA; 0x5CB0A9DC; 0x76F988DA;
    0x983E5152; 0xA831C66D; 0xB00327C8; 0xBF597FC7; 0xC6E00BF3; 0xD5A79147; 0x06CA6351; 0x14292967;
    0x27B70A85; 0x2E1B2138; 0x4D2C6DFC; 0x53380D13; 0x650A7354; 0x766A0ABB; 0x81C2C92E; 0x92722C85;
    0xA2BFE8A1; 0xA81A664B; 0xC24B8B70; 0xC76C51A3; 0xD192E819; 0xD6990624; 0xF40E3585; 0x106AA070;
    0x19A4C116; 0x1E376C08; 0x2748774C; 0x34B0BCB5; 0x391C0CB3; 0x4ED8AA4A; 0x5B9CCA4F; 0x682E6FF3;
    0x748F82EE; 0x78A5636F; 0x84C87814; 0x8CC70208; 0x90BEFFFA; 0xA4506CEB; 0xBEF9A3F7; 0xC67178F2 ].

Definition rotr (x n : Z) : Z := Z.lor (Z.shiftr x n) (u32 (Z.shiftl x (32 - n))).
Definition ch (x y z : Z) : Z := Z.lxor (Z.land x y) (Z.land (not32 x) z).
Definition maj (x y z : Z) : Z := Z.lxor (Z.lxor (Z.land x y) (Z.land x z)) (Z.land y z).
Definition sig0 (x : Z) : Z := Z.lxor (Z.lxor (rotr x 2) (rotr x 13)) (rotr x 22).
Definition sig1 (x : Z) : Z := Z.lxor (Z.lxor (rotr x 6) (rotr x 11)) (rotr x 25).
Definition ep0 (x : Z) : Z := Z.lxor (Z.lxor (rotr x 7) (rotr x 18)) (Z.shiftr x 3).
Definition ep1 (x : Z) : Z := Z.lxor (Z.lxor (rotr x 17) (rotr x 19)) (Z.shiftr x 10).

(** [a[i]] of a fixed-size array that is always long enough. *)
Definition at_ (a : list Z) (i : nat) : Z := nth i a 0.

(** Two lower-case hexadecimal digits, as [std::hex << std::setw(2) << std::setfill('0')]. *)
Definition hex_digit (n : Z) : ascii :=
  if n <? 10 then ascii_of_nat (Z.to_nat (48 + n)) else ascii_of_nat (Z.to_nat (87 + n)).

Fixpoint bytesToHex (bytes : list Z) : string :=
  match bytes with
  | [] => EmptyString
  | b :: bytes' => String (hex_digit (b / 16)) (String (hex_digit (b mod 16)) (bytesToHex bytes'))
  end.

(** * The compression function *)

Definition load_word (block : list Z) (i : nat) : Z :=
  Z.lor (Z.lor (Z.lor (Z.shiftl (at_ block (i * 4)) 24) (Z.shiftl (at_ block (i * 4 + 1)) 16))
               (Z.shiftl (at_ block (i * 4 + 2)) 8))
        (at_ block (i * 4 + 3)).

Definition schedule_step (w : list Z) (i : nat) : list Z :=
  <[i := u32 (ep1 (at_ w (i - 2)) + at_ w (i - 7) + ep0 (at_ w (i - 15)) + at_ w (i - 16))]> w.

Definition schedule (block : list Z) : list Z :=
  let w := (load_word block <$> seq 0 16) ++ replicate 48 0 in
  foldl schedule_step w (seq 16 48).

Record Regs := { ra : Z; rb : Z; rc : Z; rd : Z; re : Z; rf : Z; rg : Z; rh : Z }.

Definition sha_round (w : list Z) (r : Regs) (i : nat) : Regs :=
  let t1 := u32 (rh r + sig1 (re r) + ch (re r) (rf r) (rg r) + at_ kRoundConstants i + at_ w i) in
  let t2 := u32 (sig0 (ra r) + maj (ra r) (rb r) (rc r)) in
  {| ra := u32 (t1 + t2); rb := ra r; rc := rb r; rd := rc r;
     re := u32 (rd r + t1); rf := re r; rg := rf r; rh := rg r |}.

(** [transform], as a function of the chaining state. *)
Definition transform (state : list Z) (block : list Z) : list Z :=
  let w := schedule block in
  let r := foldl (sha_round w)
    {| ra := at_ state 0; rb := at_ state 1; rc := at_ state 2; rd := at_ state 3;
       re := at_ state 4; rf := at_ state 5; rg := at_ state 6; rh := at_ state 7 |} (seq 0 64) in
  [u32 (at_ state 0 + ra r); u32 (at_ state 1 + rb r); u32 (at_ state 2 + rc r);
   u32 (at_ state 3 + rd r); u32 (at_ state 4 + re r); u32 (at_ state 5 + rf r);
   u32 (at_ state 6 + rg r); u32 (at_ state 7 + rh r)].

(** * The incremental context *)

Record Sha256 := {
  state_ : list Z;
  buffer_ : list Z;
  total_bytes_ : Z;
  buffer_len_ : nat;
  finalized_ : bool;
}.

Definition kInitialState : list Z :=
  [0x6a09e667; 0xbb67ae85; 0x3c6ef372; 0xa54ff53a; 0x510e527f; 0x9b05688c; 0x1f83d9ab; 0x5be0cd19].

Definition new_sha256 : Sha256 :=
  {| state_ := kInitialState; buffer_ := replicate 64 0; total_bytes_ := 0;
     buffer_len_ := 0; finalized_ := false |}.

(** The body of the loop of [update]. *)
Definition update_byte (c : Sha256) (byte : Z) : Sha256 :=
  let buffer := <[buffer_len_ c := byte]> (buffer_ c) in
  let len := S (buffer_len_ c) in
  let full := (len =? 64)%nat in
  {| state_ := if full then transform (state_ c) buffer else state_ c;
     buffer_ := buffer;
     total_bytes_ := u64 (total_bytes_ c + 1);
     buffer_len_ := if full then 0 else len;
     finalized_ := finalized_ c |}.

Definition update (c : Sha256) (data : list Z) : option Sha256 :=
  if finalized_ c then None else Some (foldl update_byte c data).

Definition clone (c : Sha256) : Sha256 :=
  {| state_ := state_ c; buffer_ := buffer_ c; total_bytes_ := total_bytes_ c;
     buffer_len_ := buffer_len_ c; finalized_ := finalized_ c |}.

(** [while (buffer_len_ != 56) update(0)]; at most 63 turns are needed. *)
Fixpoint pad_zeros (fuel : nat) (c : Sha256) : option Sha256 :=
  if (buffer_len_ c =? 56)%nat then Some c
  else match fuel with
       | O => None
       | S fuel' => c' ← update c [0]; pad_zeros fuel' c'
       end.

(** The byte [(bit_len >> (i * 8)) & 0xFF] for [i] from 7 down to 0. *)
Definition length_bytes (bit_len : Z) : list Z :=
  (fun i => Z.land (Z.shiftr bit_len (8 * Z.of_nat i)) 0xFF) <$> rev (seq 0 8).

Definition store_word (w : Z) : list Z :=
  [Z.land (Z.shiftr w 24) 0xFF; Z.land (Z.shiftr w 16) 0xFF; Z.land (Z.shiftr w 8) 0xFF; Z.land w 0xFF].

Definition padAndFinalize (c : Sha256) : option (list Z * Sha256) :=
  let bit_len := u64 (total_bytes_ c * 8) in
  c1 ← update c [0x80];
  c2 ← pad_zeros 64 c1;
  c3 ← foldl (fun acc b => c ← acc; update c [b]) (Some c2) (length_bytes bit_len);
  Some (mjoin (store_word <$> state_ c3), c3).

Definition finalizeHex (c : Sha256) : option (string * Sha256) :=
  if finalized_ c then None
  else
    '(digest, c') ← padAndFinalize c;
    Some (bytesToHex digest,
          {| state_ := state_ c'; buffer_ := buffer_ c'; total_bytes_ := total_bytes_ c';
             buffer_len_ := buffer_len_ c'; finalized_ := true |}).

Definition hashHex (data : list Z) : option string :=
  c ← update new_sha256 data;
  '(hex, _) ← finalizeHex c;
  Some hex.

Example hashHex_abc :
  hashHex [97; 98; 99] = Some "ba7816bf8f01cfea414140de5dae2223b00361a396177a9cb410ff61f20015ad"%string.
Proof. vm_compute. reflexivity. Qed.
Example hashHex_empty :
  hashHex [] = Some "e3b0c44298fc1c149afbf4c8996fb92427ae41e4649b934ca495991b7852b855"%string.
Proof. vm_compute. reflexivity. Qed.

(** * Specification: FIPS 180-4 *)

(** Zero bytes between the 0x80 marker and the 8-byte length. *)
Definition zero_count (n : nat) : nat := (119 - n mod 64) mod 64.

Definition pad (m : list Z) : list Z :=
  m ++ [0x80] ++ replicate (zero_count (length m)) 0 ++ length_bytes (u64 (zlen m * 8)).

(** The first [n] 64-byte blocks. *)
Fixpoint blocks (n : nat) (l : list Z) : list (list Z) :=
  match n with
  | O => []
  | S n' => take 64 l :: blocks n' (drop 64 l)
  end.

Definition sha256_digest (m : list Z) : list Z :=
  let p := pad m in
  mjoin (store_word <$> foldl transform kInitialState (blocks (length p / 64) p)).

Definition sha256 (m : list Z) : string := bytesToHex (sha256_digest m).

(** * The incremental context implements the specification *)

(** [c] has absorbed the bytes [m]. *)
Record absorbs (c : Sha256) (m : list Z) (q : nat) : Prop := {
  ab_len : length m = (64 * q + buffer_len_ c)%nat;
  ab_lt : (buffer_len_ c < 64)%nat;
  ab_buffer : length (buffer_ c) = 64%nat;
  ab_rest : take (buffer_len_ c) (buffer_ c) = drop (64 * q) m;
  ab_state : state_ c = foldl transform kInitialState (blocks q m);
  ab_total : total_bytes_ c = u64 (zlen m);
}.

Section Blocks.
Lemma blocks_app n : forall l l', (64 * n <= length l)%nat -> blocks n (l ++ l') = blocks n l.
Proof.
  induction n as [|n IH]; intros l l' Hl; cbn [blocks]; [done|].
  rewrite take_app_le, drop_app_le, IH by (rewrite ?length_drop; lia). done.
Qed.

Lemma blocks_S n : forall l, blocks (S n) l = blocks n l ++ [take 64 (drop (64 * n) l)].
Proof.
  induction n as [|n IH]; intros l; [done|].
  change (blocks (S (S n)) l) with (take 64 l :: blocks (S n) (drop 64 l)).
  rewrite IH. cbn [blocks app]. replace (64 * S n)%nat with (64 + 64 * n)%nat by lia.
  by rewrite <- drop_drop.
Qed.

Lemma length_length_bytes n : length (length_bytes n) = 8%nat.
Proof. reflexivity. Qed.

Lemma zero_count_spec n : ((n + 1 + zero_count n) mod 64 = 56)%nat /\ (zero_count n < 64)%nat.
Proof.
  unfold zero_count. pose proof (Nat.mod_upper_bound n 64). split; [|apply Nat.mod_upper_bound; lia].
  pose proof (Nat.div_mod_eq n 64). remember (n mod 64)%nat as r. remember (n / 64)%nat as d.
  destruct (decide (r <= 55)%nat).
  - replace (119 - r)%nat with ((55 - r) + 1 * 64)%nat by lia.
    rewrite Nat.Div0.mod_add, (Nat.mod_small (55 - r)) by lia.
    replace (n + 1 + (55 - r))%nat with (56 + d * 64)%nat by lia.
    by rewrite Nat.Div0.mod_add.
  - rewrite (Nat.mod_small (119 - r)) by lia.
    replace (n + 1 + (119 - r))%nat with (56 + (d + 1) * 64)%nat by lia.
    by rewrite Nat.Div0.mod_add.
Qed.

Lemma length_pad_mod m : (length (pad m) mod 64 = 0)%nat.
Proof.
  unfold pad. rewrite !length_app, length_replicate, length_length_bytes. simpl.
  destruct (zero_count_spec (length m)) as [H _].
  pose proof (Nat.div_mod_eq (length m + 1 + zero_count (length m)) 64) as Hd. rewrite H in Hd.
  remember ((length m + 1 + zero_count (length m)) / 64)%nat as d.
  replace (length m + S (zero_count (length m) + 8))%nat with (0 + (d + 1) * 64)%nat by lia.
  by rewrite Nat.Div0.mod_add.
Qed.
End Blocks.
#[global] Arguments blocks : simpl never.

Section Absorb.
Lemma new_absorbs : absorbs new_sha256 [] 0.
Proof. constructor; try done. simpl. lia. Qed.

Lemma u64_succ n : u64 (u64 n + 1) = u64 (n + 1).
Proof. unfold u64. by rewrite Zplus_mod_idemp_l. Qed.

Lemma take_insert_snoc (l : list Z) n x : (n < length l)%nat ->
  take (S n) (<[n := x]> l) = take n l ++ [x].
Proof.
  intros Hn. rewrite (take_S_r _ _ x) by (by apply list_lookup_insert_eq).
  by rewrite take_insert_ge by lia.
Qed.

Lemma update_byte_absorbs c m q b : absorbs c m q ->
  exists q', absorbs (update_byte c b) (m ++ [b]) q'.
Proof.
  intros [Hlen Hlt Hbuf Hrest Hstate Htotal].
  assert (drop (64 * q) (m ++ [b]) = drop (64 * q) m ++ [b]) as Hdrop
    by (rewrite drop_app_le by lia; done).
  assert (u64 (total_bytes_ c + 1) = u64 (zlen (m ++ [b]))) as Ht.
  { rewrite Htotal, u64_succ. f_equal. rewrite zlen_app. done. }
  unfold update_byte. destruct (Nat.eqb_spec (S (buffer_len_ c)) 64) as [He|Hne].
  - exists (S q). constructor; cbn [state_ buffer_ buffer_len_ total_bytes_].
    + rewrite length_app. simpl. lia.
    + lia.
    + by rewrite length_insert.
    + rewrite drop_ge; [done|]. rewrite length_app. simpl. lia.
    + rewrite blocks_S, foldl_app, blocks_app by lia. cbn [foldl]. rewrite <- Hstate. f_equal.
      rewrite Hdrop, <- Hrest, <- take_insert_snoc by lia.
      rewrite He, take_ge by (rewrite length_take, length_insert; lia).
      rewrite take_ge; [done|]. rewrite length_insert. lia.
    + done.
  - exists q. constructor; cbn [state_ buffer_ buffer_len_ total_bytes_].
    + rewrite length_app. simpl. lia.
    + lia.
    + by rewrite length_insert.
    + rewrite Hdrop, <- Hrest. apply take_insert_snoc. lia.
    + by rewrite blocks_app by lia.
    + done.
Qed.

Lemma update_bytes_absorbs data : forall c m q, absorbs c m q ->
  exists q', absorbs (foldl update_byte c data) (m ++ data) q'.
Proof.
  induction data as [|b data IH]; intros c m q Hc; simpl.
  - exists q. by rewrite app_nil_r.
  - destruct (update_byte_absorbs c m q b Hc) as [q' Hc'].
    destruct (IH _ _ _ Hc') as [q'' Hc'']. exists q''. by rewrite <- app_assoc in Hc''.
Qed.

Lemma finalized_update_byte data : forall c,
  finalized_ (foldl update_byte c data) = finalized_ c.
Proof. induction data as [|b data IH]; intros c; simpl; [done|]. by rewrite IH. Qed.

(** [update] on a live context. *)
Lemma update_live c m q data : absorbs c m q -> finalized_ c = false ->
  exists c' q', update c data = Some c' /\ absorbs c' (m ++ data) q' /\ finalized_ c' = false.
Proof.
  intros Hc Hf. unfold update. rewrite Hf.
  destruct (update_bytes_absorbs data c m q Hc) as [q' Hc'].
  eexists _, q'. split_and!; [done..|]. by rewrite finalized_update_byte.
Qed.

Lemma update_app c c' data data' :
  update c data = Some c' -> update c (data ++ data') = update c' data'.
Proof.
  unfold update. destruct (finalized_ c) eqn:E; [done|]. intros [= <-].
  by rewrite finalized_update_byte, E, foldl_app.
Qed.
End Absorb.

Section Finalize.
(** The padding loop writes [n] zeros when [n] is what is missing to 56. *)
Lemma pad_zeros_absorbs n : forall fuel c m q, absorbs c m q -> finalized_ c = false ->
  ((length m + n) mod 64 = 56)%nat -> (n < 64)%nat -> (n <= fuel)%nat ->
  exists c' q', pad_zeros fuel c = Some c' /\ absorbs c' (m ++ replicate n 0) q' /\
                finalized_ c' = false.
Proof.
  induction n as [|n IH]; intros fuel c m q Hc Hf Hm Hn Hfuel.
  - rewrite Nat.add_0_r, (ab_len _ _ _ Hc), Nat.add_comm, Nat.mul_comm, Nat.Div0.mod_add,
      Nat.mod_small in Hm by apply (ab_lt _ _ _ Hc).
    exists c, q. rewrite app_nil_r. split_and!; [|done..].
    destruct fuel; simpl; by rewrite Hm.
  - destruct fuel as [|fuel]; [lia|]. simpl.
    destruct (Nat.eqb_spec (buffer_len_ c) 56) as [He|He].
    + exfalso. rewrite (ab_len _ _ _ Hc), He in Hm.
      replace (64 * q + 56 + S n)%nat with (S n + 56 + q * 64)%nat in Hm by lia.
      rewrite Nat.Div0.mod_add in Hm.
      destruct (decide (S n + 56 < 64)%nat); [rewrite Nat.mod_small in Hm; lia|].
      replace (S n + 56)%nat with (S n - 8 + 1 * 64)%nat in Hm by lia.
      rewrite Nat.Div0.mod_add, Nat.mod_small in Hm; lia.
    + destruct (update_live c m q [0] Hc Hf) as (c1 & q1 & -> & Hc1 & Hf1). simpl.
      destruct (IH fuel c1 (m ++ [0]) q1) as (c2 & q2 & -> & Hc2 & Hf2); try done; try lia.
      { rewrite length_app. simpl. by replace (length m + 1 + n)%nat with (length m + S n)%nat by lia. }
      exists c2, q2. split_and!; [done| |done]. by rewrite <- app_assoc in Hc2.
Qed.

Lemma update_each_absorbs data : forall c m q, absorbs c m q -> finalized_ c = false ->
  exists c' q', foldl (fun acc b => c ← acc; update c [b]) (Some c) data = Some c' /\
                absorbs c' (m ++ data) q' /\ finalized_ c' = false.
Proof.
  induction data as [|b data IH]; intros c m q Hc Hf; cbn [foldl].
  - exists c, q. by rewrite app_nil_r.
  - destruct (update_live c m q [b] Hc Hf) as (c1 & q1 & Hu & Hc1 & Hf1). simpl. rewrite Hu.
    destruct (IH c1 _ _ Hc1 Hf1) as (c2 & q2 & -> & Hc2 & Hf2).
    exists c2, q2. by rewrite <- app_assoc in Hc2.
Qed.

(** Finalizing a context that has absorbed [m] gives the hash of [m]. *)
Lemma padAndFinalize_absorbs c m q : absorbs c m q -> finalized_ c = false ->
  exists c', padAndFinalize c = Some (sha256_digest m, c') /\ finalized_ c' = false.
Proof.
  intros Hc Hf. unfold padAndFinalize.
  destruct (update_live c m q [0x80] Hc Hf) as (c1 & q1 & -> & Hc1 & Hf1). cbn [mbind option_bind].
  destruct (zero_count_spec (length m)) as [Hz Hzl].
  destruct (pad_zeros_absorbs (zero_count (length m)) 64 c1 (m ++ [0x80]) q1)
    as (c2 & q2 & -> & Hc2 & Hf2); try done; [by rewrite length_app | lia |]. cbn [mbind option_bind].
  destruct (update_each_absorbs (length_bytes (u64 (total_bytes_ c * 8))) c2 _ _ Hc2 Hf2)
    as (c3 & q3 & -> & Hc3 & Hf3). cbn [mbind option_bind].
  exists c3. split; [|done]. do 3 f_equal. unfold sha256_digest. do 2 f_equal.
  assert (u64 (total_bytes_ c * 8) = u64 (zlen m * 8)) as Htot.
  { rewrite (ab_total _ _ _ Hc). unfold u64. by rewrite Zmult_mod_idemp_l. }
  rewrite Htot, <- !app_assoc in Hc3. fold (pad m) in Hc3.
  rewrite (ab_state _ _ _ Hc3). do 2 f_equal.
  pose proof (length_pad_mod m) as Hmod. pose proof (ab_len _ _ _ Hc3) as Hlen.
  pose proof (ab_lt _ _ _ Hc3).
  rewrite Hlen in Hmod |- *. rewrite Nat.add_comm, Nat.mul_comm in Hmod |- *.
  rewrite Nat.Div0.mod_add, Nat.mod_small in Hmod by done.
  by rewrite Hmod, Nat.div_add, Nat.add_0_l by lia.
Qed.

Lemma finalizeHex_absorbs c m q : absorbs c m q -> finalized_ c = false ->
  exists c', finalizeHex c = Some (sha256 m, c') /\ finalized_ c' = true.
Proof.
  intros Hc Hf. unfold finalizeHex. rewrite Hf.
  destruct (padAndFinalize_absorbs c m q Hc Hf) as (c' & -> & _). simpl. eauto.
Qed.
End Finalize.

Section Streams.
Lemma hashHex_sha256 data : hashHex data = Some (sha256 data).
Proof.
  unfold hashHex. destruct (update_live new_sha256 [] 0 data new_absorbs eq_refl)
    as (c & q & -> & Hc & Hf). cbn [mbind option_bind].
  destruct (finalizeHex_absorbs c data q Hc Hf) as (c' & -> & _). done.
Qed.

(** Feeding a list of pieces. *)
Definition update_all (c : Sha256) (pieces : list (list Z)) : option Sha256 :=
  foldl (fun acc d => c ← acc; update c d) (Some c) pieces.

Lemma update_all_absorbs pieces : forall c m q, absorbs c m q -> finalized_ c = false ->
  exists c' q', update_all c pieces = Some c' /\ absorbs c' (m ++ mjoin pieces) q' /\
                finalized_ c' = false.
Proof.
  unfold update_all. induction pieces as [|d pieces IH]; intros c m q Hc Hf; cbn [foldl mjoin list_join].
  - exists c, q. by rewrite app_nil_r.
  - destruct (update_live c m q d Hc Hf) as (c1 & q1 & Hu & Hc1 & Hf1).
    cbn [mbind option_bind]. rewrite Hu.
    destruct (IH c1 _ _ Hc1 Hf1) as (c2 & q2 & -> & Hc2 & Hf2).
    exists c2, q2. by rewrite <- app_assoc in Hc2.
Qed.

Lemma length_bytesToHex bs : String.length (bytesToHex bs) = (2 * length bs)%nat.
Proof. induction bs as [|b bs IH]; simpl; [done|]. rewrite IH. lia. Qed.

Lemma length_transform s b : length (transform s b) = 8%nat.
Proof. reflexivity. Qed.

Lemma length_foldl_transform bs : forall s, length s = 8%nat -> length (foldl transform s bs) = 8%nat.
Proof. induction bs as [|b bs IH]; intros s Hs; cbn [foldl]; [done|]. by apply IH. Qed.

Lemma length_digest m : length (sha256_digest m) = 32%nat.
Proof.
  unfold sha256_digest.
  assert (forall ws, length (mjoin (store_word <$> ws)) = (4 * length ws)%nat) as Hj.
  { induction ws as [|w ws IH]; [done|]. rewrite fmap_cons.
    change (length (store_word w ++ mjoin (store_word <$> ws)) = (4 * length (w :: ws))%nat).
    rewrite length_app, IH. simpl. lia. }
  by rewrite Hj, length_foldl_transform.
Qed.
End Streams.
#[export] Hint Resolve new_absorbs : mcls.

(** * Properties *)

(** C26. However the input is cut into pieces, the context computes the SHA-256
    of FIPS 180-4 of their concatenation, as 64 hexadecimal digits; a clone
    taken in between gives the hash of the prefix and leaves the original
    undisturbed. *)
Theorem incremental_correct (prefix rest : list (list Z)) :
  exists cp c c' c'',
    update_all new_sha256 prefix = Some cp /\
    finalizeHex (clone cp) = Some (sha256 (mjoin prefix), c') /\
    update_all cp rest = Some c /\
    finalizeHex c = Some (sha256 (mjoin prefix ++ mjoin rest), c'') /\
    String.length (sha256 (mjoin prefix ++ mjoin rest)) = 64%nat.
Proof.
  destruct (update_all_absorbs prefix new_sha256 [] 0 new_absorbs eq_refl)
    as (cp & q & Hp & Hcp & Hfp).
  assert (clone cp = cp) as Hclone by (by destruct cp).
  destruct (finalizeHex_absorbs cp _ q Hcp Hfp) as (c' & Hc' & _).
  destruct (update_all_absorbs rest cp _ q Hcp Hfp) as (c & q2 & Hr & Hc & Hf).
  destruct (finalizeHex_absorbs c _ q2 Hc Hf) as (c'' & Hc'' & _).
  exists cp, c, c', c''. rewrite Hclone. split_and!; try done.
  unfold sha256. by rewrite length_bytesToHex, length_digest.
Qed.

(** A finalized context refuses further use: [update] and a second
    [finalizeHex] throw, and [finalizeHex] of a live context always succeeds. *)
Theorem finalize_once (pieces : list (list Z)) (data : list Z) :
  exists c hex c',
    update_all new_sha256 pieces = Some c /\ finalizeHex c = Some (hex, c') /\
    update c' data = None /\ finalizeHex c' = None.
Proof.
  destruct (update_all_absorbs pieces new_sha256 [] 0 new_absorbs eq_refl) as (c & q & Hu & Hc & Hf).
  destruct (finalizeHex_absorbs c _ q Hc Hf) as (c' & Hfin & Hf').
  exists c, (sha256 (mjoin pieces)), c'. split_and!; [done|done| |].
  - unfold update. by rewrite Hf'.
  - unfold finalizeHex. by rewrite Hf'.
Qed.
