(* ===== verification/DataFlash.v ===== *)
(** [DataFlashValidator] (src/DataFlashValidator.cpp): the structural walk
    over an ArduPilot DataFlash log, and the resync-ratio test in IEEE double
    precision ([SpecFloat]).

    The theorems: the walk terminates and stays in bounds, its counters and
    error cases, and that it accepts every well-formed log (the round trip
    with a writer of FMT records and messages). *)

From S2P Require Import Prelude.
From Stdlib Require Import Floats.SpecFloat.

Definition kHeadByte1 : Z := 0xA3.
Definition kHeadByte2 : Z := 0x95.
Definition kLogFormatType : Z := 0x80.
Definition kMaxFormatTypes : nat := 256.
Definition kFmtSize : nat := 3 + 1 + 1 + 4 + 16 + 64.

Record FormatEntry := { fe_length : Z; fe_defined : bool }.

Record DataFlashValidationResult := {
  ok : bool;
  bytes_scanned : Z;
  resync_count : Z;
  bad_message_count : Z;
  error : string;
}.

(** The locals of [validateBytes]. *)
Record Scan := {
  pos : nat;
  have_fmt : bool;
  formats : list FormatEntry;
  scanned : Z;
  resyncs : Z;
  bad : Z;
}.

Definition scan_start : Scan :=
  {| pos := 0; have_fmt := false;
     formats := replicate kMaxFormatTypes {| fe_length := 0; fe_defined := false |};
     scanned := 0; resyncs := 0; bad := 0 |}.

Definition fail_with (s : Scan) (msg : string) (scanned_at : Z) : DataFlashValidationResult :=
  {| ok := false; bytes_scanned := scanned_at; resync_count := resyncs s;
     bad_message_count := bad s; error := msg |}.

Definition byte_at (data : list Z) (i : nat) : Z := nth i data 0.

Definition format_at (s : Scan) (msg_type : Z) : FormatEntry :=
  nth (Z.to_nat msg_type) (formats s) {| fe_length := 0; fe_defined := false |}.

(** [++pos; ++result.resync_count], and the counters of a bad message. *)
Definition skip_byte (s : Scan) (is_resync is_bad : bool) : Scan :=
  {| pos := S (pos s); have_fmt := have_fmt s; formats := formats s; scanned := scanned s;
     resyncs := if is_resync then u32 (resyncs s + 1) else resyncs s;
     bad := if is_bad then u32 (bad s + 1) else bad s |}.

Definition accept (s : Scan) (len : nat) (fmts : list FormatEntry) (hf : bool) : Scan :=
  {| pos := pos s + len; have_fmt := hf; formats := fmts;
     scanned := Z.of_nat (pos s + len); resyncs := resyncs s; bad := bad s |}.

(** One turn of the loop, at a position with three bytes left. *)
Definition scan_step (data : list Z) (s : Scan) : Scan + DataFlashValidationResult :=
  let size := length data in
  if negb (byte_at data (pos s) =? kHeadByte1) || negb (byte_at data (pos s + 1) =? kHeadByte2)
  then inl (skip_byte s true false)
  else
    let msg_type := byte_at data (pos s + 2) in
    if msg_type =? kLogFormatType then
      if (size <? pos s + kFmtSize)%nat
      then inr (fail_with s "truncated FMT message" (Z.of_nat (pos s)))
      else
        let type_id := byte_at data (pos s + 3) in
        inl (accept s kFmtSize
          (<[Z.to_nat type_id :=
               {| fe_length := byte_at data (pos s + 4); fe_defined := true |}]> (formats s))
          true)
    else if negb (have_fmt s) then inl (skip_byte s true false)
    else if negb (fe_defined (format_at s msg_type)) then inl (skip_byte s true true)
    else
      let msg_len := fe_length (format_at s msg_type) in
      if msg_len <? 3 then inl (skip_byte s false true)
      else if (size <? pos s + Z.to_nat msg_len)%nat
      then inr (fail_with s "message extends past end of file" (Z.of_nat (pos s)))
      else inl (accept s (Z.to_nat msg_len) (formats s) (have_fmt s)).

(** After the loop. *)
Definition scan_end (s : Scan) : DataFlashValidationResult :=
  if negb (have_fmt s) then fail_with s "no FMT bootstrap found" (scanned s)
  else {| ok := true; bytes_scanned := scanned s; resync_count := resyncs s;
          bad_message_count := bad s; error := "" |}.

(** [while (pos + 3 <= size)]; [None] is a loop that ran out of fuel. *)
Fixpoint scan_loop (fuel : nat) (data : list Z) (s : Scan) : option DataFlashValidationResult :=
  if (pos s + 3 <=? length data)%nat then
    match fuel with
    | O => None
    | S fuel' =>
        match scan_step data s with
        | inl s' => scan_loop fuel' data s'
        | inr r => Some r
        end
    end
  else Some (scan_end s).

(** Every turn advances by a byte, so [size] turns are enough. *)
Definition validateBytes (data : list Z) : option DataFlashValidationResult :=
  match data with
  | [] => Some (fail_with scan_start "empty buffer" 0)
  | _ => scan_loop (length data) data scan_start
  end.

Definition validateDataFlashBuffer (data : list Z) : option DataFlashValidationResult :=
  validateBytes data.

(** How opening, measuring and reading the file went. *)
Inductive FileRead :=
| OpenFailed
| StatFailed
| ReadFailed
| Contents (bytes : list Z).

Definition error_result (msg : string) : DataFlashValidationResult :=
  {| ok := false; bytes_scanned := 0; resync_count := 0; bad_message_count := 0; error := msg |}.

Definition validateDataFlashFile (file : FileRead) : option DataFlashValidationResult :=
  match file with
  | OpenFailed => Some (error_result "failed to open file")
  | StatFailed => Some (error_result "failed to stat file")
  | ReadFailed => Some (error_result "failed to read file")
  | Contents bytes => validateBytes bytes
  end.

(** * The resync ratio *)

Definition double := spec_float.
Definition double_of_Z (z : Z) : double := binary_normalize 53 1024 z 0 false.
Definition double_div : double -> double -> double := SFdiv 53 1024.

Definition dataFlashResyncRatioExceeded (result : DataFlashValidationResult) (file_size : Z)
    (max_ratio : double) : bool :=
  if file_size =? 0 then false
  else SFltb max_ratio (double_div (double_of_Z (resync_count result)) (double_of_Z file_size)).

(** * The walk is total and in bounds *)

Definition scan_wf (data : list Z) (s : Scan) : Prop :=
  (pos s <= length data)%nat /\ 0 <= scanned s <= Z.of_nat (pos s) /\
  0 <= resyncs s <= Z.of_nat (pos s) /\ 0 <= bad s <= Z.of_nat (pos s) /\
  length (formats s) = kMaxFormatTypes.

Definition result_wf (data : list Z) (r : DataFlashValidationResult) : Prop :=
  0 <= bytes_scanned r <= zlen data /\ 0 <= resync_count r <= zlen data /\
  0 <= bad_message_count r <= zlen data /\ (ok r = true <-> error r = EmptyString).

Section Walk.
Context (data : list Z) (Hbytes : Forall is_byte data) (Hsize : zlen data < 2 ^ 32).

Lemma byte_at_byte i : is_byte (byte_at data i).
Proof using Hbytes.
  unfold byte_at. destruct (Nat.lt_ge_cases i (length data)) as [Hi|Hi].
  - rewrite Forall_forall in Hbytes. apply Hbytes.
    apply list_elem_of_In, nth_In. done.
  - rewrite nth_overflow by done. unfold is_byte. lia.
Qed.

Lemma skip_byte_wf s b1 b2 : scan_wf data s -> (pos s + 3 <= length data)%nat ->
  scan_wf data (skip_byte s b1 b2).
Proof using Hsize.
  unfold scan_wf, zlen in *. intros (Hp & Hs & Hr & Hb & Hf) Hle. simpl.
  destruct b1, b2; rewrite ?u32_small by lia; split_and!; (done || lia).
Qed.

Lemma accept_wf s n fmts hf : scan_wf data s -> (pos s + n <= length data)%nat ->
  length fmts = kMaxFormatTypes -> scan_wf data (accept s n fmts hf).
Proof. unfold scan_wf. intros (Hp & Hs & Hr & Hb & Hf) Hle Hlen. simpl. split_and!; (done || lia). Qed.

Lemma fail_with_wf s msg : scan_wf data s -> msg <> EmptyString ->
  result_wf data (fail_with s msg (Z.of_nat (pos s))).
Proof. unfold scan_wf, result_wf, zlen. intros (? & ? & ? & ? & ?) Hne. simpl. split_and!; (done || lia). Qed.

(** A turn keeps the state well-formed and moves forward, or ends in an error. *)
Lemma scan_step_wf s : scan_wf data s -> (pos s + 3 <= length data)%nat ->
  match scan_step data s with
  | inl s' => scan_wf data s' /\ (pos s < pos s')%nat
  | inr r => result_wf data r /\ ok r = false
  end.
Proof using Hbytes Hsize.
  intros Hwf Hle. pose proof Hwf as (_ & _ & _ & _ & Hf).
  pose proof (fun b1 b2 => skip_byte_wf s b1 b2 Hwf Hle) as Hskip.
  unfold scan_step. repeat case_bool; simpl; try (split; [by apply Hskip | lia]);
    try (split; [by apply fail_with_wf | done]).
  - rewrite Nat.ltb_ge in *. split; [|unfold kFmtSize; lia].
    apply accept_wf; [done|lia|by rewrite length_insert].
  - rewrite Nat.ltb_ge in *. split; [by apply accept_wf|]. lia.
Qed.

Lemma scan_end_wf s : scan_wf data s -> result_wf data (scan_end s).
Proof.
  unfold scan_wf, result_wf, scan_end, zlen. intros (? & ? & ? & ? & ?).
  case_bool; simpl; split_and!; (done || lia).
Qed.

Lemma scan_loop_total fuel : forall s, scan_wf data s -> (length data <= pos s + fuel)%nat ->
  exists r, scan_loop fuel data s = Some r /\ result_wf data r.
Proof using Hbytes Hsize.
  induction fuel as [|fuel IH]; intros s Hwf Hfuel; simpl.
  - destruct (Nat.leb_spec (pos s + 3) (length data)); [lia|]. eauto using scan_end_wf.
  - destruct (Nat.leb_spec (pos s + 3) (length data)); [|eauto using scan_end_wf].
    pose proof (scan_step_wf s Hwf ltac:(done)) as Hstep.
    destruct (scan_step data s) as [s'|r]; destruct Hstep as [Hwf' Hlt].
    + apply IH; [done|lia].
    + eauto.
Qed.

Lemma scan_start_wf : scan_wf data scan_start.
Proof. unfold scan_wf. simpl. split_and!; (done || lia). Qed.
End Walk.

(** * A writer of DataFlash logs *)

(** The records of a log: a format definition (its 84 bytes of name, format and
    labels uninterpreted) or a message of a defined type. *)
Inductive LogRecord :=
| Fmt (type_id len : Z) (body : list Z)
| Msg (msg_type : Z) (payload : list Z).

Definition encode_record (r : LogRecord) : list Z :=
  match r with
  | Fmt type_id len body => kHeadByte1 :: kHeadByte2 :: kLogFormatType :: type_id :: len :: body
  | Msg msg_type payload => kHeadByte1 :: kHeadByte2 :: msg_type :: payload
  end.

Definition encode (rs : list LogRecord) : list Z := mjoin (encode_record <$> rs).

Definition define_format (type_id len : Z) (fmts : list FormatEntry) : list FormatEntry :=
  <[Z.to_nat type_id := {| fe_length := len; fe_defined := true |}]> fmts.

Definition format_of (fmts : list FormatEntry) (msg_type : Z) : FormatEntry :=
  nth (Z.to_nat msg_type) fmts {| fe_length := 0; fe_defined := false |}.

(** A record a correct writer can emit when the formats [fmts] are defined. *)
Definition record_wf (hf : bool) (fmts : list FormatEntry) (r : LogRecord) : Prop :=
  match r with
  | Fmt type_id len body => length body = 84%nat
  | Msg msg_type payload =>
      hf = true /\ msg_type <> kLogFormatType /\
      fe_defined (format_of fmts msg_type) = true /\
      fe_length (format_of fmts msg_type) = 3 + zlen payload
  end.

Definition after_record (fmts : list FormatEntry) (r : LogRecord) : list FormatEntry :=
  match r with Fmt type_id len _ => define_format type_id len fmts | Msg _ _ => fmts end.

Fixpoint records_wf (hf : bool) (fmts : list FormatEntry) (rs : list LogRecord) : Prop :=
  match rs with
  | [] => True
  | r :: rs' => record_wf hf fmts r /\ records_wf true (after_record fmts r) rs'
  end.

Definition log_wf (rs : list LogRecord) : Prop := records_wf false (formats scan_start) rs.

Section RoundTrip.
Lemma byte_at_app pre l i : byte_at (pre ++ l) (length pre + i) = byte_at l i.
Proof. unfold byte_at. rewrite app_nth2 by lia. f_equal. lia. Qed.

Lemma encode_cons r rs : encode (r :: rs) = encode_record r ++ encode rs.
Proof. reflexivity. Qed.

Lemma encode_record_long hf fmts r : record_wf hf fmts r -> (3 <= length (encode_record r))%nat.
Proof. destruct r; simpl; lia. Qed.

(** A record followed by anything is read in one turn. *)
Lemma scan_step_record pre r post s :
  pos s = length pre -> record_wf (have_fmt s) (formats s) r ->
  scan_step (pre ++ encode_record r ++ post) s =
    inl (accept s (length (encode_record r)) (after_record (formats s) r) true).
Proof.
  intros Hp Hr. unfold scan_step. rewrite Hp.
  rewrite <- (Nat.add_0_r (length pre)), <- !Nat.add_assoc, !byte_at_app.
  destruct r as [type_id len body | msg_type payload]; simpl in Hr; simpl encode_record.
  - unfold byte_at. simpl. replace (_ <? _)%nat with false; [|symmetry; apply Nat.ltb_ge;
      unfold kFmtSize; rewrite !length_app; simpl; rewrite length_app; lia].
    unfold after_record, define_format, kFmtSize. simpl. by rewrite Hr.
  - destruct Hr as (Hhf & Hne & Hdef & Hlen). unfold byte_at. simpl.
    replace (msg_type =? kLogFormatType) with false by lia.
    unfold format_at. fold (format_of (formats s) msg_type). rewrite Hhf, Hdef, Hlen. simpl.
    replace (3 + zlen payload <? 3) with false by (unfold zlen; ztest).
    replace (Z.to_nat (3 + zlen payload)) with (S (S (S (length payload)))) by (unfold zlen; lia).
    replace (_ <? _)%nat with false; [done|]. symmetry. apply Nat.ltb_ge.
    rewrite !length_app. simpl. rewrite length_app. lia.
Qed.

(** The state after reading some records. *)
Fixpoint after_records (s : Scan) (rs : list LogRecord) : Scan :=
  match rs with
  | [] => s
  | r :: rs' =>
      after_records (accept s (length (encode_record r)) (after_record (formats s) r) true) rs'
  end.

Lemma scan_loop_records rs : forall fuel pre post s,
  pos s = length pre -> records_wf (have_fmt s) (formats s) rs ->
  scan_loop (length rs + fuel) (pre ++ encode rs ++ post) s =
    scan_loop fuel (pre ++ encode rs ++ post) (after_records s rs).
Proof.
  induction rs as [|r rs IH]; intros fuel pre post s Hp Hwf; [done|].
  destruct Hwf as [Hr Hrs]. pose proof (encode_record_long _ _ _ Hr) as Hlong.
  rewrite encode_cons, <- app_assoc. cbn [length Nat.add scan_loop after_records].
  replace (_ <=? _)%nat with true
    by (symmetry; apply Nat.leb_le; rewrite !length_app, Hp; lia).
  rewrite scan_step_record by done.
  rewrite app_assoc. apply IH; [|done]. simpl. rewrite length_app. lia.
Qed.

Lemma after_records_state rs : forall s, rs <> [] ->
  pos (after_records s rs) = (pos s + length (encode rs))%nat /\
  have_fmt (after_records s rs) = true /\
  scanned (after_records s rs) = Z.of_nat (pos s + length (encode rs)) /\
  resyncs (after_records s rs) = resyncs s /\ bad (after_records s rs) = bad s.
Proof.
  induction rs as [|r rs IH]; intros s Hne; [done|]. rewrite encode_cons, length_app.
  cbn [after_records]. destruct rs as [|r' rs].
  - simpl. rewrite Nat.add_0_r. done.
  - destruct (IH (accept s (length (encode_record r)) (after_record (formats s) r) true))
      as (-> & -> & -> & -> & ->); [done|]. simpl. split_and!; (done || lia).
Qed.

Lemma records_length rs : forall hf fmts, records_wf hf fmts rs ->
  (length rs <= length (encode rs))%nat.
Proof.
  induction rs as [|r rs IH]; intros hf fmts Hwf; [done|]. destruct Hwf as [Hr Hrs].
  rewrite encode_cons, length_app. pose proof (encode_record_long _ _ _ Hr).
  specialize (IH _ _ Hrs). simpl. lia.
Qed.

(** Reading a well-formed log followed by [post] comes down to reading [post]. *)
Lemma validate_log rs post : rs <> [] -> log_wf rs ->
  exists fuel, (length post <= fuel)%nat /\
    validateBytes (encode rs ++ post) =
      scan_loop fuel (encode rs ++ post) (after_records scan_start rs).
Proof.
  intros Hne Hwf. pose proof (records_length rs _ _ Hwf) as Hlen.
  exists (length (encode rs ++ post) - length rs)%nat. split; [rewrite length_app; lia|].
  pose proof (scan_loop_records rs (length (encode rs ++ post) - length rs) [] post scan_start eq_refl Hwf)
    as Hloop. simpl app in Hloop. rewrite <- Hloop.
  replace (length rs + (length (encode rs ++ post) - length rs))%nat
    with (length (encode rs ++ post)) by (rewrite length_app; lia).
  unfold validateBytes. destruct (encode rs ++ post) eqn:E; [|done].
  destruct rs as [|r rs]; [done|]. destruct Hwf as [Hr _].
  pose proof (encode_record_long _ _ _ Hr). rewrite encode_cons in E.
  destruct (encode_record r); simpl in *; [lia|done].
Qed.

Lemma records_wf_snoc rs r : forall s, records_wf (have_fmt s) (formats s) (rs ++ [r]) ->
  records_wf (have_fmt s) (formats s) rs /\
  record_wf (have_fmt (after_records s rs)) (formats (after_records s rs)) r.
Proof.
  induction rs as [|r' rs IH]; intros s Hwf; simpl in *; [tauto|].
  destruct Hwf as [Hr' Hwf].
  destruct (IH (accept s (length (encode_record r')) (after_record (formats s) r') true) Hwf)
    as [? ?]. done.
Qed.

(** A record that is cut after its header stops the walk. *)
Lemma scan_step_truncated pre r n s :
  pos s = length pre -> record_wf (have_fmt s) (formats s) r ->
  (3 <= n < length (encode_record r))%nat ->
  scan_step (pre ++ take n (encode_record r)) s =
    inr (fail_with s (match r with Fmt _ _ _ => "truncated FMT message"
                      | Msg _ _ => "message extends past end of file" end)
           (Z.of_nat (pos s))).
Proof.
  intros Hp Hr Hn. unfold scan_step. rewrite Hp.
  rewrite <- (Nat.add_0_r (length pre)), <- !Nat.add_assoc, !byte_at_app, Nat.add_0_r.
  destruct n as [|[|[|n]]]; [lia..|]. rewrite length_app, length_take.
  destruct r as [type_id len body | msg_type payload]; simpl in Hr, Hn; simpl encode_record.
  - unfold byte_at. simpl. unfold kFmtSize.
    replace (_ <? _)%nat with true; [done|]. ztest.
  - destruct Hr as (Hhf & Hne & Hdef & Hlen). unfold byte_at. simpl.
    replace (msg_type =? kLogFormatType) with false by lia.
    unfold format_at. fold (format_of (formats s) msg_type). rewrite Hhf, Hdef, Hlen. simpl.
    replace (3 + zlen payload <? 3) with false by (unfold zlen; ztest).
    replace (_ <? _)%nat with true; [done|]. unfold zlen. ztest.
Qed.
End RoundTrip.

(** The walk ends on any bytes: each step moves on. *)
Section Progress.
Lemma scan_step_progress data s s' : scan_step data s = inl s' -> (pos s < pos s')%nat.
Proof.
  unfold scan_step. repeat case_bool; intros [= <-]; simpl; unfold kFmtSize; lia.
Qed.

Lemma scan_loop_some data fuel : forall s, (length data <= fuel + pos s)%nat ->
  exists r, scan_loop fuel data s = Some r.
Proof.
  induction fuel as [|fuel IH]; intros s Hf; simpl.
  - destruct (Nat.leb_spec (pos s + 3) (length data)); [lia|eauto].
  - destruct (Nat.leb_spec (pos s + 3) (length data)); [|eauto].
    destruct (scan_step data s) as [s'|r] eqn:E; [|eauto].
    apply scan_step_progress in E. apply IH. lia.
Qed.

Lemma validateBytes_some data : exists r, validateBytes data = Some r.
Proof. unfold validateBytes. destruct data; [eauto|]. apply scan_loop_some. lia. Qed.
End Progress.

(** * Properties *)

(** The walk terminates on every buffer below 4 GiB, with a definite result
    whose counters are bounded by the size, and which is ok exactly when it
    carries no error message. *)
Theorem validate_total (data : list Z) :
  Forall is_byte data -> zlen data < 2 ^ 32 ->
  exists r, validateDataFlashBuffer data = Some r /\
    0 <= bytes_scanned r <= zlen data /\ 0 <= resync_count r <= zlen data /\
    0 <= bad_message_count r <= zlen data /\ (ok r = true <-> error r = EmptyString).
Proof.
  intros Hb Hs. unfold validateDataFlashBuffer, validateBytes.
  destruct data as [|b data].
  - eexists. split; [done|]. simpl. unfold zlen. simpl. split_and!; (done || lia).
  - apply (scan_loop_total _ Hb Hs); [apply scan_start_wf|]. simpl. lia.
Qed.

Lemma validate_total_witness :
  exists r, validateDataFlashBuffer [0; 1; 2; 3; 4; 5] = Some r /\
    0 <= bytes_scanned r <= 6 /\ 0 <= resync_count r <= 6 /\
    0 <= bad_message_count r <= 6 /\ (ok r = true <-> error r = EmptyString).
Proof. apply (validate_total [0; 1; 2; 3; 4; 5]); [repeat constructor; done | done]. Defined.

(** C32. Every well-formed log is accepted: it is read record by record to its
    last byte, with no resynchronisation and no bad message. *)
Theorem validate_roundtrip (rs : list LogRecord) :
  rs <> [] -> log_wf rs ->
  validateDataFlashBuffer (encode rs) =
    Some {| ok := true; bytes_scanned := zlen (encode rs); resync_count := 0;
            bad_message_count := 0; error := "" |}.
Proof.
  intros Hne Hwf. destruct (validate_log rs [] Hne Hwf) as (fuel & _ & Hv).
  rewrite app_nil_r in Hv. unfold validateDataFlashBuffer. rewrite Hv.
  destruct (after_records_state rs scan_start Hne) as (Hp & Hhf & Hsc & Hre & Hba).
  destruct fuel; simpl; rewrite Hp; simpl;
    (replace (_ <=? _)%nat with false by (symmetry; apply Nat.leb_gt; lia));
    unfold scan_end; rewrite Hhf, Hsc, Hre, Hba; done.
Qed.

Definition sample_log : list LogRecord :=
  [Fmt 42 5 (replicate 84 66); Msg 42 [7; 8]; Fmt 43 3 (replicate 84 76); Msg 43 []; Msg 42 [1; 2]].

Lemma validate_roundtrip_witness :
  validateDataFlashBuffer (encode sample_log) =
    Some {| ok := true; bytes_scanned := zlen (encode sample_log); resync_count := 0;
            bad_message_count := 0; error := "" |}.
Proof. apply (validate_roundtrip sample_log); [done|]. vm_compute. intuition congruence. Defined.

(** A log cut inside a record is rejected, as long as the record's three
    header bytes are there: an error is reported at the end of the part that
    was complete. *)
Theorem validate_truncated (rs : list LogRecord) (r : LogRecord) (n : nat) :
  rs <> [] -> log_wf (rs ++ [r]) -> (3 <= n < length (encode_record r))%nat ->
  exists res, validateDataFlashBuffer (encode rs ++ take n (encode_record r)) = Some res /\
    ok res = false /\ bytes_scanned res = zlen (encode rs) /\ resync_count res = 0 /\
    error res = match r with Fmt _ _ _ => "truncated FMT message"
                           | Msg _ _ => "message extends past end of file" end%string.
Proof.
  intros Hne Hwf Hn. destruct (records_wf_snoc rs r scan_start Hwf) as [Hrs Hr].
  destruct (validate_log rs (take n (encode_record r)) Hne Hrs) as (fuel & Hfuel & Hv).
  destruct (after_records_state rs scan_start Hne) as (Hp & Hhf & Hsc & Hre & Hba).
  unfold validateDataFlashBuffer. rewrite Hv. rewrite length_take in Hfuel.
  destruct fuel as [|fuel]; [lia|]. cbn [scan_loop].
  replace (_ <=? _)%nat with true
    by (rewrite Hp, length_app, length_take; simpl; ztest).
  rewrite scan_step_truncated by done.
  eexists. split; [done|]. simpl. rewrite Hp, Hre. done.
Qed.

Lemma validate_truncated_witness :
  exists res, validateDataFlashBuffer (encode [Fmt 42 5 (replicate 84 66)] ++
                                       take 4 (encode_record (Msg 42 [7; 8]))) = Some res /\
    ok res = false /\ bytes_scanned res = zlen (encode [Fmt 42 5 (replicate 84 66)]) /\
    resync_count res = 0 /\ error res = "message extends past end of file"%string.
Proof.
  apply (validate_truncated [Fmt 42 5 (replicate 84 66)] (Msg 42 [7; 8]) 4); [done| |simpl; lia].
  vm_compute. intuition congruence.
Defined.

Example resync_ratio_examples :
  let r := {| ok := true; bytes_scanned := 0; resync_count := 4000; bad_message_count := 0;
              error := "" |} in
  let ratio n := double_div (double_of_Z 1) (double_of_Z n) in
  dataFlashResyncRatioExceeded r 3000000 (ratio 1000) = true /\
  dataFlashResyncRatioExceeded r 3000000 (ratio 100) = false /\
  dataFlashResyncRatioExceeded r 3000000 S754_nan = false.
Proof. vm_compute. done. Qed.
