(* ===== verification/FcSampleOffsets.v ===== *)
(** [buildFcSampleOffsets] (src/FcSampleOffsets.cpp): the offsets of the
    chunks that are read again from the flight controller after a download:
    seven anchors, then pseudo-random slots from a xorshift generator seeded
    with the log's identity.  [std::set<uint32_t>] is the strictly increasing
    list of its elements. *)

From S2P Require Import Prelude LogProtocol.
From Stdlib Require Import Sorting.Sorted.

Definition kFcSampleAnchorCount : Z := 7.

Definition nybble (c : Z) : Z :=
  if (48 <=? c) && (c <=? 57) then u8 (c - 48)
  else if (97 <=? c) && (c <=? 102) then u8 (10 + c - 97)
  else if (65 <=? c) && (c <=? 70) then u8 (10 + c - 65)
  else 0.

Definition char_codes (s : string) : list Z :=
  (fun c => Z.of_nat (nat_of_ascii c)) <$> list_ascii_of_string s.

(** The loop of [seedFromParams]: [i] = 0, 2, .., 14 while [i < size]. *)
Definition seed_step (hex : list Z) (seed : Z) (i : nat) : Z :=
  if (i <? length hex)%nat then
    let hi := nth i hex 0 in
    let lo := if (i + 1 <? length hex)%nat then nth (i + 1) hex 0 else 48 in
    Z.lxor seed (u64 (Z.shiftl (Z.lor (Z.shiftl (nybble hi) 4) (nybble lo)) (Z.of_nat (i * 2))))
  else seed.

Definition seedFromParams (fc_log_id fc_log_size : Z) (sha256_hex : string) : Z :=
  let seed0 := Z.lxor (u64 (Z.shiftl fc_log_id 32)) fc_log_size in
  let seed := foldl (seed_step (char_codes sha256_hex)) seed0 [0; 2; 4; 6; 8; 10; 12; 14]%nat in
  if seed =? 0 then 1 else seed.

(** The new state; the value returned is its low 32 bits. *)
Definition xorshift64 (state : Z) : Z :=
  let s1 := Z.lxor state (u64 (Z.shiftl state 13)) in
  let s2 := Z.lxor s1 (Z.shiftr s1 7) in
  Z.lxor s2 (u64 (Z.shiftl s2 17)).

Fixpoint set_insert (x : Z) (s : list Z) : list Z :=
  match s with
  | [] => [x]
  | y :: s' => if x <? y then x :: s else if x =? y then s else y :: set_insert x s'
  end.

Definition addAnchor (out : list Z) (size offset : Z) : list Z :=
  if size <? kLogChunkSize then out
  else
    let max_ofs := size - kLogChunkSize in
    if offset <=? max_ofs then set_insert (alignDownToChunk offset) out else out.

Definition add_anchors (size : Z) : list Z :=
  let c := kLogChunkSize in
  let o := addAnchor [] size 0 in
  let o := addAnchor o size c in
  let o := addAnchor o size (size / 4) in
  let o := addAnchor o size (size / 2) in
  let o := addAnchor o size (u32 (3 * size) / 4) in
  let o := if u32 (2 * c) <=? size then addAnchor o size (size - 2 * c) else o in
  addAnchor o size (size - c).

(** The sampling loop; [attempts] counts down from [random_want * 20]. *)
Fixpoint sample_loop (attempts : nat) (total_samples max_slot rng : Z) (offsets : list Z) : list Z :=
  match attempts with
  | O => offsets
  | S attempts' =>
      if i32 (zlen offsets) <? total_samples then
        let rng' := xorshift64 rng in
        let slot := u32 rng' mod u32 (max_slot + 1) in
        sample_loop attempts' total_samples max_slot rng'
                    (set_insert (u32 (slot * kLogChunkSize)) offsets)
      else offsets
  end.

Definition buildFcSampleOffsets (size total_samples fc_log_id fc_log_size : Z)
    (sha256_hex : string) : list Z :=
  if (size <? kLogChunkSize) || (total_samples <=? 0) then []
  else
    let max_slot := chunkSlotIndex (size - kLogChunkSize) in
    let anchors := add_anchors size in
    let random_want := Z.max 0 (total_samples - i32 (zlen anchors)) in
    let rng := seedFromParams fc_log_id fc_log_size sha256_hex in
    let result := sample_loop (Z.to_nat (random_want * 20)) total_samples max_slot rng anchors in
    if total_samples <? i32 (zlen result) then take (Z.to_nat total_samples) result else result.

(** * Sets as increasing lists *)

Section Sets.
Lemma set_insert_spec x s y : y ∈ set_insert x s <-> y = x \/ y ∈ s.
Proof.
  induction s as [|z s IH]; simpl; [set_solver|].
  repeat case_bool; subst; rewrite ?elem_of_cons, ?IH; tauto.
Qed.

Lemma set_insert_sorted x s : StronglySorted Z.lt s -> StronglySorted Z.lt (set_insert x s).
Proof.
  induction 1 as [|z s Hs IH Hall]; simpl; [repeat constructor|].
  repeat case_bool.
  - constructor; [by constructor|]. constructor; [done|].
    eapply Forall_impl; [exact Hall|]. simpl. lia.
  - by constructor.
  - constructor; [done|]. rewrite Forall_forall in Hall |- *.
    intros w [->|Hw]%set_insert_spec; [lia|by apply Hall].
Qed.

Lemma set_insert_length x s : (length s <= length (set_insert x s) <= S (length s))%nat.
Proof. induction s as [|z s IH]; simpl; [lia|]. repeat case_bool; simpl; lia. Qed.
End Sets.

(** * The sampled offsets *)

(** A valid sample of a log: a chunk-aligned offset with a whole chunk after it. *)
Definition valid_offset (size ofs : Z) : Prop :=
  0 <= ofs /\ ofs mod kLogChunkSize = 0 /\ ofs + kLogChunkSize <= size.

Definition valid_set (size : Z) (s : list Z) : Prop :=
  StronglySorted Z.lt s /\ Forall (valid_offset size) s.

Section Sampling.
Context (size : Z) (Hsize : is_u32 size).

Lemma insert_valid x s : valid_set size s -> valid_offset size x -> valid_set size (set_insert x s).
Proof.
  intros [Hs Hv] Hx. split; [by apply set_insert_sorted|]. rewrite Forall_forall in Hv |- *.
  intros y [->|Hy]%set_insert_spec; auto.
Qed.

Lemma addAnchor_valid out offset : valid_set size out -> 0 <= offset ->
  valid_set size (addAnchor out size offset).
Proof using Hsize.
  intros Hout Ho. unfold addAnchor. repeat case_bool; try done.
  apply insert_valid; [done|]. unfold is_u32 in Hsize.
  destruct (alignDownToChunk_spec offset) as (Heq & Hb & Hm);
    [unfold is_u32, kLogChunkSize in *; lia|].
  unfold valid_offset, chunkSlotIndex, kLogChunkSize in *. split_and!; [zmod|done|lia].
Qed.

Lemma addAnchor_length out offset :
  (length out <= length (addAnchor out size offset) <= S (length out))%nat.
Proof. unfold addAnchor. repeat case_bool; try lia. apply set_insert_length. Qed.

Lemma addAnchor_incl out offset y : y ∈ out -> y ∈ addAnchor out size offset.
Proof. unfold addAnchor. repeat case_bool; try done. intros. apply set_insert_spec. by right. Qed.

Lemma addAnchor_in out offset : kLogChunkSize <= size -> offset <= size - kLogChunkSize ->
  alignDownToChunk offset ∈ addAnchor out size offset.
Proof.
  intros. unfold addAnchor. repeat case_bool; try lia. apply set_insert_spec. by left.
Qed.

Lemma add_anchors_valid : kLogChunkSize <= size -> valid_set size (add_anchors size).
Proof using Hsize.
  intros Hc. unfold add_anchors, is_u32, kLogChunkSize in *.
  cbv zeta. change (u32 (2 * 90)) with 180.
  pose proof (u32_range (3 * size)) as H3. remember (u32 (3 * size)) as x3 eqn:E3; clear E3.
  assert (valid_set size []) by (split; constructor).
  repeat case_bool; repeat apply addAnchor_valid; try done; zmod.
Qed.

Lemma add_anchors_length : (length (add_anchors size) <= 7)%nat.
Proof.
  unfold add_anchors. cbv zeta.
  assert (forall o x k, (length o <= k)%nat -> (length (addAnchor o size x) <= S k)%nat) as Hs
    by (intros o x k ?; etrans; [apply addAnchor_length|lia]).
  assert (forall (b : bool) o x k, (length o <= k)%nat ->
            (length (if b then addAnchor o size x else o) <= S k)%nat) as Hi
    by (intros [] o x k ?; auto).
  apply Hs, Hi. do 5 apply Hs. simpl. lia.
Qed.

(** The last whole chunk and the middle of the log are anchors. *)
Lemma add_anchors_mem : kLogChunkSize <= size ->
  0 ∈ add_anchors size /\ alignDownToChunk (size - kLogChunkSize) ∈ add_anchors size /\
  (2 * kLogChunkSize <= size -> alignDownToChunk (size / 2) ∈ add_anchors size).
Proof.
  intros Hc. unfold add_anchors. cbv zeta. split_and!.
  - refine (_ : alignDownToChunk 0 ∈ _).
    case_bool; repeat first [apply (addAnchor_in _ 0); lia | apply addAnchor_incl].
  - apply addAnchor_in; lia.
  - intros H2.
    assert (size / 2 <= size - kLogChunkSize) by (unfold kLogChunkSize in *; zmod).
    case_bool; repeat first [apply (addAnchor_in _ (size / 2)); lia | apply addAnchor_incl].
Qed.

Lemma sample_loop_valid n : forall total max_slot rng s,
  kLogChunkSize <= size -> max_slot = chunkSlotIndex (size - kLogChunkSize) ->
  valid_set size s -> valid_set size (sample_loop n total max_slot rng s).
Proof using Hsize.
  induction n as [|n IH]; intros total max_slot rng s Hc Hm Hs; simpl; [done|].
  case_bool; [|done]. apply IH; [done..|]. apply insert_valid; [done|].
  unfold is_u32, chunkSlotIndex, kLogChunkSize in *.
  rewrite (u32_small (max_slot + 1)) by zmod.
  assert (0 <= u32 (xorshift64 rng) mod (max_slot + 1) <= max_slot) as Hslot.
  { pose proof (Z.mod_pos_bound (u32 (xorshift64 rng)) (max_slot + 1)). zmod. }
  remember (u32 (xorshift64 rng) mod (max_slot + 1)) as slot.
  assert (slot * 90 <= size - 90) by zmod.
  rewrite u32_small by lia. unfold valid_offset, kLogChunkSize. split_and!; [lia| |lia].
  apply Z.mod_mul. lia.
Qed.

Lemma sample_loop_incl n : forall total max_slot rng s y,
  y ∈ s -> y ∈ sample_loop n total max_slot rng s.
Proof.
  induction n as [|n IH]; intros total max_slot rng s y Hy; simpl; [done|].
  case_bool; [|done]. apply IH, set_insert_spec. by right.
Qed.

(** The loop never grows the set past the number of samples wanted. *)
Lemma sample_loop_length n : forall total max_slot rng s, total < 2 ^ 31 ->
  zlen s <= total -> zlen (sample_loop n total max_slot rng s) <= total.
Proof.
  induction n as [|n IH]; intros total max_slot rng s Ht Hs; simpl; [done|].
  pose proof (zlen_nonneg s). rewrite i32_small by lia. case_bool; [|done].
  apply IH; [done|]. unfold zlen in *. match goal with |- context [set_insert ?x s] =>
    pose proof (set_insert_length x s) end. lia.
Qed.

(** ... and leaves it alone when it already has that many. *)
Lemma sample_loop_over n total max_slot rng s bound : total <= bound < 2 ^ 31 ->
  zlen s <= bound -> zlen (sample_loop n total max_slot rng s) <= bound.
Proof.
  intros Hb. revert rng s. induction n as [|n IH]; intros rng s Hs; simpl; [done|].
  pose proof (zlen_nonneg s). rewrite i32_small by lia. case_bool; [|done].
  apply IH. unfold zlen in *. match goal with |- context [set_insert ?x s] =>
    pose proof (set_insert_length x s) end. lia.
Qed.

Lemma take_valid n s : valid_set size s -> valid_set size (take n s).
Proof.
  intros [Hs Hv]. split; [|by apply Forall_take]. revert n.
  induction Hs as [|x s Hs IH Hall]; intros [|n]; simpl; try constructor.
  - apply IH. by inversion Hv.
  - by apply Forall_take.
Qed.
End Sampling.

Lemma seed_range id fc_size sha : is_u32 id -> is_u32 fc_size ->
  0 <= foldl (seed_step (char_codes sha)) (Z.lxor (u64 (Z.shiftl id 32)) fc_size)
         [0; 2; 4; 6; 8; 10; 12; 14]%nat < 2 ^ 64.
Proof.
  intros Hid Hsz. generalize [0; 2; 4; 6; 8; 10; 12; 14]%nat as idx.
  assert (0 <= Z.lxor (u64 (Z.shiftl id 32)) fc_size < 2 ^ 64) as H0
    by (apply lxor_range; [lia|apply u64_range|unfold is_u32 in *; lia]).
  generalize dependent (Z.lxor (u64 (Z.shiftl id 32)) fc_size).
  intros s Hs idx. revert s Hs. induction idx as [|i idx IH]; intros s Hs; [done|].
  cbn [foldl]. apply IH. unfold seed_step. case_bool; [|done].
  apply lxor_range; [lia|done|apply u64_range].
Qed.

(** Every sampled offset is chunk-aligned and has a whole 90-byte chunk
    of the log after it, the offsets are strictly increasing, and there are at
    most as many as asked for. *)
Theorem buildFcSampleOffsets_valid size total id fc_size sha :
  is_u32 size -> total < 2 ^ 31 ->
  valid_set size (buildFcSampleOffsets size total id fc_size sha) /\
  zlen (buildFcSampleOffsets size total id fc_size sha) <= Z.max 0 total.
Proof.
  intros Hsize Ht. unfold buildFcSampleOffsets.
  destruct ((size <? kLogChunkSize) || (total <=? 0))%bool eqn:E; zb.
  { split; [split; constructor|unfold zlen; simpl; lia]. }
  cbv zeta. set (r := sample_loop _ _ _ _ _).
  assert (valid_set size r) as Hr
    by (apply sample_loop_valid; try done; by apply add_anchors_valid).
  case_bool; [split; [by apply take_valid|unfold zlen; rewrite length_take; lia]|].
  split; [done|]. assert (zlen (add_anchors size) <= 7) by
    (unfold zlen; pose proof (add_anchors_length size); lia).
  destruct (Z.le_gt_cases (zlen (add_anchors size)) total).
  - assert (zlen r <= total) by (by apply sample_loop_length). lia.
  - assert (zlen r <= 7) as Hr7 by (apply sample_loop_over; lia).
    pose proof (zlen_nonneg r). rewrite i32_small in Heqb by lia. lia.
Qed.

Lemma buildFcSampleOffsets_valid_witness :
  (is_u32 1000 /\ 12 < 2 ^ 31) /\
  valid_set 1000 (buildFcSampleOffsets 1000 12 3 1000 "9f") /\
  zlen (buildFcSampleOffsets 1000 12 3 1000 "9f") <= Z.max 0 12.
Proof.
  split; [unfold is_u32; lia|]. apply (buildFcSampleOffsets_valid 1000 12 3 1000 "9f"); unfold is_u32; lia.
Defined.

(** The first chunk is sampled whenever the log has one and a sample is asked for: it
    comes first, so that the truncation keeps it. *)
Lemma first_chunk_sampled size total id fc_size sha :
  is_u32 size -> kLogChunkSize <= size -> 0 < total < 2 ^ 31 ->
  0 ∈ buildFcSampleOffsets size total id fc_size sha.
Proof.
  intros Hsize Hc Ht. destruct (add_anchors_mem size) as (H0 & _ & _); [done|].
  unfold buildFcSampleOffsets.
  destruct ((size <? kLogChunkSize) || (total <=? 0))%bool eqn:E;
    [apply orb_true_iff in E as [E|E]; zb; unfold kLogChunkSize in *; lia|].
  cbv zeta. set (r := sample_loop _ _ _ _ _).
  assert (valid_set size r) as [Hsorted Hvalid] by (apply sample_loop_valid; try done; by apply add_anchors_valid).
  assert (0 ∈ r) as Hin by by apply sample_loop_incl.
  case_bool; [|done]. destruct (Z.to_nat total) as [|n] eqn:En; [lia|].
  destruct Hsorted as [|x r' Hs Hx]; [by apply not_elem_of_nil in Hin|].
  apply elem_of_cons in Hin as [<-|Hin]; [by left|]. rewrite Forall_forall in Hx, Hvalid.
  specialize (Hx 0 Hin). destruct (Hvalid x ltac:(by left)). lia.
Qed.

(** With at least seven samples (one per anchor) the first chunk, the
    last whole chunk and the chunk at the middle of the log are always among
    the samples: the final truncation never removes an anchor. *)
Theorem buildFcSampleOffsets_anchors size total id fc_size sha :
  is_u32 size -> 2 * kLogChunkSize <= size -> kFcSampleAnchorCount <= total < 2 ^ 31 ->
  0 ∈ buildFcSampleOffsets size total id fc_size sha /\
  alignDownToChunk (size - kLogChunkSize) ∈ buildFcSampleOffsets size total id fc_size sha /\
  alignDownToChunk (size / 2) ∈ buildFcSampleOffsets size total id fc_size sha.
Proof.
  unfold kFcSampleAnchorCount. intros Hsize Hc Ht.
  destruct (add_anchors_mem size) as (H0 & Hl & Hm); [unfold kLogChunkSize in *; lia|].
  unfold buildFcSampleOffsets.
  destruct ((size <? kLogChunkSize) || (total <=? 0))%bool eqn:E;
    [apply orb_true_iff in E as [E|E]; zb; unfold kLogChunkSize in *; lia|].
  cbv zeta. rewrite (proj2 (Z.ltb_ge total _)); [auto using sample_loop_incl|].
  set (r := sample_loop _ _ _ _ _). assert (zlen r <= total) as Hr.
  { apply sample_loop_length; [lia|]. unfold zlen. pose proof (add_anchors_length size). lia. }
  pose proof (zlen_nonneg r). rewrite i32_small by lia. done.
Qed.

Lemma buildFcSampleOffsets_anchors_witness :
  (is_u32 1000 /\ 2 * kLogChunkSize <= 1000 /\ kFcSampleAnchorCount <= 7 < 2 ^ 31) /\
  0 ∈ buildFcSampleOffsets 1000 7 3 1000 "9f" /\
  alignDownToChunk (1000 - kLogChunkSize) ∈ buildFcSampleOffsets 1000 7 3 1000 "9f" /\
  alignDownToChunk (1000 / 2) ∈ buildFcSampleOffsets 1000 7 3 1000 "9f".
Proof.
  split; [unfold is_u32, kLogChunkSize, kFcSampleAnchorCount; lia|].
  apply (buildFcSampleOffsets_anchors 1000 7 3 1000 "9f");
    unfold is_u32, kLogChunkSize, kFcSampleAnchorCount; lia.
Defined.

(** * The generator *)

Lemma xor_shiftl_nonzero s n : 0 < n -> Z.gcd (2 ^ 64) (2 ^ n - 1) = 1 ->
  0 < s < 2 ^ 64 -> 0 < Z.lxor s (u64 (Z.shiftl s n)) < 2 ^ 64.
Proof.
  intros Hn Hg Hs. pose proof (u64_range (Z.shiftl s n)) as Hr.
  destruct (lxor_range 64 s (u64 (Z.shiftl s n))) as [H0 Hlt]; [lia..|].
  enough (Z.lxor s (u64 (Z.shiftl s n)) <> 0) by lia.
  intros [=Heq]%Z.lxor_eq. unfold u64 in Heq. rewrite Z.shiftl_mul_pow2 in Heq by lia.
  assert (2 ^ 64 | (2 ^ n - 1) * s) as Hd.
  { exists (s * 2 ^ n / 2 ^ 64). pose proof (Z.div_mod (s * 2 ^ n) (2 ^ 64)). lia. }
  apply Z.gauss in Hd as [k Hk]; [|done]. nia.
Qed.

Lemma xor_shiftr_nonzero s n : 0 < n -> 0 < s < 2 ^ 64 -> 0 < Z.lxor s (Z.shiftr s n) < 2 ^ 64.
Proof.
  intros Hn Hs. rewrite Z.shiftr_div_pow2 by lia.
  assert (1 < 2 ^ n) by (apply Z.pow_gt_1; lia).
  assert (0 <= s / 2 ^ n < s) by (split; [apply Z.div_pos; lia|apply Z.div_lt; lia]).
  destruct (lxor_range 64 s (s / 2 ^ n)) as [H1 Hlt]; [lia..|].
  enough (Z.lxor s (s / 2 ^ n) <> 0) by lia. intros ?%Z.lxor_eq. lia.
Qed.

(** The sampling generator is never stuck at zero: every seed is a
    non-zero 64-bit state and [xorshift64] keeps it so. *)
Theorem xorshift64_live id fc_size sha n :
  is_u32 id -> is_u32 fc_size ->
  0 < Nat.iter n xorshift64 (seedFromParams id fc_size sha) < 2 ^ 64.
Proof.
  intros Hid Hsz. induction n as [|n IH]; cbn [Nat.iter].
  - pose proof (seed_range id fc_size sha Hid Hsz) as Hr. unfold seedFromParams. cbv zeta.
    revert Hr. generalize (foldl (seed_step (char_codes sha))
      (Z.lxor (u64 (Z.shiftl id 32)) fc_size) [0; 2; 4; 6; 8; 10; 12; 14]%nat).
    intros s Hs. simpl. case_bool; lia.
  - unfold xorshift64. apply xor_shiftl_nonzero; [lia|done|].
    apply xor_shiftr_nonzero; [lia|]. apply xor_shiftl_nonzero; [lia|done|exact IH].
Qed.

Lemma xorshift64_live_witness :
  (is_u32 3 /\ is_u32 1000) /\ 0 < Nat.iter 5 xorshift64 (seedFromParams 3 1000 "9f") < 2 ^ 64.
Proof. 
  assert (is_u32 3 /\ is_u32 1000) as [Hi Hs] by (unfold is_u32; lia).
  split; [done|]. exact (xorshift64_live 3 1000 "9f" 5 Hi Hs).
Defined.
