(* ===== verification/Session.v ===== *)
(** [StreamDownloadSession] (src/StreamDownloadSession.cpp): the streaming
    download of one log, with its retries, gap fills and hashing.

    The session talks to the [LogDownloader] that owns it (queue of received
    chunks, requests, cancel flag, clock) through the interface
    [SessionOwner]; every operation of the interface may also let the other
    threads run.  Logging and the benchmark log lines are left out. *)

From S2P Require Import Prelude Effects LogProtocol Types ReceivedRanges ChunkCoverage Sha256.

(** [LogDownloader::LogDataChunk]. *)
Record LogDataChunk := {
  c_id : Z;
  c_offset : Z;
  c_count : Z;
  c_data : list Z;
}.

(** * The owner's interface *)

(** The operations of [owner_], the steady clock (in nanoseconds), the
    sleeping functions and the device behind the output file.  Each maps the
    world before the call to its answer and the world after it. *)
Class SessionOwner (W : Type) := {
  cancelled : W -> bool * W;
  drainLogDataChunks : Z -> W -> list LogDataChunk * W;
  clearLogDataChunks : W -> unit * W;
  sendLogRequestData : Z -> Z -> Z -> W -> bool * W;
  sendLogRequestEnd : W -> unit * W;
  zeroLengthDataCount : W -> Z * W;
  waitForLogDataNotify : Z -> W -> unit * W;
  interruptibleSleep : Z -> W -> unit * W;
  sleep_for : Z -> W -> unit * W;
  classifyTransferTimeout : W -> ArchiveFailureReason * W;
  updateProgressBytes : Z -> W -> unit * W;
  abortLogTransfer : string -> W -> unit * W;
  steady_now : W -> Z * W;
  device_ok : W -> bool * W;
}.

Definition ms (n : Z) : Z := n * 1000000.
Definition seconds (n : Z) : Z := n * 1000000000.

(** * Output file *)

(** An [std::ofstream]: once an operation failed, the stream ignores the rest. *)
Record File := { f_good : bool; f_bytes : list Z }.

Definition new_file : File := {| f_good := true; f_bytes := [] |}.

(** Overwrite from [ofs] on; a gap past the end of the file reads as zeros. *)
Definition write_bytes (ofs : Z) (data bytes : list Z) : list Z :=
  let o := Z.to_nat ofs in
  take o (bytes ++ replicate (o - length bytes) 0) ++ data ++ drop (o + length data) bytes.

(** * Parameters and state *)

Record Params := {
  p_log_id : Z;
  p_byte_offset : Z;
  p_byte_count : Z;
  p_probe_bytes : Z;
  p_write_file : bool;
}.

Record StreamDownloadResult := {
  sr_success : bool;
  sr_failure : ArchiveFailureReason;
  sr_metrics : StreamDownloadMetrics;
  sr_ranges : Ranges;
  sr_sha256 : string;
  sr_probe_sha256 : string;
  sr_probe_bytes : Z;
}.

(** What [processQueuedChunks] takes by reference. *)
Record Transfer := {
  x_file : File;
  x_ranges : Ranges;
  x_coverage : Tracker;
  x_hasher : Sha256;
  x_probe_finalized : bool;
  x_hashed_bytes : Z;
  x_probe_sha256 : string;
  x_saw_short_eof : bool;
  x_metrics : StreamDownloadMetrics;
}.

(** The other locals of [run]; a zero [last_gap_request] is the epoch. *)
Record RunState := {
  r_transfer : Transfer;
  r_failure : ArchiveFailureReason;
  r_no_progress_attempts : Z;
  r_last_progress_bytes : Z;
  r_last_data_time : Z;
  r_last_gap_request : Z;
  r_fc_busy_waits : Z;
}.

Definition probe_length (p : Params) : Z := u32 (Z.min (p_probe_bytes p) (i32 (p_byte_count p))).

(** The end of the requested bytes, [byte_offset + byte_count]. *)
Definition stop_offset (p : Params) : Z := u32 (p_byte_offset p + p_byte_count p).

Definition count_packet (x : Transfer) : Transfer :=
  let m := x_metrics x in
  {| x_file := x_file x; x_ranges := x_ranges x; x_coverage := x_coverage x;
     x_hasher := x_hasher x; x_probe_finalized := x_probe_finalized x;
     x_hashed_bytes := x_hashed_bytes x; x_probe_sha256 := x_probe_sha256 x;
     x_saw_short_eof := x_saw_short_eof x;
     x_metrics :=
       {| m_duplicate_packets := m_duplicate_packets m;
          m_gap_fill_requests := m_gap_fill_requests m;
          m_log_data_packets := u64 (m_log_data_packets m + 1);
          m_log_request_packets := m_log_request_packets m;
          m_retries := m_retries m;
          m_overlap_conflicts := m_overlap_conflicts m;
          m_queue_depth_max := m_queue_depth_max m |} |}.

(** [queue_depth] raises the metric's maximum. *)
Definition note_queue_depth (depth : Z) (x : Transfer) : Transfer :=
  let m := x_metrics x in
  {| x_file := x_file x; x_ranges := x_ranges x; x_coverage := x_coverage x;
     x_hasher := x_hasher x; x_probe_finalized := x_probe_finalized x;
     x_hashed_bytes := x_hashed_bytes x; x_probe_sha256 := x_probe_sha256 x;
     x_saw_short_eof := x_saw_short_eof x;
     x_metrics :=
       {| m_duplicate_packets := m_duplicate_packets m;
          m_gap_fill_requests := m_gap_fill_requests m;
          m_log_data_packets := m_log_data_packets m;
          m_log_request_packets := m_log_request_packets m;
          m_retries := m_retries m;
          m_overlap_conflicts := m_overlap_conflicts m;
          m_queue_depth_max :=
            if m_queue_depth_max m <? depth then depth else m_queue_depth_max m |} |}.

Definition count_duplicate (dup : bool) (m : StreamDownloadMetrics) : StreamDownloadMetrics :=
  {| m_duplicate_packets :=
       if dup then u64 (m_duplicate_packets m + 1) else m_duplicate_packets m;
     m_gap_fill_requests := m_gap_fill_requests m;
     m_log_data_packets := m_log_data_packets m;
     m_log_request_packets := m_log_request_packets m;
     m_retries := m_retries m;
     m_overlap_conflicts := m_overlap_conflicts m;
     m_queue_depth_max := m_queue_depth_max m |}.

(** The bytes of a chunk to keep: its offset, and its length cut at the end of
    the requested bytes; [None] where the loop says [continue]. *)
Definition accept_chunk (p : Params) (chunk : LogDataChunk) : option (Z * Z) :=
  if (c_offset chunk <? p_byte_offset p) || (stop_offset p <=? c_offset chunk) then None
  else
    let write_ofs := c_offset chunk in
    let write_len :=
      if stop_offset p <? u32 (write_ofs + c_count chunk)
      then u32 (stop_offset p - write_ofs) else c_count chunk in
    if write_len =? 0 then None else Some (write_ofs, write_len).

(** Feed the hasher, and take the probe digest when the probe length is reached. *)
Definition hash_chunk (probe_n : Z) (data : list Z) (write_len : Z) (x : Transfer)
  : option (Sha256 * bool * string) :=
  if negb (x_probe_finalized x) && (probe_n <=? u32 (x_hashed_bytes x + write_len)) then
    let probe_take := u32 (probe_n - x_hashed_bytes x) in
    h1 ← (if 0 <? probe_take then update (x_hasher x) (take (Z.to_nat probe_take) data)
          else Some (x_hasher x));
    '(probe, _) ← finalizeHex (clone h1);
    h2 ← (if probe_take <? write_len
          then update h1 (take (Z.to_nat (write_len - probe_take)) (drop (Z.to_nat probe_take) data))
          else Some h1);
    Some (h2, true, probe)
  else
    h1 ← update (x_hasher x) (take (Z.to_nat write_len) data);
    Some (h1, x_probe_finalized x, x_probe_sha256 x).

(** Assignments to one local of [run]. *)
Definition set_transfer (x : Transfer) (s : RunState) : RunState :=
  {| r_transfer := x; r_failure := r_failure s;
     r_no_progress_attempts := r_no_progress_attempts s;
     r_last_progress_bytes := r_last_progress_bytes s;
     r_last_data_time := r_last_data_time s;
     r_last_gap_request := r_last_gap_request s;
     r_fc_busy_waits := r_fc_busy_waits s |}.

Definition set_failure (f : ArchiveFailureReason) (s : RunState) : RunState :=
  {| r_transfer := r_transfer s; r_failure := f;
     r_no_progress_attempts := r_no_progress_attempts s;
     r_last_progress_bytes := r_last_progress_bytes s;
     r_last_data_time := r_last_data_time s;
     r_last_gap_request := r_last_gap_request s;
     r_fc_busy_waits := r_fc_busy_waits s |}.

Definition set_progress (received now : Z) (s : RunState) : RunState :=
  {| r_transfer := r_transfer s; r_failure := r_failure s;
     r_no_progress_attempts := 0;
     r_last_progress_bytes := received;
     r_last_data_time := now;
     r_last_gap_request := r_last_gap_request s;
     r_fc_busy_waits := r_fc_busy_waits s |}.

Definition set_data_time (now : Z) (s : RunState) : RunState :=
  {| r_transfer := r_transfer s; r_failure := r_failure s;
     r_no_progress_attempts := r_no_progress_attempts s;
     r_last_progress_bytes := r_last_progress_bytes s;
     r_last_data_time := now;
     r_last_gap_request := r_last_gap_request s;
     r_fc_busy_waits := r_fc_busy_waits s |}.

Definition set_gap_request (now : Z) (s : RunState) : RunState :=
  {| r_transfer := r_transfer s; r_failure := r_failure s;
     r_no_progress_attempts := r_no_progress_attempts s;
     r_last_progress_bytes := r_last_progress_bytes s;
     r_last_data_time := r_last_data_time s;
     r_last_gap_request := now;
     r_fc_busy_waits := r_fc_busy_waits s |}.

Definition count_no_progress (s : RunState) : RunState :=
  {| r_transfer := r_transfer s; r_failure := r_failure s;
     r_no_progress_attempts := r_no_progress_attempts s + 1;
     r_last_progress_bytes := r_last_progress_bytes s;
     r_last_data_time := r_last_data_time s;
     r_last_gap_request := r_last_gap_request s;
     r_fc_busy_waits := r_fc_busy_waits s |}.

(** An FC-busy wait drops the timeout classification. *)
Definition count_busy_wait (s : RunState) : RunState :=
  {| r_transfer := r_transfer s; r_failure := NoFailure;
     r_no_progress_attempts := r_no_progress_attempts s;
     r_last_progress_bytes := r_last_progress_bytes s;
     r_last_data_time := r_last_data_time s;
     r_last_gap_request := r_last_gap_request s;
     r_fc_busy_waits := r_fc_busy_waits s + 1 |}.

(** Change the metrics of the transfer. *)
Definition with_metrics (f : StreamDownloadMetrics -> StreamDownloadMetrics) (s : RunState)
  : RunState :=
  let x := r_transfer s in
  set_transfer
    {| x_file := x_file x; x_ranges := x_ranges x; x_coverage := x_coverage x;
       x_hasher := x_hasher x; x_probe_finalized := x_probe_finalized x;
       x_hashed_bytes := x_hashed_bytes x; x_probe_sha256 := x_probe_sha256 x;
       x_saw_short_eof := x_saw_short_eof x; x_metrics := f (x_metrics x) |} s.

(** The increments of [log_request_packets], [gap_fill_requests], [retries]. *)
Definition count_requests (requests gap_fills retries : Z) (m : StreamDownloadMetrics)
  : StreamDownloadMetrics :=
  {| m_duplicate_packets := m_duplicate_packets m;
     m_gap_fill_requests := u64 (m_gap_fill_requests m + gap_fills);
     m_log_data_packets := m_log_data_packets m;
     m_log_request_packets := u64 (m_log_request_packets m + requests);
     m_retries := u64 (m_retries m + retries);
     m_overlap_conflicts := m_overlap_conflicts m;
     m_queue_depth_max := m_queue_depth_max m |}.

Definition note_conflicts (t : Tracker) (m : StreamDownloadMetrics) : StreamDownloadMetrics :=
  {| m_duplicate_packets := m_duplicate_packets m;
     m_gap_fill_requests := m_gap_fill_requests m;
     m_log_data_packets := m_log_data_packets m;
     m_log_request_packets := m_log_request_packets m;
     m_retries := m_retries m;
     m_overlap_conflicts := overlap_conflicts t;
     m_queue_depth_max := m_queue_depth_max m |}.

(** How the transfer loop ends, and how the attempts end. *)
Inductive LoopExit := SessionDone | LoopLeft | OverlapFound.
Inductive RunExit := ReturnNow | Finished | Exhausted.

(** The result returned on the paths that fail. *)
Definition failed_result (p : Params) (s : RunState) : StreamDownloadResult :=
  {| sr_success := false;
     sr_failure := r_failure s;
     sr_metrics := x_metrics (r_transfer s);
     sr_ranges := [];
     sr_sha256 := "";
     sr_probe_sha256 := x_probe_sha256 (r_transfer s);
     sr_probe_bytes := i32 (probe_length p) |}.

Section Program.
Context {W : Type} `{SessionOwner W}.
Context (settings : DownloadSettings) (p : Params).

(** [file.seekp(ofs); file.write(data)]. *)
Definition file_write (ofs : Z) (data : list Z) (f : File) : M W File :=
  if f_good f then
    ok ← op device_ok;
    mret (if ok : bool then {| f_good := true; f_bytes := write_bytes ofs data (f_bytes f) |}
          else {| f_good := false; f_bytes := f_bytes f |})
  else mret f.

Definition file_flush (f : File) : M W File :=
  if f_good f then
    ok ← op device_ok;
    mret {| f_good := ok; f_bytes := f_bytes f |}
  else mret f.

(** One turn of the loop of [processQueuedChunks]; [false] is its [return false]. *)
Definition process_chunk (chunk : LogDataChunk) (x0 : Transfer) : M W (bool * Transfer) :=
  let x := count_packet x0 in
  match accept_chunk p chunk with
  | None => mret (true, x)
  | Some (write_ofs, write_len) =>
      let slots_before := slots_received (x_coverage x) in
      file ← (if p_write_file p
              then file_write write_ofs (take (Z.to_nat write_len) (c_data chunk)) (x_file x)
              else mret (x_file x));
      let '(recorded, coverage) :=
        ChunkCoverage.record (x_coverage x) write_ofs (c_data chunk) write_len
          (detect_overlap_conflict settings) in
      if negb recorded then
        mret (false,
          {| x_file := file; x_ranges := x_ranges x; x_coverage := coverage;
             x_hasher := x_hasher x; x_probe_finalized := x_probe_finalized x;
             x_hashed_bytes := x_hashed_bytes x; x_probe_sha256 := x_probe_sha256 x;
             x_saw_short_eof := x_saw_short_eof x; x_metrics := x_metrics x |})
      else
        let dup := (slots_received coverage =? slots_before) &&
                   (write_ofs mod kLogChunkSize =? 0) in
        '(hasher, finalized, probe) ←
          or_throw "Sha256 context already finalized"
            (hash_chunk (probe_length p) (c_data chunk) write_len x);
        mret (true,
          {| x_file := file;
             x_ranges := ReceivedRanges.add (x_ranges x) write_ofs write_len;
             x_coverage := coverage;
             x_hasher := hasher;
             x_probe_finalized := finalized;
             x_hashed_bytes := u32 (x_hashed_bytes x + write_len);
             x_probe_sha256 := probe;
             x_saw_short_eof :=
               ((write_len <? kLogChunkSize) && (u32 (write_ofs + write_len) =? stop_offset p))
               || x_saw_short_eof x;
             x_metrics := count_duplicate dup (x_metrics x) |})
  end.

Fixpoint process_chunks (chunks : list LogDataChunk) (x : Transfer) : M W (bool * Transfer) :=
  match chunks with
  | [] => mret (true, x)
  | chunk :: chunks' =>
      '(continue, x') ← process_chunk chunk x;
      if continue : bool then process_chunks chunks' x' else mret (false, x')
  end.

Definition processQueuedChunks (x : Transfer) : M W (bool * Transfer) :=
  chunks ← op (drainLogDataChunks (p_log_id p));
  process_chunks chunks (note_queue_depth (zlen chunks) x).

(** [while (req_start + coalesced < end) coalesced += c]. *)
Fixpoint coalesce (fuel : nat) (req_start stop coalesced : Z) : option Z :=
  if u32 (req_start + coalesced) <? stop then
    match fuel with
    | O => None
    | S fuel' => coalesce fuel' req_start stop (u32 (coalesced + kLogChunkSize))
    end
  else Some coalesced.

(** [while (req_start < end)]: the requests for one gap. *)
Fixpoint request_gap (fuel : nat) (req_start stop : Z) : M W unit :=
  if req_start <? stop then
    match fuel with
    | O => out_of_fuel
    | S fuel' =>
        match coalesce fuel req_start stop kLogChunkSize with
        | None => out_of_fuel
        | Some coalesced =>
            let req_count := Z.min (Z.min (stop - req_start) coalesced) kLogStreamRequestCount in
            op (sendLogRequestData (p_log_id p) req_start req_count);;
            request_gap fuel' (u32 (req_start + req_count)) stop
        end
    end
  else mret tt.

(** Where the requests for the gap begin. *)
Definition gap_start (gap_offset gap_count : Z) : Z :=
  let start := alignDownToChunk gap_offset in
  let start := if start <? gap_offset then u32 (start + kLogChunkSize) else start in
  if u32 (gap_offset + gap_count) <=? start then gap_offset else start.

Fixpoint request_gaps (fuel : nat) (gaps : list (Z * Z)) : M W unit :=
  match gaps with
  | [] => mret tt
  | (gap_offset, gap_count) :: gaps' =>
      (if gap_count =? 0 then mret tt
       else request_gap fuel (gap_start gap_offset gap_count) (u32 (gap_offset + gap_count)));;
      request_gaps fuel gaps'
  end.

Definition requestMergedGaps (fuel : nat) (r : Ranges) (total_size : Z) : M W unit :=
  request_gaps fuel (gaps r total_size).

(** [if (received > last_progress_bytes)]. *)
Definition note_progress (s : RunState) : M W RunState :=
  let received := bytesReceived (x_ranges (r_transfer s)) in
  if r_last_progress_bytes s <? received then
    now ← op steady_now;
    op (updateProgressBytes received);;
    mret (set_progress received now s)
  else mret s.

(** Ask again for the missing bytes once no data came for the idle time. *)
Definition fill_gaps (fuel : nat) (range_complete : bool) (now : Z) (s : RunState) : M W RunState :=
  let idle := ms (gap_fill_idle_ms settings) in
  if negb range_complete && (idle <=? now - r_last_data_time s) &&
     ((r_last_gap_request s =? 0) || (idle <=? now - r_last_gap_request s))
  then
    requestMergedGaps fuel (x_ranges (r_transfer s)) (p_byte_count p);;
    mret (set_gap_request now (with_metrics (count_requests 0 1 0) s))
  else mret s.

(** The loop [while (!owner_.cancelled())]. *)
Fixpoint transfer_loop (fuel : nat) (s0 : RunState) : M W (LoopExit * RunState) :=
  match fuel with
  | O => out_of_fuel
  | S fuel' =>
      stop ← op cancelled;
      if stop : bool then mret (LoopLeft, s0)
      else
        '(ok, x) ← processQueuedChunks (r_transfer s0);
        let s := set_transfer x s0 in
        if negb ok then
          mret (OverlapFound,
                set_failure OverlapConflict (with_metrics (note_conflicts (x_coverage x)) s))
        else
          s ← note_progress s;
          let range_complete := complete (x_ranges x) (p_byte_count p) in
          let slots_complete := allSlotsReceived (x_coverage x) in
          if range_complete && slots_complete then mret (SessionDone, s)
          else
            now ← op steady_now;
            s ← fill_gaps fuel range_complete now s;
            if seconds (download_timeout_sec settings) <=? now - r_last_data_time s then
              why ← op classifyTransferTimeout;
              mret (LoopLeft, set_failure why (with_metrics (count_requests 0 0 1) s))
            else
              op (waitForLogDataNotify (ms 10));;
              transfer_loop fuel' s
  end.

(** The first request of an attempt. *)
Definition request_stream (attempt before : Z) (s : RunState) : M W RunState :=
  if (before =? 0) || (0 <? attempt) then
    op (sendLogRequestData (p_log_id p) (p_byte_offset p) kLogStreamRequestCount);;
    now ← op steady_now;
    mret (set_data_time now (with_metrics (count_requests 1 0 0) s))
  else mret s.

(** [bytesReceived() == 0 && zeroLengthDataCount() > zero_len_before && ...]. *)
Definition fc_busy (zero_len_before : Z) (s : RunState) : M W bool :=
  if bytesReceived (x_ranges (r_transfer s)) =? 0 then
    zeros ← op zeroLengthDataCount;
    mret ((zero_len_before <? zeros) && (r_fc_busy_waits s <? fc_busy_retry_attempts settings))
  else mret false.

(** The loop over the attempts. *)
Fixpoint attempts (fuel : nat) (attempt : Z) (s0 : RunState) : M W (RunExit * RunState) :=
  match fuel with
  | O => out_of_fuel
  | S fuel' =>
      if retry_count settings <? attempt then mret (Exhausted, s0)
      else
        stop ← op cancelled;
        if stop : bool then mret (ReturnNow, set_failure ReasonCancelled s0)
        else
          let before := bytesReceived (x_ranges (r_transfer s0)) in
          zero_len_before ← op zeroLengthDataCount;
          s ← request_stream attempt before s0;
          '(exit, s) ← transfer_loop fuel s;
          match exit with
          | OverlapFound => mret (ReturnNow, s)
          | SessionDone => mret (Finished, s)
          | LoopLeft =>
              busy ← fc_busy zero_len_before s;
              if busy : bool then
                op clearLogDataChunks;;
                op sendLogRequestEnd;;
                op (interruptibleSleep (seconds (fc_busy_retry_delay_sec settings)));;
                attempts fuel' attempt (count_busy_wait s)
              else
                let stalled := bytesReceived (x_ranges (r_transfer s)) <=? before in
                let s := if stalled then count_no_progress s else s in
                if stalled && (stall_abort_attempts settings <=? r_no_progress_attempts s) then
                  op (abortLogTransfer "no forward progress");;
                  mret (ReturnNow,
                        if bool_decide (r_failure s = NoFailure) then set_failure NoProgress s else s)
                else
                  (if attempt <? retry_count settings then
                     op clearLogDataChunks;;
                     op sendLogRequestEnd;;
                     op (sleep_for (seconds (retry_delay_sec settings)))
                   else mret tt);;
                  attempts fuel' (attempt + 1) s
          end
  end.

(** The end of [run] for a transfer that got every byte. *)
Definition finish_success (s : RunState) : M W StreamDownloadResult :=
  let x := r_transfer s in
  if 0 <? overlap_conflicts (x_coverage x) then
    mret (failed_result p (set_failure OverlapConflict s))
  else
    probe ← (if probe_length p =? 0 then or_throw "" (hashHex [])
             else if negb (x_probe_finalized x)
             then or_throw "Sha256 context already finalized" (fst <$> finalizeHex (clone (x_hasher x)))
             else mret (x_probe_sha256 x));
    '(digest, _) ← or_throw "Sha256 context already finalized" (finalizeHex (x_hasher x));
    mret {| sr_success := true;
            sr_failure := r_failure s;
            sr_metrics := note_conflicts (x_coverage x) (x_metrics x);
            sr_ranges := x_ranges x;
            sr_sha256 := digest;
            sr_probe_sha256 := probe;
            sr_probe_bytes := i32 (probe_length p) |}.

Definition initial_transfer (file : File) : Transfer :=
  {| x_file := file; x_ranges := []; x_coverage := new_tracker (p_byte_count p);
     x_hasher := new_sha256; x_probe_finalized := false; x_hashed_bytes := 0;
     x_probe_sha256 := ""; x_saw_short_eof := false; x_metrics := no_metrics |}.

Definition initial_state (file : File) (now : Z) : RunState :=
  {| r_transfer := initial_transfer file; r_failure := NoFailure; r_no_progress_attempts := 0;
     r_last_progress_bytes := 0; r_last_data_time := now; r_last_gap_request := 0;
     r_fc_busy_waits := 0 |}.

(** [run]: the result, and the file it wrote to. *)
Definition run (fuel : nat) (file : File) : M W (StreamDownloadResult * File) :=
  if p_byte_count p =? 0 then
    digest ← or_throw "" (hashHex []);
    mret ({| sr_success := true; sr_failure := NoFailure; sr_metrics := no_metrics;
             sr_ranges := []; sr_sha256 := digest; sr_probe_sha256 := digest;
             sr_probe_bytes := p_probe_bytes p |}, file)
  else
    start_time ← op steady_now;
    op clearLogDataChunks;;
    '(exit, s) ← attempts fuel 0 (initial_state file start_time);
    let x := r_transfer s in
    match exit with
    | ReturnNow => mret (failed_result p s, x_file x)
    | _ =>
        flushed ← (if p_write_file p then file_flush (x_file x) else mret (x_file x));
        match exit with
        | Finished =>
            result ← finish_success s;
            mret (result, flushed)
        | _ =>
            let why :=
              if bool_decide (r_failure s = NoFailure)
              then (if complete (x_ranges x) (p_byte_count p) then VerificationFailed
                    else IncompleteDownload)
              else r_failure s in
            mret (failed_result p (set_failure why s), flushed)
        end
    end.
End Program.

(** * What the owner promises *)

(** [clock] is the steady clock; no operation turns it back, and a wait takes
    time.  [Good] is an invariant of the owner and of the threads running beside
    the session, under which a drain for a log gives [good_chunk]s of that log. *)
Definition harmless {W A} (Good : W -> Prop) (clock : W -> Z) (f : W -> A * W) : Prop :=
  forall w, Good w -> Good (f w).2 /\ clock w <= clock (f w).2.

Class SessionOwnerLaws (W : Type) `{SessionOwner W} (Good : W -> Prop)
    (good_chunk : LogDataChunk -> Prop) (clock : W -> Z) : Prop := {
  cancelled_harmless : harmless Good clock cancelled;
  drain_harmless : forall id, harmless Good clock (drainLogDataChunks id);
  clear_harmless : harmless Good clock clearLogDataChunks;
  request_harmless : forall id o n, harmless Good clock (sendLogRequestData id o n);
  end_harmless : harmless Good clock sendLogRequestEnd;
  zeros_harmless : harmless Good clock zeroLengthDataCount;
  wait_harmless : forall d, harmless Good clock (waitForLogDataNotify d);
  interruptible_harmless : forall d, harmless Good clock (interruptibleSleep d);
  sleep_harmless : forall d, harmless Good clock (sleep_for d);
  classify_harmless : harmless Good clock classifyTransferTimeout;
  progress_harmless : forall n, harmless Good clock (updateProgressBytes n);
  abort_harmless : forall why, harmless Good clock (abortLogTransfer why);
  now_harmless : harmless Good clock steady_now;
  device_harmless : harmless Good clock device_ok;
  drain_good : forall id w, Good w ->
    Forall (fun c => good_chunk c /\ c_id c = id) (drainLogDataChunks id w).1;
  now_clock : forall w, Good w -> (steady_now w).1 = clock (steady_now w).2;
  wait_advances : forall d w, Good w -> 0 < d -> clock w < clock (waitForLogDataNotify d w).2;
}.

(** Prove that an operation of the owner is harmless. *)
Ltac harmless_op :=
  first [ apply cancelled_harmless | apply drain_harmless | apply clear_harmless
        | apply request_harmless | apply end_harmless | apply zeros_harmless
        | apply wait_harmless | apply interruptible_harmless | apply sleep_harmless
        | apply classify_harmless | apply progress_harmless | apply abort_harmless
        | apply now_harmless | apply device_harmless ].

(** A LOG_DATA chunk as the wire can carry it: a uint32 offset and 1 to 255 bytes. *)
Definition chunk_wf (c : LogDataChunk) : Prop :=
  is_u32 (c_offset c) /\ 0 < c_count c <= 255 /\ zlen (c_data c) = c_count c.

(** The chunk carries bytes of the log [l]. *)
Definition chunk_of (l : list Z) (c : LogDataChunk) : Prop :=
  forall i : nat, (i < length (c_data c))%nat -> c_offset c + Z.of_nat i < zlen l ->
    c_data c !! i = l !! (Z.to_nat (c_offset c) + i)%nat.

(** * Gap requests *)

Section GapRequests.
Context {W : Type} `{SessionOwner W} (p : Params).

Lemma coalesce_spec fuel : forall req_start stop coalesced,
  0 <= req_start -> 0 <= coalesced -> stop + kLogChunkSize <= 2 ^ 32 ->
  req_start + coalesced < 2 ^ 32 -> stop - req_start - coalesced <= Z.of_nat fuel ->
  exists c, coalesce fuel req_start stop coalesced = Some c /\ stop <= req_start + c.
Proof.
  unfold kLogChunkSize.
  induction fuel as [|fuel IH]; intros req_start stop coalesced Hr Hc Hs Hlt Hf; simpl;
    rewrite u32_small by lia; case_bool; try (exists coalesced; split; [done|lia]); [lia|].
  unfold kLogChunkSize. rewrite u32_small by lia. apply IH; lia.
Qed.

(** Each gap is asked for with a single request up to its end. *)
Lemma request_gap_one fuel req_start stop w :
  0 <= req_start < stop -> stop + kLogChunkSize <= 2 ^ 32 -> stop - req_start <= Z.of_nat fuel ->
  request_gap p fuel req_start stop w =
    (op (sendLogRequestData (p_log_id p) req_start (stop - req_start));; mret tt) w.
Proof.
  intros Hr Hs Hf. destruct fuel as [|fuel]; [lia|]. unfold kLogChunkSize in Hs.
  destruct (coalesce_spec (S fuel) req_start stop kLogChunkSize) as (c & Hc & Hge);
    [unfold kLogChunkSize; lia..|].
  assert (request_gap p fuel stop stop = mret tt) as Hend.
  { destruct fuel; simpl; by replace (stop <? stop) with false by ztest. }
  unfold request_gap; fold (@request_gap W H p). rewrite Hc.
  replace (req_start <? stop) with true by ztest.
  unfold kLogStreamRequestCount. rewrite !Z.min_l by lia.
  replace (req_start + (stop - req_start)) with stop by lia. rewrite u32_small by lia.
  by rewrite Hend.
Qed.

Lemma gap_start_spec gap_offset gap_count :
  0 <= gap_offset -> 0 < gap_count -> gap_offset + gap_count + kLogChunkSize <= 2 ^ 32 ->
  gap_offset <= gap_start gap_offset gap_count < gap_offset + gap_count /\
  (gap_start gap_offset gap_count <> gap_offset -> gap_start gap_offset gap_count mod kLogChunkSize = 0).
Proof.
  intros Ho Hc Hs. unfold gap_start.
  destruct (alignDownToChunk_spec gap_offset) as (_ & Hb & Hm);
    [unfold is_u32, kLogChunkSize in *; lia|].
  unfold kLogChunkSize in *. rewrite (u32_small (gap_offset + gap_count)) by lia.
  destruct (Z.ltb_spec (alignDownToChunk gap_offset) gap_offset).
  - rewrite (u32_small (alignDownToChunk gap_offset + 90)) by lia.
    case_bool; split; try lia. intros _. zmod.
  - case_bool; split; try lia; done.
Qed.
End GapRequests.

(** The requests that [requestMergedGaps] stands for: one per gap. *)
Definition gap_requests (r : Ranges) (total : Z) : list (Z * Z) :=
  (fun oc => (gap_start oc.1 oc.2, oc.1 + oc.2 - gap_start oc.1 oc.2)) <$> gaps r total.

Definition send_requests {W} `{SessionOwner W} (p : Params) (reqs : list (Z * Z)) : M W unit :=
  foldr (fun oc k => op (sendLogRequestData (p_log_id p) oc.1 oc.2);; k) (mret tt) reqs.

Lemma request_gaps_send {W} `{SessionOwner W} p fuel gs total w :
  Forall (fun oc => 0 <= oc.1 /\ 0 < oc.2 /\ oc.1 + oc.2 <= total) gs ->
  total + kLogChunkSize <= 2 ^ 32 -> total <= Z.of_nat fuel ->
  request_gaps p fuel gs w =
    send_requests p ((fun oc => (gap_start oc.1 oc.2, oc.1 + oc.2 - gap_start oc.1 oc.2)) <$> gs) w.
Proof.
  intros Hgs Ht Hf. revert w. induction Hgs as [|[o c] gs Hoc Hgs IH]; intros w; [done|].
  simpl in Hoc. cbn [request_gaps fmap list_fmap send_requests foldr fst snd].
  replace (c =? 0) with false by ztest. unfold kLogChunkSize in Ht.
  destruct (gap_start_spec o c) as [Hs _]; [unfold kLogChunkSize; lia..|].
  rewrite (u32_small (o + c)) by lia.
  unfold mbind, M_bind at 1. rewrite request_gap_one by (unfold kLogChunkSize; lia).
  unfold mbind, M_bind, op, mret, M_ret.
  destruct (sendLogRequestData _ _ _ w) as [b w']. apply IH.
Qed.
