(* ===== verification/SessionProofs.v ===== *)
(** Correctness of the streaming session, for every owner that keeps the laws
    of [SessionOwnerLaws].

    A run is described by the pieces it kept of the queued chunks, in order of
    arrival: [transferred] relates them to the file, the ranges, the hasher and
    the probe digest after each chunk.  The triples carry it through the loops
    of [run]; the clock bounds the turns of the transfer loop ([budget]).

    The theorems: what a successful result stands for, that the file is the log
    when the chunks are the log's, that every run ends, the requests sent for
    the gaps, and that the digest depends on the order of arrival. *)

From S2P Require Import Prelude Effects LogProtocol Types ReceivedRanges ChunkCoverage Sha256 Session.

(** * Replaying the writes *)

(** The file after the writes [(offset, bytes)], in order. *)
Definition replay (pieces : list (Z * list Z)) (bytes : list Z) : list Z :=
  foldl (fun b pc => write_bytes pc.1 pc.2 b) bytes pieces.

Definition payload (pieces : list (Z * list Z)) : list Z := mjoin pieces.*2.

Definition extent (pc : Z * list Z) : Z * Z := (pc.1, zlen pc.2).

Section Replay.
Lemma length_write_bytes ofs data bytes : 0 <= ofs ->
  length (write_bytes ofs data bytes) = Nat.max (Z.to_nat ofs + length data) (length bytes).
Proof.
  intros. unfold write_bytes. rewrite !length_app, length_take, length_drop, length_app,
    length_replicate. lia.
Qed.

Lemma lookup_write_bytes ofs data bytes (i : nat) : 0 <= ofs ->
  write_bytes ofs data bytes !! i =
    if decide (Z.to_nat ofs <= i < Z.to_nat ofs + length data)%nat
    then data !! (i - Z.to_nat ofs)%nat
    else if decide (length bytes <= i < Z.to_nat ofs)%nat then Some 0 else bytes !! i.
Proof.
  intros Ho. unfold write_bytes. set (o := Z.to_nat ofs).
  assert (length (take o (bytes ++ replicate (o - length bytes) 0)) = o) as Hl
    by (rewrite length_take, length_app, length_replicate; lia).
  destruct (decide (i < o)%nat).
  - rewrite lookup_app_l by (rewrite Hl; lia). rewrite lookup_take_lt by lia.
    rewrite decide_False by lia. case_decide.
    + rewrite lookup_app_r by lia. apply lookup_replicate. lia.
    + apply lookup_app_l. lia.
  - rewrite lookup_app_r by (rewrite Hl; lia). rewrite Hl. case_decide.
    + apply lookup_app_l. lia.
    + rewrite lookup_app_r by lia. rewrite decide_False by lia.
      rewrite lookup_drop. f_equal. lia.
Qed.

(** Writing pieces of [l] leaves the bytes of [l] wherever a piece was written. *)
Lemma replay_agrees l pieces : forall bytes,
  Forall (fun pc => 0 <= pc.1 /\ pc.1 + zlen pc.2 <= zlen l /\
            forall i : nat, (i < length pc.2)%nat -> pc.2 !! i = l !! (Z.to_nat pc.1 + i)%nat) pieces ->
  (length bytes <= length l)%nat ->
  (length (replay pieces bytes) <= length l)%nat /\
  (forall i : nat, in_gaps (extent <$> pieces) (Z.of_nat i) \/ bytes !! i = l !! i ->
     replay pieces bytes !! i = l !! i).
Proof.
  induction pieces as [|[o d] pieces IH]; intros bytes Hall Hlen.
  { split; [done|]. intros i [Hi|]; [inversion Hi|done]. }
  apply Forall_cons in Hall as [(Ho & Hd & Hag) Hall]. cbn [fst snd] in *. unfold zlen in Hd.
  assert (length (write_bytes o d bytes) <= length l)%nat as Hw
    by (rewrite length_write_bytes by done; lia).
  destruct (IH (write_bytes o d bytes) Hall Hw) as [Hl Hi]. split; [done|].
  intros i Hcov. apply Hi. unfold in_gaps in *. rewrite fmap_cons, Exists_cons in Hcov.
  destruct Hcov as [[Hin|Hin]|Hin]; [right|by left|].
  - unfold extent, zlen in Hin. simpl in Hin.
    rewrite lookup_write_bytes by done. rewrite decide_True by lia.
    rewrite Hag by lia. f_equal. lia.
  - destruct (decide (Z.to_nat o <= i < Z.to_nat o + length d)%nat); right;
      rewrite lookup_write_bytes by done.
    + rewrite decide_True by done. rewrite Hag by lia. f_equal. lia.
    + rewrite decide_False by done. case_decide; [|done].
      rewrite (lookup_ge_None_2 bytes) in Hin by lia. symmetry in Hin.
      apply lookup_ge_None_1 in Hin. lia.
Qed.

(** Pieces that cover [l] rebuild it. *)
Lemma replay_rebuilds l pieces :
  Forall (fun pc => 0 <= pc.1 /\ pc.1 + zlen pc.2 <= zlen l /\
            forall i : nat, (i < length pc.2)%nat -> pc.2 !! i = l !! (Z.to_nat pc.1 + i)%nat) pieces ->
  (forall x, 0 <= x < zlen l -> in_gaps (extent <$> pieces) x) ->
  replay pieces [] = l.
Proof.
  intros Hall Hcov. destruct (replay_agrees l pieces [] Hall) as [Hlen Hag]; [simpl; lia|].
  apply list_eq. intros i. destruct (decide (i < length l)%nat).
  - apply Hag. left. apply Hcov. unfold zlen. lia.
  - rewrite !lookup_ge_None_2; [done|lia|lia].
Qed.

Lemma payload_snoc pieces pc : payload (pieces ++ [pc]) = payload pieces ++ pc.2.
Proof. unfold payload. rewrite fmap_app, join_app. simpl. by rewrite app_nil_r. Qed.

Lemma add_all_snoc r cs oc : add_all r (cs ++ [oc]) = ReceivedRanges.add (add_all r cs) oc.1 oc.2.
Proof. unfold add_all. by rewrite foldl_app. Qed.

Lemma replay_snoc pieces pc bytes :
  replay (pieces ++ [pc]) bytes = write_bytes pc.1 pc.2 (replay pieces bytes).
Proof. unfold replay. by rewrite foldl_app. Qed.
End Replay.

(** * The session's invariant *)

(** A session that downloads a log from its first byte, as every caller does;
    255 bytes of slack keep the ends of the chunks below 2^32. *)
Record params_ok (p : Params) : Prop := {
  ok_offset : p_byte_offset p = 0;
  ok_count : 0 < p_byte_count p /\ p_byte_count p + 255 < 2 ^ 32;
  ok_probe : 0 <= p_probe_bytes p < 2 ^ 31;
}.

(** A piece kept of a queued chunk. *)
Definition piece_of (p : Params) (good_chunk : LogDataChunk -> Prop) (pc : Z * list Z) : Prop :=
  exists c n, good_chunk c /\ c_id c = p_log_id p /\
    accept_chunk p c = Some (pc.1, n) /\ pc.2 = take (Z.to_nat n) (c_data c).

(** The transfer after the pieces [cs], in order of arrival. *)
Record transferred (p : Params) (good_chunk : LogDataChunk -> Prop) (file0 : File) (fine : Prop)
    (x : Transfer) (cs : list (Z * list Z)) : Prop := {
  tr_pieces : Forall (piece_of p good_chunk) cs;
  tr_file : p_write_file p = true -> f_good (x_file x) = true ->
    f_bytes (x_file x) = replay cs (f_bytes file0);
  tr_fine : fine -> f_good file0 = true -> f_good (x_file x) = true;
  tr_ranges : x_ranges x = add_all [] (extent <$> cs);
  tr_hash : exists q, absorbs (x_hasher x) (payload cs) q;
  tr_live : finalized_ (x_hasher x) = false;
  tr_hashed : x_hashed_bytes x = u32 (zlen (payload cs));
  tr_probe : if x_probe_finalized x
    then x_probe_sha256 x = sha256 (take (Z.to_nat (probe_length p)) (payload cs)) /\
         probe_length p <= zlen (payload cs)
    else zlen (payload cs) < probe_length p \/ payload cs = [];
}.

Section Pieces.
Context (p : Params) (Hp : params_ok p) (good_chunk : LogDataChunk -> Prop).
Context (Hwf : forall c, good_chunk c -> chunk_wf c).

Lemma probe_length_bounds : 0 <= probe_length p <= p_byte_count p.
Proof using Hp.
  destruct Hp as [_ Hc Hq]. unfold probe_length.
  destruct (Z.lt_ge_cases (p_byte_count p) (2 ^ 31)).
  - rewrite i32_small by lia. rewrite u32_small; lia.
  - assert (i32 (p_byte_count p) = p_byte_count p - 2 ^ 32) as Hi.
    { unfold i32. rewrite <- (Z.mod_add _ (-1)) by lia. rewrite Z.mod_small; lia. }
    rewrite Hi, Z.min_r by lia. unfold u32. rewrite <- (Z.mod_add _ 1) by lia.
    rewrite Z.mod_small; lia.
Qed.

Lemma accept_chunk_spec c o n : chunk_wf c -> accept_chunk p c = Some (o, n) ->
  o = c_offset c /\ 0 < n <= c_count c /\ 0 <= o /\ o + n <= p_byte_count p.
Proof using Hp.
  destruct Hp as [Ho Hc _]. unfold chunk_wf, is_u32, accept_chunk, stop_offset. rewrite Ho.
  intros (Hofs & Hn & Hd). rewrite Z.add_0_l, (u32_small (p_byte_count p)) by lia.
  destruct ((c_offset c <? 0) || (p_byte_count p <=? c_offset c))%bool eqn:E; zb; [done|].
  rewrite (u32_small (c_offset c + c_count c)) by lia.
  destruct (Z.ltb_spec (p_byte_count p) (c_offset c + c_count c));
    rewrite ?u32_small by lia; case_bool; intros [= <- <-]; lia.
Qed.

Lemma piece_bounds pc : piece_of p good_chunk pc ->
  0 <= pc.1 /\ 0 < zlen pc.2 <= 255 /\ pc.1 + zlen pc.2 <= p_byte_count p.
Proof using Hp Hwf.
  intros (c & n & Hc & _ & Hacc & ->). pose proof (Hwf c Hc) as Hcw.
  destruct (accept_chunk_spec c _ n Hcw Hacc) as (_ & Hn & Ho & Hb).
  destruct Hcw as (_ & Hk & Hd). unfold zlen in *. rewrite length_take. lia.
Qed.

Lemma pieces_chunks cs : Forall (piece_of p good_chunk) cs ->
  Forall chunk_ok (extent <$> cs) /\
  Forall (fun oc => oc.1 + oc.2 <= p_byte_count p) (extent <$> cs).
Proof using Hp Hwf.
  intros Hall. destruct Hp as [_ Hc _].
  split; rewrite Forall_fmap; (eapply Forall_impl; [exact Hall|]); intros pc Hpc;
    pose proof (piece_bounds pc Hpc); unfold chunk_ok, extent, compose; simpl; lia.
Qed.

(** The ranges of a transfer: inside the log, and bounded by its size. *)
Lemma transferred_ranges file0 fine x cs : transferred p good_chunk file0 fine x cs ->
  ranges_ok (x_ranges x) /\ Forall (fun se => se.2 <= p_byte_count p) (x_ranges x) /\
  (forall i, covered (x_ranges x) i <-> in_gaps (extent <$> cs) i) /\
  0 <= bytesReceived (x_ranges x) <= p_byte_count p.
Proof using Hp Hwf.
  intros Ht. destruct (pieces_chunks cs (tr_pieces _ _ _ _ _ _ Ht)) as [Hok Hle].
  rewrite (tr_ranges _ _ _ _ _ _ Ht).
  destruct (add_all_spec (extent <$> cs) [] ltac:(constructor) Hok) as [Hr Hcov].
  pose proof (ranges_within _ _ Hok Hle) as Hw. split; [done|]. split; [done|]. split.
  - intros i. split; [intros [Hc|Hc]%Hcov; [by apply covered_nil in Hc|done]|].
    intros Hc. apply Hcov. by right.
  - apply bytesReceived_bound; [done| |done]. destruct Hp as [_ Hc _]. lia.
Qed.

(** Hashing a piece appends its bytes, and takes the probe digest in passing. *)
Lemma hash_chunk_spec file0 fine x cs data n : transferred p good_chunk file0 fine x cs ->
  0 < n <= 255 -> n <= zlen data ->
  let m := payload cs ++ take (Z.to_nat n) data in
  exists h fin probe q, hash_chunk (probe_length p) data n x = Some (h, fin, probe) /\
    absorbs h m q /\ finalized_ h = false /\
    (if fin : bool then probe = sha256 (take (Z.to_nat (probe_length p)) m) /\ probe_length p <= zlen m
     else zlen m < probe_length p \/ m = []).
Proof using Hp.
  intros Ht Hn Hd m. destruct Hp as [_ Hc _]. pose proof probe_length_bounds as Hpl.
  destruct (tr_hash _ _ _ _ _ _ Ht) as [q Hq]. pose proof (tr_live _ _ _ _ _ _ Ht) as Hlive.
  pose proof (tr_probe _ _ _ _ _ _ Ht) as Hprobe. pose proof (zlen_nonneg (payload cs)) as H0.
  assert (zlen m = zlen (payload cs) + n) as Hm.
  { unfold m. rewrite zlen_app. f_equal. unfold zlen in *. rewrite length_take. lia. }
  unfold hash_chunk. rewrite (tr_hashed _ _ _ _ _ _ Ht).
  destruct (x_probe_finalized x); cbn [negb andb].
  - destruct (update_live _ _ q (take (Z.to_nat n) data) Hq Hlive) as (h & q' & -> & Hh & Hf).
    cbn [mbind option_bind]. exists h, true, (x_probe_sha256 x), q'.
    split; [done|]. split; [done|]. split; [done|]. destruct Hprobe as [-> Hle].
    split; [|lia]. unfold m. rewrite take_app_le; [done|]. unfold zlen in Hle. lia.
  - assert (zlen (payload cs) <= probe_length p) as Hle.
    { destruct Hprobe as [?| ->]; [lia|]. unfold zlen. simpl. lia. }
    rewrite (u32_small (zlen (payload cs))) by lia.
    rewrite (u32_small (zlen (payload cs) + n)) by lia.
    destruct (Z.leb_spec (probe_length p) (zlen (payload cs) + n)) as [Hge|Hlt].
    + rewrite u32_small by lia. set (pt := probe_length p - zlen (payload cs)).
      assert (0 <= pt <= n) as Hpt by lia.
      assert (exists h1 q1, (if 0 <? pt then update (x_hasher x) (take (Z.to_nat pt) data)
                             else Some (x_hasher x)) = Some h1 /\
                absorbs h1 (payload cs ++ take (Z.to_nat pt) data) q1 /\ finalized_ h1 = false)
        as (h1 & q1 & -> & Hh1 & Hf1).
      { destruct (Z.ltb_spec 0 pt).
        - by apply update_live with q.
        - replace pt with 0 by lia. rewrite take_0, app_nil_r. eauto. }
      cbn [mbind option_bind].
      assert (clone h1 = h1) as -> by (by destruct h1).
      destruct (finalizeHex_absorbs h1 _ q1 Hh1 Hf1) as (h' & -> & _). cbn [mbind option_bind].
      assert (exists h2 q2, (if pt <? n
                then update h1 (take (Z.to_nat (n - pt)) (drop (Z.to_nat pt) data))
                else Some h1) = Some h2 /\ absorbs h2 m q2 /\ finalized_ h2 = false)
        as (h2 & q2 & -> & Hh2 & Hf2).
      { assert (take (Z.to_nat n) data = take (Z.to_nat pt) data ++
                  take (Z.to_nat (n - pt)) (drop (Z.to_nat pt) data)) as Hsplit.
        { rewrite <- (take_drop (Z.to_nat pt) (take (Z.to_nat n) data)), take_take, skipn_firstn_comm.
          f_equal; f_equal; lia. }
        unfold m. rewrite Hsplit, app_assoc. destruct (Z.ltb_spec pt n).
        - by apply update_live with q1.
        - replace (n - pt) with 0 by lia. rewrite take_0, app_nil_r. eauto. }
      cbn [mbind option_bind]. eexists h2, true, _, q2. split; [done|]. split; [done|].
      split; [done|]. split; [|lia]. f_equal. unfold m. unfold zlen in *.
      rewrite take_app_ge by lia. f_equal. rewrite take_take. f_equal. lia.
    + destruct (update_live _ _ q (take (Z.to_nat n) data) Hq Hlive) as (h & q' & -> & Hh & Hf).
      cbn [mbind option_bind]. exists h, false, (x_probe_sha256 x), q'.
      split; [done|]. split; [done|]. split; [done|]. left. lia.
Qed.

Lemma initial_transferred file fine : transferred p good_chunk file fine (initial_transfer p file) [].
Proof using Hp.
  destruct Hp as [_ Hc Hq]. constructor; simpl; try done.
  - exists 0%nat. apply new_absorbs.
  - by right.
Qed.
End Pieces.

(** * Triples over a clock *)

Section Clocked.
Context {W : Type} (Good : W -> Prop) (clock : W -> Z).

(** A good world whose clock has reached [t]. *)
Definition clocked (t : Z) (w : W) : Prop := Good w /\ t <= clock w.

Lemma spec_harmless {A} D t (f : W -> A * W) :
  harmless Good clock f -> spec D (clocked t) (op f) (fun _ => clocked t).
Proof using Type.
  intros Hf. apply spec_op. intros w [Hg Ht]. destruct (Hf w Hg) as [Hg' Hc].
  split; [done|lia].
Qed.

(** A harmless step followed by [k]. *)
Lemma spec_then {A B} D t (f : W -> A * W) (k : A -> M W B) Q :
  harmless Good clock f -> (forall a, spec D (clocked t) (k a) Q) ->
  spec D (clocked t) (op f ≫= k) Q.
Proof using Type. intros Hf Hk. eapply spec_bind; [by apply spec_harmless|done]. Qed.

Lemma spec_return {A} D t (a : A) (Q : A -> Prop) :
  Q a -> spec D (clocked t) (mret a) (fun b w => Q b /\ clocked t w).
Proof using Type. intros Ha. apply spec_ret. auto. Qed.

(** Reading the clock moves the lower bound to the time read. *)
Lemma spec_clock {B} D t (f : W -> Z * W) (k : Z -> M W B) Q :
  harmless Good clock f -> (forall w, Good w -> (f w).1 = clock (f w).2) ->
  (forall now, t <= now -> spec D (clocked now) (k now) Q) ->
  spec D (clocked t) (op f ≫= k) Q.
Proof using Type.
  intros Hf Hnow Hk. eapply spec_bind; [|intros now; apply (spec_pure D (t <= now)); apply Hk].
  apply spec_op. intros w [Hg Ht]. destruct (Hf w Hg) as [Hg' Hc].
  unfold clocked. rewrite (Hnow w Hg). split; [lia|]. split; [done|lia].
Qed.
End Clocked.

(** * Triples *)

Section Triples.
Context {W : Type} `{SessionOwner W}.
Context (Good : W -> Prop) (good_chunk : LogDataChunk -> Prop) (clock : W -> Z).
Context `{!SessionOwnerLaws W Good good_chunk clock}.
Context (settings : DownloadSettings) (p : Params) (Hp : params_ok p).
Context (Hwf : forall c, good_chunk c -> chunk_wf c) (file0 : File).

(** The device behind the file never fails in a good world. *)
Definition fine : Prop := forall w, Good w -> (device_ok w).1 = true.

Local Abbreviation at_time := (clocked Good clock).

Lemma spec_now {B} D t (k : Z -> M W B) Q :
  (forall now, t <= now -> spec D (at_time now) (k now) Q) ->
  spec D (at_time t) (op steady_now ≫= k) Q.
Proof using All. apply spec_clock; [apply now_harmless|apply now_clock]. Qed.

Lemma spec_device D t :
  spec D (at_time t) (op device_ok) (fun ok w => (fine -> ok = true) /\ at_time t w).
Proof using All.
  apply spec_op. intros w [Hg Ht]. destruct (device_harmless w Hg) as [Hg' Hc].
  split; [|split; [done|lia]]. intros Hf. by apply Hf.
Qed.

Lemma file_write_spec D t ofs data f :
  spec D (at_time t) (file_write ofs data f)
    (fun f' w => ((f_good f' = true -> f_good f = true /\
                    f_bytes f' = write_bytes ofs data (f_bytes f)) /\
                 (fine -> f_good f = true -> f_good f' = true)) /\ at_time t w).
Proof using All.
  unfold file_write. destruct (f_good f) eqn:E.
  - eapply spec_bind; [apply spec_device|]. intros ok. apply spec_pure. intros Hok.
    destruct ok; apply spec_return; split; try done. intros Hf. by specialize (Hok Hf).
  - apply spec_return. split; congruence.
Qed.

Lemma process_chunk_spec D t c x cs :
  good_chunk c -> c_id c = p_log_id p -> transferred p good_chunk file0 fine x cs ->
  spec D (at_time t) (process_chunk settings p c x)
    (fun r w => (r.1 = true -> exists cs', transferred p good_chunk file0 fine r.2 (cs ++ cs')) /\
                at_time t w).
Proof using All.
  intros Hc Hid Ht. unfold process_chunk.
  assert (transferred p good_chunk file0 fine (count_packet x) cs) as Ht' by (by destruct Ht).
  revert Ht'. generalize (count_packet x) as y. clear x Ht. intros y Ht.
  destruct (accept_chunk p c) as [[o n]|] eqn:Hacc.
  2: { apply spec_return. intros _. exists []. by rewrite app_nil_r. }
  pose proof (Hwf c Hc) as Hcw.
  destruct (accept_chunk_spec p Hp c o n Hcw Hacc) as (Ho & Hn & Ho0 & Hb).
  destruct Hcw as (_ & Hk & Hd).
  set (pc := (o, take (Z.to_nat n) (c_data c))).
  assert (piece_of p good_chunk pc) as Hpc by (by exists c, n).
  eapply (spec_bind D _ _ (fun f w => ((p_write_file p = true -> f_good f = true ->
    f_good (x_file y) = true /\ f_bytes f = write_bytes o pc.2 (f_bytes (x_file y))) /\
    (fine -> f_good (x_file y) = true -> f_good f = true)) /\ at_time t w)).
  { destruct (p_write_file p) eqn:Hwr; [|by apply spec_return].
    eapply spec_post; [apply file_write_spec|]. simpl. intros f w [[Hf Hf'] Hw]. auto. }
  intros f. apply spec_pure. intros [Hf Hf'].
  destruct (ChunkCoverage.record _ _ _ _ _) as [recorded coverage]. destruct recorded; simpl negb; cbv iota.
  2: { apply spec_return. done. }
  destruct (hash_chunk_spec p Hp good_chunk file0 fine y cs (c_data c) n Ht)
    as (h & fin & probe & q & Heq & Hh & Hfin & Hprobe); [lia..|].
  eapply spec_bind.
  { eapply (spec_or_throw D _ _ _ (fun a w => a = (h, fin, probe) /\ at_time t w)); [exact Heq|auto]. }
  intros [[h' fin'] probe']. apply spec_pure. intros [= -> -> ->].
  apply spec_return. intros _. exists [pc]. unfold pc.
  destruct Ht as [Hps Hfile Hfine Hr Hhash Hlive Hhb Hpr].
  constructor; cbn [snd x_file x_ranges x_hasher x_probe_finalized x_hashed_bytes x_probe_sha256];
    rewrite ?payload_snoc; cbn [snd]; try done.
  - apply Forall_app. by repeat constructor.
  - intros Hwr Hg. destruct (Hf Hwr Hg) as [Hg' ->]. rewrite replay_snoc, (Hfile Hwr Hg'). done.
  - intros Hfi Hg0. apply (Hf' Hfi), (Hfine Hfi Hg0).
  - rewrite fmap_app. cbn [fmap list_fmap]. rewrite add_all_snoc, Hr. unfold extent at 3 4.
    cbn [fst snd]. f_equal. unfold zlen in *. rewrite length_take. lia.
  - by exists q.
  - rewrite Hhb, zlen_app. unfold u32. rewrite Zplus_mod_idemp_l. do 2 f_equal.
    unfold zlen in *. rewrite length_take. lia.
Qed.

Lemma process_chunks_spec D t chunks : forall x cs,
  Forall (fun c => good_chunk c /\ c_id c = p_log_id p) chunks ->
  transferred p good_chunk file0 fine x cs ->
  spec D (at_time t) (process_chunks settings p chunks x)
    (fun r w => (r.1 = true -> exists cs', transferred p good_chunk file0 fine r.2 (cs ++ cs')) /\
                at_time t w).
Proof using All.
  induction chunks as [|c chunks IH]; intros x cs Hall Ht; simpl.
  - apply spec_return. intros _. exists []. by rewrite app_nil_r.
  - apply Forall_cons in Hall as [[Hc Hid] Hall]. eapply spec_bind; [by apply process_chunk_spec|].
    intros [[] x']; simpl; apply spec_pure; intros Hx.
    + destruct (Hx eq_refl) as [cs1 Hcs1]. eapply spec_post; [by apply IH|].
      intros [b y] w [Hy Hw]. split; [|done]. intros Hb. destruct (Hy Hb) as [cs2 Hcs2].
      exists (cs1 ++ cs2). by rewrite app_assoc.
    + by apply spec_return.
Qed.

Lemma processQueuedChunks_spec D t x cs : transferred p good_chunk file0 fine x cs ->
  spec D (at_time t) (processQueuedChunks settings p x)
    (fun r w => (r.1 = true -> exists cs', transferred p good_chunk file0 fine r.2 (cs ++ cs')) /\
                at_time t w).
Proof using All.
  intros Ht. unfold processQueuedChunks.
  eapply (spec_bind D _ _ (fun chunks w =>
    Forall (fun c => good_chunk c /\ c_id c = p_log_id p) chunks /\ at_time t w)).
  - apply spec_op. intros w [Hg Hc]. destruct (drain_harmless (p_log_id p) w Hg).
    split; [by apply drain_good|]. split; [done|lia].
  - intros chunks. apply spec_pure. intros Hall. apply process_chunks_spec; [done|by destruct Ht].
Qed.

Lemma send_requests_spec D t reqs :
  spec D (at_time t) (send_requests p reqs) (fun _ => at_time t).
Proof using All.
  induction reqs as [|r reqs IH]; simpl; [by apply spec_ret|].
  apply spec_then; [harmless_op|]. auto.
Qed.

Lemma request_gap_partial (D : Prop) t fuel : D -> forall req_start stop,
  spec D (at_time t) (request_gap p fuel req_start stop) (fun _ => at_time t).
Proof using All.
  intros HD. induction fuel as [|fuel IH]; intros req_start stop; simpl;
    (case_bool; [|by apply spec_ret]); [by apply spec_fuel|].
  destruct (coalesce (S fuel) req_start stop kLogChunkSize) as [c|] eqn:E; simpl in E; rewrite E.
  - apply spec_then; [harmless_op|]. auto.
  - by apply spec_fuel.
Qed.

(** Asking for the missing bytes is harmless, and ends. *)
Lemma requestMergedGaps_spec (D : Prop) t fuel x cs :
  transferred p good_chunk file0 fine x cs -> D \/ p_byte_count p <= Z.of_nat fuel ->
  spec D (at_time t) (requestMergedGaps p fuel (x_ranges x) (p_byte_count p)) (fun _ => at_time t).
Proof using All.
  intros Ht [HD|Hf]; unfold requestMergedGaps.
  - induction (gaps (x_ranges x) (p_byte_count p)) as [|[o n] gs IH]; [by apply spec_ret|].
    cbn [request_gaps]. eapply (spec_bind D _ _ (fun _ => at_time t)); [|intros []; exact IH].
    case_bool; [by apply spec_ret|by apply request_gap_partial].
  - destruct (transferred_ranges p Hp good_chunk Hwf file0 fine x cs Ht) as (Hr & Hle & _ & _).
    destruct Hp as [_ Hc _]. intros w Hw.
    rewrite (request_gaps_send p fuel _ (p_byte_count p)); [| |unfold kLogChunkSize; lia|done].
    + by apply (send_requests_spec D t).
    + apply gaps_from_bounds; [done..|]. lia.
Qed.

(** ** The loops *)

Definition timeout_ns : Z := Z.max 0 (seconds (download_timeout_sec settings)).

(** The turns the transfer loop has left at time [t]: the session gives up when
    no byte arrives for the timeout, and no more than the log's bytes can arrive. *)
Definition budget (s : RunState) (t : Z) : Z :=
  (p_byte_count p - r_last_progress_bytes s) * (timeout_ns + 2) +
  Z.max 0 (timeout_ns + 1 - (t - r_last_data_time s)).

Definition alive (s : RunState) (t : Z) : Prop :=
  (exists cs, transferred p good_chunk file0 fine (r_transfer s) cs) /\
  0 <= r_last_progress_bytes s <= p_byte_count p /\ r_last_data_time s <= t.

Lemma budget_bound s t : alive s t ->
  0 <= budget s t <= p_byte_count p * (timeout_ns + 2) + timeout_ns + 1.
Proof using All. unfold budget, alive, timeout_ns. intros (_ & Hl & Ht). nia. Qed.

Lemma note_progress_spec D s t : alive s t ->
  spec D (at_time t) (note_progress s)
    (fun s' w => exists t', (alive s' t' /\ r_transfer s' = r_transfer s /\
       r_fc_busy_waits s' = r_fc_busy_waits s /\ budget s' t' <= budget s t) /\ at_time t' w).
Proof using All.
  intros [[cs Hcs] [Hl Ht]]. unfold note_progress.
  destruct (transferred_ranges p Hp good_chunk Hwf file0 fine _ _ Hcs) as (_ & _ & _ & Hb).
  case_bool.
  - apply spec_now. intros now Hnow. apply spec_then; [harmless_op|]. intros [].
    apply spec_ret. intros w Hw. exists now. split; [|done]. unfold alive, budget. simpl.
    split_and!; eauto; try lia. unfold timeout_ns. nia.
  - apply spec_ret. intros w Hw. exists t. unfold alive. eauto 10 with lia.
Qed.

Lemma fill_gaps_spec (D : Prop) fuel rc now s t : alive s t ->
  D \/ p_byte_count p <= Z.of_nat fuel -> now <= t ->
  spec D (at_time t) (fill_gaps settings p fuel rc now s)
    (fun s' w => ((exists cs, transferred p good_chunk file0 fine (r_transfer s') cs) /\
       x_ranges (r_transfer s') = x_ranges (r_transfer s) /\
       r_last_progress_bytes s' = r_last_progress_bytes s /\
       r_last_data_time s' = r_last_data_time s /\
       r_fc_busy_waits s' = r_fc_busy_waits s) /\ at_time t w).
Proof using All.
  intros [[cs Hcs] [Hl Ht]] Hf Hn. unfold fill_gaps. case_bool.
  - eapply spec_bind; [by eapply requestMergedGaps_spec|]. intros []. apply spec_return.
    split_and!; try done. exists cs. by destruct Hcs.
  - apply spec_return. eauto 10.
Qed.

Lemma transfer_loop_spec (D : Prop) fuel : forall s t,
  alive s t -> D \/ budget s t + 2 ^ 32 < Z.of_nat fuel ->
  spec D (at_time t) (transfer_loop settings p fuel s)
    (fun r w => exists t', ((r.1 <> OverlapFound -> alive r.2 t') /\
       (r.1 = SessionDone -> complete (x_ranges (r_transfer r.2)) (p_byte_count p) = true) /\
       r_fc_busy_waits r.2 = r_fc_busy_waits s) /\ at_time t' w).
Proof using All.
  induction fuel as [|fuel IH]; intros s t Hs Hf; cbn [transfer_loop].
  { destruct Hf as [HD|Hf]; [by apply spec_fuel|].
    destruct (budget_bound s t Hs). exfalso. lia. }
  apply spec_then; [harmless_op|]. intros [].
  { apply spec_ret. intros w Hw. exists t. by split_and!. }
  pose proof Hs as Halive. destruct Hs as [[cs Hcs] [Hl Ht]].
  eapply spec_bind; [by apply processQueuedChunks_spec|].
  intros [ok x]. apply spec_pure. simpl. intros Hx. destruct ok; simpl negb; cbv iota.
  2: { apply spec_ret. intros w Hw. exists t. by split_and!. }
  destruct (Hx eq_refl) as [cs1 Hcs1].
  eapply spec_bind.
  { apply (note_progress_spec D (set_transfer x s) t). split; [by exists (cs ++ cs1)|]. by split. }
  intros s1. apply spec_ex. intros t1. apply spec_pure. cbn [r_transfer set_transfer r_fc_busy_waits].
  intros (Hs1 & Hx1 & Hb1 & Hbud). destruct (_ && _)%bool eqn:Hdone.
  { zb. apply spec_ret. intros w Hw. exists t1. split; [|done]. split_and!; try done. simpl. by rewrite Hx1. }
  apply spec_now. intros now Hnow.
  assert (alive s1 now) as Hs1' by (destruct Hs1 as (? & ? & ?); split_and!; (done || lia)).
  eapply spec_bind; [apply (fill_gaps_spec D); [exact Hs1'| |done]|].
  { destruct Hf as [HD|Hf]; [by left|right]. destruct Hp as [_ Hc _].
    pose proof (budget_bound s t Halive) as [Hb0 _]. lia. }
  intros s2. apply spec_pure. intros (Hcs2 & Hr2 & Hl2 & Ht2 & Hb2).
  assert (alive s2 now) as Hs2
    by (destruct Hs1' as (_ & ? & ?); split; [done|]; rewrite Hl2, Ht2; done).
  case_bool.
  - apply spec_then; [harmless_op|]. intros why. apply spec_ret. intros w Hw.
    exists now. split; [|done]. split_and!; [|done|simpl; congruence]. intros _.
    destruct Hs2 as [[cs2 Hcs2'] Hs2]. split; [|done]. exists cs2. by destruct Hcs2'.
  - eapply (spec_bind D _ _ (fun _ => at_time (now + 1))).
    { apply spec_op. intros w [Hg Hc]. pose proof (wait_advances (ms 10) w Hg ltac:(unfold ms; lia)).
      destruct (wait_harmless (ms 10) w Hg). split; [done|lia]. }
    intros []. eapply spec_post; [apply IH|].
    + destruct Hs2 as (? & ? & ?). split_and!; (done || lia).
    + destruct Hf as [HD|Hf]; [by left|right]. destruct Hs1 as (_ & Hl1 & Ht1).
      enough (budget s2 (now + 1) < budget s1 t1) by (unfold budget in *; simpl in *; lia).
      unfold budget, timeout_ns. rewrite Hl2, Ht2. rewrite Ht2 in *. lia.
    + intros [e s3] w (t3 & (Ha & Hd & Hb) & Hw). exists t3. split; [|done].
      split_and!; try done. congruence.
Qed.

Lemma request_stream_spec D attempt before s t : alive s t ->
  spec D (at_time t) (request_stream p attempt before s)
    (fun s' w => exists t', (alive s' t' /\ r_fc_busy_waits s' = r_fc_busy_waits s) /\ at_time t' w).
Proof using All.
  intros [[cs Hcs] [Hl Ht]]. unfold request_stream. case_bool.
  - apply spec_then; [harmless_op|]. intros b. apply spec_now. intros now Hnow.
    apply spec_ret. intros w Hw. exists now. split; [|done]. split; [|done].
    split; [exists cs; by destruct Hcs|]. simpl. lia.
  - apply spec_ret. intros w Hw. exists t. unfold alive. eauto 10.
Qed.

Lemma fc_busy_spec D zeros s t :
  spec D (at_time t) (fc_busy settings zeros s)
    (fun b w => (b = true -> r_fc_busy_waits s < fc_busy_retry_attempts settings) /\ at_time t w).
Proof using All.
  unfold fc_busy. case_bool; [|by apply spec_return].
  apply spec_then; [harmless_op|]. intros z. apply spec_return. lia.
Qed.

Lemma alive_later s t t' : alive s t -> t <= t' -> alive s t'.
Proof using All. intros (? & ? & ?) ?. split_and!; (done || lia). Qed.

(** The turns the attempts have left. *)
Definition attempts_left (attempt : Z) (s : RunState) : Z :=
  Z.max 0 (retry_count settings + 1 - attempt) +
  Z.max 0 (fc_busy_retry_attempts settings - r_fc_busy_waits s).

Definition enough_fuel : Z := p_byte_count p * (timeout_ns + 2) + timeout_ns + 2 + 2 ^ 32.

Lemma attempts_spec (D : Prop) fuel : forall attempt s t,
  alive s t -> D \/ attempts_left attempt s + enough_fuel < Z.of_nat fuel ->
  spec D (at_time t) (attempts settings p fuel attempt s)
    (fun r w => exists t', ((r.1 <> ReturnNow -> alive r.2 t') /\
       (r.1 = Finished -> complete (x_ranges (r_transfer r.2)) (p_byte_count p) = true)) /\
       at_time t' w).
Proof using All.
  induction fuel as [|fuel IH]; intros attempt s t Hs Hf; cbn [attempts].
  { destruct Hf as [HD|Hf]; [by apply spec_fuel|].
    unfold attempts_left, enough_fuel, timeout_ns in Hf. destruct Hp as [_ Hc _]. exfalso. lia. }
  destruct (Z.ltb_spec (retry_count settings) attempt) as [|Hat].
  { apply spec_ret. intros w Hw. exists t. by split_and!. }
  apply spec_then; [harmless_op|]. intros [].
  { apply spec_ret. intros w Hw. exists t. by split_and!. }
  apply spec_then; [harmless_op|]. intros zeros.
  eapply spec_bind; [by apply request_stream_spec|].
  intros s1. apply spec_ex. intros t1. apply spec_pure. intros [Hs1 Hb1].
  eapply spec_bind.
  { apply (transfer_loop_spec D (S fuel) s1 t1 Hs1). destruct Hf as [HD|Hf]; [by left|right].
    pose proof (budget_bound s1 t1 Hs1). unfold attempts_left, enough_fuel in Hf. lia. }
  intros [e s2]. apply spec_ex. intros t2. apply spec_pure. cbn [fst snd].
  intros (Hs2 & Hd2 & Hb2). destruct e.
  { apply spec_ret. intros w Hw. exists t2. split_and!; auto. }
  2: { apply spec_ret. intros w Hw. exists t2. by split_and!. }
  specialize (Hs2 ltac:(done)). eapply spec_bind; [apply fc_busy_spec|].
  intros []; apply spec_pure; intros Hbusy.
  - do 3 (apply spec_then; [harmless_op|intros []]). apply IH.
    + destruct Hs2 as [[cs2 Hcs2] Hs2]. by split; [exists cs2|].
    + destruct Hf as [HD|Hf]; [by left|right]. specialize (Hbusy eq_refl).
      unfold attempts_left in *. cbn [r_fc_busy_waits count_busy_wait]. lia.
  - clear Hbusy. set (stalled := (_ <=? _)).
    set (s3 := if stalled then count_no_progress s2 else s2).
    assert (alive s3 t2 /\ r_fc_busy_waits s3 = r_fc_busy_waits s) as [Hs3 Hb3].
    { unfold s3. destruct stalled; simpl; split; try done; congruence. }
    case_bool.
    + apply spec_then; [harmless_op|]. intros []. apply spec_ret.
      intros w Hw. exists t2. by split_and!.
    + eapply (spec_bind D _ _ (fun _ => at_time t2)).
      { case_bool; [|by apply spec_ret].
        do 2 (apply spec_then; [harmless_op|intros []]). apply spec_harmless. harmless_op. }
      intros []. apply IH; [done|]. destruct Hf as [HD|Hf]; [by left|right].
      unfold attempts_left in *. lia.
Qed.

(** What a successful result says: it stands for pieces [cs] of good chunks
    that cover the log. *)
Definition delivered (r : StreamDownloadResult) (f : File) (cs : list (Z * list Z)) : Prop :=
  Forall (piece_of p good_chunk) cs /\
  (forall i, 0 <= i < p_byte_count p -> in_gaps (extent <$> cs) i) /\
  sr_ranges r = add_all [] (extent <$> cs) /\
  sr_sha256 r = sha256 (payload cs) /\
  sr_probe_sha256 r = sha256 (take (Z.to_nat (probe_length p)) (payload cs)) /\
  (p_write_file p = true -> f_good f = true -> f_bytes f = replay cs (f_bytes file0)) /\
  (p_write_file p = true -> fine -> f_good file0 = true -> f_good f = true).

Lemma file_flush_spec D t f :
  spec D (at_time t) (file_flush f)
    (fun f' w => ((f_good f' = true -> f_good f = true /\ f_bytes f' = f_bytes f) /\
                  (fine -> f_good f = true -> f_good f' = true)) /\ at_time t w).
Proof using All.
  unfold file_flush. destruct (f_good f) eqn:E.
  - eapply spec_bind; [apply spec_device|]. intros ok. apply spec_pure. intros Hok.
    apply spec_return. split; [done|]. intros Hf _. by apply Hok.
  - apply spec_return. split; congruence.
Qed.

Lemma finish_success_spec D t s f cs :
  transferred p good_chunk file0 fine (r_transfer s) cs ->
  complete (x_ranges (r_transfer s)) (p_byte_count p) = true ->
  (p_write_file p = true -> f_good f = true ->
     f_good (x_file (r_transfer s)) = true /\ f_bytes f = f_bytes (x_file (r_transfer s))) ->
  (p_write_file p = true -> fine -> f_good (x_file (r_transfer s)) = true -> f_good f = true) ->
  spec D (at_time t) (finish_success p s)
    (fun r w => (sr_success r = true -> delivered r f cs) /\ at_time t w).
Proof using All.
  intros Ht Hc Hf Hf'. unfold finish_success. case_bool; [by apply spec_return|].
  destruct (tr_hash _ _ _ _ _ _ Ht) as [q Hq]. pose proof (tr_live _ _ _ _ _ _ Ht) as Hlive.
  pose proof (tr_probe _ _ _ _ _ _ Ht) as Hprobe.
  destruct (probe_length_bounds p Hp) as [Hp0 _].
  destruct (finalizeHex_absorbs _ _ q Hq Hlive) as (h' & Hfin & _).
  set (x := r_transfer s) in *.
  eapply (spec_bind D _ _ (fun a w =>
    a = sha256 (take (Z.to_nat (probe_length p)) (payload cs)) /\ at_time t w)).
  { destruct (Z.eqb_spec (probe_length p) 0) as [->|].
    - eapply spec_or_throw; [apply hashHex_sha256|]. by split.
    - destruct (x_probe_finalized x); simpl negb; cbv iota.
      + apply spec_return. apply Hprobe.
      + assert (clone (x_hasher x) = x_hasher x) as -> by (by destruct (x_hasher x)).
        eapply spec_or_throw; [by rewrite Hfin|]. intros w Hw. split; [|done]. f_equal.
        rewrite take_ge; [done|]. destruct Hprobe as [Hlt| ->]; [unfold zlen in Hlt; lia|simpl; lia]. }
  intros probe. apply spec_pure. intros ->.
  eapply (spec_bind D _ _ (fun a w => a.1 = sha256 (payload cs) /\ at_time t w)).
  { eapply spec_or_throw; [exact Hfin|]. by split. }
  intros [digest h2]. apply spec_pure. cbn [fst]. intros ->. apply spec_return. intros _.
  destruct (transferred_ranges p Hp good_chunk Hwf file0 fine x cs Ht) as (Hok & Hle & Hcov & _).
  destruct Hp as [_ Hn _]. unfold delivered. cbn [sr_ranges sr_sha256 sr_probe_sha256].
  split; [apply Ht|]. split; [|split; [apply Ht|split; [done|split; [done|split]]]].
  - intros i Hi. apply Hcov. revert i Hi. apply complete_covered; [done|lia|done|done].
  - intros Hwr Hg. destruct (Hf Hwr Hg) as [Hg' ->]. by apply Ht.
  - intros Hwr Hfine Hg. apply (Hf' Hwr Hfine). by apply Ht.
Qed.

Lemma run_spec (D : Prop) fuel t :
  D \/ Z.max 0 (retry_count settings + 1) + Z.max 0 (fc_busy_retry_attempts settings) + enough_fuel
       < Z.of_nat fuel ->
  spec D (at_time t) (run settings p fuel file0)
    (fun r w => (sr_success r.1 = true -> exists cs, delivered r.1 r.2 cs) /\ Good w).
Proof using All.
  intros Hf. unfold run. pose proof (ok_count p Hp) as Hn.
  replace (p_byte_count p =? 0) with false by ztest.
  apply spec_now. intros now Hnow. apply spec_then; [harmless_op|]. intros [].
  eapply spec_bind.
  { apply (attempts_spec D fuel 0 (initial_state p file0 now) now).
    - split; [|simpl; lia]. exists []. by apply initial_transferred.
    - destruct Hf as [HD|Hf]; [by left|right]. unfold attempts_left. simpl. lia. }
  intros [e s]. apply spec_ex. intros t'. apply spec_pure. cbn [fst snd]. intros [Hs Hd].
  destruct e.
  - apply spec_ret. intros w [Hw _]. by split.
  - destruct (Hs ltac:(done)) as [[cs Hcs] _]. specialize (Hd eq_refl).
    eapply (spec_bind D _ _ (fun f w => ((p_write_file p = true -> f_good f = true ->
      f_good (x_file (r_transfer s)) = true /\ f_bytes f = f_bytes (x_file (r_transfer s))) /\
      (p_write_file p = true -> fine -> f_good (x_file (r_transfer s)) = true -> f_good f = true)) /\
      at_time t' w)).
    { destruct (p_write_file p); [|by apply spec_return].
      eapply spec_post; [apply file_flush_spec|]. simpl. intros f w [[Hfl Hfl'] Hw]. auto. }
    intros f. apply spec_pure. intros [Hfl Hfl'].
    eapply spec_bind; [by apply (finish_success_spec D t' s f cs)|].
    intros r. apply spec_pure. intros Hr. apply spec_ret. intros w [Hw _]. cbn [fst snd]. eauto.
  - eapply (spec_bind D _ _ (fun _ => at_time t')).
    { destruct (p_write_file p); [|by apply spec_ret].
      eapply spec_post; [apply file_flush_spec|]. by intros f w [_ Hw]. }
    intros f. apply spec_ret. intros w [Hw _]. by split.
Qed.
End Triples.

(** A chunk as the wire can carry it, with bytes of [log] if it belongs to log [id]. *)
Definition honest_chunk (id : Z) (log : list Z) (c : LogDataChunk) : Prop :=
  chunk_wf c /\ (c_id c = id -> chunk_of log c).

(** The bytes of a piece of an honest chunk are the log's. *)
Lemma honest_piece log p pc : params_ok p -> p_byte_count p = zlen log ->
  piece_of p (honest_chunk (p_log_id p) log) pc ->
  forall i : nat, (i < length pc.2)%nat -> pc.2 !! i = log !! (Z.to_nat pc.1 + i)%nat.
Proof.
  intros Hp Hlen (c & n & [Hc Hof] & Hid & Hacc & ->) i Hi. rewrite length_take in Hi.
  destruct (accept_chunk_spec p Hp c _ n Hc Hacc) as (-> & Hn & Ho & Hb).
  rewrite lookup_take_lt by lia. apply (Hof Hid); [lia|]. rewrite <- Hlen. lia.
Qed.

(** The pieces of honest chunks that cover the log rebuild it. *)
Lemma delivered_log {W} `{SessionOwner W} (Good : W -> Prop) p log r f cs :
  params_ok p -> p_write_file p = true -> p_byte_count p = zlen log ->
  delivered Good (honest_chunk (p_log_id p) log) p new_file r f cs -> f_good f = true ->
  f_bytes f = log /\ bytesReceived (sr_ranges r) = zlen log.
Proof.
  intros Hp Hwr Hlen (Hcs & Hcov & Hrg & _ & _ & Hf & _) Hg.
  assert (forall pc, pc ∈ cs -> 0 <= pc.1 /\ pc.1 + zlen pc.2 <= zlen log /\
    forall i : nat, (i < length pc.2)%nat -> pc.2 !! i = log !! (Z.to_nat pc.1 + i)%nat) as Hag.
  { intros pc Hpc. rewrite Forall_forall in Hcs. specialize (Hcs pc Hpc). rewrite <- Hlen.
    destruct (piece_bounds p Hp _ (fun c Hc => proj1 Hc) pc Hcs) as (Ho & Hn & Hb).
    split; [done|]. split; [done|]. by apply (honest_piece log p). }
  split.
  - simpl in Hf. rewrite (Hf Hwr Hg). apply replay_rebuilds; [by apply Forall_forall|]. by rewrite <- Hlen.
  - simpl in Hrg. rewrite Hrg. destruct (pieces_chunks p Hp _ (fun c Hc => proj1 Hc) cs Hcs) as [Hok Hle].
    destruct (add_all_spec (extent <$> cs) [] ltac:(constructor) Hok) as [Hro Hrc].
    rewrite Hlen in *. apply bytesReceived_full; [done|apply zlen_nonneg|by apply ranges_within|].
    intros x Hx. apply Hrc. right. by apply Hcov.
Qed.

(** * A scripted owner *)

(** An owner that hands out the given batches of chunks, one per drain, with a
    clock that only moves while the session waits or sleeps. *)
Record Script := { sc_now : Z; sc_batches : list (list LogDataChunk) }.

Definition sc_wait (d : Z) (s : Script) : unit * Script :=
  (tt, {| sc_now := sc_now s + Z.max 1 d; sc_batches := sc_batches s |}).

#[global] Instance Script_owner : SessionOwner Script := {
  cancelled s := (false, s);
  drainLogDataChunks id s :=
    (filter (fun c => c_id c = id) (default [] (head (sc_batches s))),
     {| sc_now := sc_now s; sc_batches := tail (sc_batches s) |});
  clearLogDataChunks s := (tt, s);
  sendLogRequestData _ _ _ s := (true, s);
  sendLogRequestEnd s := (tt, s);
  zeroLengthDataCount s := (0, s);
  waitForLogDataNotify := sc_wait;
  interruptibleSleep := sc_wait;
  sleep_for := sc_wait;
  classifyTransferTimeout s := (LogDataTimeout, s);
  updateProgressBytes _ s := (tt, s);
  abortLogTransfer _ s := (tt, s);
  steady_now s := (sc_now s, s);
  device_ok s := (true, s);
}.

Definition script_good (good_chunk : LogDataChunk -> Prop) (s : Script) : Prop :=
  Forall (Forall good_chunk) (sc_batches s).

#[global] Instance Script_laws good_chunk :
  SessionOwnerLaws Script (script_good good_chunk) good_chunk sc_now.
Proof.
  assert (forall s, script_good good_chunk s ->
    script_good good_chunk {| sc_now := sc_now s; sc_batches := tail (sc_batches s) |}) as Htail.
  { unfold script_good. simpl. by intros s [|]. }
  split; unfold harmless; simpl; intros; unfold sc_wait; simpl; try (split; [done|lia]); try lia.
  - split; [by apply Htail|lia].
  - unfold script_good in *. destruct (sc_batches w) as [|b bs]; simpl; [constructor|].
    apply Forall_cons in H as [Hb _]. rewrite Forall_forall in Hb |- *.
    intros c [Hid Hc]%list_elem_of_filter. auto.
Qed.

(** Consecutive chunks of [log]: [n] chunks of log 1 from chunk [i] on. *)
Definition log_chunks (log : list Z) (i n : nat) : list LogDataChunk :=
  (fun k => {| c_id := 1; c_offset := Z.of_nat (90 * k);
               c_count := zlen (take 90 (drop (90 * k) log));
               c_data := take 90 (drop (90 * k) log) |}) <$> seq i n.

Definition sample_bytes : list Z := (fun n => Z.of_nat n mod 251) <$> seq 0 200.

Definition sample_params : Params :=
  {| p_log_id := 1; p_byte_offset := 0; p_byte_count := 200; p_probe_bytes := 100;
     p_write_file := true |}.

Lemma sample_params_ok : params_ok sample_params.
Proof. by constructor. Qed.

Definition sample_script : Script :=
  {| sc_now := 1000; sc_batches := [log_chunks sample_bytes 0 1; log_chunks sample_bytes 1 2] |}.

Lemma log_chunk_honest log k : (90 * k < length log)%nat -> zlen log < 2 ^ 32 ->
  honest_chunk 1 log {| c_id := 1; c_offset := Z.of_nat (90 * k);
    c_count := zlen (take 90 (drop (90 * k) log)); c_data := take 90 (drop (90 * k) log) |}.
Proof.
  intros Hk Hl. unfold zlen in *. split.
  - unfold chunk_wf, is_u32, zlen. simpl c_offset. simpl c_count. simpl c_data.
    rewrite length_take, length_drop. lia.
  - intros _ i Hi _. cbn [c_data c_offset] in *. rewrite length_take in Hi.
    rewrite lookup_take_lt by lia. rewrite lookup_drop. f_equal. lia.
Qed.

Lemma log_chunks_honest log i n : (90 * (i + n) < length log + 90)%nat -> zlen log < 2 ^ 32 ->
  Forall (honest_chunk 1 log) (log_chunks log i n).
Proof.
  intros Hn Hl. unfold log_chunks. rewrite Forall_fmap, Forall_forall.
  intros k Hk%elem_of_seq. apply log_chunk_honest; lia.
Qed.

Lemma sample_script_good : script_good (honest_chunk 1 sample_bytes) sample_script.
Proof.
  assert (length sample_bytes = 200%nat) as Hl by done.
  unfold script_good. cbn [sc_batches sample_script].
  constructor; [|constructor; [|constructor]]; apply log_chunks_honest;
    unfold zlen; rewrite Hl; lia.
Qed.

(** * Properties *)

(** C10. A session against any lawful owner never throws, and a successful
    result stands for pieces of the queued chunks, in order of arrival, that
    cover every byte of the log: the file holds their writes, the ranges their
    extents, [sha256] and [probe_sha256] are the digests of their bytes and of
    the first [probe_length] of them. *)
Theorem session_delivers {W} `{SessionOwner W} (Good : W -> Prop)
    (good_chunk : LogDataChunk -> Prop) (clock : W -> Z)
    `{!SessionOwnerLaws W Good good_chunk clock} settings p fuel file w :
  params_ok p -> (forall c, good_chunk c -> chunk_wf c) -> Good w ->
  match run settings p fuel file w with
  | (Ok (r, f), _) =>
      sr_success r = true -> exists cs, delivered Good good_chunk p file r f cs
  | (Throw _, _) => False
  | (OutOfFuel, _) => True
  end.
Proof.
  intros Hp Hwf Hw.
  pose proof (run_spec Good good_chunk clock settings p Hp Hwf file True fuel
    (clock w) (or_introl I) w (conj Hw (Z.le_refl _))) as Hr.
  destruct (run settings p fuel file w) as [[[r f]|e|] w']; try done. apply Hr.
Qed.

Lemma session_delivers_witness :
  match run default_download sample_params 10 new_file sample_script with
  | (Ok (r, f), _) =>
      sr_success r = true ->
      exists cs, delivered (script_good (honest_chunk 1 sample_bytes)) (honest_chunk 1 sample_bytes) sample_params
        new_file r f cs
  | (Throw _, _) => False
  | (OutOfFuel, _) => True
  end.
Proof.
  apply (session_delivers _ _ sc_now default_download sample_params 10 new_file sample_script
    sample_params_ok (fun c Hc => proj1 Hc) sample_script_good).
Defined.

(** C9. When the chunks carry the log's bytes and no write failed, the file of a
    successful session is the log, byte for byte. *)
Theorem session_file_is_log {W} `{SessionOwner W} (Good : W -> Prop) (clock : W -> Z)
    settings p (log : list Z) `{!SessionOwnerLaws W Good (honest_chunk (p_log_id p) log) clock}
    fuel w r f w' :
  params_ok p -> p_write_file p = true -> p_byte_count p = zlen log -> Good w ->
  run settings p fuel new_file w = (Ok (r, f), w') ->
  sr_success r = true -> f_good f = true ->
  f_bytes f = log /\ bytesReceived (sr_ranges r) = zlen log.
Proof.
  intros Hp Hwr Hlen Hw Hrun Hs Hg.
  pose proof (run_spec Good (honest_chunk (p_log_id p) log) clock settings p Hp (fun c Hc => proj1 Hc) new_file True
    fuel (clock w) (or_introl I) w (conj Hw (Z.le_refl _))) as Hr.
  rewrite Hrun in Hr. destruct Hr as [Hr _]. destruct (Hr Hs) as [cs Hcs].
  by eapply (delivered_log Good p log).
Qed.

(** The run of the sample session succeeds. *)
Lemma sample_run_ok :
  exists r f w', run default_download sample_params 10 new_file sample_script = (Ok (r, f), w') /\
    sr_success r = true /\ f_good f = true.
Proof.
  assert (match run default_download sample_params 10 new_file sample_script with
          | (Ok (r, f), _) => sr_success r && f_good f | _ => false end = true) as Hr
    by (vm_compute; reflexivity).
  destruct (run _ _ _ _ _) as [[[r f]|e|] w']; [|done..].
  apply andb_true_iff in Hr as [? ?]. by exists r, f, w'.
Qed.

Lemma session_file_is_log_witness :
  exists r f w', run default_download sample_params 10 new_file sample_script = (Ok (r, f), w') /\
    sr_success r = true /\ (f_bytes f = sample_bytes /\ bytesReceived (sr_ranges r) = zlen sample_bytes).
Proof.
  destruct sample_run_ok as (r & f & w' & E & Hs & Hg).
  exists r, f, w'. split; [done|]. split; [done|].
  exact (session_file_is_log (script_good (honest_chunk 1 sample_bytes)) sc_now
    default_download sample_params sample_bytes 10 sample_script r f w' sample_params_ok
    eq_refl eq_refl sample_script_good E Hs Hg).
Defined.

(** C11. Every session ends: against a lawful owner, a bounded number of turns of
    its loops always reaches a result. *)
Theorem session_terminates {W} `{SessionOwner W} (Good : W -> Prop)
    (good_chunk : LogDataChunk -> Prop) (clock : W -> Z)
    `{!SessionOwnerLaws W Good good_chunk clock} settings p :
  params_ok p -> (forall c, good_chunk c -> chunk_wf c) ->
  exists turns, forall fuel file w, (turns <= fuel)%nat -> Good w ->
    exists r f w', run settings p fuel file w = (Ok (r, f), w') /\ Good w'.
Proof.
  intros Hp Hwf.
  exists (S (Z.to_nat (Z.max 0 (retry_count settings + 1) +
    Z.max 0 (fc_busy_retry_attempts settings) + enough_fuel settings p))).
  intros fuel file w Hf Hw.
  destruct (spec_total _ _ _ w (run_spec Good good_chunk clock settings p Hp Hwf file False
    fuel (clock w) ltac:(right; lia)) (conj Hw (Z.le_refl _)))
    as ([r f] & w' & Hr & _ & Hw'). eauto.
Qed.

Lemma session_terminates_witness :
  exists turns, forall fuel file w, (turns <= fuel)%nat ->
    script_good (honest_chunk 1 sample_bytes) w ->
    exists r f w', run default_download sample_params fuel file w = (Ok (r, f), w') /\
      script_good (honest_chunk 1 sample_bytes) w'.
Proof.
  apply (session_terminates _ (honest_chunk 1 sample_bytes) sc_now default_download sample_params
    sample_params_ok (fun c Hc => proj1 Hc)).
Defined.

(** C31. [requestMergedGaps] sends one request for each gap, in order.  Every
    request is non-empty, asks only for missing bytes and reaches the end of its
    gap; it begins at the gap or at the first chunk boundary in it. *)
Theorem requestMergedGaps_requests {W} `{SessionOwner W} p fuel r total w :
  ranges_ok r -> 0 < total -> total + kLogChunkSize <= 2 ^ 32 ->
  Forall (fun se => se.2 <= total) r -> total <= Z.of_nat fuel ->
  requestMergedGaps p fuel r total w = send_requests p (gap_requests r total) w /\
  Forall2 (fun req gap => gap.1 <= req.1 /\ 0 < req.2 /\ req.1 + req.2 = gap.1 + gap.2 /\
                          (req.1 = gap.1 \/ req.1 mod kLogChunkSize = 0) /\
                          forall x, req.1 <= x < req.1 + req.2 -> 0 <= x < total /\ ~ covered r x)
          (gap_requests r total) (gaps r total).
Proof.
  intros Hr Ht Hs Hle Hf. pose proof (gaps_from_bounds r 0 total Hr Hle ltac:(lia)) as Hb.
  split; [by apply (request_gaps_send p fuel _ total)|].
  unfold gap_requests. apply Forall2_fmap_l, Forall_Forall2_diag.
  rewrite Forall_forall in Hb |- *. intros [o n] Hin. destruct (Hb _ Hin) as (Ho & Hn & Hlt).
  simpl in *. destruct (gap_start_spec o n) as [Hg Hal]; [lia..|].
  split_and!; try lia.
  intros x Hx. apply (gaps_from_spec r 0 total x Hr Hle ltac:(lia)).
  unfold in_gaps. apply Exists_exists. exists (o, n). split; [done|simpl; lia].
Qed.

Lemma requestMergedGaps_requests_witness :
  requestMergedGaps sample_params 900 sample_ranges 900 sample_script =
    send_requests sample_params (gap_requests sample_ranges 900) sample_script /\
  Forall2 (fun req gap => gap.1 <= req.1 /\ 0 < req.2 /\ req.1 + req.2 = gap.1 + gap.2 /\
                          (req.1 = gap.1 \/ req.1 mod kLogChunkSize = 0) /\
                          forall x, req.1 <= x < req.1 + req.2 -> 0 <= x < 900 /\ ~ covered sample_ranges x)
          (gap_requests sample_ranges 900) (gaps sample_ranges 900).
Proof.
  apply (requestMergedGaps_requests sample_params 900 sample_ranges 900 sample_script);
    [apply sample_ranges_ok|lia|unfold kLogChunkSize; lia| |lia].
  change sample_ranges with [(0, 720); (810, 900)]. repeat constructor; simpl; lia.
Defined.

(** A retransmitted first chunk: the link delivers it twice. *)
Definition duplicate_script : Script :=
  {| sc_now := 1000;
     sc_batches := [log_chunks sample_bytes 0 1; log_chunks sample_bytes 0 1;
                    log_chunks sample_bytes 1 2] |}.

(** The digest is that of the chunks as they arrived: when one chunk of an
    honest log is delivered twice, the session still succeeds and the file is the
    log, but the digest (and the probe digest) it returns is not the log's. *)
Theorem duplicate_changes_digest :
  exists r f w',
    run default_download sample_params 10 new_file duplicate_script = (Ok (r, f), w') /\
    script_good (honest_chunk 1 sample_bytes) duplicate_script /\
    sr_success r = true /\ f_bytes f = sample_bytes /\
    sr_sha256 r <> sha256 sample_bytes /\ sr_probe_sha256 r <> sha256 (take 100 sample_bytes).
Proof.
  assert (match run default_download sample_params 10 new_file duplicate_script with
          | (Ok (r, f), _) =>
              sr_success r && bool_decide (f_bytes f = sample_bytes) &&
              negb (String.eqb (sr_sha256 r) (sha256 sample_bytes)) &&
              negb (String.eqb (sr_probe_sha256 r) (sha256 (take 100 sample_bytes)))
          | _ => false end = true) as Hr by (vm_compute; reflexivity).
  destruct (run _ _ _ _ _) as [[[r f]|e|] w']; [|done..].
  rewrite !andb_true_iff, !negb_true_iff, !String.eqb_neq, bool_decide_eq_true in Hr.
  destruct Hr as (((Hs & Hf) & Hd) & Hpd). exists r, f, w'. split; [done|].
  assert (length sample_bytes = 200%nat) as Hl by done.
  split; [|exact (conj Hs (conj Hf (conj Hd Hpd)))].
  unfold script_good. cbn [sc_batches duplicate_script].
  do 2 (constructor; [apply log_chunks_honest; unfold zlen; rewrite Hl; lia|]).
  constructor; [|constructor]. apply log_chunks_honest; unfold zlen; rewrite Hl; lia.
Qed.
