(* ===== verification/SessionSuccess.v ===== *)
(** Completeness of the streaming session: when the flight controller's frames
    arrive in time, the session succeeds.

    [OwnerDelivers] is what a vehicle and a link that answer promise through the
    session's owner: what a session drains are chunks of its log, in any order and
    with repetitions, and the time limit does not pass while a chunk is missing.
    [ArchiveSuccess] shows that the downloader is such an owner. *)

From S2P Require Import Prelude Effects LogProtocol Types ReceivedRanges ChunkCoverage Sha256 Session SessionProofs.
Open Scope Z_scope.

(** * Chunks as the flight controller sends them *)

(** The bytes of the log's [k]-th chunk. *)
Definition slot_bytes (log : list Z) (k : Z) : list Z := take 90 (drop (Z.to_nat (90 * k)) log).

(** A chunk of the log [id], at a multiple of 90 bytes. *)
Definition sent_chunk (id : Z) (log : list Z) (c : LogDataChunk) : Prop :=
  c_id c = id /\ exists k, 0 <= k /\ 90 * k < zlen log /\ c_offset c = 90 * k /\
    c_data c = slot_bytes log k /\ c_count c = zlen (c_data c).

(** Every chunk of the log is among [cs]. *)
Definition all_sent (log : list Z) (cs : list LogDataChunk) : Prop :=
  forall k, 0 <= k -> 90 * k < zlen log -> exists c, c ∈ cs /\ c_offset c = 90 * k.

Lemma all_sent_more log cs cs' : all_sent log cs -> all_sent log (cs ++ cs').
Proof.
  intros Hall k Hk Hl. destruct (Hall k Hk Hl) as (c & Hc & Ho). exists c. split; [|done]. apply elem_of_app. by left.
Qed.

Lemma slot_bytes_length log k : 0 <= k -> 90 * k < zlen log ->
  zlen (slot_bytes log k) = Z.min 90 (zlen log - 90 * k).
Proof. unfold slot_bytes, zlen. intros Hk Hl. rewrite length_take, length_drop. lia. Qed.

Lemma sent_honest id log c : zlen log < 2 ^ 32 -> sent_chunk id log c -> honest_chunk id log c.
Proof.
  intros Hlt (_ & k & Hk & Hl & Ho & Hd & Hn). pose proof (slot_bytes_length log k Hk Hl) as Hlen.
  split; [unfold chunk_wf, is_u32; rewrite Ho, Hn, Hd; lia|].
  intros _ i Hi _. rewrite Hd in Hi |- *. rewrite Ho. unfold slot_bytes in *.
  rewrite length_take in Hi. rewrite lookup_take_lt, lookup_drop by lia. done.
Qed.

(** * Triples *)

(** Both triples hold of the same run. *)
Lemma spec_conj {W A} (D : Prop) P P' (m : M W A) Q Q' :
  spec D P m Q -> spec True P' m Q' ->
  spec D (fun w => P w /\ P' w) m (fun a w => Q a w /\ Q' a w).
Proof.
  intros Hm Hm' w [Hw Hw']. specialize (Hm w Hw). specialize (Hm' w Hw').
  by destruct (m w) as [[a|e|] w'].
Qed.

(** A computation that leaves the world as it is. *)
Definition still {W A} (m : M W A) : Prop := forall w, (m w).2 = w.

Lemma still_ret {W A} (a : A) : still (mret a : M W A).
Proof. done. Qed.

Lemma still_or_throw {W A} what (o : option A) : still (or_throw what o : M W A).
Proof. by destruct o. Qed.

Lemma still_bind {W A B} (m : M W A) (k : A -> M W B) : still m -> (forall a, still (k a)) -> still (m ≫= k).
Proof.
  intros Hm Hk w. specialize (Hm w). unfold mbind, M_bind. destruct (m w) as [[a|e|] w']; simpl in Hm; subst; [|done..].
  apply Hk.
Qed.

(** * The owner of a session that is answered *)

(** [starting w]: a session of the log [id] is about to begin.  [due waiting seen w]:
    it has begun, and drained the chunks [seen]; [waiting] tells the part of a turn
    before its drain from the part after it.  What is drained are chunks of the log,
    and after a drain the clock is below [limit] while some chunk was not drained
    yet. *)
Class OwnerDelivers (W : Type) `{SessionOwner W} (id : Z) (log : list Z) (limit : Z)
    (starting : W -> Prop) (due : bool -> list LogDataChunk -> W -> Prop) : Prop := {
  due_start w : starting w -> due true [] (clearLogDataChunks (steady_now w).2).2;
  due_cancelled b seen w : due b seen w -> (cancelled w).1 = false /\ due b seen (cancelled w).2;
  due_request b seen o n w : due b seen w -> due b seen (sendLogRequestData id o n w).2;
  due_zeros b seen w : due b seen w -> due b seen (zeroLengthDataCount w).2;
  due_progress b seen n w : due b seen w -> due b seen (updateProgressBytes n w).2;
  due_now b seen w : due b seen w -> due b seen (steady_now w).2;
  due_in_time seen w : due false seen w -> ~ all_sent log seen -> (steady_now w).1 < limit;
  due_device b seen w : due b seen w -> (device_ok w).1 = true /\ due b seen (device_ok w).2;
  due_drain seen w : due true seen w ->
    Forall (sent_chunk id log) (drainLogDataChunks id w).1 /\
    due false (seen ++ (drainLogDataChunks id w).1) (drainLogDataChunks id w).2;
  due_wait seen w : due false seen w -> due true seen (waitForLogDataNotify (ms 10) w).2;
}.

Section Success.
Context {W : Type} `{SessionOwner W} (Good : W -> Prop) (clock : W -> Z).
Context (settings : DownloadSettings) (p : Params) (log : list Z) (limit : Z).
Context (starting : W -> Prop) (due : bool -> list LogDataChunk -> W -> Prop).
Context `{!SessionOwnerLaws W Good (honest_chunk (p_log_id p) log) clock}.
Context `{!OwnerDelivers W (p_log_id p) log limit starting due}.
Context (Hp : params_ok p) (Hlog : p_byte_count p = zlen log) (file0 : File) (Hfile0 : f_good file0 = true).

Local Abbreviation sent := (sent_chunk (p_log_id p) log).
Local Abbreviation transferred_ x cs :=
  (transferred p (honest_chunk (p_log_id p) log) file0 (fine Good) x cs).

Lemma honest_chunk_wf c : honest_chunk (p_log_id p) log c -> chunk_wf c.
Proof using Type. by intros []. Qed.

Lemma log_bounds : 0 < zlen log /\ zlen log + 255 < 2 ^ 32.
Proof using Hlog Hp. rewrite <- Hlog. by destruct Hp. Qed.

(** What the transfer has of the chunks [seen]: their ranges, their slots, each
    with the fingerprint of the log's bytes, and no failed write. *)
Record caught (x : Transfer) (seen : list LogDataChunk) : Prop := {
  ct_file : f_good (x_file x) = true;
  ct_count : slot_count (x_coverage x) = chunkCountForSize (zlen log);
  ct_slots : exists a, implements (x_coverage x) a /\ a_conflicts a = 0 /\
    (forall k fp, a_slots a !! k = Some fp ->
       fp = fingerprintForSlot (slot_bytes log k) (zlen (slot_bytes log k))) /\
    (forall c, c ∈ seen -> is_Some (a_slots a !! chunkSlotIndex (c_offset c)));
  ct_ranges : forall c i, c ∈ seen -> c_offset c <= i < c_offset c + c_count c -> covered (x_ranges x) i;
}.

Lemma initial_caught : caught (initial_transfer p file0) [].
Proof using Hfile0 Hlog Hp.
  pose proof log_bounds. split; simpl; try done.
  - by rewrite Hlog.
  - exists abs_new. split; [apply new_tracker_implements; rewrite Hlog; lia|]. split; [done|].
    split; [intros k fp; simpl; by rewrite lookup_empty|]. by intros c ?%not_elem_of_nil.
  - by intros c i ?%not_elem_of_nil.
Qed.

(** A chunk of the log is kept whole. *)
Lemma accept_sent c : sent c -> accept_chunk p c = Some (c_offset c, c_count c) /\
  0 < c_count c <= 90 /\ 0 <= c_offset c /\ c_offset c + c_count c <= zlen log /\
  c_offset c mod 90 = 0 /\ 0 <= chunkSlotIndex (c_offset c) < chunkCountForSize (zlen log) /\
  c_data c = slot_bytes log (chunkSlotIndex (c_offset c)).
Proof using Hlog Hp.
  intros (_ & k & Hk & Hl & Ho & Hd & Hn). pose proof log_bounds as [H0 Hlt].
  pose proof (slot_bytes_length log k Hk Hl) as Hlen.
  assert (chunkSlotIndex (c_offset c) = k) as Hslot
    by (unfold chunkSlotIndex, kLogChunkSize; rewrite Ho, Z.mul_comm; apply Z.div_mul; lia).
  pose proof (chunkSlotIndex_lt (zlen log) (c_offset c) ltac:(lia) ltac:(unfold kLogChunkSize; lia)) as Hidx.
  rewrite Hslot in *. rewrite Hd in Hn. rewrite Hn, Ho in *. destruct Hp as [Hofs _ _].
  split; [|split_and!; try done; try lia; by rewrite Z.mul_comm, Z.mod_mul].
  unfold accept_chunk, stop_offset. rewrite Hofs, Z.add_0_l, Hlog, Ho, Hn.
  rewrite (u32_small (zlen log)), (u32_small (90 * k + _)) by lia.
  replace (zlen log <? 90 * k + zlen (slot_bytes log k)) with false by ztest.
  replace (zlen (slot_bytes log k) =? 0) with false by ztest.
  by replace ((90 * k <? 0) || (zlen log <=? 90 * k)) with false by lia.
Qed.

Local Abbreviation at_time := (clocked Good clock).

(** Writing succeeds. *)
Lemma write_spec b l ofs data f : f_good f = true ->
  spec True (due b l) (file_write ofs data f) (fun f' w => f_good f' = true /\ due b l w).
Proof using All.
  intros Hf. unfold file_write. rewrite Hf.
  eapply (spec_bind _ _ _ (fun ok w => ok = true /\ due b l w)).
  - apply spec_op. intros w Hw. by apply due_device.
  - intros ok. apply spec_pure. intros ->. by apply spec_ret.
Qed.

(** Recording a chunk of the log finds no conflict. *)
Lemma record_sent x seen c detect : caught x seen -> sent c ->
  exists coverage, record (x_coverage x) (c_offset c) (c_data c) (c_count c) detect = (true, coverage) /\
    slot_count coverage = chunkCountForSize (zlen log) /\
    exists a, implements coverage a /\ a_conflicts a = 0 /\
      (forall k fp, a_slots a !! k = Some fp ->
         fp = fingerprintForSlot (slot_bytes log k) (zlen (slot_bytes log k))) /\
      (forall c', c' ∈ seen ++ [c] -> is_Some (a_slots a !! chunkSlotIndex (c_offset c'))).
Proof using Hlog Hp.
  intros [_ Hcount (a & Himp & Hconf & Hfps & Hseen) _] Hsent.
  destruct (accept_sent c Hsent) as (_ & Hn & Ho & _ & Hmod & Hslot & Hdata).
  pose proof Hsent as (_ & k & Hk & Hl & Ho' & Hd & Hn').
  destruct (record_implements _ a (c_offset c) (c_data c) (c_count c) detect Himp Ho) as [Hr Himp'].
  pose proof (record_slot_count (x_coverage x) (c_offset c) (c_data c) (c_count c) detect) as Hsc.
  destruct (record _ _ _ _ _) as [ok coverage]. cbn [fst snd] in *.
  set (slot := chunkSlotIndex (c_offset c)) in *.
  assert (abs_record (slot_count (x_coverage x)) a (c_offset c) (c_data c) (c_count c) detect =
          ((a_conflicts (abs_mark a slot (fingerprintForSlot (c_data c) (c_count c)) detect) =? 0) || negb detect,
           abs_mark a slot (fingerprintForSlot (c_data c) (c_count c)) detect)) as Habs.
  { unfold abs_record. fold slot. unfold kLogChunkSize. rewrite Hmod, Hcount.
    replace (c_count c =? 0) with false by ztest. replace (chunkCountForSize (zlen log) <=? slot) with false by ztest.
    done. }
  rewrite Habs in Hr, Himp'. cbn [fst snd] in *. rewrite Hn', Hdata in Hr, Himp'.
  set (fp := fingerprintForSlot (slot_bytes log slot) (zlen (slot_bytes log slot))) in *.
  assert (exists a', abs_mark a slot fp detect = a' /\ a_conflicts a' = 0 /\
    (forall k fp, a_slots a' !! k = Some fp ->
       fp = fingerprintForSlot (slot_bytes log k) (zlen (slot_bytes log k))) /\
    (forall c', c' ∈ seen ++ [c] -> is_Some (a_slots a' !! chunkSlotIndex (c_offset c'))))
    as (a' & Ha' & Hconf' & Hfps' & Hseen').
  { eexists. split; [reflexivity|]. unfold abs_mark. destruct (a_slots a !! slot) as [fp'|] eqn:E.
    - rewrite (Hfps _ _ E). fold fp. rewrite Z.eqb_refl, andb_false_r. split_and!; [done|done|].
      intros c' [Hc'| ->%list_elem_of_singleton]%elem_of_app; [by apply Hseen|by exists fp'].
    - cbn [a_slots a_conflicts]. split; [done|]. split.
      + intros k' fp'. rewrite lookup_insert. case_decide; [by intros [= <-]; subst|apply Hfps].
      + intros c' [Hc'| ->%list_elem_of_singleton]%elem_of_app; apply lookup_insert_is_Some'; [right|by left].
        by apply Hseen. }
  rewrite Ha' in Hr, Himp'. rewrite Hconf' in Hr. exists coverage. split; [by rewrite Hr|].
  split; [congruence|]. by exists a'.
Qed.

Lemma catch_chunk b l c x cs seen : sent c -> transferred_ x cs -> caught x seen ->
  spec True (due b l) (process_chunk settings p c x)
    (fun r w => (r.1 = true /\ caught r.2 (seen ++ [c])) /\ due b l w).
Proof using All.
  intros Hc Ht Hcaught. unfold process_chunk.
  assert (transferred_ (count_packet x) cs) as Ht' by (by destruct Ht).
  assert (caught (count_packet x) seen) as Hcaught' by (by destruct Hcaught).
  revert Ht' Hcaught'. generalize (count_packet x) as y. clear x Ht Hcaught. intros y Ht Hy.
  destruct (accept_sent c Hc) as (-> & Hn & Ho & Hb & _).
  eapply (spec_bind _ _ _ (fun f w => f_good f = true /\ due b l w)).
  { destruct (p_write_file p); [apply write_spec|apply spec_ret; intros w Hw]; by destruct Hy. }
  intros f. apply spec_pure. intros Hf.
  destruct (record_sent y seen c (detect_overlap_conflict settings) Hy Hc) as (coverage & -> & Hcount & Hslots).
  cbn [negb]. pose proof Hc as (_ & k & _ & _ & _ & _ & Hcnt).
  destruct (hash_chunk_spec p Hp _ file0 _ y cs (c_data c) (c_count c) Ht)
    as (h & fin & probe & q & Heq & _); [lia..|].
  eapply (spec_bind _ _ _ (fun a w => a = (h, fin, probe) /\ due b l w)).
  { eapply spec_or_throw; [exact Heq|]. by intros w Hw. }
  intros [[h' fin'] probe']. apply spec_pure. intros [= -> -> ->]. apply spec_ret. intros w Hw.
  split; [|done]. split; [done|]. split; cbn [snd x_file x_coverage x_ranges]; try done.
  destruct (transferred_ranges p Hp _ honest_chunk_wf file0 _ y cs Ht) as (Hok & _).
  pose proof log_bounds. destruct (add_spec (x_ranges y) (c_offset c) (c_count c) Hok) as [_ Hadd];
    [unfold chunk_ok; simpl; lia|].
  intros c' i Hin Hi. apply Hadd. apply elem_of_app in Hin as [Hin| ->%list_elem_of_singleton]; [left|by right].
  by apply (ct_ranges _ _ Hy c').
Qed.

(** ** The loop *)

Lemma weaken_conj {A} (P P' : W -> Prop) (m : M W A) Q Q' :
  spec True P m Q -> spec True (fun w => P w /\ P' w) m Q' ->
  spec True (fun w => P w /\ P' w) m (fun a w => Q a w /\ Q' a w).
Proof using Type.
  intros Hm Hm'. eapply spec_weaken; [by apply (spec_conj True _ _ _ _ _ Hm Hm')| |auto].
  by intros w [? ?].
Qed.

Lemma chunk_both b l t c x cs seen : sent c -> transferred_ x cs -> caught x seen ->
  spec True (fun w => at_time t w /\ due b l w) (process_chunk settings p c x)
    (fun r w => (r.1 = true /\ (exists cs', transferred_ r.2 cs') /\ caught r.2 (seen ++ [c])) /\
                at_time t w /\ due b l w).
Proof using All.
  intros Hc Ht Hcaught. pose proof log_bounds as [_ Hlt].
  eapply spec_post; [apply weaken_conj|].
  - apply (process_chunk_spec Good _ clock settings p Hp honest_chunk_wf file0 True t c x cs);
      [apply sent_honest; [lia|done]|by destruct Hc|done].
  - eapply spec_weaken; [by apply (catch_chunk b l c x cs seen)|by intros w [_ ?]|]. intros r w Hr. exact Hr.
  - intros r w [[Hx Hw] [[Hok Hca] Hd]]. split; [|done]. split; [done|]. split; [|done].
    destruct (Hx Hok) as [cs' Hcs']. by exists (cs ++ cs').
Qed.

Lemma chunks_both b l t chunks : forall x cs seen, Forall sent chunks -> transferred_ x cs -> caught x seen ->
  spec True (fun w => at_time t w /\ due b l w) (process_chunks settings p chunks x)
    (fun r w => (r.1 = true /\ (exists cs', transferred_ r.2 cs') /\ caught r.2 (seen ++ chunks)) /\
                at_time t w /\ due b l w).
Proof using All.
  induction chunks as [|c chunks IH]; intros x cs seen Hall Ht Hca; simpl.
  - apply spec_ret. intros w Hw. rewrite app_nil_r. split; [|done]. by split_and!; [|exists cs|].
  - apply Forall_cons in Hall as [Hc Hall]. eapply spec_bind; [by apply (chunk_both b l t c x cs seen)|].
    intros [ok x']. apply spec_pure. cbn [fst snd]. intros (-> & [cs' Ht'] & Hca').
    eapply spec_post; [by apply (IH x' cs' (seen ++ [c]))|]. by rewrite <- app_assoc.
Qed.

(** A harmless step that keeps what is due. *)
Lemma step_both {A} b l b' l' t (f : W -> A * W) (R : A -> Prop) :
  harmless Good clock f -> (forall w, due b l w -> R (f w).1 /\ due b' l' (f w).2) ->
  spec True (fun w => at_time t w /\ due b l w) (op f) (fun a w => R a /\ at_time t w /\ due b' l' w).
Proof using Type.
  intros Hf Hd. apply spec_op. intros w [[Hg Ht] Hw]. destruct (Hf w Hg), (Hd w Hw).
  split; [done|]. split; [split; [done|lia]|done].
Qed.

Lemma queued_both t x cs seen : transferred_ x cs -> caught x seen ->
  spec True (fun w => at_time t w /\ due true seen w) (processQueuedChunks settings p x)
    (fun r w => exists chunks, (Forall sent chunks /\ r.1 = true /\ (exists cs', transferred_ r.2 cs') /\
                  caught r.2 (seen ++ chunks)) /\
                at_time t w /\ due false (seen ++ chunks) w).
Proof using All.
  intros Ht Hca. unfold processQueuedChunks.
  eapply (spec_bind _ _ _ (fun chunks w => Forall sent chunks /\ at_time t w /\ due false (seen ++ chunks) w)).
  { apply spec_op. intros w [[Hg Hc] Hd]. destruct (due_drain seen w Hd) as [Hs Hd'].
    destruct (drain_harmless (p_log_id p) w Hg). split; [done|]. split; [split; [done|lia]|done]. }
  intros chunks. apply spec_pure. intros Hs.
  eapply spec_post; [apply (chunks_both false (seen ++ chunks) t chunks _ cs seen Hs); [by destruct Ht|by destruct Hca]|].
  intros r w ((? & ? & ?) & Hw). exists chunks. split; [|done]. split; [done|]. by split.
Qed.

(** A transfer that has seen every chunk is complete. *)
Lemma caught_complete x cs seen : transferred_ x cs -> caught x seen -> Forall sent seen -> all_sent log seen ->
  complete (x_ranges x) (p_byte_count p) && allSlotsReceived (x_coverage x) = true.
Proof using Hlog Hp.
  intros Ht Hca Hsent Hall. pose proof log_bounds as [H0 Hlt].
  destruct (transferred_ranges p Hp _ honest_chunk_wf file0 _ x cs Ht) as (Hok & Hle & _).
  rewrite Hlog in *. apply andb_true_iff. split.
  - apply complete_covered; [done..|]. intros i Hi.
    destruct (Hall (i / 90)) as (c & Hc & Ho); [apply Z.div_pos; lia|zmod|].
    apply (ct_ranges _ _ Hca c); [done|]. rewrite Forall_forall in Hsent.
    destruct (Hsent c Hc) as (_ & k & Hk & Hl & Ho' & Hd & Hn). assert (k = i / 90) as -> by lia.
    rewrite Hn, Hd, slot_bytes_length, Ho' by lia. zmod.
  - destruct Hca as [_ Hcount (a & Himp & _ & _ & Hseen) _].
    pose proof (chunkCountForSize_spec (zlen log) ltac:(lia) ltac:(unfold kLogChunkSize; lia)) as Hc.
    unfold kLogChunkSize in Hc. apply (allSlotsReceived_implements _ a Himp); [lia|]. rewrite Hcount. intros k Hk.
    destruct (Hall k) as (c & Hin & Ho); [lia..|]. specialize (Hseen c Hin).
    unfold chunkSlotIndex, kLogChunkSize in Hseen. by rewrite Ho, Z.mul_comm, Z.div_mul in Hseen.
Qed.

(** The session's time. *)
Context (t0 : Z) (Hlimit : limit - t0 <= seconds (download_timeout_sec settings)).

(** A transfer under way: what it has, and when data came last. *)
Definition going (s : RunState) (seen : list LogDataChunk) : Prop :=
  caught (r_transfer s) seen /\ t0 <= r_last_data_time s.

Lemma now_both {B} b l t (k : Z -> M W B) Q :
  (forall now, t <= now -> spec True (fun w => at_time now w /\ due b l w) (k now) Q) ->
  spec True (fun w => at_time t w /\ due b l w) (op steady_now ≫= k) Q.
Proof using All.
  intros Hk. eapply spec_bind; [|intros now; apply (spec_pure _ (t <= now)), Hk].
  apply spec_op. intros w [[Hg Ht] Hd]. destruct (now_harmless w Hg) as [Hg' Hc].
  pose proof (due_now b l w Hd) as Hd'. pose proof (now_clock w Hg) as Hn.
  split; [lia|]. split; [split; [done|lia]|done].
Qed.

(** While a chunk is missing the clock is below the limit. *)
Lemma now_in_time {B} seen t (k : Z -> M W B) Q : ~ all_sent log seen ->
  (forall now, t <= now < limit -> spec True (fun w => at_time now w /\ due false seen w) (k now) Q) ->
  spec True (fun w => at_time t w /\ due false seen w) (op steady_now ≫= k) Q.
Proof using All.
  intros Hmiss Hk. eapply spec_bind; [|intros now; apply (spec_pure _ (t <= now < limit)), Hk].
  apply spec_op. intros w [[Hg Ht] Hd]. destruct (now_harmless w Hg) as [Hg' Hc].
  pose proof (due_in_time seen w Hd Hmiss) as Hl. pose proof (due_now false seen w Hd) as Hd'.
  pose proof (now_clock w Hg) as Hn. split; [lia|]. split; [split; [done|lia]|done].
Qed.

Lemma then_both {A B} b l t (f : W -> A * W) (k : A -> M W B) Q :
  harmless Good clock f -> (forall w, due b l w -> due b l (f w).2) ->
  (forall a, spec True (fun w => at_time t w /\ due b l w) (k a) Q) ->
  spec True (fun w => at_time t w /\ due b l w) (op f ≫= k) Q.
Proof using All.
  intros Hf Hd Hk. eapply spec_bind; [apply (step_both b l b l t f (fun _ => True)); [done|auto]|].
  intros a. apply spec_pure. intros _. apply Hk.
Qed.

Lemma progress_going b l t s seen : t0 <= t -> going s seen ->
  spec True (fun w => at_time t w /\ due b l w) (note_progress s)
    (fun s' w => going s' seen /\ at_time t w /\ due b l w).
Proof using All.
  intros Ht [Hc Hl]. unfold note_progress. case_bool; [|by apply spec_ret].
  apply now_both. intros now Hnow. apply then_both; [harmless_op|intros w; apply due_progress|].
  intros u. apply spec_ret. intros w [[Hgw Hc'] Hd]. split; [split; [done|simpl; lia]|].
  split; [split; [done|lia]|done].
Qed.

(** Requests keep what is due. *)
Lemma gap_due b l fuel : forall req_start stop,
  spec True (due b l) (request_gap p fuel req_start stop) (fun _ => due b l).
Proof using All.
  induction fuel as [|fuel IH]; intros req_start stop; simpl; (case_bool; [|by apply spec_ret]);
    [by apply spec_fuel|].
  destruct (coalesce (S fuel) req_start stop kLogChunkSize) as [c|] eqn:E; simpl in E; rewrite E;
    [|by apply spec_fuel].
  eapply (spec_bind _ _ _ (fun _ => due b l)); [|auto]. apply spec_op. intros w. apply due_request.
Qed.

Lemma merged_gaps_due b l fuel r n :
  spec True (due b l) (requestMergedGaps p fuel r n) (fun _ => due b l).
Proof using All.
  unfold requestMergedGaps. induction (gaps r n) as [|[o c] gs IH]; [by apply spec_ret|]. cbn [request_gaps].
  eapply (spec_bind _ _ _ (fun _ => due b l)); [|intros []; exact IH].
  case_bool; [by apply spec_ret|apply gap_due].
Qed.

Lemma fill_going b l t fuel rc now s seen : going s seen ->
  spec True (fun w => at_time t w /\ due b l w) (fill_gaps settings p fuel rc now s)
    (fun s' w => going s' seen /\ due b l w).
Proof using All.
  intros [Hc Hl]. eapply spec_weaken; [|intros w [_ Hd]; exact Hd|intros a w Hq; exact Hq].
  unfold fill_gaps. case_bool; [|by apply spec_ret].
  eapply (spec_bind _ _ _ (fun _ => due b l)); [apply merged_gaps_due|]. intros []. apply spec_ret.
  intros w Hd. split; [|done]. split; [by destruct Hc|done].
Qed.

Local Abbreviation alive_ := (alive Good (honest_chunk (p_log_id p) log) p file0).

(** The state of the loop after it noted the progress of a turn. *)
Lemma progress_both b l t s seen : t0 <= t -> alive_ s t -> going s seen ->
  spec True (fun w => at_time t w /\ due b l w) (note_progress s)
    (fun s' w => exists t', (t0 <= t' /\ alive_ s' t' /\ going s' seen /\ r_transfer s' = r_transfer s) /\
                  at_time t' w /\ due b l w).
Proof using All.
  intros Ht Ha Hg. eapply spec_post.
  { apply weaken_conj; [by apply (note_progress_spec Good _ clock settings p Hp honest_chunk_wf file0 True s t)|
      by apply progress_going]. }
  intros s' w [(t' & (Ha' & Hx & _) & [Hgw Hc']) (Hg' & [_ Hc] & Hd)].
  exists (Z.max t t'). split; [|split; [split; [done|lia]|done]].
  split_and!; [lia|by apply (alive_later Good _ clock settings p Hp honest_chunk_wf file0 s' t'); [|lia]|done|done].
Qed.

(** What a loop that succeeds leaves. *)
Definition loop_done (r : LoopExit * RunState) (w : W) : Prop :=
  (r.1 = SessionDone /\ complete (x_ranges (r_transfer r.2)) (p_byte_count p) = true /\
     (exists seen, caught (r_transfer r.2) seen) /\ (exists cs, transferred_ (r_transfer r.2) cs)) /\
  exists t seen, at_time t w /\ due false seen w.

(** A turn that is not the last: no timeout, and a wait. *)
Lemma turn_goes_on fuel rc s seen t : alive_ s t -> going s seen -> t0 <= t -> ~ all_sent log seen ->
  (forall s' t', t0 <= t' -> alive_ s' t' -> going s' seen ->
     spec True (fun w => at_time t' w /\ due true seen w) (transfer_loop settings p fuel s') loop_done) ->
  spec True (fun w => at_time t w /\ due false seen w)
    (now ← op steady_now;
     s ← fill_gaps settings p (S fuel) rc now s;
     if seconds (download_timeout_sec settings) <=? now - r_last_data_time s then
       why ← op classifyTransferTimeout;
       mret (LoopLeft, set_failure why (with_metrics (count_requests 0 0 1) s))
     else
       op (waitForLogDataNotify (ms 10));;
       transfer_loop settings p fuel s)
    loop_done.
Proof using All.
  intros Ha Hg Ht Hmiss IH. apply now_in_time; [done|]. intros now Hnow.
  assert (alive_ s now) as Ha' by (apply (alive_later Good _ clock settings p Hp honest_chunk_wf file0 s t); [done|lia]).
  eapply spec_bind.
  { apply weaken_conj; [apply (fill_gaps_spec Good _ clock settings p Hp honest_chunk_wf file0 True (S fuel) rc now s now Ha');
      [by left|done]|by apply (fill_going false seen now)]. }
  intros s2. eapply (spec_weaken _ _ (fun w =>
    (alive_ s2 now /\ going s2 seen) /\ at_time now w /\ due false seen w)); [| |intros r w Hr; exact Hr].
  2: { intros w [[(Hcs & _ & Hl & Hd & _) Hw] [Hg2 Hdue]]. split; [|done]. split; [|done].
       destruct Ha' as (_ & Hl' & Hd'). split; [done|]. by rewrite Hl, Hd. }
  apply spec_pure. intros [Ha2 Hg2].
  replace (seconds (download_timeout_sec settings) <=? now - r_last_data_time s2) with false
    by (destruct Hg2; ztest).
  eapply spec_bind; [apply (step_both false seen true seen now _ (fun _ => True)); [harmless_op|]|].
  { intros w Hd. split; [done|by apply due_wait]. }
  intros u. apply spec_pure. intros _. apply IH; [lia|done|done].
Qed.

(** A loop that ends does so with all of the log. *)
Lemma loop_succeeds fuel : forall s seen t, alive_ s t -> going s seen -> Forall sent seen -> t0 <= t ->
  spec True (fun w => at_time t w /\ due true seen w) (transfer_loop settings p fuel s) loop_done.
Proof using All.
  induction fuel as [|fuel IH]; intros s seen t Ha Hg Hseen Ht; cbn [transfer_loop]; [by apply spec_fuel|].
  eapply spec_bind; [apply (step_both true seen true seen _ _ (fun c => c = false)); [harmless_op|]|].
  { intros w. apply due_cancelled. }
  intros c. apply spec_pure. intros ->. pose proof Ha as [[cs Hcs] Hal].
  eapply spec_bind; [apply (queued_both t _ cs seen); [done|by destruct Hg]|].
  intros [ok x]. apply spec_ex. intros chunks. apply spec_pure. cbn [fst snd].
  intros (Hchunks & -> & [cs1 Hcs1] & Hca). cbn [negb].
  eapply spec_bind.
  { apply (progress_both false (seen ++ chunks) t (set_transfer x s) (seen ++ chunks) Ht); [split; [by exists cs1|done]|].
    by split; [|destruct Hg]. }
  intros s1. apply spec_ex. intros t1. apply spec_pure. cbn [r_transfer set_transfer]. intros (Ht1 & Ha1 & Hg1 & Hx).
  assert (Forall sent (seen ++ chunks)) as Hseen' by (by apply Forall_app).
  destruct (complete _ _ && _) eqn:Hdone.
  { apply spec_ret. intros w [Hw Hd]. split; [|by exists t1, (seen ++ chunks)]. split; [done|]. cbn [snd]. rewrite Hx.
    apply andb_true_iff in Hdone as [Hcomp _]. split; [done|]. split; [by exists (seen ++ chunks)|by exists cs1]. }
  apply (turn_goes_on fuel _ s1 (seen ++ chunks) t1); [done..| |].
  - intros Hcov. by rewrite (caught_complete x cs1 (seen ++ chunks)) in Hdone.
  - intros s2 t2 Ht2 Ha2 Hg2. by apply (IH s2 (seen ++ chunks)).
Qed.

(** ** The session *)

(** [finish_success] succeeds unless a conflict was seen. *)
Lemma finish_caught s seen (w : W) r w' : caught (r_transfer s) seen ->
  finish_success p s w = (Ok r, w') -> sr_success r = true.
Proof using Type.
  intros [_ _ (a & Himp & Hconf & _) _]. unfold finish_success. rewrite (imp_conflicts _ _ Himp), Hconf.
  cbn [Z.ltb Z.compare]. unfold mbind, M_bind.
  match goal with |- context [match ?m w with _ => _ end] => destruct (m w) as [[probe|e|] w1] end; try done.
  match goal with |- context [match ?m w1 with _ => _ end] => destruct (m w1) as [[[digest h]|e|] w2] end; try done.
  by intros [= <- <-].
Qed.

(** It leaves the world as it is. *)
Lemma finish_world s (w : W) : (finish_success p s w).2 = w.
Proof using Type.
  revert w. change (still (finish_success p s : M W _)). unfold finish_success.
  case_bool; [apply still_ret|]. apply still_bind.
  { case_bool; [apply still_or_throw|]. case_bool; [apply still_or_throw|apply still_ret]. }
  intros probe. apply still_bind; [apply still_or_throw|]. intros [digest h]. apply still_ret.
Qed.

Lemma request_both t attempt before s seen : t0 <= t -> alive_ s t -> going s seen ->
  spec True (fun w => at_time t w /\ due true seen w) (request_stream p attempt before s)
    (fun s' w => exists t', (t0 <= t' /\ alive_ s' t' /\ going s' seen) /\ at_time t' w /\ due true seen w).
Proof using All.
  intros Ht Ha Hg. unfold request_stream. case_bool.
  - apply then_both; [harmless_op|intros w; apply due_request|]. intros b. apply now_both. intros now Hnow.
    apply spec_ret. intros w Hw. exists now. split; [|done]. destruct Ha as ([cs Hcs] & Hl & Hd), Hg as [Hc Hd'].
    split; [lia|]. split; [split; [exists cs; by destruct Hcs|simpl; lia]|]. split; [by destruct Hc|simpl; lia].
  - apply spec_ret. intros w Hw. exists t. split; [split; [done|by split]|done].
Qed.

Lemma attempts_succeed fuel s t : 0 <= retry_count settings -> alive_ s t -> going s [] -> t0 <= t ->
  spec True (fun w => at_time t w /\ due true [] w) (attempts settings p fuel 0 s)
    (fun r w => (r.1 = Finished /\ complete (x_ranges (r_transfer r.2)) (p_byte_count p) = true /\
       (exists seen, caught (r_transfer r.2) seen) /\ (exists cs, transferred_ (r_transfer r.2) cs)) /\
       exists t seen, at_time t w /\ due false seen w).
Proof using All.
  intros Hr Ha Hg Ht. destruct fuel as [|fuel]; cbn [attempts]; [by apply spec_fuel|].
  replace (retry_count settings <? 0) with false by ztest.
  eapply spec_bind; [apply (step_both true [] true [] _ _ (fun c => c = false)); [harmless_op|]|].
  { intros w. apply due_cancelled. }
  intros c. apply spec_pure. intros ->. apply then_both; [harmless_op|intros w; apply due_zeros|]. intros zeros.
  eapply spec_bind; [by apply (request_both t _ _ s [] Ht)|].
  intros s1. apply spec_ex. intros t1. apply spec_pure. intros (Ht1 & Ha1 & Hg1).
  eapply spec_bind; [by apply (loop_succeeds (S fuel) s1 [] t1)|].
  intros [e s2]. unfold loop_done. cbn [fst snd]. apply spec_pure. intros (-> & Hcomp & Hc & Hcs).
  apply spec_ret. intros w Hw. by split.
Qed.

(** The flush before the result. *)
Lemma flush_both b l t f : f_good f = true ->
  spec True (fun w => at_time t w /\ due b l w) (if p_write_file p then file_flush f else mret f)
    (fun f' w => f' = f /\ at_time t w /\ due b l w).
Proof using All.
  intros Hf. destruct (p_write_file p); [|by apply spec_ret]. unfold file_flush. rewrite Hf.
  eapply spec_bind; [apply (step_both b l b l _ _ (fun ok => ok = true)); [harmless_op|]|].
  { intros w. apply due_device. }
  intros ok. apply spec_pure. intros ->. apply spec_ret. intros w Hw. split; [by destruct f; simpl in *; subst|done].
Qed.

(** The start: the clock, and an empty queue. *)
Lemma start_both {B} (k : Z -> M W B) Q :
  (forall now, t0 <= now -> spec True (fun w => at_time now w /\ due true [] w) (k now) Q) ->
  spec True (fun w => at_time t0 w /\ starting w) (now ← op steady_now; op clearLogDataChunks;; k now) Q.
Proof using All.
  intros Hk.
  eapply (spec_bind _ _ _ (fun now w' => t0 <= now /\ exists w, w' = (steady_now w).2 /\ at_time now w' /\ starting w)).
  { apply spec_op. intros w [[Hg Ht] Hs]. destruct (now_harmless w Hg) as [Hg' Hc].
    pose proof (now_clock w Hg) as Hn. split; [lia|]. exists w. split; [done|]. split; [split; [done|lia]|done]. }
  intros now. apply spec_pure. intros Hnow.
  eapply (spec_bind _ _ _ (fun _ w => at_time now w /\ due true [] w)); [|intros u; by apply Hk].
  apply spec_op. intros w' (w & -> & [Hg Ht] & Hs). destruct (clear_harmless _ Hg).
  split; [split; [done|lia]|by apply due_start].
Qed.

Lemma run_succeeds fuel : 0 <= retry_count settings ->
  spec True (fun w => at_time t0 w /\ starting w) (run settings p fuel file0)
    (fun r w => (sr_success r.1 = true /\ f_good r.2 = true /\
       exists cs, delivered Good (honest_chunk (p_log_id p) log) p file0 r.1 r.2 cs) /\
       exists t seen, at_time t w /\ due false seen w).
Proof using All.
  intros Hr. unfold run. pose proof (ok_count p Hp) as Hn.
  replace (p_byte_count p =? 0) with false by ztest. apply start_both. intros now Hnow.
  eapply spec_bind.
  { apply (attempts_succeed fuel (initial_state p file0 now) now); [done| |split; [apply initial_caught|simpl; lia]|lia].
    split; [exists []; by apply initial_transferred|]. simpl. lia. }
  intros [e s]. cbn [fst snd]. apply spec_pure. intros (-> & Hcomp & [seen Hc] & [cs Hcs]).
  apply spec_ex. intros t1. apply spec_ex. intros l.
  pose proof (ct_file _ _ Hc) as Hfile.
  eapply spec_bind; [by apply (flush_both false l t1)|]. intros f. apply spec_pure. intros ->.
  intros w [Hw Hd]. unfold mbind, M_bind. pose proof (finish_world s w) as Hsame.
  pose proof (finish_success_spec Good _ clock settings p Hp honest_chunk_wf file0 False t1 s _ cs Hcs Hcomp
    (fun _ Hg => conj Hg eq_refl) (fun _ _ Hg => Hg) w Hw) as Hfin.
  destruct (finish_success p s w) as [[r|e|] w'] eqn:E; try done. cbn [snd] in Hsame. subst w'.
  pose proof (finish_caught s seen w r w Hc E) as Hok. destruct Hfin as [Hdel Hw'].
  split; [|by exists t1, l]. split; [done|]. split; [done|]. exists cs. by apply Hdel.
Qed.
End Success.

(** * A script that answers *)

(** The batches to come hold what was not drained yet, and end in time. *)
Definition script_due (id : Z) (log : list Z) (limit : Z) (waiting : bool) (seen : list LogDataChunk)
    (s : Script) : Prop :=
  Forall (Forall (sent_chunk id log)) (sc_batches s) /\ all_sent log (seen ++ mjoin (sc_batches s)) /\
  (all_sent log seen \/
   sc_now s + (Z.of_nat (length (sc_batches s)) + (if waiting then 0 else 1)) * ms 10 < limit).

#[global] Instance Script_delivers id log limit :
  OwnerDelivers Script id log limit (script_due id log limit true []) (script_due id log limit).
Proof.
  split; unfold script_due; simpl; try done.
  - intros seen w (_ & _ & [?|Ht]) Hmiss; [done|]. unfold ms in Ht. lia.
  - intros seen [now [|b bs]] (Hs & Hall & Ht); simpl in *.
    + rewrite !app_nil_r in *. by split_and!; [constructor..| |left].
    + apply Forall_cons in Hs as [Hb Hbs]. assert (filter (fun c => c_id c = id) b = b) as ->.
      { clear -Hb. induction Hb as [|c b [Hc _] _ IH]; [done|]. by rewrite filter_cons_True, IH. }
      split; [done|]. split; [done|]. rewrite <- app_assoc. split; [done|].
      destruct Ht as [Hd|Ht]; [left; by apply all_sent_more|right; unfold ms in *; lia].
  - intros seen w (Hs & Hall & Ht). split; [done|]. split; [done|]. unfold ms in *. destruct Ht; [by left|right; lia].
Qed.


Lemma log_chunks_all log n : zlen log <= 90 * Z.of_nat n -> all_sent log (log_chunks log 0 n).
Proof.
  intros Hn k Hk Hl. eexists. split; [apply list_elem_of_fmap_2, (elem_of_seq 0 n (Z.to_nat k)); lia|]. simpl. lia.
Qed.

Lemma sample_sent i n : (90 * (i + n) < 290)%nat -> Forall (sent_chunk 1 sample_bytes) (log_chunks sample_bytes i n).
Proof.
  intros Hn. unfold log_chunks. rewrite Forall_fmap, Forall_forall. intros k Hk%elem_of_seq. split; [done|].
  exists (Z.of_nat k). assert (zlen sample_bytes = 200) as -> by done. unfold compose. cbn [c_offset c_data c_count].
  split_and!; try lia. unfold slot_bytes. do 2 f_equal. lia.
Qed.

(** * Properties *)

(** C12. A session that is answered succeeds.  If what is drained are 90-byte chunks
    of the log, in any order and with any repetitions, nobody cancels, the disk
    works, and the clock passes the download timeout only after every chunk was
    drained ([OwnerDelivers]), then the session ends, in success, and the file holds
    the log, byte for byte. *)
Theorem session_succeeds {W} `{SessionOwner W} (Good : W -> Prop) (clock : W -> Z) settings p (log : list Z)
    limit starting due `{!SessionOwnerLaws W Good (honest_chunk (p_log_id p) log) clock}
    `{!OwnerDelivers W (p_log_id p) log limit starting due} fuel w :
  params_ok p -> p_byte_count p = zlen log -> 0 <= retry_count settings -> Good w -> starting w ->
  limit - clock w <= seconds (download_timeout_sec settings) ->
  retry_count settings + 1 + Z.max 0 (fc_busy_retry_attempts settings) + enough_fuel settings p < Z.of_nat fuel ->
  exists r f w', run settings p fuel new_file w = (Ok (r, f), w') /\
    sr_success r = true /\ f_good f = true /\ (p_write_file p = true -> f_bytes f = log).
Proof.
  intros Hp Hlog Hr Hw Hs Hlimit Hf.
  pose proof (run_spec Good _ clock settings p Hp (honest_chunk_wf p log) new_file False fuel (clock w)
    ltac:(right; lia)) as Hend.
  destruct (spec_total _ _ _ w (spec_conj False _ _ _ _ _ Hend (run_succeeds Good clock settings p log limit starting due
    Hp Hlog new_file eq_refl (clock w) Hlimit fuel Hr)) (conj (conj Hw (Z.le_refl _)) (conj (conj Hw (Z.le_refl _)) Hs)))
    as ([r f] & w' & Hrun & _ & (Hok & Hg & cs & Hcs) & _).
  exists r, f, w'. split_and!; try done. intros Hwr. by eapply (delivered_log Good p log).
Qed.

Lemma session_succeeds_witness :
  exists fuel r f w', run default_download sample_params fuel new_file sample_script = (Ok (r, f), w') /\
    sr_success r = true /\ f_good f = true /\ (true = true -> f_bytes f = sample_bytes).
Proof.
  exists (Z.to_nat (100 + enough_fuel default_download sample_params)).
  refine (session_succeeds (script_good (honest_chunk 1 sample_bytes)) sc_now default_download sample_params sample_bytes
    (1000 + seconds 1) (script_due 1 sample_bytes (1000 + seconds 1) true []) (script_due 1 sample_bytes (1000 + seconds 1))
    _ sample_script sample_params_ok eq_refl _ sample_script_good _ _ _).
  - simpl. lia.
  - split_and!; [|change (all_sent sample_bytes (log_chunks sample_bytes 0 3)); by apply log_chunks_all|right; vm_compute; reflexivity].
    constructor; [apply sample_sent; lia|constructor; [apply sample_sent; lia|constructor]].
  - vm_compute. discriminate.
  - assert (0 <= enough_fuel default_download sample_params) by (vm_compute; discriminate).
    rewrite Z2Nat.id by lia. change (retry_count default_download + 1 + Z.max 0 (fc_busy_retry_attempts default_download)) with 12.
    lia.
Defined.
