(* ===== verification/Json.v ===== *)
(** JSON documents, and what the companion protocol relies on of its JSON
    library (nlohmann::json, not part of the repository): the document model,
    the class of its operations and the laws its documentation states. *)

From S2P Require Import Prelude.
From Stdlib Require Import Floats.SpecFloat.
Open Scope Z_scope.

#[warnings="-register-all"]
Inductive json :=
| JNull
| JBool (b : bool)
| JInt (n : Z)            (* signed or unsigned, of 64 bits *)
| JFloat (d : spec_float)
| JString (s : string)
| JArray (l : list json)
| JObject (m : list (string * json)).  (* in key order, no key twice *)

(** * Objects *)

Fixpoint field (key : string) (m : list (string * json)) : option json :=
  match m with
  | [] => None
  | (k, v) :: m' => if String.eqb key k then Some v else field key m'
  end.

Fixpoint set_field (key : string) (v : json) (m : list (string * json)) : list (string * json) :=
  match m with
  | [] => [(key, v)]
  | (k, v') :: m' =>
      match String.compare key k with
      | Lt => (key, v) :: m
      | Eq => (key, v) :: m'
      | Gt => (k, v') :: set_field key v m'
      end
  end.

(** [r[key] = v]: null becomes an object; the code uses it on nothing else. *)
Definition jset (key : string) (v : json) (r : json) : json :=
  match r with
  | JObject m => JObject (set_field key v m)
  | JNull => JObject [(key, v)]
  | _ => r
  end.

(** [obj[key]], null if there is none. *)
Definition jget (key : string) (r : json) : json :=
  match r with JObject m => default JNull (field key m) | _ => JNull end.

(** [r[key1][key2] = v], and one level deeper. *)
Definition jset2 (key1 key2 : string) (v : json) (r : json) : json :=
  jset key1 (jset key2 v (jget key1 r)) r.
Definition jset3 (key1 key2 key3 : string) (v : json) (r : json) : json :=
  jset key1 (jset2 key2 key3 v (jget key1 r)) r.

Lemma compare_refl (s : string) : String.compare s s = Eq.
Proof.
  induction s as [|c s IH]; [done|]. simpl. unfold Ascii.compare. by rewrite N.compare_refl.
Qed.

Lemma field_set key key' v m :
  field key' (set_field key v m) = if String.eqb key' key then Some v else field key' m.
Proof.
  induction m as [|[k w] m IH]; simpl; [done|].
  destruct (String.compare key k) eqn:E; simpl.
  - apply String.compare_eq_iff in E as ->. by destruct (String.eqb key' k).
  - done.
  - destruct (String.eqb_spec key' k) as [->|?]; [|done].
    destruct (String.eqb_spec k key) as [->|?]; [|done].
    by rewrite compare_refl in E.
Qed.

Lemma jget_set key key' v r : (exists m, r = JObject m) \/ r = JNull ->
  jget key' (jset key v r) = if String.eqb key' key then v else jget key' r.
Proof.
  intros [[m ->]| ->]; simpl; [rewrite field_set|]; by destruct (String.eqb key' key).
Qed.

(** * The library *)

Class JsonLibrary := {
  (** [json::parse]; [None] is a [json::exception]. *)
  json_parse : string -> option json;
  (** [dump] with the replacing error handler, which never throws. *)
  json_dump_replace : json -> string;
  (** [dump()]; [None] is the exception for strings that are not UTF-8. *)
  json_dump : json -> option string;
  (** [get<int>], [get<std::string>], [get<bool>]; [None] is a type error. *)
  get_int : json -> option Z;
  get_string : json -> option string;
  get_bool : json -> option bool;
  (** Whether a string is well-formed UTF-8. *)
  utf8 : string -> bool;
}.

Section Documents.
Context `{JsonLibrary}.

(** Every string of a document, keys included, is UTF-8. *)
Fixpoint text_ok (j : json) : bool :=
  match j with
  | JString s => utf8 s
  | JArray l => forallb text_ok l
  | JObject m => forallb (fun kv => utf8 kv.1 && text_ok kv.2) m
  | _ => true
  end.

(** Keys in order, no key twice. *)
Fixpoint sorted_keys (m : list (string * json)) : bool :=
  match m with
  | (k, _) :: ((k', _) :: _) as m' =>
      match String.compare k k' with Lt => sorted_keys m' | _ => false end
  | _ => true
  end.

(** A document the library holds and writes out exactly: no floating point
    number, integers of 64 bits, objects in key order, and strings in UTF-8. *)
Fixpoint doc_ok (j : json) : bool :=
  match j with
  | JInt n => (- 2 ^ 63 <=? n) && (n <? 2 ^ 64)
  | JFloat _ => false
  | JString s => utf8 s
  | JArray l => forallb doc_ok l
  | JObject m => sorted_keys m && forallb (fun kv => utf8 kv.1 && doc_ok kv.2) m
  | _ => true
  end.

(** Every integer of a document is a signed or an unsigned one of 64 bits. *)
Fixpoint ints_ok (j : json) : bool :=
  match j with
  | JInt n => (- 2 ^ 63 <=? n) && (n <? 2 ^ 64)
  | JArray l => forallb ints_ok l
  | JObject m => forallb (fun kv => ints_ok kv.2) m
  | _ => true
  end.

Lemma ints_get key r : ints_ok r = true -> ints_ok (jget key r) = true.
Proof using Type.
  destruct r as [| | | | | |m]; try done. simpl. induction m as [|[k w] m IH]; [done|].
  simpl. intros [Hw Hm]%andb_true_iff. destruct (String.eqb key k); [done|by apply IH].
Qed.

End Documents.

Definition ascii_char (c : ascii) : bool := (nat_of_ascii c <? 128)%nat.

Class JsonLaws `{JsonLibrary} := {
  (** The parser rejects text that is not UTF-8. *)
  parse_text t j : json_parse t = Some j -> text_ok j = true;
  (** A number that is not of 64 bits is read as a floating point number. *)
  parse_ints t j : json_parse t = Some j -> ints_ok j = true;
  (** Only a bad string makes [dump] throw, and the handler then does not matter. *)
  dump_text j : text_ok j = true -> json_dump j = Some (json_dump_replace j);
  (** What was written is read back. *)
  parse_dump j : doc_ok j = true -> json_parse (json_dump_replace j) = Some j;
  dump_nonempty j : json_dump_replace j <> "";
  utf8_ascii s : forallb ascii_char (list_ascii_of_string s) = true -> utf8 s = true;
  (** Conversions: numbers to [int], which is of 32 bits; strings and booleans to themselves. *)
  get_int_range j n : get_int j = Some n -> - 2 ^ 31 <= n < 2 ^ 31;
  get_int_number n : get_int (JInt n) = Some (i32 n);
  get_string_iff j s : get_string j = Some s <-> j = JString s;
  get_bool_iff j b : get_bool j = Some b <-> j = JBool b;
}.

Section Texts.
Context `{JsonLaws}.

Lemma text_set_field key v m : utf8 key = true -> text_ok v = true ->
  text_ok (JObject m) = true -> text_ok (JObject (set_field key v m)) = true.
Proof using Type.
  intros Hk Hv. simpl. induction m as [|[k w] m IH]; simpl; [by rewrite Hk, Hv|].
  intros [Hkw Hm]%andb_true_iff.
  destruct (String.compare key k); simpl; rewrite ?Hk, ?Hv, ?Hkw; auto.
Qed.

Lemma text_set key v r : utf8 key = true -> text_ok v = true -> text_ok r = true ->
  text_ok (jset key v r) = true.
Proof using Type.
  intros Hk Hv Hr. destruct r; try done; unfold jset; [simpl; by rewrite Hk, Hv|].
  by apply text_set_field.
Qed.

Lemma text_field key m v : text_ok (JObject m) = true -> field key m = Some v -> text_ok v = true.
Proof using Type.
  simpl. induction m as [|[k w] m IH]; simpl; [done|].
  intros [[_ Hw]%andb_true_iff Hm]%andb_true_iff. destruct (String.eqb key k); [by intros [= <-]|auto].
Qed.

Lemma text_get key r : text_ok r = true -> text_ok (jget key r) = true.
Proof using Type.
  intros Hr. destruct r as [| | | | | |m]; try done. simpl. destruct (field key m) eqn:E; [|done].
  exact (text_field key m _ Hr E).
Qed.
End Texts.

(** Documents built from ASCII literals, numbers and given strings. *)
Create HintDb json discriminated.
#[export] Hint Resolve text_set text_get : json.
#[export] Hint Extern 1 (utf8 _ = true) => (apply utf8_ascii; reflexivity) : json.
