(* ===== verification/JsonSample.v ===== *)
(** A library that keeps the laws of [JsonLaws]: it writes a document as the
    binary digits of its code in stdpp's enumeration of finite trees, and knows no
    characters but ASCII.  The theorems about the companion interface hold of
    every library; this one shows that their hypotheses can hold, and runs the
    examples. *)

From S2P Require Import Prelude Json.
From stdpp Require Import countable.
Open Scope Z_scope.

(** * Documents as trees *)

Definition leaf : Type := option bool + (Z + string).

Fixpoint to_tree (j : json) : gen_tree leaf :=
  match j with
  | JNull | JFloat _ => GenLeaf (inl None)
  | JBool b => GenLeaf (inl (Some b))
  | JInt n => GenLeaf (inr (inl n))
  | JString s => GenLeaf (inr (inr s))
  | JArray l => GenNode 0 (to_tree <$> l)
  | JObject m => GenNode 1 ((fun kv => GenNode 2 [GenLeaf (inr (inr kv.1)); to_tree kv.2]) <$> m)
  end.

Fixpoint of_tree (t : gen_tree leaf) : json :=
  match t with
  | GenLeaf (inl None) => JNull
  | GenLeaf (inl (Some b)) => JBool b
  | GenLeaf (inr (inl n)) => JInt n
  | GenLeaf (inr (inr s)) => JString s
  | GenNode O l => JArray (of_tree <$> l)
  | GenNode _ l =>
      JObject ((fun t => match t with
                         | GenNode _ [GenLeaf (inr (inr k)); v] => (k, of_tree v)
                         | _ => (""%string, JNull)
                         end) <$> l)
  end.

(** Induction on documents, with the parts of a node. *)
Section Induction.
Context (P : json -> Prop) (P_null : P JNull) (P_bool : forall b, P (JBool b))
  (P_int : forall n, P (JInt n)) (P_float : forall d, P (JFloat d)) (P_string : forall s, P (JString s))
  (P_array : forall l, Forall P l -> P (JArray l))
  (P_object : forall m, Forall (fun kv => P kv.2) m -> P (JObject m)).

Fixpoint json_nested_ind (j : json) : P j :=
  match j with
  | JNull => P_null
  | JBool b => P_bool b
  | JInt n => P_int n
  | JFloat d => P_float d
  | JString s => P_string s
  | JArray l => P_array l ((fix go l : Forall P l :=
      match l with [] => Forall_nil_2 _ | j :: l => Forall_cons_2 _ _ _ (json_nested_ind j) (go l) end) l)
  | JObject m => P_object m ((fix go m : Forall (fun kv => P kv.2) m :=
      match m with
      | [] => Forall_nil_2 _
      | kv :: m => Forall_cons_2 _ _ _ (json_nested_ind kv.2) (go m)
      end) m)
  end.
End Induction.

(** * Binary digits *)

Fixpoint digits (p : positive) : string :=
  match p with
  | xH => String "1" EmptyString
  | xO p => String "0" (digits p)
  | xI p => String "1" (digits p)
  end.

Fixpoint number (s : string) : option positive :=
  match s with
  | String c EmptyString => if Ascii.eqb c "1" then Some xH else None
  | String c s =>
      p ← number s;
      if Ascii.eqb c "1" then Some (xI p) else if Ascii.eqb c "0" then Some (xO p) else None
  | EmptyString => None
  end.

Lemma number_digits p : number (digits p) = Some p.
Proof.
  induction p as [p IH|p IH|]; [| |done]; simpl; destruct (digits p) as [|c s] eqn:E;
    try (by destruct p); rewrite IH; done.
Qed.

Definition ascii_only (s : string) : bool := forallb ascii_char (list_ascii_of_string s).

Definition code (j : json) : string := digits (encode (to_tree j)).

(** Every string of the document is of ASCII. *)
Fixpoint ascii_text (j : json) : bool :=
  match j with
  | JString s => ascii_only s
  | JArray l => forallb ascii_text l
  | JObject m => forallb (fun kv => ascii_only kv.1 && ascii_text kv.2) m
  | _ => true
  end.

(** * The library *)

#[export] Instance sample_json : JsonLibrary := {|
  json_parse t :=
    p ← number t;
    tree ← decode p;
    let j := of_tree tree in
    if ascii_text j && ints_ok j then Some j else None;
  json_dump_replace := code;
  json_dump j :=
    if ascii_text j then Some (code j) else None;
  get_int j := match j with
               | JInt n => Some (i32 n)
               | JBool b => Some (Z.b2z b)
               | JFloat _ => Some 0
               | _ => None
               end;
  get_string j := match j with JString s => Some s | _ => None end;
  get_bool j := match j with JBool b => Some b | _ => None end;
  utf8 := ascii_only;
|}.

Lemma doc_text j : doc_ok j = true -> text_ok j = true.
Proof.
  induction j as [| | | | |l IH|m IH] using json_nested_ind; try done; cbn [doc_ok text_ok].
  - intros Hl. rewrite forallb_forall in Hl |- *. intros j Hj.
    rewrite Forall_forall in IH. by apply IH, Hl.
  - intros [_ Hm]%andb_true_iff. rewrite forallb_forall in Hm |- *. intros kv Hkv.
    specialize (Hm kv Hkv). apply andb_true_iff in Hm as [Hk Hv]. apply andb_true_iff. split; [done|].
    rewrite Forall_forall in IH. by apply IH, Hv.
Qed.

Lemma doc_ints j : doc_ok j = true -> ints_ok j = true.
Proof.
  induction j as [| | | | |l IH|m IH] using json_nested_ind; try done; cbn [doc_ok ints_ok].
  - intros Hl. rewrite forallb_forall in Hl |- *. intros j Hj.
    rewrite Forall_forall in IH. by apply IH, Hl.
  - intros [_ Hm]%andb_true_iff. rewrite forallb_forall in Hm |- *. intros kv Hkv.
    specialize (Hm kv Hkv). apply andb_true_iff in Hm as [_ Hv].
    rewrite Forall_forall in IH. by apply IH, Hv.
Qed.

Lemma of_to_tree j : doc_ok j = true -> of_tree (to_tree j) = j.
Proof.
  induction j as [| | | | |l IH|m IH] using json_nested_ind; try done; cbn [doc_ok].
  - intros Hl. cbn [to_tree of_tree]. f_equal. rewrite <- list_fmap_compose.
    rewrite <- (list_fmap_id l) at 2. apply list_fmap_ext. intros i j Hi. simpl.
    rewrite Forall_forall in IH. apply list_elem_of_lookup_2, list_elem_of_In in Hi.
    apply IH; [done|]. rewrite forallb_forall in Hl. by apply Hl.
  - intros [_ Hm]%andb_true_iff. cbn [to_tree of_tree]. f_equal. rewrite <- list_fmap_compose.
    rewrite <- (list_fmap_id m) at 2. apply list_fmap_ext. intros i [k v] Hi. simpl.
    rewrite Forall_forall in IH. apply list_elem_of_lookup_2, list_elem_of_In in Hi.
    rewrite forallb_forall in Hm. specialize (Hm (k, v) Hi).
    apply andb_true_iff in Hm as [_ Hv]. f_equal. exact (IH (k, v) Hi Hv).
Qed.

#[export] Instance sample_laws : JsonLaws.
Proof.
  split.
  - intros t j (p & _ & (tree & _ & Hj)%bind_Some)%bind_Some. cbv zeta in Hj.
    destruct (ascii_text (of_tree tree)) eqn:E; [|done]. case_match; [|done]. injection Hj as <-. exact E.
  - intros t j (p & _ & (tree & _ & Hj)%bind_Some)%bind_Some. cbv zeta in Hj.
    case_match eqn:E; [|done]. injection Hj as <-. by apply andb_true_iff in E as [_ ?].
  - intros j Hj. change (ascii_text j = true) in Hj. cbn [json_dump sample_json]. by rewrite Hj.
  - intros j Hj. pose proof (doc_text j Hj) as Ht. change (ascii_text j = true) in Ht.
    cbn [json_parse json_dump_replace sample_json]. unfold code.
    rewrite number_digits. cbn [mbind option_bind]. rewrite decode_encode. cbn [mbind option_bind].
    cbv zeta. by rewrite of_to_tree, Ht, doc_ints.
  - intros j. unfold json_dump_replace, sample_json, code. by destruct (encode (to_tree j)).
  - done.
  - intros j n. destruct j as [|[]|m| | | |]; try done; simpl; intros [= <-]; try lia. apply i32_range.
  - done.
  - intros j s. destruct j; simpl; split; congruence.
  - intros j b. destruct j; simpl; split; congruence.
Qed.
