(* ===== verification/CompanionTypes.v ===== *)
(** The data of the companion interface: commands, job kinds and outcomes
    (CompanionCommandQueue.hpp), snapshots and pages (ServiceSnapshot.hpp),
    requests (CompanionProtocol.hpp) and settings (Config.hpp). *)

From S2P Require Import Prelude.
Open Scope Z_scope.

(** * Jobs *)

Inductive CompanionCommand :=
| StartArchiveCommand
| CancelArchiveCommand
| RefreshLogsCommand
| DownloadLogsCommand (ids : list Z) (all : bool)
| EraseAllLogsCommand.

Inductive CompanionJobKind := JobArchive | JobRefresh | JobDownload | JobEraseAll.

Inductive JobStartResult := Accepted | AlreadyRunning | Armed | NotConnected | NotFound.

#[global] Instance CompanionJobKind_eq_dec : EqDecision CompanionJobKind.
Proof. solve_decision. Defined.
#[global] Instance JobStartResult_eq_dec : EqDecision JobStartResult.
Proof. solve_decision. Defined.

Record JobOutcome := {
  out_result : JobStartResult;
  out_queued : Z;
  out_not_found : list Z;
}.

(** [CompanionUdpServer::RecStartResult], the same as [VideoRecorder::StartResult]. *)
Inductive RecStartResult := RecStarted | RecAlreadyRecording | RecDisabled | RecNoMedia | RecFailed.

(** * Snapshots *)

Record ServiceSnapshot := {
  sn_state : string;
  sn_version : string;
  sn_job_type : string;
  sn_transport_connected : bool;
  sn_heartbeat_fresh : bool;
  sn_vehicle_detected : bool;
  sn_vehicle_armed : bool;
  sn_fc_logs_count : Z;
  sn_fc_logs_stale : bool;
  sn_archive_active : bool;
  sn_archive_current_log_id : Z;
  sn_archive_progress_bytes : Z;
  sn_archive_progress_total_bytes : Z;
  sn_archive_percent : Z;
  sn_archive_bytes_per_sec : Z;
  sn_last_cycle_downloaded : Z;
  sn_last_cycle_skipped : Z;
  sn_last_cycle_failed : Z;
  sn_last_cycle_cancelled : Z;
  sn_last_cycle_all_archived : bool;
  sn_storage_used_bytes : Z;
  sn_storage_limit_bytes : Z;
  sn_storage_archived_count : Z;
  sn_recording_enabled : bool;
  sn_recording_active : bool;
  sn_recording_duration_sec : Z;
  sn_recording_free_bytes : Z;
  sn_recording_crash_reason : string;
}.

Record FcLogEntry := {
  fe_id : Z;
  fe_size : Z;
  fe_time_utc : Z;
  fe_downloaded : bool;
}.

Record FcLogsPage := {
  pg_count : Z;
  pg_offset : Z;
  pg_entries : list FcLogEntry;
  pg_truncated : bool;
  pg_stale : bool;
}.

(** * Requests and responses *)

Record CompanionRequest := {
  rq_version : Z;
  rq_id : Z;
  rq_op : string;
  rq_token : string;
  rq_client : string;
  rq_offset : Z;
  rq_limit : Z;
  rq_sel_ids : list Z;
  rq_sel_all : bool;
}.

Record SerializedResponse := {
  resp_json : string;
  resp_truncated : bool;
}.

Definition kMaxIdsPerRequest : Z := 32.

(** * Settings *)

(** [Config::CompanionSettings]. *)
Record CompanionSettings := {
  companion_enabled : bool;
  companion_bind_host : string;
  companion_bind_port : Z;
  send_host : string;
  send_port : Z;
  token : string;
  max_request_bytes : Z;
  max_response_bytes : Z;
  max_fc_logs_per_response : Z;
  udp_proxy_keepalive_ms : Z;
}.

Definition default_companion : CompanionSettings :=
  {| companion_enabled := false;
     companion_bind_host := "127.0.0.1";
     companion_bind_port := 14541;
     send_host := "127.0.0.1";
     send_port := 14540;
     token := "";
     max_request_bytes := 2048;
     max_response_bytes := 1200;
     max_fc_logs_per_response := 8;
     udp_proxy_keepalive_ms := 5000 |}.

(** [Config::RecordingSettings]. *)
Record RecordingSettings := {
  rec_enabled : bool;
  mount_path : string;
  source_port : Z;
  rtp_payload_type : Z;
  filename_prefix : string;
  gst_launch_path : string;
  fsync_interval_sec : Z;
}.

Definition default_recording : RecordingSettings :=
  {| rec_enabled := false;
     mount_path := "/mnt/usb";
     source_port := 5603;
     rtp_payload_type := 35;
     filename_prefix := "rec";
     gst_launch_path := "gst-launch-1.0";
     fsync_interval_sec := 3 |}.
