(* ===== verification/Config.v ===== *)
(** The configuration (src/Config.cpp, include/mcls/Config.hpp).

    [Config] is the source's record of settings; [loadFromFile] reads it from a TOML
    file.  The TOML library is third-party code: the class [TomlLibrary] has the
    accessors the source uses, and nothing is assumed of them.

    The theorem compares the loader with a table: [schema] lists every setting with
    the section and the keys it is read from, and the loader gives exactly the
    configuration that the table describes. *)

From S2P Require Import Prelude Types CompanionTypes.
From Stdlib Require Import Floats.SpecFloat.
Open Scope Z_scope.
Local Open Scope string_scope.

(** [Config::TransportSettings], [StorageSettings] and [LoggingSettings]. *)
Record TransportSettings := {
  transport : string;
  host : string;
  port : Z;
  bind_host : string;
  bind_port : Z;
  heartbeat_timeout_sec : Z;
}.

Definition default_transport : TransportSettings :=
  {| transport := "tcp";
     host := "127.0.0.1";
     port := 5760;
     bind_host := "0.0.0.0";
     bind_port := 0;
     heartbeat_timeout_sec := 5 |}.

Record StorageSettings := { directory : string; max_size_gb : Z }.

Definition default_storage : StorageSettings := {| directory := "/var/lib/mcls"; max_size_gb := 1 |}.

Record LoggingSettings := { verbose : bool; log_file : string }.

Definition default_logging : LoggingSettings := {| verbose := true; log_file := "" |}.

Record Config := {
  cfg_transport : TransportSettings;
  cfg_download : DownloadSettings;
  cfg_storage : StorageSettings;
  cfg_logging : LoggingSettings;
  cfg_companion : CompanionSettings;
  companion_table_present : bool;
  cfg_recording : RecordingSettings;
}.

Definition default_config : Config :=
  {| cfg_transport := default_transport;
     cfg_download := default_download;
     cfg_storage := default_storage;
     cfg_logging := default_logging;
     cfg_companion := default_companion;
     companion_table_present := false;
     cfg_recording := default_recording |}.

(** toml++: [parse_file] throws on a file it cannot read ([None]); [sec["k"].value<T>()]
    is empty when the key is missing or of another type, and [as_table] is null when
    there is no such table. *)
Class TomlLibrary := {
  toml_table : Type;
  parse_file : string -> option toml_table;
  as_table : toml_table -> string -> option toml_table;
  value_string : toml_table -> string -> option string;
  value_int64 : toml_table -> string -> option Z;
  value_bool : toml_table -> string -> option bool;
  value_double : toml_table -> string -> option spec_float;
}.

Section Loader.
Context `{TomlLibrary}.

(** [if (auto v = sec["k"].value<T>()) out = *v;], with the narrowing of integers. *)
Definition string_at (sec : toml_table) (k : string) (out : string) : string := default out (value_string sec k).
Definition bool_at (sec : toml_table) (k : string) (out : bool) : bool := default out (value_bool sec k).
Definition double_at (sec : toml_table) (k : string) (out : spec_float) : spec_float := default out (value_double sec k).
Definition int_at (sec : toml_table) (k : string) (out : Z) : Z :=
  match value_int64 sec k with Some v => i32 v | None => out end.

Definition loadTransportTable (sec : toml_table) (out : TransportSettings) : TransportSettings :=
  {| transport := string_at sec "transport" (transport out);
     host := string_at sec "host" (host out);
     port := int_at sec "port" (port out);
     bind_host := string_at sec "bind_host" (bind_host out);
     bind_port := int_at sec "bind_port" (bind_port out);
     heartbeat_timeout_sec := int_at sec "heartbeat_timeout_sec" (heartbeat_timeout_sec out) |}.

Definition load_download (sec : toml_table) (out : DownloadSettings) : DownloadSettings :=
  {| delay_after_disarm_sec :=
       int_at sec "delay_after_disarm_sec" (int_at sec "delay_after_disarm" (delay_after_disarm_sec out));
     enumerate_attempts := int_at sec "enumerate_attempts" (enumerate_attempts out);
     enumerate_retry_delay_sec := int_at sec "enumerate_retry_delay_sec" (enumerate_retry_delay_sec out);
     download_timeout_sec := int_at sec "download_timeout" (download_timeout_sec out);
     retry_count := int_at sec "retry_count" (retry_count out);
     retry_delay_sec := int_at sec "retry_delay" (retry_delay_sec out);
     probe_bytes := int_at sec "probe_bytes" (probe_bytes out);
     verify_after_download := bool_at sec "verify_after_download" (verify_after_download out);
     erase_after_success := bool_at sec "erase_after_success" (erase_after_success out);
     stall_abort_attempts := int_at sec "stall_abort_attempts" (stall_abort_attempts out);
     fc_busy_retry_attempts := int_at sec "fc_busy_retry_attempts" (fc_busy_retry_attempts out);
     fc_busy_retry_delay_sec := int_at sec "fc_busy_retry_delay_sec" (fc_busy_retry_delay_sec out);
     max_queued_log_data := int_at sec "max_queued_log_data" (max_queued_log_data out);
     reconnect_on_transport_failure :=
       bool_at sec "reconnect_on_transport_failure" (reconnect_on_transport_failure out);
     reconnect_after_consecutive_failures :=
       int_at sec "reconnect_after_consecutive_failures" (reconnect_after_consecutive_failures out);
     gap_fill_idle_ms := int_at sec "gap_fill_idle_ms" (gap_fill_idle_ms out);
     verify_dataflash_parse := bool_at sec "verify_dataflash_parse" (verify_dataflash_parse out);
     verify_max_bad_header_ratio := double_at sec "verify_max_bad_header_ratio" (verify_max_bad_header_ratio out);
     detect_overlap_conflict := bool_at sec "detect_overlap_conflict" (detect_overlap_conflict out);
     verify_fc_reread := string_at sec "verify_fc_reread" (verify_fc_reread out);
     verify_fc_reread_sample_count :=
       int_at sec "verify_fc_reread_sample_count" (verify_fc_reread_sample_count out);
     benchmark_download := bool_at sec "benchmark_download" (benchmark_download out) |}.

Definition load_storage (sec : toml_table) (out : StorageSettings) : StorageSettings :=
  {| directory := string_at sec "directory" (directory out);
     max_size_gb := int_at sec "max_size_gb" (max_size_gb out) |}.

Definition load_logging (sec : toml_table) (out : LoggingSettings) : LoggingSettings :=
  {| verbose := bool_at sec "verbose" (verbose out); log_file := string_at sec "file" (log_file out) |}.

Definition load_companion (sec : toml_table) (out : CompanionSettings) : CompanionSettings :=
  {| companion_enabled := bool_at sec "enabled" (companion_enabled out);
     companion_bind_host := string_at sec "bind_host" (companion_bind_host out);
     companion_bind_port := int_at sec "bind_port" (companion_bind_port out);
     send_host := string_at sec "send_host" (send_host out);
     send_port := int_at sec "send_port" (send_port out);
     token := string_at sec "token" (token out);
     max_request_bytes := int_at sec "max_request_bytes" (max_request_bytes out);
     max_response_bytes := int_at sec "max_response_bytes" (max_response_bytes out);
     max_fc_logs_per_response := int_at sec "max_fc_logs_per_response" (max_fc_logs_per_response out);
     udp_proxy_keepalive_ms := int_at sec "udp_proxy_keepalive_ms" (udp_proxy_keepalive_ms out) |}.

Definition load_recording (sec : toml_table) (out : RecordingSettings) : RecordingSettings :=
  {| rec_enabled := bool_at sec "enabled" (rec_enabled out);
     mount_path := string_at sec "mount_path" (mount_path out);
     source_port := int_at sec "source_port" (source_port out);
     rtp_payload_type := int_at sec "rtp_payload_type" (rtp_payload_type out);
     filename_prefix := string_at sec "filename_prefix" (filename_prefix out);
     gst_launch_path := string_at sec "gst_launch_path" (gst_launch_path out);
     fsync_interval_sec := int_at sec "fsync_interval_sec" (fsync_interval_sec out) |}.

(** [if (auto* sec = table["k"].as_table())]. *)
Definition section {A} (table : toml_table) (k : string) (load : toml_table -> A -> A) (out : A) : A :=
  match as_table table k with Some sec => load sec out | None => out end.

Definition loadFromFile (path : string) : option Config :=
  table ← parse_file path;
  let cfg := default_config in
  Some {| cfg_transport :=
            match as_table table "transport" with
            | Some sec => loadTransportTable sec (cfg_transport cfg)
            | None => section table "mavlink" loadTransportTable (cfg_transport cfg)
            end;
          cfg_download := section table "download" load_download (cfg_download cfg);
          cfg_storage := section table "storage" load_storage (cfg_storage cfg);
          cfg_logging := section table "logging" load_logging (cfg_logging cfg);
          cfg_companion := section table "companion" load_companion (cfg_companion cfg);
          companion_table_present :=
            match as_table table "companion" with
            | Some _ => true
            | None => companion_table_present cfg
            end;
          cfg_recording := section table "recording" load_recording (cfg_recording cfg) |}.

(** * The settings as a table *)

(** A setting: its keys, a later one overriding the earlier ones, and its place in
    the record. *)
Inductive Setting :=
| IntSetting (keys : list string) (get : Config -> Z)
| BoolSetting (keys : list string) (get : Config -> bool)
| StringSetting (keys : list string) (get : Config -> string)
| DoubleSetting (keys : list string) (get : Config -> spec_float).

(** Sections with their names, an earlier one hiding the later ones. *)
Definition schema : list (list string * list Setting) :=
  [(["transport"; "mavlink"],
    [StringSetting ["transport"] (fun c => transport (cfg_transport c));
     StringSetting ["host"] (fun c => host (cfg_transport c));
     IntSetting ["port"] (fun c => port (cfg_transport c));
     StringSetting ["bind_host"] (fun c => bind_host (cfg_transport c));
     IntSetting ["bind_port"] (fun c => bind_port (cfg_transport c));
     IntSetting ["heartbeat_timeout_sec"] (fun c => heartbeat_timeout_sec (cfg_transport c))]);
   (["download"],
    [IntSetting ["delay_after_disarm"; "delay_after_disarm_sec"] (fun c => delay_after_disarm_sec (cfg_download c));
     IntSetting ["enumerate_attempts"] (fun c => enumerate_attempts (cfg_download c));
     IntSetting ["enumerate_retry_delay_sec"] (fun c => enumerate_retry_delay_sec (cfg_download c));
     IntSetting ["download_timeout"] (fun c => download_timeout_sec (cfg_download c));
     IntSetting ["retry_count"] (fun c => retry_count (cfg_download c));
     IntSetting ["retry_delay"] (fun c => retry_delay_sec (cfg_download c));
     IntSetting ["probe_bytes"] (fun c => probe_bytes (cfg_download c));
     BoolSetting ["verify_after_download"] (fun c => verify_after_download (cfg_download c));
     BoolSetting ["erase_after_success"] (fun c => erase_after_success (cfg_download c));
     IntSetting ["stall_abort_attempts"] (fun c => stall_abort_attempts (cfg_download c));
     IntSetting ["fc_busy_retry_attempts"] (fun c => fc_busy_retry_attempts (cfg_download c));
     IntSetting ["fc_busy_retry_delay_sec"] (fun c => fc_busy_retry_delay_sec (cfg_download c));
     IntSetting ["max_queued_log_data"] (fun c => max_queued_log_data (cfg_download c));
     BoolSetting ["reconnect_on_transport_failure"] (fun c => reconnect_on_transport_failure (cfg_download c));
     IntSetting ["reconnect_after_consecutive_failures"]
       (fun c => reconnect_after_consecutive_failures (cfg_download c));
     IntSetting ["gap_fill_idle_ms"] (fun c => gap_fill_idle_ms (cfg_download c));
     BoolSetting ["verify_dataflash_parse"] (fun c => verify_dataflash_parse (cfg_download c));
     DoubleSetting ["verify_max_bad_header_ratio"] (fun c => verify_max_bad_header_ratio (cfg_download c));
     BoolSetting ["detect_overlap_conflict"] (fun c => detect_overlap_conflict (cfg_download c));
     StringSetting ["verify_fc_reread"] (fun c => verify_fc_reread (cfg_download c));
     IntSetting ["verify_fc_reread_sample_count"] (fun c => verify_fc_reread_sample_count (cfg_download c));
     BoolSetting ["benchmark_download"] (fun c => benchmark_download (cfg_download c))]);
   (["storage"],
    [StringSetting ["directory"] (fun c => directory (cfg_storage c));
     IntSetting ["max_size_gb"] (fun c => max_size_gb (cfg_storage c))]);
   (["logging"],
    [BoolSetting ["verbose"] (fun c => verbose (cfg_logging c));
     StringSetting ["file"] (fun c => log_file (cfg_logging c))]);
   (["companion"],
    [BoolSetting ["enabled"] (fun c => companion_enabled (cfg_companion c));
     StringSetting ["bind_host"] (fun c => companion_bind_host (cfg_companion c));
     IntSetting ["bind_port"] (fun c => companion_bind_port (cfg_companion c));
     StringSetting ["send_host"] (fun c => send_host (cfg_companion c));
     IntSetting ["send_port"] (fun c => send_port (cfg_companion c));
     StringSetting ["token"] (fun c => token (cfg_companion c));
     IntSetting ["max_request_bytes"] (fun c => max_request_bytes (cfg_companion c));
     IntSetting ["max_response_bytes"] (fun c => max_response_bytes (cfg_companion c));
     IntSetting ["max_fc_logs_per_response"] (fun c => max_fc_logs_per_response (cfg_companion c));
     IntSetting ["udp_proxy_keepalive_ms"] (fun c => udp_proxy_keepalive_ms (cfg_companion c))]);
   (["recording"],
    [BoolSetting ["enabled"] (fun c => rec_enabled (cfg_recording c));
     StringSetting ["mount_path"] (fun c => mount_path (cfg_recording c));
     IntSetting ["source_port"] (fun c => source_port (cfg_recording c));
     IntSetting ["rtp_payload_type"] (fun c => rtp_payload_type (cfg_recording c));
     StringSetting ["filename_prefix"] (fun c => filename_prefix (cfg_recording c));
     StringSetting ["gst_launch_path"] (fun c => gst_launch_path (cfg_recording c));
     IntSetting ["fsync_interval_sec"] (fun c => fsync_interval_sec (cfg_recording c))])].

(** The first of the sections that the file has. *)
Definition first_section (table : toml_table) (names : list string) : option toml_table :=
  head (omap (as_table table) names).

(** The last of the keys that the section has with the right type. *)
Definition last_value {A} (value : toml_table -> string -> option A) (sec : option toml_table)
    (keys : list string) : option A :=
  sec ← sec; last (omap (value sec) keys).

(** The configuration has the setting's value in the file, or its default. *)
Definition reads (sec : option toml_table) (c : Config) (s : Setting) : Prop :=
  match s with
  | IntSetting keys get => get c = from_option i32 (get default_config) (last_value value_int64 sec keys)
  | BoolSetting keys get => get c = default (get default_config) (last_value value_bool sec keys)
  | StringSetting keys get => get c = default (get default_config) (last_value value_string sec keys)
  | DoubleSetting keys get => get c = default (get default_config) (last_value value_double sec keys)
  end.

Definition described (table : toml_table) (c : Config) : Prop :=
  Forall (fun '(names, settings) => Forall (reads (first_section table names) c) settings) schema /\
  companion_table_present c = bool_decide (is_Some (as_table table "companion")).

Lemma first_section_one table n : first_section table [n] = as_table table n.
Proof. unfold first_section. simpl. by destruct (as_table table n). Qed.
Lemma first_section_two table m n :
  first_section table [m; n] = match as_table table m with Some sec => Some sec | None => as_table table n end.
Proof. unfold first_section. simpl. by destruct (as_table table m), (as_table table n). Qed.

Lemma last_value_one {A} (value : toml_table -> string -> option A) sec k :
  last_value value sec [k] = sec ← sec; value sec k.
Proof. destruct sec as [sec|]; [|done]. unfold last_value. simpl. by destruct (value sec k). Qed.
Lemma last_value_two {A} (value : toml_table -> string -> option A) sec k l :
  last_value value sec [k; l] =
    sec ← sec; match value sec l with Some v => Some v | None => value sec k end.
Proof. destruct sec as [sec|]; [|done]. unfold last_value. simpl. by destruct (value sec k), (value sec l). Qed.

(** One setting of a section that is loaded from its table. *)
Ltac read_setting :=
  unfold reads, section;
  rewrite ?first_section_one, ?first_section_two, ?last_value_one, ?last_value_two;
  cbn [cfg_transport cfg_download cfg_storage cfg_logging cfg_companion cfg_recording];
  repeat match goal with |- context [as_table ?t ?k] => destruct (as_table t k); simpl end;
  unfold string_at, bool_at, double_at, int_at; try reflexivity;
  repeat match goal with |- context [value_int64 ?t ?k] => destruct (value_int64 t k); simpl end; reflexivity.

(** Where the loader reads a section of the table, it reads what the schema says. *)
Lemma loaded_described table path : parse_file path = Some table ->
  exists c, loadFromFile path = Some c /\ described table c.
Proof.
  intros Hp. unfold loadFromFile. rewrite Hp. eexists. split; [reflexivity|]. unfold described, schema. split.
  - repeat (apply Forall_cons; split); try apply Forall_nil_2; read_setting.
  - simpl. by destruct (as_table table "companion").
Qed.

(** Two configurations with the same value of a setting. *)
Definition same_setting (c c' : Config) (s : Setting) : Prop :=
  match s with
  | IntSetting _ get => get c = get c'
  | BoolSetting _ get => get c = get c'
  | StringSetting _ get => get c = get c'
  | DoubleSetting _ get => get c = get c'
  end.

Lemma reads_same sec c c' s : reads sec c s -> reads sec c' s -> same_setting c c' s.
Proof. destruct s; simpl; congruence. Qed.

(** The schema has every field of the record. *)
Lemma schema_complete c c' :
  Forall (fun '(_, settings) => Forall (same_setting c c') settings) schema ->
  companion_table_present c = companion_table_present c' -> c = c'.
Proof.
  unfold schema. destruct c as [[] [] [] [] [] ? []], c' as [[] [] [] [] [] ? []].
  intros Hc Hp. repeat match goal with H : Forall _ (_ :: _) |- _ => apply Forall_cons in H as [? H] end.
  simpl in *. by subst.
Qed.

Lemma described_unique table c c' : described table c -> described table c' -> c = c'.
Proof.
  intros [Hc Hp] [Hc' Hp']. apply schema_complete; [|congruence].
  apply Forall_forall. intros [names settings] Hin. apply Forall_forall. intros s Hs.
  rewrite Forall_forall in Hc. rewrite Forall_forall in Hc'.
  pose proof (Hc _ Hin) as H1. pose proof (Hc' _ Hin) as H2. simpl in H1, H2.
  rewrite Forall_forall in H1. rewrite Forall_forall in H2. by eapply reads_same; [apply H1|apply H2].
Qed.

(** C29. Loading a configuration.  The loader gives exactly the configuration that
    the schema describes: every setting comes from its own keys of its own section,
    reduced to an [int], and keeps its default when the key is missing or of another
    type; [transport] hides [mavlink], [delay_after_disarm_sec] hides its older name,
    and a file that cannot be parsed gives no configuration. *)
Theorem loadFromFile_correct path c :
  loadFromFile path = Some c <-> exists table, parse_file path = Some table /\ described table c.
Proof.
  split.
  - intros Hl. destruct (parse_file path) as [table|] eqn:Hp.
    + destruct (loaded_described table path Hp) as (c' & Hc' & Hd). exists table. by simplify_eq.
    + unfold loadFromFile in Hl. by rewrite Hp in Hl.
  - intros (table & Hp & Hd). destruct (loaded_described table path Hp) as (c' & Hc' & Hd').
    by rewrite (described_unique table c c' Hd Hd').
Qed.

End Loader.

(** * A concrete file *)

(** A TOML document in memory: every file is [d]. *)
Inductive TomlValue :=
| TomlString (s : string)
| TomlInt (z : Z)
| TomlBool (b : bool)
| TomlDouble (f : spec_float)
| TomlTable (entries : list (string * TomlValue)).

Definition toml_find (t : list (string * TomlValue)) (k : string) : option TomlValue :=
  head (omap (fun '(k', v) => if String.eqb k k' then Some v else None) t).

Definition document_library (d : option (list (string * TomlValue))) : TomlLibrary :=
  {| toml_table := list (string * TomlValue);
     parse_file _ := d;
     as_table t k := match toml_find t k with Some (TomlTable t') => Some t' | _ => None end;
     value_string t k := match toml_find t k with Some (TomlString v) => Some v | _ => None end;
     value_int64 t k := match toml_find t k with Some (TomlInt v) => Some v | _ => None end;
     value_bool t k := match toml_find t k with Some (TomlBool v) => Some v | _ => None end;
     value_double t k := match toml_find t k with Some (TomlDouble v) => Some v | _ => None end |}.

(** The older names are read, a key of another type is ignored, and a number that is
    no [int] wraps. *)
Example load_sample :
  let d := [("mavlink", TomlTable [("port", TomlInt 4294967301); ("host", TomlBool true)]);
            ("download", TomlTable [("delay_after_disarm", TomlInt 9)])] in
  match loadFromFile (H := document_library (Some d)) "config.toml" with
  | Some c => (port (cfg_transport c), host (cfg_transport c), delay_after_disarm_sec (cfg_download c),
               companion_table_present c) = (5, "127.0.0.1", 9, false)
  | None => False
  end.
Proof. reflexivity. Qed.
