(* ===== verification/CompanionProtocol.v ===== *)
(** [CompanionProtocol] (src/CompanionProtocol.cpp): requests parsed from JSON and
    responses built as JSON.  [None] is an exception: [parseRequest] catches it
    and has no request, a builder passes it on.

    The theorems: what a parsed request is, that no builder throws on a parsed
    request's strings, the budget of status and page responses, and the search
    for the longest page that fits. *)

From S2P Require Import Prelude Json CompanionTypes JsonSample.
Open Scope Z_scope.

Definition string_size (s : string) : Z := Z.of_nat (String.length s).

(** [!s.empty()]. *)
Definition nonempty (s : string) : bool := negb (String.eqb s "").

Section Model.
Context `{JsonLibrary}.

(** * Parsing *)

(** [obj.value(key, d)]: the default if there is no such key; a type error if
    [obj] is no object or the value does not convert. *)
Definition value {A} (get : json -> option A) (key : string) (d : A) (obj : json) : option A :=
  match obj with
  | JObject m => match field key m with None => Some d | Some v => get v end
  | _ => None
  end.

(** The numbers of [sel.ids] that are log numbers; [get<std::int64_t>] of an
    unsigned number above [2 ^ 63] is negative. *)
Definition sel_id (v : json) : option Z :=
  match v with
  | JInt n => let raw := i64 n in if (0 <=? raw) && (raw <=? 0xFFFF) then Some (u16 raw) else None
  | _ => None
  end.

Definition parse_sel (obj : json) : option (bool * list Z) :=
  match obj with
  | JObject m =>
      match field "sel" m with
      | Some (JObject s) =>
          all ← value get_bool "all" false (JObject s);
          Some (all, match field "ids" s with Some (JArray l) => omap sel_id l | _ => [] end)
      | _ => Some (false, [])
      end
  | _ => Some (false, [])
  end.

Definition parseRequest (text : string) : option CompanionRequest :=
  obj ← json_parse text;
  version ← value get_int "v" 0 obj;
  id ← value get_int "id" 0 obj;
  op ← value get_string "op" "" obj;
  token ← value get_string "token" "" obj;
  client ← value get_string "client" "" obj;
  offset ← value get_int "offset" 0 obj;
  limit ← value get_int "limit" 8 obj;
  sel ← parse_sel obj;
  if String.eqb op "" then None
  else Some {| rq_version := version; rq_id := id; rq_op := op; rq_token := token;
               rq_client := client; rq_offset := offset; rq_limit := limit;
               rq_sel_ids := sel.2; rq_sel_all := sel.1 |}.

(** * Responses *)

(** The serialized object, or nothing if it is over the budget. *)
Definition trySerialize (obj : json) (max_bytes : Z) : string :=
  let s := json_dump_replace obj in if max_bytes <? string_size s then "" else s.

Definition add_client (client : string) (r : json) : json :=
  if nonempty client then jset "client" (JString client) r else r.

Definition baseResponse (request_id : Z) (ok truncated : bool) (client : string) : json :=
  let r := jset "v" (JInt 1) JNull in
  let r := jset "id" (JInt request_id) r in
  let r := jset "ok" (JBool ok) r in
  let r := jset "truncated" (JBool truncated) r in
  let r := if ok then jset "err" JNull r else r in
  add_client client r.

Definition error_document (request_id : Z) (err client : string) : json :=
  let r := jset "v" (JInt 1) JNull in
  let r := jset "id" (JInt request_id) r in
  let r := jset "ok" (JBool false) r in
  let r := jset "err" (JString err) r in
  let r := jset "truncated" (JBool false) r in
  add_client client r.

(** [{r.dump(), false}]. *)
Definition dumped (r : json) : option SerializedResponse :=
  s ← json_dump r; Some {| resp_json := s; resp_truncated := false |}.

Definition buildError (request_id : Z) (err client : string) : option SerializedResponse :=
  dumped (error_document request_id err client).

Definition string_or_null (s : string) : json := if nonempty s then JString s else JNull.

(** ** Status *)

Definition status_data (snap : ServiceSnapshot) : json :=
  let d := jset2 "service" "state" (JString (sn_state snap)) JNull in
  let d := jset2 "service" "version" (JString (sn_version snap)) d in
  let d := jset2 "link" "transport_connected" (JBool (sn_transport_connected snap)) d in
  let d := jset2 "link" "heartbeat_fresh" (JBool (sn_heartbeat_fresh snap)) d in
  let d := jset2 "vehicle" "detected" (JBool (sn_vehicle_detected snap)) d in
  let d := jset2 "vehicle" "armed" (JBool (sn_vehicle_armed snap)) d in
  let d := jset2 "fc_logs" "count" (JInt (sn_fc_logs_count snap)) d in
  let d := jset2 "fc_logs" "stale" (JBool (sn_fc_logs_stale snap)) d in
  let d := jset2 "archive" "active" (JBool (sn_archive_active snap)) d in
  let d := jset2 "archive" "current_log_id" (JInt (sn_archive_current_log_id snap)) d in
  let d := jset2 "archive" "progress_bytes" (JInt (sn_archive_progress_bytes snap)) d in
  let d := jset2 "archive" "progress_total_bytes" (JInt (sn_archive_progress_total_bytes snap)) d in
  let d := jset2 "archive" "percent" (JInt (sn_archive_percent snap)) d in
  let d := jset2 "archive" "bytes_per_sec" (JInt (sn_archive_bytes_per_sec snap)) d in
  let d := jset3 "archive" "last_cycle" "downloaded" (JInt (sn_last_cycle_downloaded snap)) d in
  let d := jset3 "archive" "last_cycle" "skipped" (JInt (sn_last_cycle_skipped snap)) d in
  let d := jset3 "archive" "last_cycle" "failed" (JInt (sn_last_cycle_failed snap)) d in
  let d := jset3 "archive" "last_cycle" "cancelled" (JInt (sn_last_cycle_cancelled snap)) d in
  let d := jset3 "archive" "last_cycle" "all_archived" (JBool (sn_last_cycle_all_archived snap)) d in
  let d := jset2 "job" "active" (JBool (nonempty (sn_job_type snap))) d in
  let d := jset2 "job" "type" (string_or_null (sn_job_type snap)) d in
  let d := jset2 "storage" "used_bytes" (JInt (sn_storage_used_bytes snap)) d in
  let d := jset2 "storage" "limit_bytes" (JInt (sn_storage_limit_bytes snap)) d in
  let d := jset2 "storage" "archived_count" (JInt (sn_storage_archived_count snap)) d in
  let d := jset2 "recording" "enabled" (JBool (sn_recording_enabled snap)) d in
  let d := jset2 "recording" "active" (JBool (sn_recording_active snap)) d in
  let d := jset2 "recording" "duration_sec" (JInt (sn_recording_duration_sec snap)) d in
  let d := jset2 "recording" "free_bytes" (JInt (sn_recording_free_bytes snap)) d in
  jset2 "recording" "error" (string_or_null (sn_recording_crash_reason snap)) d.

Definition minimal_data (snap : ServiceSnapshot) : json :=
  let d := jset2 "service" "state" (JString (sn_state snap)) JNull in
  let d := jset2 "archive" "active" (JBool (sn_archive_active snap)) d in
  let d := jset2 "archive" "progress_bytes" (JInt (sn_archive_progress_bytes snap)) d in
  jset2 "archive" "progress_total_bytes" (JInt (sn_archive_progress_total_bytes snap)) d.

Definition full_status (request_id : Z) (snap : ServiceSnapshot) (client : string) : json :=
  jset "data" (status_data snap) (baseResponse request_id true false client).

Definition minimal_status (request_id : Z) (snap : ServiceSnapshot) (client : string) : json :=
  jset "data" (minimal_data snap) (baseResponse request_id true true client).

Definition buildStatus (request_id : Z) (snap : ServiceSnapshot) (max_bytes : Z) (client : string)
  : SerializedResponse :=
  let s := trySerialize (full_status request_id snap client) max_bytes in
  if String.eqb s "" then
    {| resp_json := trySerialize (minimal_status request_id snap client) max_bytes;
       resp_truncated := true |}
  else {| resp_json := s; resp_truncated := false |}.

(** ** Pages of the log list *)

(** [{{"id", e.id}, {"size", e.size}, {"t", e.time_utc}, {"dl", e.downloaded}}]. *)
Definition entry_json (e : FcLogEntry) : json :=
  let r := jset "id" (JInt (fe_id e)) JNull in
  let r := jset "size" (JInt (fe_size e)) r in
  let r := jset "t" (JInt (fe_time_utc e)) r in
  jset "dl" (JBool (fe_downloaded e)) r.

(** The lambda [build]. *)
Definition page_document (request_id : Z) (client : string) (p : FcLogsPage) : json :=
  let d := jset "count" (JInt (pg_count p)) JNull in
  let d := jset "offset" (JInt (pg_offset p)) d in
  let d := jset "stale" (JBool (pg_stale p)) d in
  let d := jset "entries" (JArray (entry_json <$> pg_entries p)) d in
  jset "data" d (baseResponse request_id true (pg_truncated p) client).

(** The page with its first [n] entries, flagged. *)
Definition reduce_page (p : FcLogsPage) (n : nat) : FcLogsPage :=
  {| pg_count := pg_count p; pg_offset := pg_offset p; pg_entries := take n (pg_entries p);
     pg_truncated := true; pg_stale := pg_stale p |}.

(** The ladder: half of [n] entries, then half of that, until it fits; [None]
    when not even the empty page does.  [fuel] bounds the halvings. *)
Fixpoint ladder (fuel : nat) (request_id : Z) (client : string) (max_bytes : Z) (p : FcLogsPage)
    (n : nat) : option string :=
  match fuel with
  | O => None
  | S fuel' =>
      match n with
      | O => None
      | _ =>
          let half := Nat.div2 n in
          let s := trySerialize (page_document request_id client (reduce_page p half)) max_bytes in
          if String.eqb s "" then ladder fuel' request_id client max_bytes p half else Some s
      end
  end.

Definition buildFcLogs (request_id : Z) (page : FcLogsPage) (max_bytes : Z) (client : string)
  : option SerializedResponse :=
  let s := trySerialize (page_document request_id client page) max_bytes in
  if String.eqb s "" then
    let n := length (pg_entries page) in
    match ladder n request_id client max_bytes page n with
    | Some s => Some {| resp_json := s; resp_truncated := true |}
    | None =>
        err ← buildError request_id "internal" client;
        Some {| resp_json := resp_json err; resp_truncated := false |}
    end
  else Some {| resp_json := s; resp_truncated := pg_truncated page |}.

(** ** Acknowledgements *)

Definition buildAck (request_id : Z) (ok : bool) (err client : string) : option SerializedResponse :=
  let r := baseResponse request_id ok false client in
  dumped (if negb ok && nonempty err then jset "err" (JString err) r else r).

Definition job_ack (request_id : Z) (already_running : bool) (client : string) : json :=
  let r := baseResponse request_id true false client in
  let r := jset2 "data" "accepted" (JBool true) r in
  jset2 "data" "already_running" (JBool already_running) r.

Definition buildJobAck (request_id : Z) (already_running : bool) (client : string)
  : option SerializedResponse := dumped (job_ack request_id already_running client).

Definition download_ack (request_id queued : Z) (not_found : list Z) (client : string) : json :=
  let r := baseResponse request_id true false client in
  let r := jset2 "data" "accepted" (JBool true) r in
  let r := jset2 "data" "queued" (JInt queued) r in
  jset2 "data" "not_found" (JArray (JInt <$> not_found)) r.

Definition buildDownloadAck (request_id queued : Z) (not_found : list Z) (client : string)
  : option SerializedResponse := dumped (download_ack request_id queued not_found client).

Definition rec_ack (request_id : Z) (active : bool) (client : string) : json :=
  jset2 "data" "active" (JBool active) (baseResponse request_id true false client).

Definition buildRecAck (request_id : Z) (active : bool) (client : string)
  : option SerializedResponse := dumped (rec_ack request_id active client).

Definition all_ops : list string :=
  ["status"; "fc.logs"; "caps"; "archive.start"; "archive.cancel"; "logs.refresh";
   "logs.download"; "logs.erase"; "rec.start"; "rec.stop"]%string.

Definition caps_document (request_id max_request_bytes max_response_bytes max_fc_logs : Z)
    (client : string) : json :=
  let d := jset "v" (JInt 1) JNull in
  let d := jset "ops" (JArray (JString <$> all_ops)) d in
  let d := jset2 "limits" "max_request_bytes" (JInt max_request_bytes) d in
  let d := jset2 "limits" "max_response_bytes" (JInt max_response_bytes) d in
  let d := jset2 "limits" "max_fc_logs_per_response" (JInt max_fc_logs) d in
  let d := jset2 "limits" "max_ids_per_request" (JInt kMaxIdsPerRequest) d in
  jset "data" d (baseResponse request_id true false client).

Definition buildCaps (request_id max_request_bytes max_response_bytes max_fc_logs max_bytes : Z)
    (client : string) : option SerializedResponse :=
  let s := trySerialize (caps_document request_id max_request_bytes max_response_bytes max_fc_logs
                           client) max_bytes in
  if String.eqb s "" then
    err ← buildError request_id "internal" client;
    Some {| resp_json := resp_json err; resp_truncated := false |}
  else Some {| resp_json := s; resp_truncated := false |}.
End Model.

(** * Requests *)

(** A request as a client writes it, with every field. *)
Definition request_document (req : CompanionRequest) : json :=
  JObject [("client", JString (rq_client req)); ("id", JInt (rq_id req));
           ("limit", JInt (rq_limit req)); ("offset", JInt (rq_offset req));
           ("op", JString (rq_op req));
           ("sel", JObject [("all", JBool (rq_sel_all req));
                            ("ids", JArray (JInt <$> rq_sel_ids req))]);
           ("token", JString (rq_token req)); ("v", JInt (rq_version req))]%string.

Definition is_int (n : Z) : Prop := - 2 ^ 31 <= n < 2 ^ 31.
Definition is_log_id (n : Z) : Prop := 0 <= n < 2 ^ 16.
#[global] Instance is_log_id_dec n : Decision (is_log_id n).
Proof. unfold is_log_id. apply _. Defined.

(** The log numbers that a document selects: the integers of [sel.ids] that fit 16 bits,
    in order; no other number stands for one. *)
Definition log_number (v : json) : option Z :=
  match v with JInt n => if decide (is_log_id n) then Some n else None | _ => None end.

Definition selection (doc : json) : list Z :=
  match jget "ids" (jget "sel" doc) with JArray l => omap log_number l | _ => [] end.

(** The type of a parsed request. *)
Record request_ok `{JsonLibrary} (req : CompanionRequest) : Prop := {
  ok_op : nonempty (rq_op req) = true;
  ok_version : is_int (rq_version req);
  ok_id : is_int (rq_id req);
  ok_offset : is_int (rq_offset req);
  ok_limit : is_int (rq_limit req);
  ok_ids : Forall is_log_id (rq_sel_ids req);
  ok_text : utf8 (rq_op req) = true /\ utf8 (rq_token req) = true /\ utf8 (rq_client req) = true;
}.

Section Requests.
Context `{JsonLaws}.

Lemma value_int key d obj n : is_int d -> value get_int key d obj = Some n -> is_int n.
Proof using All.
  intros Hd. destruct obj as [| | | | | |m]; try done. simpl.
  destruct (field key m) as [v|]; [apply get_int_range|by intros [= <-]].
Qed.

Lemma value_string key obj s : text_ok obj = true ->
  value get_string key "" obj = Some s -> utf8 s = true.
Proof using All.
  intros Ht. destruct obj as [| | | | | |m]; try done. simpl.
  destruct (field key m) as [v|] eqn:E.
  - intros ->%get_string_iff. exact (text_field key m (JString s) Ht E).
  - intros [= <-]. by apply utf8_ascii.
Qed.

Lemma sel_id_number v : ints_ok v = true -> sel_id v = log_number v.
Proof using Type.
  destruct v as [| |n| | | |]; try done. cbn [ints_ok]. intros [H1 H2]%andb_true_iff. zb.
  unfold sel_id, log_number, is_log_id. cbv zeta.
  assert (n < 2 ^ 63 /\ i64 n = n \/ 2 ^ 63 <= n /\ i64 n < 0) as Hi.
  { destruct (Z.lt_ge_cases n (2 ^ 63)) as [Hn|Hn]; [left; by rewrite i64_small by lia|right].
    split; [done|]. unfold i64. rewrite <- (Z.mod_unique (n + 2 ^ 63) (2 ^ 64) 1 (n - 2 ^ 63)) by lia. lia. }
  destruct ((0 <=? i64 n) && (i64 n <=? 65535)) eqn:E.
  - apply andb_true_iff in E as [E1 E2]. zb. destruct Hi as [[_ Hi]|]; [|lia]. rewrite Hi in *.
    rewrite decide_True by lia. by rewrite u16_small by lia.
  - rewrite decide_False; [done|]. intros Hn. apply andb_false_iff in E as [E|E]; zb; lia.
Qed.

Lemma sel_id_range v n : sel_id v = Some n -> is_log_id n.
Proof using Type.
  destruct v; try done. unfold sel_id. destruct ((0 <=? i64 n0) && (i64 n0 <=? 65535)) eqn:E; [|done].
  intros [= <-]. apply u16_range.
Qed.

Lemma parse_sel_range obj all ids : parse_sel obj = Some (all, ids) -> Forall is_log_id ids.
Proof using Type.
  assert (Forall is_log_id []) as Hnil by constructor.
  unfold parse_sel. destruct obj as [| | | | | |m]; try (by intros [= _ <-]).
  destruct (field "sel" m) as [[| | | | | |s]|]; try (by intros [= _ <-]).
  intros (b & _ & [= _ <-])%bind_Some.
  destruct (field "ids" s) as [[| | | | |l|]|]; try done.
  apply Forall_forall. intros n (v & _ & Hv)%list_elem_of_omap. by eapply sel_id_range.
Qed.

(** The parser takes exactly the selection. *)
Lemma parse_sel_selection m all ids : ints_ok (JObject m) = true ->
  parse_sel (JObject m) = Some (all, ids) -> ids = selection (JObject m).
Proof using Type.
  intros Hints. pose proof (ints_get "ids" _ (ints_get "sel" _ Hints)) as Hi. unfold parse_sel, selection in *.
  cbn [jget] in *. destruct (field "sel" m) as [[| | | | | |s]|]; try (by intros [= _ <-]).
  intros (b & _ & [= _ <-])%bind_Some. cbn [default Datatypes.id jget] in *.
  destruct (field "ids" s) as [[| | | | |l|]|]; try done. cbn [default Datatypes.id ints_ok] in *.
  clear -Hi. induction l as [|v l IH]; [done|]. cbn [forallb] in Hi. apply andb_true_iff in Hi as [Hv Hl].
  cbn [omap list_omap]. rewrite sel_id_number by done. by rewrite IH.
Qed.

Lemma sel_ids_back ids : Forall is_log_id ids -> omap sel_id (JInt <$> ids) = ids.
Proof using Type.
  induction 1 as [|n ids Hn _ IH]; [done|]. unfold is_log_id in Hn. cbn [fmap list_fmap omap list_omap].
  assert (sel_id (JInt n) = Some n) as ->.
  { unfold sel_id. rewrite i64_small by lia. cbv zeta.
    rewrite (proj2 (Z.leb_le 0 n)), (proj2 (Z.leb_le n 65535)) by lia. simpl. by rewrite u16_small. }
  f_equal. exact IH.
Qed.

Lemma int_doc_ok n : - 2 ^ 63 <= n < 2 ^ 63 -> doc_ok (JInt n) = true.
Proof using Type. intros Hn. simpl. apply andb_true_iff. split; [apply Z.leb_le|apply Z.ltb_lt]; lia. Qed.

Lemma request_doc_ok req : request_ok req -> doc_ok (request_document req) = true.
Proof using All.
  intros [Hop Hv Hid Hofs Hlim Hids (Ho & Ht & Hc)]. unfold is_int in *.
  assert (forallb doc_ok (JInt <$> rq_sel_ids req) = true) as Hi.
  { clear -Hids. induction Hids as [|n ids Hn _ IH]; [done|]. unfold is_log_id in Hn.
    cbn [fmap list_fmap forallb]. apply andb_true_iff. split; [apply int_doc_ok; lia|exact IH]. }
  assert (forall n, - 2 ^ 31 <= n < 2 ^ 31 -> (- 2 ^ 63 <=? n) && (n <? 2 ^ 64) = true) as Hn
    by (intros n ?; apply int_doc_ok; lia).
  simpl. rewrite Hc, Ho, Ht, Hi, !Hn by done. by rewrite !utf8_ascii by reflexivity.
Qed.
End Requests.

(** * Responses *)

(** The response carries the request's number, and its client if it has one. *)
Definition echoes (request_id : Z) (client : string) (r : json) : Prop :=
  jget "id" r = JInt request_id /\ (nonempty client = true -> jget "client" r = JString client).

Section Responses.
Context `{JsonLaws}.

Definition fits (max_bytes : Z) (r : json) : Prop := string_size (json_dump_replace r) <= max_bytes.

Lemma trySerialize_spec r max_bytes :
  trySerialize r max_bytes = "" /\ ~ fits max_bytes r \/
  trySerialize r max_bytes = json_dump_replace r /\ fits max_bytes r /\
    String.eqb (json_dump_replace r) "" = false.
Proof using All.
  unfold trySerialize, fits. cbv zeta. case_bool; [left; split; [done|lia]|right].
  split_and!; [done|lia|]. apply String.eqb_neq, dump_nonempty.
Qed.

(** ** Fields *)

Lemma add_client_field key client r : (exists m, r = JObject m) ->
  jget key (add_client client r) =
    if nonempty client && String.eqb key "client" then JString client else jget key r.
Proof using Type.
  intros Hr. unfold add_client. destruct (nonempty client); [|done]. rewrite jget_set by (by left).
  by destruct (String.eqb key "client").
Qed.

Lemma base_object id ok tr client : exists m, baseResponse id ok tr client = JObject m.
Proof using Type. unfold baseResponse, add_client. destruct ok, (nonempty client); by eexists. Qed.

Lemma base_echoes id ok tr client : echoes id client (baseResponse id ok tr client).
Proof using Type.
  unfold baseResponse. split; [|intros Hc]; rewrite add_client_field by (destruct ok; by eexists);
    rewrite ?Hc; destruct ok; simpl; try done; by destruct (nonempty client).
Qed.

Lemma error_echoes id err client : echoes id client (error_document id err client).
Proof using Type.
  unfold error_document. split; [|intros Hc]; rewrite add_client_field by (by eexists);
    rewrite ?Hc; simpl; try done; by destruct (nonempty client).
Qed.

Lemma set_object key v r : (exists m, r = JObject m) -> exists m, jset key v r = JObject m.
Proof using Type. intros [m ->]. by eexists. Qed.

(** Setting [data] leaves the other fields alone. *)
Lemma data_echoes id client v r : (exists m, r = JObject m) -> echoes id client r ->
  echoes id client (jset "data" v r).
Proof using Type.
  intros Hr [Hi Hc]. split; [|intros Hn; specialize (Hc Hn)]; rewrite jget_set by (by left); done.
Qed.

(** ** No exception *)

Lemma base_text id ok tr client : utf8 client = true -> text_ok (baseResponse id ok tr client) = true.
Proof using All.
  intros Hc. unfold baseResponse, add_client. destruct ok, (nonempty client); auto 12 with json.
Qed.

Lemma error_text id err client : utf8 err = true -> utf8 client = true ->
  text_ok (error_document id err client) = true.
Proof using All. intros He Hc. unfold error_document, add_client. destruct (nonempty client); auto 12 with json. Qed.

Lemma set2_text key1 key2 v r : utf8 key1 = true -> utf8 key2 = true -> text_ok v = true ->
  text_ok r = true -> text_ok (jset2 key1 key2 v r) = true.
Proof using Type. intros. unfold jset2. auto with json. Qed.

Lemma dumped_ok r : text_ok r = true ->
  dumped r = Some {| resp_json := json_dump_replace r; resp_truncated := false |}.
Proof using All. intros Hr. unfold dumped. by rewrite dump_text. Qed.

(** The text of a response is an object that echoes the request. *)
Definition echo_text (id : Z) (client text : string) : Prop :=
  exists j, echoes id client j /\ text = json_dump_replace j.

Definition answers (id : Z) (client : string) (resp : option SerializedResponse) : Prop :=
  exists r, resp = Some r /\ echo_text id client (resp_json r).

Lemma dumped_answers id client r : text_ok r = true -> echoes id client r -> answers id client (dumped r).
Proof using All. intros Ht He. rewrite dumped_ok by done. eexists. split; [done|]. by exists r. Qed.

Lemma buildError_answers id err client : utf8 err = true -> utf8 client = true ->
  answers id client (buildError id err client).
Proof using All. intros. apply dumped_answers; [by apply error_text|apply error_echoes]. Qed.
End Responses.
#[export] Hint Resolve base_object base_echoes error_echoes data_echoes set_object base_text error_text
  set2_text : json.
Section Builders.
Context `{JsonLaws}.

Lemma buildJobAck_answers id running client : utf8 client = true ->
  answers id client (buildJobAck id running client).
Proof using All.
  intros Hc. apply dumped_answers; [unfold job_ack|unfold job_ack, jset2]; auto 10 with json.
Qed.

Lemma buildRecAck_answers id active client : utf8 client = true ->
  answers id client (buildRecAck id active client).
Proof using All.
  intros Hc. apply dumped_answers; [unfold rec_ack|unfold rec_ack, jset2]; auto 10 with json.
Qed.

Lemma ints_text l : text_ok (JArray (JInt <$> l)) = true.
Proof using Type. simpl. by induction l. Qed.

Lemma buildDownloadAck_answers id queued not_found client : utf8 client = true ->
  answers id client (buildDownloadAck id queued not_found client).
Proof using All.
  intros Hc. pose proof (ints_text not_found).
  apply dumped_answers; [unfold download_ack|unfold download_ack, jset2]; auto 12 with json.
Qed.

Lemma buildAck_answers id ok err client : utf8 err = true -> utf8 client = true ->
  answers id client (buildAck id ok err client).
Proof using All.
  intros He Hc. unfold buildAck. cbv zeta. destruct (negb ok && nonempty err).
  - apply dumped_answers; [auto 10 with json|].
    destruct (base_object id ok false client) as [m Hm]. destruct (base_echoes id ok false client) as [Hi Hcl].
    rewrite Hm in *. split; [|intros Hn; specialize (Hcl Hn)]; rewrite jget_set by (by left; eexists); done.
  - apply dumped_answers; auto 10 with json.
Qed.

(** ** Pages *)

Lemma page_echoes id client p : echoes id client (page_document id client p).
Proof using Type. unfold page_document. cbv zeta. auto with json. Qed.

(** The sizes the ladder tries, from [n] entries down. *)
Definition rung (k n : nat) : Prop := (0 < n)%nat /\ exists i, (0 < i)%nat /\ k = (n / 2 ^ i)%nat.

Lemma rung_half n : (0 < n)%nat -> rung (Nat.div2 n) n.
Proof using Type. intros Hn. split; [done|]. exists 1%nat. split; [lia|]. by rewrite Nat.div2_div. Qed.

Lemma rung_next k n : rung k n -> k = Nat.div2 n \/ rung k (Nat.div2 n) \/ (k = 0 /\ Nat.div2 n = 0)%nat.
Proof using Type.
  intros (Hn & i & Hi & ->). rewrite Nat.div2_div. destruct i as [|[|i]]; [lia|by left|right].
  assert (n / 2 ^ S (S i) = n / 2 / 2 ^ S i)%nat as E.
  { by rewrite Nat.Div0.div_div, <- Nat.pow_succ_r'. }
  destruct (decide (n / 2 = 0)%nat) as [E0|E0].
  - right. rewrite E, E0. split; [|done]. apply Nat.Div0.div_0_l.
  - left. split; [lia|]. exists (S i). split; [lia|done].
Qed.

Lemma rung_up k n : rung k (Nat.div2 n) -> rung k n.
Proof using Type.
  intros (Hn & i & Hi & ->). rewrite Nat.div2_div in *. split; [destruct n; [done|lia]|].
  exists (S i). split; [lia|]. by rewrite Nat.Div0.div_div, <- Nat.pow_succ_r'.
Qed.

Lemma rung_le k n : rung k n -> (k <= Nat.div2 n)%nat.
Proof using Type.
  intros (Hn & i & Hi & ->). rewrite Nat.div2_div. apply Nat.div_le_compat_l.
  split; [lia|]. destruct i as [|i]; [lia|]. simpl. pose proof (Nat.pow_nonzero 2 i). lia.
Qed.

Lemma ladder_spec fuel : forall id client max_bytes p n, (n <= fuel)%nat ->
  match ladder fuel id client max_bytes p n with
  | Some s => exists k, rung k n /\ s = json_dump_replace (page_document id client (reduce_page p k)) /\
      fits max_bytes (page_document id client (reduce_page p k)) /\
      forall k', rung k' n -> (k < k')%nat -> ~ fits max_bytes (page_document id client (reduce_page p k'))
  | None => forall k, rung k n -> ~ fits max_bytes (page_document id client (reduce_page p k))
  end.
Proof using All.
  induction fuel as [|fuel IH]; intros id client max_bytes p n Hn; simpl; [intros k [? _]; lia|].
  destruct n as [|n']; [intros k [? _]; lia|]. set (n := S n') in *.
  assert (Nat.div2 n <= fuel)%nat as Hh by (rewrite Nat.div2_div; subst n; pose proof (Nat.div_lt (S n') 2); lia).
  cbv zeta. set (doc k := page_document id client (reduce_page p k)).
  change (Nat.div2 (S n')) with (Nat.div2 n).
  change (page_document id client (reduce_page p (Nat.div2 n))) with (doc (Nat.div2 n)).
  destruct (trySerialize_spec (doc (Nat.div2 n)) max_bytes) as [[-> Hno]|(-> & Hfit & ->)].
  2:{ exists (Nat.div2 n). split; [apply rung_half; subst n; lia|]. split_and!; try done.
      intros k' Hk'%rung_le ?. lia. }
  change (String.eqb "" "") with true. cbv iota.
  specialize (IH id client max_bytes p (Nat.div2 n) Hh). revert IH.
  destruct (ladder fuel id client max_bytes p (Nat.div2 n)) as [s|]; intros IH.
  - destruct IH as (k & Hk & Hs & Hf & Hmax). exists k. split_and!; try done; [by apply rung_up|].
    intros k' Hk' Hlt. destruct (rung_next k' n Hk') as [->|[?|[-> _]]]; [done|auto|lia].
  - intros k Hk. destruct (rung_next k n Hk) as [->|[?|[-> E]]]; [done|by apply IH|]. by rewrite E in Hno.
Qed.

Lemma buildFcLogs_answers id page max_bytes client : utf8 client = true ->
  answers id client (buildFcLogs id page max_bytes client).
Proof using All.
  intros Hc. unfold buildFcLogs. cbv zeta.
  destruct (trySerialize_spec (page_document id client page) max_bytes) as [[-> _]|(-> & _ & ->)].
  2:{ eexists. split; [done|]. eexists. split; [apply page_echoes|done]. }
  change (String.eqb "" "") with true. cbv iota.
  pose proof (ladder_spec (length (pg_entries page)) id client max_bytes page (length (pg_entries page))
    (le_n _)) as Hl. revert Hl.
  destruct (ladder _ _ _ _ _ _) as [s|]; [intros (k & _ & -> & _)|intros _].
  - eexists. split; [done|]. eexists. split; [apply page_echoes|done].
  - destruct (buildError_answers id "internal" client) as (r & -> & Hr); [auto with json|done|].
    eexists. by split.
Qed.

Lemma buildCaps_answers id a b c max_bytes client : utf8 client = true ->
  answers id client (buildCaps id a b c max_bytes client).
Proof using All.
  intros Hc. unfold buildCaps. cbv zeta. set (doc := caps_document id a b c client).
  destruct (trySerialize_spec doc max_bytes) as [[-> _]|(-> & _ & ->)].
  - change (String.eqb "" "") with true. cbv iota.
    destruct (buildError_answers id "internal" client) as (r & -> & Hr); [auto with json|done|].
    eexists. by split.
  - eexists. split; [done|]. exists doc. split; [|done]. unfold doc, caps_document. cbv zeta.
    auto with json.
Qed.

Lemma buildStatus_answers id snap max_bytes client :
  let text := resp_json (buildStatus id snap max_bytes client) in
  text = "" \/ echo_text id client text.
Proof using All.
  cbv zeta. unfold buildStatus. cbv zeta.
  destruct (trySerialize_spec (full_status id snap client) max_bytes) as [[-> _]|(-> & _ & ->)].
  - change (String.eqb "" "") with true. cbv iota. cbn [resp_json].
    destruct (trySerialize_spec (minimal_status id snap client) max_bytes) as [[-> _]|(-> & _ & _)];
      [by left|right]. eexists. split; [|done]. unfold minimal_status. auto with json.
  - right. eexists. split; [|done]. unfold full_status. auto with json.
Qed.

Lemma buildStatus_empty id snap max_bytes client : resp_json (buildStatus id snap max_bytes client) = "" ->
  ~ fits max_bytes (minimal_status id snap client).
Proof using All.
  unfold buildStatus. cbv zeta.
  destruct (trySerialize_spec (full_status id snap client) max_bytes) as [[-> _]|(-> & _ & E)].
  - change (String.eqb "" "") with true. cbv iota. cbn [resp_json].
    destruct (trySerialize_spec (minimal_status id snap client) max_bytes) as [[_ Hno]|(-> & _ & E)]; [done|].
    by apply String.eqb_neq in E.
  - rewrite E. by apply String.eqb_neq in E.
Qed.
End Builders.
#[export] Hint Resolve buildError_answers buildJobAck_answers buildRecAck_answers
  buildDownloadAck_answers buildFcLogs_answers buildCaps_answers : json.

(** * Properties *)

(** C20. A parsed request is well typed, whatever the text: its operation is not
    empty, its numbers are of [int], the log numbers selected are of 16 bits and
    its strings are UTF-8.  The log numbers are those the document selects: an integer
    that is no log number is left out, and never taken for another.  And every
    well-typed request is read back from the text a client writes for it. *)
Theorem parseRequest_correct `{JsonLaws} :
  (forall text req, parseRequest text = Some req ->
     request_ok req /\ exists doc, json_parse text = Some doc /\ rq_sel_ids req = selection doc) /\
  (forall req, request_ok req ->
     parseRequest (json_dump_replace (request_document req)) = Some req).
Proof.
  split.
  - intros text req.
    intros (obj & Hp & (v & Hv & (id & Hid & (op & Hop & (tk & Htk & (cl & Hcl &
      (ofs & Hofs & (lim & Hlim & ([all ids] & Hsel & Hreq)%bind_Some)%bind_Some)%bind_Some)
      %bind_Some)%bind_Some)%bind_Some)%bind_Some)%bind_Some)%bind_Some.
    pose proof (parse_ints _ _ Hp) as Hints. pose proof (parse_text _ _ Hp) as Ht.
    destruct (String.eqb op "") eqn:E; [done|]. injection Hreq as <-.
    split; [|exists obj; split; [done|]; destruct obj; try done; by eapply parse_sel_selection].
    split; simpl; try (by eapply value_int; [|eassumption]); try (by eapply parse_sel_range).
    + unfold nonempty. by rewrite E.
    + split_and!; by eapply value_string.
  - intros req Hok. pose proof Hok as [Hop Hv Hid Hofs Hlim Hids _]. unfold is_int in *.
    unfold parseRequest. rewrite parse_dump by (by apply request_doc_ok).
    assert (forall s, get_string (JString s) = Some s) as Hs by (intros; by apply get_string_iff).
    assert (get_bool (JBool (rq_sel_all req)) = Some (rq_sel_all req)) as Hb by (by apply get_bool_iff).
    cbn -[omap]. rewrite !get_int_number, !Hs. cbn -[omap]. rewrite Hb. cbn -[omap].
    rewrite !i32_small by lia. unfold nonempty in Hop. apply negb_true_iff in Hop. rewrite Hop.
    rewrite sel_ids_back by done. by destruct req.
Qed.

(** A request to download two logs. *)
Definition sample_request : CompanionRequest :=
  {| rq_version := 1; rq_id := 7; rq_op := "logs.download"; rq_token := "key"; rq_client := "tablet";
     rq_offset := 0; rq_limit := 8; rq_sel_ids := [3; 65535]; rq_sel_all := false |}.

(** One that also names numbers that are no log's: 99999 is not taken for 34463. *)
Definition sample_selection : json :=
  JObject [("op", JString "logs.download");
           ("sel", JObject [("ids", JArray [JInt 3; JInt 99999; JInt (-1); JInt (2 ^ 64 - 1); JInt 65535])])]%string.

Lemma parseRequest_correct_witness :
  parseRequest (json_dump_replace (request_document sample_request)) = Some sample_request /\
  exists req, parseRequest (json_dump_replace sample_selection) = Some req /\ rq_sel_ids req = [3; 65535].
Proof.
  destruct parseRequest_correct as [Ht Hr]. split.
  - apply Hr. split; simpl; unfold is_int, is_log_id; repeat constructor; done.
  - destruct (parseRequest (json_dump_replace sample_selection)) as [req|] eqn:E; [|vm_compute in E; discriminate E].
    exists req. split; [reflexivity|]. destruct (Ht _ _ E) as [_ (doc & Hdoc & ->)].
    assert (json_parse (json_dump_replace sample_selection) = Some sample_selection) as Hp by (vm_compute; reflexivity).
    rewrite Hp in Hdoc. injection Hdoc as <-. vm_compute. reflexivity.
Defined.

(** C21. A page response is the longest that fits.  A listing page that fits the
    budget is sent as it is; otherwise the longest of the pages with a half, a
    quarter, ... of its entries that fits is sent, flagged as truncated; when not
    even the empty page fits, the answer is the error [internal], which is not
    held to the budget.  No case throws. *)
Theorem buildFcLogs_longest `{JsonLaws} id page max_bytes client : utf8 client = true ->
  let doc k := page_document id client (reduce_page page k) in
  let n := length (pg_entries page) in
  exists r, buildFcLogs id page max_bytes client = Some r /\
    ((fits max_bytes (page_document id client page) /\
        r = {| resp_json := json_dump_replace (page_document id client page);
               resp_truncated := pg_truncated page |}) \/
     ~ fits max_bytes (page_document id client page) /\
     ((exists k, rung k n /\ fits max_bytes (doc k) /\
         (forall k', rung k' n -> (k < k')%nat -> ~ fits max_bytes (doc k')) /\
         r = {| resp_json := json_dump_replace (doc k); resp_truncated := true |}) \/
      (forall k, rung k n -> ~ fits max_bytes (doc k)) /\
      r = {| resp_json := json_dump_replace (error_document id "internal" client);
             resp_truncated := false |})).
Proof.
  intros Hc doc n. unfold buildFcLogs. cbv zeta.
  destruct (trySerialize_spec (page_document id client page) max_bytes) as [[-> Hno]|(-> & Hf & ->)].
  2:{ eexists. split; [done|]. by left. }
  change (String.eqb "" "") with true. cbv iota. fold n.
  pose proof (ladder_spec n id client max_bytes page n (le_n _)) as Hl. revert Hl.
  destruct (ladder _ _ _ _ _ _) as [s|].
  - intros (k & Hk & -> & Hf & Hmax). eexists. split; [done|]. right. split; [done|]. left.
    exists k. by split_and!.
  - intros Hall. unfold buildError. rewrite dumped_ok by auto with json. eexists. split; [done|].
    right. split; [done|]. by right.
Qed.

(** Three entries, and a budget for one. *)
Definition sample_page : FcLogsPage :=
  let e id := {| fe_id := id; fe_size := 90000; fe_time_utc := 1700000000; fe_downloaded := true |} in
  {| pg_count := 3; pg_offset := 0; pg_entries := [e 1; e 2; e 3]; pg_truncated := false;
     pg_stale := false |}.

Definition sample_budget : Z :=
  string_size (json_dump_replace (page_document 5 "" (reduce_page sample_page 1))).

Lemma buildFcLogs_longest_witness :
  let doc := page_document 5 "" (reduce_page sample_page 1) in
  buildFcLogs 5 sample_page sample_budget "" =
    Some {| resp_json := json_dump_replace doc; resp_truncated := true |} /\
  fits sample_budget doc /\ ~ fits sample_budget (page_document 5 "" sample_page).
Proof.
  intros doc.
  assert (match buildFcLogs 5 sample_page sample_budget "" with
          | Some r => String.eqb (resp_json r) (json_dump_replace doc) && resp_truncated r
          | None => false end = true) as Hrun by (vm_compute; reflexivity).
  destruct (@buildFcLogs_longest sample_json sample_laws 5 sample_page sample_budget "" eq_refl) as (r & E & Hr).
  rewrite E in Hrun. apply andb_true_iff in Hrun as [Hj%String.eqb_eq Ht].
  split; [rewrite E; destruct r; simpl in *; by subst|].
  destruct Hr as [[_ ->]|[Hno [(k & _ & Hf & _ & ->)|[_ ->]]]]; [discriminate Ht| |discriminate Ht].
  split; [|exact Hno]. unfold fits in *. cbn [resp_json] in Hj. rewrite <- Hj. exact Hf.
Defined.

(** C33. A status response keeps to the budget: it is the full status when that
    fits, else the minimal one, flagged as truncated; when neither fits it is
    empty, and an empty datagram is sent. *)
Theorem buildStatus_fits `{JsonLaws} id snap max_bytes client : 0 <= max_bytes ->
  let r := buildStatus id snap max_bytes client in
  string_size (resp_json r) <= max_bytes /\
  (resp_truncated r = false <-> fits max_bytes (full_status id snap client)) /\
  (resp_truncated r = false -> resp_json r = json_dump_replace (full_status id snap client)) /\
  (resp_truncated r = true -> fits max_bytes (minimal_status id snap client) ->
     resp_json r = json_dump_replace (minimal_status id snap client)) /\
  (resp_json r = "" <-> ~ fits max_bytes (full_status id snap client) /\
                        ~ fits max_bytes (minimal_status id snap client)).
Proof.
  intros Hm r. subst r. unfold buildStatus. cbv zeta.
  destruct (trySerialize_spec (full_status id snap client) max_bytes) as [[-> Hno]|(-> & Hf & E)].
  - change (String.eqb "" "") with true. cbv iota. cbn [resp_json resp_truncated].
    destruct (trySerialize_spec (minimal_status id snap client) max_bytes) as [[-> Hno']|(-> & Hf & E)];
      [by split_and!|]. apply String.eqb_neq in E. by split_and!; try tauto.
  - rewrite E. cbn [resp_json resp_truncated]. apply String.eqb_neq in E. split_and!; try done; tauto.
Qed.

Definition sample_snapshot : ServiceSnapshot :=
  {| sn_state := "archive"; sn_version := "1.0.0"; sn_job_type := "archive";
     sn_transport_connected := true; sn_heartbeat_fresh := true; sn_vehicle_detected := true;
     sn_vehicle_armed := false; sn_fc_logs_count := 3; sn_fc_logs_stale := false;
     sn_archive_active := true; sn_archive_current_log_id := 2; sn_archive_progress_bytes := 4096;
     sn_archive_progress_total_bytes := 90000; sn_archive_percent := 4; sn_archive_bytes_per_sec := 8192;
     sn_last_cycle_downloaded := 0; sn_last_cycle_skipped := 0; sn_last_cycle_failed := 0;
     sn_last_cycle_cancelled := 0; sn_last_cycle_all_archived := false; sn_storage_used_bytes := 90000;
     sn_storage_limit_bytes := 1073741824; sn_storage_archived_count := 1; sn_recording_enabled := false;
     sn_recording_active := false; sn_recording_duration_sec := 0; sn_recording_free_bytes := 0;
     sn_recording_crash_reason := "" |}.

(** With a budget of ten bytes there is nothing to send. *)
Lemma buildStatus_fits_witness :
  let r := buildStatus 5 sample_snapshot 10 "" in
  string_size (resp_json r) <= 10 /\ resp_truncated r = true /\ resp_json r = "".
Proof.
  destruct (buildStatus_fits 5 sample_snapshot 10 "" ltac:(lia)) as (Hs & _).
  split; [exact Hs|]. split; vm_compute; reflexivity.
Defined.
