(* ===== verification/VideoRecorder.v ===== *)
(** [VideoRecorder] (src/VideoRecorder.cpp): the recorder subprocess, started and
    stopped on request and noticed when it dies, with the thread that syncs the
    disk while it runs and the one that waits for its end.

    What the operating system answers to a call (waitpid, stat, posix_spawnp,
    statvfs, the clock) is an argument, [OsView]; what the recorder asks of it is
    kept in a log.  The flags that end the sync threads are shared objects: they
    live in a store, and the recorder holds the index of its own.  The command
    line of the subprocess and the file name only go to it and are left out.
    The operations hold the recorder's mutex, so that each is one step.

    The theorems: no subprocess and no sync thread is ever lost, the crash reason
    stands for an end nobody asked for, every stopped subprocess is waited for,
    and how often the disk is synced. *)

From S2P Require Import Prelude CompanionTypes.
From stdpp Require Import pretty.
Open Scope Z_scope.

(** * The operating system *)

(** What [fs::is_directory], [access] and the two [stat] calls say of the mount path. *)
Record MountView := {
  mv_is_directory : bool;
  mv_access : bool;
  mv_self_dev : option Z;
  mv_parent_dev : option Z;
}.

(** [waitpid(pid, WNOHANG)]: still running, ended, no such child, another error. *)
Inductive WaitResult := WaitRunning | WaitExited | WaitNoChild | WaitError.

Record OsView := {
  ov_wait : WaitResult;
  ov_reap_mount : MountView;   (* in [reapIfExited] *)
  ov_start_mount : MountView;  (* in [start] *)
  ov_spawn : Z * Z;            (* the result of [posix_spawnp], and the child *)
  ov_now : Z;                  (* steady clock, ns *)
  ov_stamp : string;           (* the local time as strftime writes it *)
  ov_free : option (Z * Z);    (* [statvfs]: available blocks, and their size *)
}.

(** What is asked of it. *)
Inductive OsCall :=
| Spawned (pid : Z) (command : list string)
| Reaped (pid : Z)
| Interrupted (pid : Z)
| Watching (pid : Z)      (* a thread waits for the end of [pid] *)
| Syncing (flag : nat).   (* a thread syncs while its flag is set *)

(** * The recorder *)

Record Recorder := {
  pid_ : Z;
  start_time_ : Z;
  last_crash_reason_ : string;
  sync_active_ : option nat;
  rec_flags : list bool;     (* the flags of all sync threads *)
  rec_calls : list OsCall;
}.

Definition new_recorder : Recorder :=
  {| pid_ := -1; start_time_ := 0; last_crash_reason_ := ""; sync_active_ := None;
     rec_flags := []; rec_calls := [] |}.

Definition checkMediaWritable (v : MountView) : bool :=
  if negb (mv_is_directory v) then false
  else if negb (mv_access v) then false
  else match mv_self_dev v, mv_parent_dev v with
       | Some self_dev, Some parent_dev => negb (self_dev =? parent_dev)
       | _, _ => false
       end.

(** [if (sync_active_) { *sync_active_ = false; sync_active_.reset(); }] *)
Definition end_sync (r : Recorder) : Recorder :=
  match sync_active_ r with
  | Some i =>
      {| pid_ := pid_ r; start_time_ := start_time_ r; last_crash_reason_ := last_crash_reason_ r;
         sync_active_ := None; rec_flags := <[i := false]> (rec_flags r); rec_calls := rec_calls r |}
  | None => r
  end.

Definition set_pid (pid : Z) (reason : string) (calls : list OsCall) (r : Recorder) : Recorder :=
  {| pid_ := pid; start_time_ := start_time_ r; last_crash_reason_ := reason;
     sync_active_ := sync_active_ r; rec_flags := rec_flags r; rec_calls := rec_calls r ++ calls |}.

Definition reapIfExited (v : OsView) (r : Recorder) : Recorder :=
  if pid_ r <=? 0 then r
  else match ov_wait v with
       | WaitExited | WaitNoChild =>
           let reason := if checkMediaWritable (ov_reap_mount v) then "recorder_crashed" else "media_lost" in
           end_sync (set_pid (-1) reason [Reaped (pid_ r)] r)
       | _ => r
       end.

Section Settings.
Context (settings : RecordingSettings).

(** The file, and the command that records into it. *)
Definition recording_path (stamp : string) : string :=
  let filename := filename_prefix settings +:+ "_" +:+ stamp +:+ ".ts" in
  let path := mount_path settings in
  let slash := negb (String.eqb path "") && negb (bool_decide (last (list_ascii_of_string path) = Some "/"%char)) in
  (if slash then path +:+ "/" else path) +:+ filename.

Definition recorder_command (path : string) : list string :=
  let caps := "application/x-rtp,media=video,encoding-name=H264,payload=" +:+
              pretty (rtp_payload_type settings) +:+ ",clock-rate=90000" in
  [gst_launch_path settings; "-q"; "udpsrc"; "port=" +:+ pretty (source_port settings); "caps=" +:+ caps;
   "!"; "rtph264depay"; "!"; "h264parse"; "!"; "mpegtsmux"; "!"; "filesink"; "location=" +:+ path].

(** The subprocess runs: its number, its command, the start time, and the sync
    thread. *)
Definition started (child : Z) (command : list string) (now : Z) (r : Recorder) : Recorder :=
  let sync := 0 <? fsync_interval_sec settings in
  {| pid_ := child; start_time_ := now; last_crash_reason_ := "";
     sync_active_ := if sync then Some (length (rec_flags r)) else sync_active_ r;
     rec_flags := if sync then rec_flags r ++ [true] else rec_flags r;
     rec_calls := rec_calls r ++ Spawned child command ::
                   if sync then [Syncing (length (rec_flags r))] else [] |}.

Definition start (v : OsView) (r : Recorder) : RecStartResult * Recorder :=
  if negb (rec_enabled settings) then (RecDisabled, r)
  else
    let r := reapIfExited v r in
    if 0 <? pid_ r then (RecAlreadyRecording, r)
    else if negb (checkMediaWritable (ov_start_mount v)) then (RecNoMedia, r)
    else
      let '(rc, child) := ov_spawn v in
      if negb (rc =? 0) || (child <=? 0) then (RecFailed, r)
      else (RecStarted, started child (recorder_command (recording_path (ov_stamp v))) (ov_now v) r).

Definition stop (v : OsView) (r : Recorder) : bool * Recorder :=
  let r := reapIfExited v r in
  if pid_ r <=? 0 then (false, r)
  else
    let child := pid_ r in
    (true, end_sync (set_pid (-1) (last_crash_reason_ r) [Interrupted child; Watching child] r)).

Record Snapshot := {
  ss_enabled : bool;
  ss_active : bool;
  ss_duration_sec : Z;
  ss_free_bytes : Z;
  ss_crash_reason : string;
}.

Definition snapshot (v : OsView) (r : Recorder) : Snapshot * Recorder :=
  let r := reapIfExited v r in
  let active := 0 <? pid_ r in
  ({| ss_enabled := rec_enabled settings; ss_active := active;
      ss_duration_sec := if active then u32 (Z.quot (ov_now v - start_time_ r) 1000000000) else 0;
      ss_free_bytes := match ov_free v with
                       | Some (blocks, size) => u64 (u64 blocks * size)
                       | None => 0
                       end;
      ss_crash_reason := last_crash_reason_ r |}, r).

(** * The threads *)

(** The sync thread, in turns of 100 ms from its start: [active n] is its flag
    after [n] turns, the result the turns at whose end it syncs, the earliest
    first.  [wait] is what is left of the current wait; [fuel] bounds the turns. *)
Fixpoint sync_turns (fuel : nat) (active : nat -> bool) (turn wait : nat) : list nat :=
  match fuel with
  | O => []
  | S fuel' =>
      if active turn then
        match wait with
        | O => turn :: sync_turns fuel' active turn (Z.to_nat (fsync_interval_sec settings * 10))
        | S wait' => sync_turns fuel' active (S turn) wait'
        end
      else []
  end.

(** The first wait is short. *)
Definition sync_thread (fuel : nat) (active : nat -> bool) : list nat :=
  sync_turns fuel active 0 (Z.to_nat (Z.min (fsync_interval_sec settings) 1 * 10)).
End Settings.

(** The thread that waits for a stopped subprocess: twenty polls 100 ms apart,
    then the kill and a wait without a limit. *)
Inductive WatchStep := Polled (ended : bool) | Slept | Killed | Waited | Synced.

Fixpoint watch_polls (n : nat) (exited : nat -> bool) (i : nat) : list WatchStep :=
  match n with
  | O => [Killed; Waited; Synced]
  | S n' =>
      if exited i then [Polled true; Synced]
      else Polled false :: Slept :: watch_polls n' exited (S i)
  end.

Definition watch (exited : nat -> bool) : list WatchStep := watch_polls 20 exited 0.

(** * Operations in sequence *)

Inductive RecOp := OpStart (v : OsView) | OpStop (v : OsView) | OpSnapshot (v : OsView).

Definition rec_step (settings : RecordingSettings) (r : Recorder) (op : RecOp) : Recorder :=
  match op with
  | OpStart v => (start settings v r).2
  | OpStop v => (stop v r).2
  | OpSnapshot v => (snapshot settings v r).2
  end.

Definition rec_run (settings : RecordingSettings) (ops : list RecOp) : Recorder :=
  foldl (rec_step settings) new_recorder ops.

Definition spawned (calls : list OsCall) : list Z :=
  omap (fun c => match c with Spawned p _ => Some p | _ => None end) calls.
Definition reaped (calls : list OsCall) : list Z :=
  omap (fun c => match c with Reaped p => Some p | _ => None end) calls.
Definition interrupted (calls : list OsCall) : list Z :=
  omap (fun c => match c with Interrupted p => Some p | _ => None end) calls.
Definition watched (calls : list OsCall) : list Z :=
  omap (fun c => match c with Watching p => Some p | _ => None end) calls.
Definition syncing (calls : list OsCall) : list nat :=
  omap (fun c => match c with Syncing i => Some i | _ => None end) calls.

(** The subprocess the recorder holds. *)
Definition current (r : Recorder) : list Z := if 0 <? pid_ r then [pid_ r] else [].

(** Whether the last thing that happened was an end nobody had asked for. *)
Definition ended_unasked (r : Recorder) : Prop := exists pid, last (rec_calls r) = Some (Reaped pid).

Section Invariant.
Context (settings : RecordingSettings).

Record rec_ok (r : Recorder) : Prop := {
  rec_accounts : spawned (rec_calls r) ≡ₚ
    current r ++ reaped (rec_calls r) ++ watched (rec_calls r);
  rec_asked : interrupted (rec_calls r) = watched (rec_calls r);
  rec_threads : syncing (rec_calls r) = seq 0 (length (rec_flags r));
  rec_sync : forall i b, rec_flags r !! i = Some b -> b = bool_decide (sync_active_ r = Some i);
  rec_synced : is_Some (sync_active_ r) <-> 0 < pid_ r /\ 0 < fsync_interval_sec settings;
  rec_bound : forall i, sync_active_ r = Some i -> (i < length (rec_flags r))%nat;
  rec_reason : last_crash_reason_ r <> "" <-> ended_unasked r;
  rec_alive : 0 < pid_ r -> last_crash_reason_ r = "";
}.

Lemma new_recorder_ok : rec_ok new_recorder.
Proof using Type.
  split; try done; simpl.
  - split; [by intros []|lia].
  - split; [done|by intros []].
Qed.

Lemma last_snoc_calls (r : Recorder) c calls : rec_calls r = calls ++ [c] ->
  (ended_unasked r <-> exists pid, c = Reaped pid).
Proof using Type. intros E. unfold ended_unasked. rewrite E, last_snoc.
  split; intros [pid Hp]; exists pid; congruence. Qed.

(** The recorder lets go of its subprocess, which has ended or is being watched. *)
Lemma leave_ok r reason calls c :
  rec_ok r -> 0 < pid_ r ->
  (c = Reaped (pid_ r) /\ calls = [] /\ reason <> "" \/
   c = Watching (pid_ r) /\ calls = [Interrupted (pid_ r)] /\ reason = "") ->
  rec_ok (end_sync (set_pid (-1) reason (calls ++ [c]) r)).
Proof using Type.
  intros [Hacc Hint Hthr Hsync Hsynced Hbound _ _] Hpid Hc.
  set (r' := end_sync _).
  assert (pid_ r' = -1 /\ last_crash_reason_ r' = reason /\ rec_calls r' = rec_calls r ++ calls ++ [c] /\
          sync_active_ r' = None /\ length (rec_flags r') = length (rec_flags r)) as (Ep & El & Ec & Es & En).
  { subst r'. unfold end_sync. simpl. destruct (sync_active_ r) eqn:E; simpl; rewrite ?length_insert; done. }
  assert (current r = [pid_ r]) as Hcur by (unfold current; by rewrite (proj2 (Z.ltb_lt _ _))).
  rewrite Hcur in Hacc. clear Hcur.
  split.
  - unfold current. rewrite Ep, Ec. cbn [Z.ltb Z.compare app]. unfold spawned, reaped, watched in *.
    rewrite !omap_app, Hacc.
    destruct Hc as [(-> & -> & _)|(-> & -> & _)]; simpl; rewrite ?app_nil_r; solve_Permutation.
  - rewrite Ec. unfold interrupted, watched in *. rewrite !omap_app, Hint.
    by destruct Hc as [(-> & -> & _)|(-> & -> & _)].
  - rewrite Ec, En. unfold syncing in *. rewrite !omap_app, Hthr.
    destruct Hc as [(-> & -> & _)|(-> & -> & _)]; simpl; by rewrite app_nil_r.
  - intros i b. rewrite Es. unfold r', end_sync. simpl.
    destruct (sync_active_ r) as [j|] eqn:E; simpl; [|intros Hi; apply Hsync in Hi; by rewrite ?E in Hi].
    destruct (decide (i = j)) as [->|Hne].
    + rewrite list_lookup_insert_eq by auto. by intros [= <-].
    + rewrite list_lookup_insert_ne by done. intros Hi. apply Hsync in Hi. rewrite ?E in Hi.
      rewrite Hi. by rewrite bool_decide_eq_false_2 by congruence.
  - rewrite Es, Ep. split; [by intros []|lia].
  - by rewrite Es.
  - rewrite El. rewrite (last_snoc_calls r' c (rec_calls r ++ calls)) by (by rewrite Ec, app_assoc).
    destruct Hc as [(-> & _ & Hr)|(-> & _ & ->)]; split; try done; [by eexists|by intros []].
  - rewrite Ep. lia.
Qed.

Lemma reap_ok v r : rec_ok r -> rec_ok (reapIfExited v r).
Proof using Type.
  intros Hr. unfold reapIfExited. case_bool; [done|].
  assert (rec_ok (end_sync (set_pid (-1) (if checkMediaWritable (ov_reap_mount v)
            then "recorder_crashed" else "media_lost") ([] ++ [Reaped (pid_ r)]) r))) as H.
  { apply leave_ok; [done|lia|left]. by destruct (checkMediaWritable _). }
  by destruct (ov_wait v).
Qed.

Lemma started_ok r child command now : rec_ok r -> pid_ r <= 0 -> 0 < child ->
  rec_ok (started settings child command now r).
Proof using Type.
  intros [Hacc Hint Hthr Hsync Hsynced Hbound _ _] Hp Hc.
  assert (sync_active_ r = None) as Hnone.
  { destruct (sync_active_ r) as [i|]; [|done]. destruct (proj1 Hsynced ltac:(by eexists)). lia. }
  assert (current r = []) as Hcur by (unfold current; by rewrite (proj2 (Z.ltb_ge _ _))).
  rewrite Hcur in Hacc. unfold started. cbv zeta.
  set (calls := Spawned child command :: if 0 <? fsync_interval_sec settings then _ else _).
  assert (spawned calls = [child] /\ reaped calls = [] /\ watched calls = [] /\ interrupted calls = [] /\
          syncing calls = if 0 <? fsync_interval_sec settings then [length (rec_flags r)] else [])
    as (E1 & E2 & E3 & E4 & E5) by (unfold calls; by destruct (0 <? fsync_interval_sec settings)).
  unfold spawned, reaped, watched, interrupted, syncing in *.
  split; cbn [pid_ last_crash_reason_ sync_active_ rec_flags rec_calls].
  - unfold current. cbn [pid_]. rewrite (proj2 (Z.ltb_lt _ _)) by done.
    unfold spawned, reaped, watched. rewrite !omap_app, E1, E2, E3, Hacc, !app_nil_r. solve_Permutation.
  - unfold interrupted, watched. by rewrite !omap_app, E3, E4, Hint.
  - unfold syncing. rewrite omap_app, E5, Hthr. destruct (0 <? fsync_interval_sec settings); [|by rewrite app_nil_r].
    by rewrite length_app, seq_app.
  - intros i b. destruct (0 <? fsync_interval_sec settings); [|apply Hsync].
    intros [Hi|[Hi Hb]]%lookup_app_Some.
    + pose proof (lookup_lt_Some _ _ _ Hi). apply Hsync in Hi. rewrite Hnone in Hi. rewrite Hi.
      rewrite !bool_decide_eq_false_2; [done| |done]. intros [= E]. lia.
    + apply list_lookup_singleton_Some in Hb as [Hz <-]. rewrite bool_decide_eq_true_2; [done|]. f_equal. lia.
  - destruct (Z.ltb_spec 0 (fsync_interval_sec settings)); [split; [done|by eexists]|].
    rewrite Hnone. split; [by intros []|lia].
  - intros i. destruct (0 <? fsync_interval_sec settings); [|by rewrite Hnone].
    intros [= <-]. rewrite length_app. simpl. lia.
  - split; [done|]. unfold ended_unasked. cbn [rec_calls]. intros [pid Hl]. exfalso.
    rewrite last_app in Hl. unfold calls in Hl. by destruct (0 <? fsync_interval_sec settings).
  - done.
Qed.

Lemma step_ok r op : rec_ok r -> rec_ok (rec_step settings r op).
Proof using Type.
  intros Hr. destruct op as [v|v|v]; simpl.
  - unfold start. destruct (rec_enabled settings); [|done]. simpl.
    pose proof (reap_ok v r Hr) as Hr'. set (r' := reapIfExited v r) in *. case_bool; [done|].
    destruct (checkMediaWritable (ov_start_mount v)); [|done]. simpl.
    destruct (ov_spawn v) as [rc child]. destruct (negb (rc =? 0) || (child <=? 0)) eqn:E; [done|]. simpl.
    apply orb_false_iff in E as [_ E]. zb. apply started_ok; [done|lia|lia].
  - unfold stop. pose proof (reap_ok v r Hr) as Hr'. set (r' := reapIfExited v r) in *. case_bool; [done|]. simpl.
    refine (leave_ok r' _ [Interrupted (pid_ r')] (Watching (pid_ r')) Hr' _ _); [lia|right].
    split_and!; try done. apply (rec_alive r' Hr'). lia.
  - unfold snapshot. simpl. by apply reap_ok.
Qed.
End Invariant.

(** * The threads *)

Section SyncThread.
Context (settings : RecordingSettings) (active : nat -> bool).
Local Abbreviation period := (Z.to_nat (fsync_interval_sec settings * 10)).

Lemma sync_turns_sound fuel : forall turn wait t, t ∈ sync_turns settings fuel active turn wait ->
  active t = true /\ exists k, t = (turn + wait + k * period)%nat.
Proof using Type.
  induction fuel as [|fuel IH]; intros turn wait t; simpl; [by intros ?%not_elem_of_nil|].
  destruct (active turn) eqn:E; [|by intros ?%not_elem_of_nil]. destruct wait as [|wait].
  - intros [->|Ht]%elem_of_cons; [split; [done|exists 0%nat; lia]|].
    destruct (IH _ _ _ Ht) as [Ha [k ->]]. split; [done|]. exists (S k). lia.
  - intros Ht. destruct (IH _ _ _ Ht) as [Ha [k ->]]. split; [done|]. exists k. lia.
Qed.

Lemma sync_turns_complete T : (0 < period)%nat -> (forall n, (n < T)%nat -> active n = true) ->
  forall fuel turn wait k, (2 * (T - turn) + (if decide (wait = 0)%nat then 1 else 0) < fuel)%nat ->
  (turn + wait + k * period < T)%nat ->
  (turn + wait + k * period)%nat ∈ sync_turns settings fuel active turn wait.
Proof using Type.
  intros Hp Hact. induction fuel as [|fuel IH]; intros turn wait k Hf Hk; [lia|]. simpl.
  rewrite Hact by lia. destruct wait as [|wait].
  - destruct k as [|k]; [replace (turn + 0 + 0 * period)%nat with turn by lia; by left|right].
    replace (turn + 0 + S k * period)%nat with (turn + period + k * period)%nat by lia.
    apply IH; [|lia]. rewrite decide_False by lia. rewrite decide_True in Hf by done. lia.
  - replace (turn + S wait + k * period)%nat with (S turn + wait + k * period)%nat by lia.
    apply IH; [|lia]. rewrite decide_False in Hf by lia. case_decide; lia.
Qed.
End SyncThread.

(** The thread that watches a stopped recorder: it ends, syncs last, has waited for
    the recorder's end, and kills it only after twenty polls in vain. *)
Lemma watch_polls_waits n exited : forall i,
  (exists k, (k < n)%nat /\ exited (i + k)%nat = true /\ (forall j, (j < k)%nat -> exited (i + j)%nat = false) /\
     watch_polls n exited i = concat (replicate k [Polled false; Slept]) ++ [Polled true; Synced]) \/
  ((forall j, (j < n)%nat -> exited (i + j)%nat = false) /\
     watch_polls n exited i = concat (replicate n [Polled false; Slept]) ++ [Killed; Waited; Synced]).
Proof.
  induction n as [|n IH]; intros i; simpl; [right; split; [lia|done]|].
  destruct (exited i) eqn:E.
  - left. exists 0%nat. rewrite Nat.add_0_r. split_and!; [lia|done|lia|done].
  - destruct (IH (S i)) as [(k & Hk & He & Hlt & ->)|[Hno ->]].
    + left. exists (S k). rewrite <- Nat.add_succ_comm. split_and!; [lia|done| |done].
      intros [|j] Hj; [by rewrite Nat.add_0_r|]. rewrite <- Nat.add_succ_comm. apply Hlt. lia.
    + right. split; [|done]. intros [|j] Hj; [by rewrite Nat.add_0_r|].
      rewrite <- Nat.add_succ_comm. apply Hno. lia.
Qed.

(** * Properties *)

(** C22. No subprocess and no sync thread is lost, whatever the operating system
    answers: after any operations every recorder that was spawned is the current
    one, or has ended and been reaped, or was interrupted by [stop] and is watched
    by a thread; at most one sync thread's flag is set, and it is the current
    recorder's; and a crash reason is reported exactly when the last event was the
    end of a recorder that nobody had asked for. *)
Theorem recorder_accounts settings ops :
  let r := rec_run settings ops in
  spawned (rec_calls r) ≡ₚ current r ++ reaped (rec_calls r) ++ watched (rec_calls r) /\
  interrupted (rec_calls r) = watched (rec_calls r) /\
  syncing (rec_calls r) = seq 0 (length (rec_flags r)) /\
  (forall i, rec_flags r !! i = Some true -> sync_active_ r = Some i /\ 0 < pid_ r) /\
  (0 < pid_ r -> 0 < fsync_interval_sec settings -> exists i, rec_flags r !! i = Some true) /\
  (last_crash_reason_ r <> "" <-> ended_unasked r).
Proof.
  cbv zeta. assert (rec_ok settings (rec_run settings ops)) as Hok.
  { unfold rec_run. generalize (new_recorder_ok settings). generalize new_recorder.
    induction ops as [|op ops IH]; intros r Hr; [done|]. simpl. by apply IH, step_ok. }
  destruct Hok as [Hacc Hint Hthr Hsync Hsynced Hbound Hreason _]. split_and!; try done.
  - intros i Hi. apply Hsync in Hi. symmetry in Hi. apply bool_decide_eq_true in Hi.
    split; [done|]. apply Hsynced. by eexists.
  - intros Hp Hf. destruct (proj2 Hsynced (conj Hp Hf)) as [i Hi]. exists i.
    destruct (lookup_lt_is_Some_2 (rec_flags (rec_run settings ops)) i (Hbound i Hi)) as [b Hb].
    rewrite Hb. apply Hsync in Hb. by rewrite Hb, Hi, bool_decide_eq_true_2.
Qed.

(** The disk is synced on time: while a recording runs, the first sync comes
    after one second and then one every interval, as long as its flag is set, and
    at no other time.  Turns are of 100 ms; [T] turns need at most [2 T + 1] steps. *)
Theorem sync_thread_on_time settings active T fuel :
  0 < fsync_interval_sec settings -> (forall n, (n < T)%nat -> active n = true) ->
  (2 * T + 1 < fuel)%nat ->
  let due k := (10 + k * Z.to_nat (fsync_interval_sec settings * 10))%nat in
  (forall k, (due k < T)%nat -> due k ∈ sync_thread settings fuel active) /\
  (forall t, t ∈ sync_thread settings fuel active -> active t = true /\ exists k, t = due k).
Proof.
  intros Hi Hact Hf due. unfold sync_thread.
  replace (Z.to_nat (Z.min (fsync_interval_sec settings) 1 * 10)) with 10%nat by lia. split.
  - intros k Hk. refine (sync_turns_complete settings active T _ Hact fuel 0 10 k _ Hk); [lia|].
    rewrite decide_False by done. lia.
  - intros t Ht. by apply sync_turns_sound in Ht.
Qed.

(** Four seconds of a recording with the default interval of three. *)
Lemma sync_thread_on_time_witness :
  let settings := default_recording in
  sync_thread settings 90 (fun n => Nat.ltb n 42) = [10; 40]%nat /\
  40%nat ∈ sync_thread settings 90 (fun n => Nat.ltb n 42).
Proof.
  intros settings. split; [reflexivity|].
  refine (proj1 (sync_thread_on_time settings (fun n => Nat.ltb n 42) 42 90 _ _ _) 1%nat _);
    [reflexivity|intros n Hn; by apply Nat.ltb_lt|lia|simpl; lia].
Defined.

(** The command of the default settings. *)
Example recorder_command_default :
  nth 13 (recorder_command default_recording (recording_path default_recording "20240102_030405")) "" =
    "location=/mnt/usb/rec_20240102_030405.ts" /\
  nth 3 (recorder_command default_recording "") "" = "port=5603".
Proof. split; reflexivity. Qed.
