(* ===== verification/Keepalive.v ===== *)
(** The keepalive thread of the companion server
    (CompanionUdpServer::udpProxyKeepaliveLoop in src/CompanionUdpServer.cpp).

    The thread sends one opaque byte, waits for the interval or for [stop], and
    starts again.  Times are milliseconds from its start.  [stop] clears the flag and
    notifies without holding the mutex of the wait, so that the wake-up may be lost:
    [woken] is when a wait under way notices the cleared flag, at the latest at its
    deadline.  A send that fails is only logged.

    The theorem: the datagrams go out on time until the stop and never after it, and
    the thread ends within one interval of the stop, woken up or not. *)

From S2P Require Import Prelude CompanionTypes.
Open Scope Z_scope.

Section Keepalive.
Context (settings : CompanionSettings).

(** When [running_] is cleared; [None]: never. *)
Context (stopped_at : option Z) (woken : Z -> Z).

Definition still_running (t : Z) : bool :=
  match stopped_at with Some s => t <? s | None => true end.

(** [wait_for] of the interval, with the cleared flag as its predicate; called at [t]. *)
Definition wait_ends (t : Z) : Z :=
  let deadline := t + udp_proxy_keepalive_ms settings in
  match stopped_at with
  | Some s => if deadline <? s then deadline else Z.max s (Z.min (woken t) deadline)
  | None => deadline
  end.

(** The times of the datagrams, and when the loop is left. *)
Fixpoint keepalive_loop (fuel : nat) (t : Z) : list Z * option Z :=
  match fuel with
  | O => ([], None)
  | S fuel =>
      if still_running t then
        let '(sends, ended) := keepalive_loop fuel (wait_ends t) in (t :: sends, ended)
      else ([], Some t)
  end.

(** [resolved]: getaddrinfo found the address to send to. *)
Definition udpProxyKeepaliveLoop (resolved : bool) (fuel : nat) : list Z * option Z :=
  if resolved then keepalive_loop fuel 0 else ([], Some 0).

Hypothesis interval_pos : 0 < udp_proxy_keepalive_ms settings.
Abbreviation ms := (udp_proxy_keepalive_ms settings).

Lemma never_stopped fuel k : stopped_at = None ->
  keepalive_loop fuel (Z.of_nat k * ms) = (map (fun i => Z.of_nat i * ms) (seq k fuel), None).
Proof using Type.
  intros E. revert k. induction fuel as [|fuel IH]; intros k; [done|]. simpl. unfold still_running at 1, wait_ends.
  rewrite E. replace (Z.of_nat k * ms + ms) with (Z.of_nat (S k) * ms) by lia. by rewrite IH.
Qed.

Lemma loop_until_stop s (k : Z) fuel t : stopped_at = Some s -> 0 <= k ->
  t = k * ms \/ s <= t <= k * ms -> (t < s -> s - t <= (Z.of_nat fuel - 1) * ms) -> (0 < fuel)%nat ->
  exists sends e, keepalive_loop fuel t = (sends, Some e) /\
    (t < s -> s <= e < s + ms) /\ (s <= t -> e = t) /\
    (forall u, u ∈ sends <-> exists j, k <= j /\ u = j * ms /\ u < s /\ t < s).
Proof using interval_pos.
  intros E. revert k t. induction fuel as [|fuel IH]; intros k t Hk Ht Hf H1; [lia|].
  cbn [keepalive_loop]. unfold still_running at 1. rewrite E. destruct (Z.ltb_spec t s) as [Hlt|Hge].
  - assert (t = k * ms) as -> by lia. assert (0 < fuel)%nat as Hf1 by nia.
    assert (wait_ends (k * ms) = (k + 1) * ms \/ s <= wait_ends (k * ms) <= (k + 1) * ms) as Hw
      by (unfold wait_ends; rewrite E; case_bool; lia).
    destruct (IH (k + 1) (wait_ends (k * ms))) as (sends & e & -> & He & He' & Hs); [lia|done|nia|done|].
    exists (k * ms :: sends), e. split; [done|]. split; [|split; [lia|]].
    + intros _. destruct (Z.lt_ge_cases (wait_ends (k * ms)) s); [by apply He|]. rewrite He' by done. nia.
    + intros u. rewrite elem_of_cons, Hs. split.
      * intros [->|(j & ? & ? & ? & ?)]; [exists k; lia|exists j; lia].
      * intros (j & ? & -> & ? & ?). destruct (Z.eq_dec j k) as [->|]; [by left|right]. exists j.
        split; [lia|]. split; [done|]. split; [done|].
        destruct Hw as [->|Hw]; nia.
  - exists [], t. split; [done|]. split; [lia|]. split; [done|]. intros u. split; [by intros ?%elem_of_nil|].
    intros (j & _ & _ & _ & ?). lia.
Qed.

(** C35. The keepalive.  While the server runs a datagram goes out at the start and
    then every interval; once it is stopped none does, and the thread, for which
    [stop] waits, ends less than one interval later, even if the wake-up is lost. *)
Theorem keepalive_on_time fuel :
  (stopped_at = None ->
   udpProxyKeepaliveLoop true fuel = (map (fun i => Z.of_nat i * ms) (seq 0 fuel), None)) /\
  (forall s, stopped_at = Some s -> 0 <= s -> s / ms + 2 < Z.of_nat fuel ->
   exists sends e, udpProxyKeepaliveLoop true fuel = (sends, Some e) /\ s <= e < s + ms /\
     forall t, t ∈ sends <-> exists k, 0 <= k /\ t = k * ms /\ t < s).
Proof using interval_pos.
  unfold udpProxyKeepaliveLoop. split; [intros E; by apply (never_stopped fuel 0)|]. intros s E Hs Hf.
  pose proof (Z.mul_succ_div_gt s ms interval_pos). pose proof (Z.div_pos s ms Hs interval_pos).
  destruct (loop_until_stop s 0 fuel 0) as (sends & e & -> & He & He' & Hsend); [done|lia|lia|nia|lia|].
  exists sends, e. split; [done|]. split.
  - destruct (Z.eq_dec s 0) as [->|]; [rewrite He' by lia; lia|]. apply He. lia.
  - intros t. rewrite Hsend. split; [intros (k & ? & ? & ? & _)|intros (k & ? & ? & ?)]; exists k; [done|].
    split_and!; try done. nia.
Qed.

End Keepalive.

(** Stopped after 12 s with the default interval of 5 s, and the wake-up lost. *)
Lemma keepalive_on_time_witness :
  udpProxyKeepaliveLoop default_companion (Some 12000) (fun t => t + 99999) true 9 = ([0; 5000; 10000], Some 15000) /\
  exists sends e,
    udpProxyKeepaliveLoop default_companion (Some 12000) (fun t => t + 99999) true 9 = (sends, Some e) /\
    12000 <= e < 12000 + 5000 /\ forall t, t ∈ sends <-> exists k, 0 <= k /\ t = k * 5000 /\ t < 12000.
Proof.
  split; [reflexivity|].
  exact (proj2 (keepalive_on_time default_companion (Some 12000) (fun t => t + 99999) ltac:(reflexivity) 9)
    12000 ltac:(reflexivity) ltac:(lia) ltac:(reflexivity)).
Defined.
