(* ===== verification/FlightMonitor.v ===== *)
(** [FlightMonitor] (src/FlightMonitor.cpp): vehicle identity, armed state and
    link state from HEARTBEAT messages.  Every operation returns the events it
    passes to the handler, in order, with the new state.

    The theorems: the arm events of one vehicle are the edges of its armed flag,
    link events alternate, and heartbeats of two sources hide every edge. *)

From S2P Require Import Prelude.

Inductive Event := VehicleDetected | VehicleArmed | VehicleDisarmed | LinkLost | LinkRestored.

#[global] Instance Event_eq_dec : EqDecision Event.
Proof. solve_decision. Defined.

Record Monitor := {
  armed_ : bool;
  vehicle_detected_ : bool;
  link_lost_ : bool;
  sysid_ : Z;
  compid_ : Z;
  vehicle_type_ : Z;
  autopilot_ : Z;
  first_heartbeat_ : bool;
}.

Definition new_monitor : Monitor :=
  {| armed_ := false; vehicle_detected_ := false; link_lost_ := false;
     sysid_ := 0; compid_ := 0; vehicle_type_ := 0; autopilot_ := 0; first_heartbeat_ := true |}.

(** Who sends a heartbeat: system, component, vehicle type, autopilot. *)
Record Identity := { i_sysid : Z; i_compid : Z; i_type : Z; i_autopilot : Z }.

#[global] Instance Identity_eq_dec : EqDecision Identity.
Proof. solve_decision. Defined.

Definition identity (m : Monitor) : Identity :=
  {| i_sysid := sysid_ m; i_compid := compid_ m; i_type := vehicle_type_ m; i_autopilot := autopilot_ m |}.

Definition adopt (i : Identity) (m : Monitor) : Monitor :=
  {| armed_ := armed_ m; vehicle_detected_ := true; link_lost_ := link_lost_ m;
     sysid_ := i_sysid i; compid_ := i_compid i; vehicle_type_ := i_type i;
     autopilot_ := i_autopilot i; first_heartbeat_ := true |}.

Definition set_link_lost (lost : bool) (m : Monitor) : Monitor :=
  {| armed_ := armed_ m; vehicle_detected_ := vehicle_detected_ m; link_lost_ := lost;
     sysid_ := sysid_ m; compid_ := compid_ m; vehicle_type_ := vehicle_type_ m;
     autopilot_ := autopilot_ m; first_heartbeat_ := first_heartbeat_ m |}.

Definition set_armed (armed : bool) (m : Monitor) : Monitor :=
  {| armed_ := armed; vehicle_detected_ := vehicle_detected_ m; link_lost_ := link_lost_ m;
     sysid_ := sysid_ m; compid_ := compid_ m; vehicle_type_ := vehicle_type_ m;
     autopilot_ := autopilot_ m; first_heartbeat_ := false |}.

Definition onHeartbeat (i : Identity) (armed : bool) (m : Monitor) : list Event * Monitor :=
  let identity_changed := vehicle_detected_ m && negb (bool_decide (identity m = i)) in
  let '(ev1, m) :=
    if negb (vehicle_detected_ m) || identity_changed
    then ([VehicleDetected], adopt i m) else ([], m) in
  let '(ev2, m) :=
    if link_lost_ m then ([LinkRestored], set_link_lost false m) else ([], m) in
  let '(ev3, m) :=
    if first_heartbeat_ m then ([], set_armed armed m)
    else if armed && negb (armed_ m) then ([VehicleArmed], set_armed true m)
    else if negb armed && armed_ m then ([VehicleDisarmed], set_armed false m)
    else ([], m) in
  (ev1 ++ ev2 ++ ev3, m).

Definition onLinkTimeout (m : Monitor) : list Event * Monitor :=
  if negb (link_lost_ m) then ([LinkLost], set_link_lost true m) else ([], m).

Definition onLinkRestored (m : Monitor) : list Event * Monitor :=
  if link_lost_ m then ([LinkRestored], set_link_lost false m) else ([], m).

(** * Sequences of calls *)

Inductive Call := Heartbeat (i : Identity) (armed : bool) | Timeout | Restored.

Definition step (c : Call) (m : Monitor) : list Event * Monitor :=
  match c with
  | Heartbeat i armed => onHeartbeat i armed m
  | Timeout => onLinkTimeout m
  | Restored => onLinkRestored m
  end.

Fixpoint steps (cs : list Call) (m : Monitor) : list Event * Monitor :=
  match cs with
  | [] => ([], m)
  | c :: cs' => let '(ev, m') := step c m in let '(evs, m'') := steps cs' m' in (ev ++ evs, m'')
  end.

Definition is_arm_event (e : Event) : Prop := e = VehicleArmed \/ e = VehicleDisarmed.
#[global] Instance is_arm_event_dec e : Decision (is_arm_event e).
Proof. unfold is_arm_event. apply _. Defined.

Definition is_link_event (e : Event) : Prop := e = LinkLost \/ e = LinkRestored.
#[global] Instance is_link_event_dec e : Decision (is_link_event e).
Proof. unfold is_link_event. apply _. Defined.

(** The armed flags of the heartbeats, in order. *)
Definition armed_flags (cs : list Call) : list bool :=
  omap (fun c => match c with Heartbeat _ a => Some a | _ => None end) cs.

(** The changes of a flag that starts as [b]. *)
Fixpoint edges (b : bool) (flags : list bool) : list Event :=
  match flags with
  | [] => []
  | a :: flags' =>
      (if Bool.eqb a b then [] else [if a then VehicleArmed else VehicleDisarmed]) ++ edges a flags'
  end.

(** Lost and restored in turn, beginning with a loss unless the link is down. *)
Fixpoint alternating (lost : bool) (evs : list Event) : Prop :=
  match evs with
  | [] => True
  | e :: evs' => e = (if lost then LinkRestored else LinkLost) /\ alternating (negb lost) evs'
  end.

Definition from (i : Identity) (c : Call) : Prop :=
  match c with Heartbeat j _ => j = i | _ => True end.

Section Sequences.
Lemma steps_cons c cs m :
  steps (c :: cs) m =
    ((step c m).1 ++ (steps cs (step c m).2).1, (steps cs (step c m).2).2).
Proof. simpl. destruct (step c m) as [ev m']. simpl. by destruct (steps cs m'). Qed.

(** One call of a detected vehicle past its first heartbeat. *)
Lemma step_arm i c m : from i c -> identity m = i -> vehicle_detected_ m = true ->
  first_heartbeat_ m = false ->
  let '(ev, m') := step c m in
  filter is_arm_event ev = edges (armed_ m) (armed_flags [c]) /\
  identity m' = i /\ vehicle_detected_ m' = true /\ first_heartbeat_ m' = false /\
  armed_ m' = match c with Heartbeat _ a => a | _ => armed_ m end.
Proof.
  intros Hc Hi Hd Hf. destruct m as [a d l sy co ty au f]. simpl in *. subst d f.
  destruct c as [j b| |]; simpl in Hc; [subst j|..].
  - unfold step, onHeartbeat. rewrite <- Hi. simpl. rewrite bool_decide_eq_true_2 by done. simpl.
    by destruct l, a, b.
  - unfold step, onLinkTimeout. by destruct l.
  - unfold step, onLinkRestored. by destruct l.
Qed.

Lemma steps_arm i cs : forall m, Forall (from i) cs -> identity m = i ->
  vehicle_detected_ m = true -> first_heartbeat_ m = false ->
  filter is_arm_event (steps cs m).1 = edges (armed_ m) (armed_flags cs).
Proof.
  induction cs as [|c cs IH]; intros m Hcs Hi Hd Hf; [done|].
  apply Forall_cons in Hcs as [Hc Hcs]. rewrite steps_cons.
  pose proof (step_arm i c m Hc Hi Hd Hf) as Hs. destruct (step c m) as [ev m'].
  destruct Hs as (He & Hi' & Hd' & Hf' & Ha'). simpl. rewrite filter_app, He, IH by done. rewrite Ha'.
  destruct c; [|done..]. unfold armed_flags. simpl. by rewrite app_nil_r.
Qed.

Lemma step_link c m :
  match filter is_link_event (step c m).1 with
  | [] => link_lost_ (step c m).2 = link_lost_ m
  | [e] => e = (if link_lost_ m then LinkRestored else LinkLost) /\
           link_lost_ (step c m).2 = negb (link_lost_ m)
  | _ => False
  end.
Proof.
  destruct m as [a d l sy co ty au f], c as [i b| |]; unfold step.
  - unfold onHeartbeat. destruct (bool_decide _), d, l, f, a, b; by simpl.
  - unfold onLinkTimeout. by destruct l.
  - unfold onLinkRestored. by destruct l.
Qed.
End Sequences.

(** C38. For one vehicle, whatever the link does in between, the arm and disarm
    events are exactly the edges of the armed flag of its heartbeats, counted
    from the first one. *)
Theorem arm_events_are_edges (i : Identity) (a : bool) (cs : list Call) :
  Forall (from i) cs ->
  filter is_arm_event (steps (Heartbeat i a :: cs) new_monitor).1 = edges a (armed_flags cs).
Proof.
  intros Hcs. rewrite steps_cons. cbn [fst]. rewrite filter_app.
  change (filter is_arm_event (step (Heartbeat i a) new_monitor).1) with (@nil Event).
  apply (steps_arm i cs); [done|by destruct i|done..].
Qed.

Definition quad : Identity := {| i_sysid := 1; i_compid := 1; i_type := 2; i_autopilot := 3 |}.
Definition ground : Identity := {| i_sysid := 255; i_compid := 190; i_type := 6; i_autopilot := 8 |}.

Lemma arm_events_are_edges_witness :
  filter is_arm_event (steps (Heartbeat quad false ::
     [Heartbeat quad true; Timeout; Heartbeat quad true; Heartbeat quad false]) new_monitor).1 =
    edges false (armed_flags [Heartbeat quad true; Timeout; Heartbeat quad true; Heartbeat quad false]).
Proof. apply (arm_events_are_edges quad false). repeat constructor. Defined.

(** [LinkLost] and [LinkRestored] alternate, over any calls. *)
Theorem link_events_alternate (cs : list Call) (m : Monitor) :
  alternating (link_lost_ m) (filter is_link_event (steps cs m).1).
Proof.
  revert m. induction cs as [|c cs IH]; intros m; [done|].
  rewrite steps_cons. cbn [fst]. rewrite filter_app. pose proof (step_link c m) as Hs.
  specialize (IH (step c m).2).
  destruct (filter is_link_event (step c m).1) as [|e [|]]; [by rewrite Hs in IH| |done].
  destruct Hs as [-> Hl]. rewrite Hl in IH. by split.
Qed.

(** When two sources send heartbeats in turn (a ground station beside the
    vehicle), no arm or disarm event is ever raised: each heartbeat changes the
    identity and is taken as a first one. *)
Theorem interleaved_sources_hide_arming (i j : Identity) (flags : list (bool * bool)) :
  i <> j ->
  filter is_arm_event
    (steps (mjoin ((fun ab => [Heartbeat i ab.1; Heartbeat j ab.2]) <$> flags)) new_monitor).1 = [].
Proof.
  intros Hij.
  enough (forall m, vehicle_detected_ m = false \/ identity m = j ->
    filter is_arm_event
      (steps (mjoin ((fun ab => [Heartbeat i ab.1; Heartbeat j ab.2]) <$> flags)) m).1 = []) as H
    by (apply H; by left).
  induction flags as [|[a b] flags IH]; intros m Hm; [done|].
  assert (forall x y (c : bool) m, x <> y -> vehicle_detected_ m = false \/ identity m = y ->
    filter is_arm_event (step (Heartbeat x c) m).1 = [] /\ identity (step (Heartbeat x c) m).2 = x)
    as Hstep.
  { clear. intros [] y c [a d l sy co ty au f] Hne Hd. unfold step, onHeartbeat. simpl in Hd |- *.
    destruct d; simpl.
    - destruct Hd as [|Hd]; [done|]. unfold identity. simpl. unfold identity in Hd. simpl in Hd.
      rewrite bool_decide_eq_false_2 by congruence. simpl. by destruct l.
    - by destruct l. }
  destruct (Hstep i j a m Hij Hm) as [He Hi].
  destruct (Hstep j i b (step (Heartbeat i a) m).2) as [He' Hj]; [congruence|by right|].
  assert (mjoin ((fun ab => [Heartbeat i ab.1; Heartbeat j ab.2]) <$> (a, b) :: flags) =
    Heartbeat i a :: Heartbeat j b ::
      mjoin ((fun ab => [Heartbeat i ab.1; Heartbeat j ab.2]) <$> flags)) as -> by done.
  rewrite !steps_cons. cbn [fst snd]. rewrite !filter_app, He, He'. simpl. apply IH. by right.
Qed.

Lemma interleaved_sources_hide_arming_witness :
  filter is_arm_event
    (steps (mjoin ((fun ab => [Heartbeat quad ab.1; Heartbeat ground ab.2]) <$>
       [(false, false); (true, false); (false, false)])) new_monitor).1 = [].
Proof. apply interleaved_sources_hide_arming. done. Defined.
