(* ===== verification/Database.v ===== *)
(** [Database] (src/Database.cpp): the catalog of archived logs, keyed by the
    SHA-256 of the log, and the table of statistics.

    SQLite is not part of the repository: the tables are finite maps, with the
    meaning of the statements the code executes ([INSERT OR REPLACE] on the
    primary key, [UPDATE] of every row), and the row a [LIMIT 1] query without
    [ORDER BY] returns is left to the class [RowChoice].  The calls one by one, with
    the errors they throw, are in [Sqlite]. *)

From S2P Require Import Prelude Types.

(** A row of [archived_logs], without its primary key. *)
Record Row := {
  row_log_id : Z;
  row_log_size : Z;
  row_log_time_utc : Z;
  row_probe_sha256 : string;
  row_probe_bytes : Z;
  row_archive_time : Z;
  row_duration_ms : Z;
  row_filename : string;
  row_erased : bool;
}.

Record Database := {
  archived_logs : gmap string Row;
  statistics : gmap string Z;
}.

Definition empty_database : Database := {| archived_logs := ∅; statistics := ∅ |}.

(** The row that [SELECT .. LIMIT 1] returns of the matching rows: one of them,
    if there is one. *)
Class RowChoice := {
  choose_row : list (string * Row) -> option (string * Row);
  choose_row_spec : forall rows,
    match choose_row rows with Some kr => kr ∈ rows | None => rows = [] end;
}.

Definition matches (fc_log_id fc_log_size : Z) (kr : string * Row) : Prop :=
  row_log_id kr.2 = fc_log_id /\ row_log_size kr.2 = fc_log_size.

#[global] Instance matches_dec id size kr : Decision (matches id size kr).
Proof. unfold matches. apply _. Defined.

Section Operations.
Context `{RowChoice}.

Definition candidate_of (kr : string * Row) : ArchivedLogCandidate :=
  {| ca_sha256 := kr.1; ca_probe_sha256 := row_probe_sha256 kr.2;
     ca_probe_bytes := row_probe_bytes kr.2; ca_filename := row_filename kr.2 |}.

Definition findCandidate (fc_log_id fc_log_size : Z) (db : Database) : option ArchivedLogCandidate :=
  candidate_of <$>
    choose_row (filter (matches fc_log_id fc_log_size) (map_to_list (archived_logs db))).

Definition hasArchived (fc_log_id fc_log_size : Z) (db : Database) : bool :=
  match findCandidate fc_log_id fc_log_size db with Some _ => true | None => false end.

Definition insertArchivedLog (sha256 : string) (fc_log_id fc_log_size fc_log_time_utc : Z)
    (probe_sha256 : string) (probe_bytes archive_time archive_duration_ms : Z)
    (filename : string) (db : Database) : Database :=
  {| archived_logs :=
       <[sha256 :=
           {| row_log_id := fc_log_id; row_log_size := fc_log_size;
              row_log_time_utc := fc_log_time_utc; row_probe_sha256 := probe_sha256;
              row_probe_bytes := probe_bytes; row_archive_time := archive_time;
              row_duration_ms := archive_duration_ms; row_filename := filename;
              row_erased := false |}]> (archived_logs db);
     statistics := statistics db |}.

Definition erase_row (r : Row) : Row :=
  {| row_log_id := row_log_id r; row_log_size := row_log_size r;
     row_log_time_utc := row_log_time_utc r; row_probe_sha256 := row_probe_sha256 r;
     row_probe_bytes := row_probe_bytes r; row_archive_time := row_archive_time r;
     row_duration_ms := row_duration_ms r; row_filename := row_filename r; row_erased := true |}.

Definition markAllErased (db : Database) : Database :=
  {| archived_logs := erase_row <$> archived_logs db; statistics := statistics db |}.

Definition getStat (key : string) (db : Database) : Z := default 0 (statistics db !! key).

Definition setStat (key : string) (value : Z) (db : Database) : Database :=
  {| archived_logs := archived_logs db; statistics := <[key := value]> (statistics db) |}.

Definition incrementStat (key : string) (delta : Z) (db : Database) : Database :=
  setStat key (getStat key db + delta) db.
End Operations.

Section Lemmas.
Context `{RowChoice}.

Lemma hasArchived_spec id size db :
  hasArchived id size db = true <->
  exists key row, archived_logs db !! key = Some row /\ row_log_id row = id /\ row_log_size row = size.
Proof.
  unfold hasArchived, findCandidate.
  pose proof (choose_row_spec (filter (matches id size) (map_to_list (archived_logs db)))) as Hc.
  destruct (choose_row _) as [[key row]|]; simpl; split; try done.
  - intros _. apply list_elem_of_filter in Hc as [[Hi Hs] Hin%elem_of_map_to_list]. eauto.
  - intros (key & row & Hrow & Hi & Hs). exfalso.
    assert ((key, row) ∈ filter (matches id size) (map_to_list (archived_logs db))) as Hin
      by (apply list_elem_of_filter; split; [done|by apply elem_of_map_to_list]).
    rewrite Hc in Hin. by apply not_elem_of_nil in Hin.
Qed.

Lemma findCandidate_row id size db c : findCandidate id size db = Some c ->
  exists row, archived_logs db !! ca_sha256 c = Some row /\ row_log_id row = id /\
    row_log_size row = size /\ c = candidate_of (ca_sha256 c, row).
Proof.
  unfold findCandidate.
  pose proof (choose_row_spec (filter (matches id size) (map_to_list (archived_logs db)))) as Hc.
  destruct (choose_row _) as [[key row]|]; [|done]. intros [= <-].
  apply list_elem_of_filter in Hc as [[Hi Hs] Hin%elem_of_map_to_list]. exists row. by split_and!.
Qed.

Lemma getStat_set key key' v db :
  getStat key' (setStat key v db) = if decide (key = key') then v else getStat key' db.
Proof.
  unfold getStat, setStat. simpl. case_decide as E.
  - subst. by rewrite lookup_insert_eq.
  - by rewrite lookup_insert_ne.
Qed.
End Lemmas.
#[export] Hint Rewrite @getStat_set : mcls.

(** The first row of the listing. *)
#[global, refine] Instance FirstRow : RowChoice := { choose_row := head }.
Proof. intros [|kr rows]; [done|]. left. Defined.

(** After archiving a log, the catalog has it; and it has another log exactly
    when it had it under another digest: a log whose bytes were archived before
    under a different number or size replaces that entry. *)
Theorem catalog_insert `{RowChoice} sha id size utc probe n time ms name db id' size' :
  hasArchived id' size' (insertArchivedLog sha id size utc probe n time ms name db) = true <->
  (id' = id /\ size' = size) \/
  (exists key row, key <> sha /\ archived_logs db !! key = Some row /\
                   row_log_id row = id' /\ row_log_size row = size').
Proof.
  rewrite hasArchived_spec. unfold insertArchivedLog. cbn [archived_logs]. split.
  - intros (key & row & Hrow & Hi & Hs). destruct (decide (sha = key)) as [->|Hne].
    + rewrite lookup_insert_eq in Hrow. injection Hrow as <-. left. simpl in *. by subst.
    + rewrite lookup_insert_ne in Hrow by done. right. exists key, row. by split_and!.
  - intros [[-> ->]|(key & row & Hne & Hrow & Hi & Hs)].
    + eexists sha, _. rewrite lookup_insert_eq. by split_and!.
    + exists key, row. by rewrite lookup_insert_ne.
Qed.

(** Erasing the flight controller's logs marks every row and forgets none:
    the same logs count as archived. *)
Theorem markAllErased_keeps `{RowChoice} id size db :
  hasArchived id size (markAllErased db) = hasArchived id size db /\
  (forall key row, archived_logs (markAllErased db) !! key = Some row -> row_erased row = true).
Proof.
  split.
  - apply eq_bool_prop_intro. unfold markAllErased. split; intros Ht%Is_true_true;
      apply Is_true_true, hasArchived_spec; apply hasArchived_spec in Ht as (key & row & Hrow & Hi & Hs);
      simpl in *.
    + rewrite lookup_fmap in Hrow. apply fmap_Some in Hrow as (row' & Hrow & ->). by exists key, row'.
    + exists key, (erase_row row). by rewrite lookup_fmap, Hrow.
  - unfold markAllErased. simpl. intros key row Hrow. rewrite lookup_fmap in Hrow.
    by apply fmap_Some in Hrow as (row' & _ & ->).
Qed.
