(* ===== verification/Storage.v ===== *)
(** [StorageManager] (src/StorageManager.cpp): the archive directory, with its
    partial and finished files, and the eviction of the oldest archives.

    The file system is a finite map from paths to regular files; directories
    are implicit.  The clock and the local-time formatting of
    [timestampFilename] are arguments, the outcomes of open, fsync and rename are
    inputs of [finalizePartial].  Logging is left out. *)

From S2P Require Import Prelude Types.
From Stdlib Require Import Sorting.Sorted.
From stdpp Require Import pretty.
Open Scope Z_scope.

Definition path := list string.

Record Node := { n_bytes : list Z; n_mtime : Z }.

Abbreviation FileSystem := (gmap path Node).

(** [path::extension]: from the last dot of the file name, unless the name
    starts with it. *)
Fixpoint last_dot (i : nat) (s : list ascii) : option nat :=
  match s with
  | [] => None
  | c :: s' =>
      match last_dot (S i) s' with
      | Some j => Some j
      | None => if Ascii.eqb c "."%char then Some i else None
      end
  end.

Definition extension (p : path) : string :=
  let name := list_ascii_of_string (default "" (last p)) in
  match last_dot 0 name with
  | Some (S i) => string_of_list_ascii (drop (S i) name)
  | _ => ""
  end.

(** [dir] is a proper prefix of [p]. *)
Fixpoint under (dir p : path) : bool :=
  match dir, p with
  | [], _ :: _ => true
  | d :: dir', c :: p' => String.eqb d c && under dir' p'
  | _, _ => false
  end.

(** [child dir p]: [p] is a direct entry of [dir]. *)
Definition child (dir p : path) : bool := under dir p && (length p =? S (length dir))%nat.

Record Storage := {
  st_root : path;
  st_max_size_gb : Z;
  st_fs : FileSystem;
  st_partial_counter : Z;
}.

Definition logs_dir (s : Storage) : path := st_root s ++ ["logs"].
Definition tmp_dir (s : Storage) : path := st_root s ++ ["tmp"].

Definition with_fs (fs : FileSystem) (s : Storage) : Storage :=
  {| st_root := st_root s; st_max_size_gb := st_max_size_gb s; st_fs := fs;
     st_partial_counter := st_partial_counter s |}.

Definition cleanupPartials (s : Storage) : Storage :=
  with_fs (filter (fun kv => ~ (child (tmp_dir s) kv.1 = true /\ extension kv.1 = ".partial"%string))
             (st_fs s)) s.

(** An archive: a regular [.bin] file below the logs directory. *)
Definition is_archive (s : Storage) (p : path) : bool :=
  under (logs_dir s) p && String.eqb (extension p) ".bin".

Definition n_size (n : Node) : Z := zlen (n_bytes n).

(** The archives in the order the directory iterator visits them. *)
Definition verified (s : Storage) : list (path * Node) :=
  filter (fun kv => is_archive s kv.1 = true) (map_to_list (st_fs s)).

Definition total_size (files : list (path * Node)) : Z :=
  foldl (fun total kv => u64 (total + n_size kv.2)) 0 files.

Definition totalVerifiedBytes (s : Storage) : Z := total_size (verified s).

Definition max_bytes (s : Storage) : Z :=
  u64 (u64 (u64 (u64 (st_max_size_gb s) * 1024) * 1024) * 1024).

Definition mtime_leb (a b : path * Node) : bool := n_mtime a.2 <=? n_mtime b.2.

(** The eviction loop over the archives, oldest first. *)
Fixpoint evict (limit total : Z) (files : list (path * Node)) (fs : FileSystem) : FileSystem :=
  match files with
  | [] => fs
  | kv :: files' =>
      if total <=? limit then fs
      else evict limit (u64 (total - n_size kv.2)) files' (delete kv.1 fs)
  end.

Definition enforceStorageLimit (s : Storage) : Storage :=
  let total := total_size (verified s) in
  if total <=? max_bytes s then s
  else with_fs (evict (max_bytes s) total (sort_list mtime_leb (verified s)) (st_fs s)) s.

Section Naming.
(** [std::put_time] of the local time of a time point, in seconds. *)
Context (put_time : string -> Z -> string).

Definition timestampFilename (now : Z) : string := put_time "%Y-%m-%d_%H-%M-%S" now.

(** The day directory: the local date at the start of the UTC day. *)
Definition day_dir (now : Z) : string := put_time "%Y-%m-%d" (now / 86400 * 86400).

Definition beginPartialFile (now : Z) (s : Storage) : path * Storage :=
  let counter := st_partial_counter s + 1 in
  (tmp_dir s ++ [(timestampFilename now ++ "_part" ++ pretty counter ++ ".bin.partial")%string],
   {| st_root := st_root s; st_max_size_gb := st_max_size_gb s; st_fs := st_fs s;
      st_partial_counter := counter |}).

Record FinalizeResult := { final_path : path; archive_duration_ms : Z }.

Definition final_path_at (now : Z) (s : Storage) : path :=
  logs_dir s ++ [day_dir now; (timestampFilename now ++ ".bin")%string].

(** [fsyncFile], of the descriptor [open] returns and the result of [fsync]. *)
Definition fsyncFile (fd rc : Z) : bool := if fd <? 0 then false else rc =? 0.

(** [fsyncParentDir], of the directory. *)
Definition fsyncParentDir (fd rc : Z) : bool := if fd <? 0 then false else rc =? 0.

(** [finalizePartial]: [now] is the wall clock in seconds, [elapsed_ns] the
    steady time since [download_start].  That the directory could not be synced is
    only logged. *)
Definition finalizePartial (partial : path) (now elapsed_ns : Z) (fd rc : Z) (rename_ok : bool)
    (s : Storage) : option FinalizeResult * Storage :=
  match st_fs s !! partial with
  | None => (None, s)
  | Some node =>
      if negb (fsyncFile fd rc) then (None, s)
      else if negb rename_ok then (None, s)
      else
        let dest := final_path_at now s in
        let fs := <[dest := node]> (delete partial (st_fs s)) in
        match fs !! dest with
        | None => (None, with_fs fs s)
        | Some _ =>
            (Some {| final_path := dest; archive_duration_ms := Z.quot elapsed_ns 1000000 |},
             with_fs fs s)
        end
  end.
End Naming.

(** * Eviction *)

Definition sum_sizes (files : list (path * Node)) : Z :=
  foldr (fun kv n => n_size kv.2 + n) 0 files.

Section Eviction.
Lemma n_size_nonneg n : 0 <= n_size n.
Proof. apply zlen_nonneg. Qed.

Lemma sum_sizes_nonneg files : 0 <= sum_sizes files.
Proof. induction files as [|kv files IH]; simpl; [lia|]. pose proof (n_size_nonneg kv.2). lia. Qed.

#[export] Instance sum_sizes_proper : Proper ((≡ₚ) ==> eq) sum_sizes.
Proof. intros l l' Hp. induction Hp; simpl; lia. Qed.

(** The uint64 sum does not wrap below 2^64 bytes. *)
Lemma total_size_sum files : sum_sizes files < 2 ^ 64 -> total_size files = sum_sizes files.
Proof.
  unfold total_size. intros Hlt.
  enough (forall acc, 0 <= acc -> acc + sum_sizes files < 2 ^ 64 ->
    foldl (fun total kv => u64 (total + n_size kv.2)) acc files = acc + sum_sizes files) as Hgen
    by (rewrite Hgen; lia).
  clear Hlt. induction files as [|kv files IH]; intros acc Ha Hb; simpl in *; [lia|].
  pose proof (n_size_nonneg kv.2). pose proof (sum_sizes_nonneg files).
  rewrite u64_small by lia. rewrite IH; lia.
Qed.

Definition remove_files (files : list (path * Node)) (fs : FileSystem) : FileSystem :=
  foldl (fun m kv => delete kv.1 m) fs files.

Lemma lookup_remove_files files : forall fs p,
  remove_files files fs !! p = if decide (p ∈ files.*1) then None else fs !! p.
Proof.
  unfold remove_files. induction files as [|[q n] files IH]; intros fs p; [done|].
  cbn [foldl fst]. rewrite IH. cbn [fmap list_fmap fst].
  destruct (decide (p ∈ files.*1)) as [Hin|Hin].
  - rewrite decide_True by (by right). done.
  - destruct (decide (p = q)) as [->|Hne].
    + rewrite lookup_delete_eq, decide_True by left. done.
    + rewrite lookup_delete_ne by done. rewrite decide_False; [done|].
      intros [->|?]%elem_of_cons; done.
Qed.

(** The loop removes a prefix: the shortest whose removal meets the limit. *)
Lemma evict_prefix limit files : forall fs, 0 <= limit -> sum_sizes files < 2 ^ 64 ->
  exists k, (k <= length files)%nat /\
    evict limit (sum_sizes files) files fs = remove_files (take k files) fs /\
    sum_sizes (drop k files) <= limit /\
    (forall j, k = S j -> limit < sum_sizes (drop j files)).
Proof.
  induction files as [|kv files IH]; intros fs Hl Hlt; cbn [evict].
  - exists 0%nat. by split_and!.
  - destruct (Z.leb_spec (sum_sizes (kv :: files)) limit).
    + exists 0%nat. split_and!; [simpl; lia|done|done|done].
    + simpl in Hlt. pose proof (n_size_nonneg kv.2). pose proof (sum_sizes_nonneg files).
      cbn [sum_sizes foldr]. replace (_ - n_size kv.2) with (sum_sizes files) by (unfold sum_sizes; lia).
      rewrite u64_small by lia.
      destruct (IH (delete kv.1 fs) Hl) as (k & Hk & Hev & Hs & Hm); [lia|].
      exists (S k). split_and!; [simpl; lia|done|done|].
      intros j [= <-]. destruct k as [|k]; [done|]. cbn [drop]. by apply Hm.
Qed.

Lemma mtime_sorted files : StronglySorted (fun a b => n_mtime a.2 <= n_mtime b.2)
  (sort_list mtime_leb files).
Proof.
  assert (StronglySorted (fun a b => mtime_leb a b = true) (sort_list mtime_leb files)) as Hs.
  { apply sort_list_sorted; unfold mtime_leb; intros; zb; lia. }
  induction Hs as [|a l Hs IH Hall]; constructor; [done|].
  eapply Forall_impl; [exact Hall|]. unfold mtime_leb. intros b ?. by zb.
Qed.

Lemma sorted_split {A} (R : A -> A -> Prop) l k a b :
  StronglySorted R l -> a ∈ take k l -> b ∈ drop k l -> R a b.
Proof.
  intros Hs. revert k. induction Hs as [|x l Hs IH Hall]; intros k Ha Hb.
  - rewrite take_nil in Ha. by apply not_elem_of_nil in Ha.
  - destruct k as [|k]; [by apply not_elem_of_nil in Ha|]. simpl in Ha, Hb.
    apply elem_of_cons in Ha as [->|Ha]; [|by eapply IH].
    rewrite Forall_forall in Hall. apply Hall. by eapply in_drop.
Qed.

Lemma verified_spec s kv :
  kv ∈ verified s <-> is_archive s kv.1 = true /\ st_fs s !! kv.1 = Some kv.2.
Proof.
  unfold verified. rewrite list_elem_of_filter. destruct kv as [p n]. simpl.
  by rewrite elem_of_map_to_list.
Qed.

Lemma verified_nodup s : NoDup (verified s).*1.
Proof.
  unfold verified. apply (sublist_NoDup _ (map_to_list (st_fs s)).*1);
    [apply NoDup_fst_map_to_list|apply fmap_sublist, sublist_filter].
Qed.

(** What is left after a prefix of the archives is removed. *)
Lemma verified_removed s files k : files ≡ₚ verified s ->
  verified (with_fs (remove_files (take k files) (st_fs s)) s) ≡ₚ drop k files.
Proof.
  intros Hp. pose proof (verified_nodup s) as Hnd. rewrite <- Hp in Hnd.
  assert (NoDup (take k files ++ drop k files).*1) as Hnd' by (by rewrite take_drop).
  rewrite fmap_app in Hnd'. apply NoDup_app in Hnd' as (_ & Hdis & Hnd2).
  apply NoDup_Permutation.
  - eapply NoDup_fmap_1, verified_nodup.
  - by eapply NoDup_fmap_1.
  - intros kv. rewrite verified_spec. cbn [st_fs with_fs]. unfold is_archive, logs_dir. simpl st_root.
    fold (logs_dir s). fold (is_archive s kv.1). rewrite lookup_remove_files. split.
    + intros [Ha Hl]. case_decide as Hin; [done|].
      assert (kv ∈ take k files ++ drop k files) as Hkv.
      { rewrite take_drop, Hp. by apply verified_spec. }
      apply elem_of_app in Hkv as [Hkv|]; [|done]. exfalso. by apply Hin, list_elem_of_fmap_2.
    + intros Hkv. assert (kv ∈ verified s) as Hv by (rewrite <- Hp; by eapply in_drop).
      apply verified_spec in Hv as [Ha Hl]. split; [done|]. rewrite decide_False; [done|].
      intros Hin. apply (Hdis _ Hin). by apply list_elem_of_fmap_2.
Qed.

(** The files removed by [enforceStorageLimit]: a prefix of the archives, oldest first. *)
Lemma enforce_prefix s : sum_sizes (verified s) < 2 ^ 64 ->
  let files := sort_list mtime_leb (verified s) in
  exists k, enforceStorageLimit s = with_fs (remove_files (take k files) (st_fs s)) s /\
    sum_sizes (drop k files) <= max_bytes s /\
    (forall j, k = S j -> max_bytes s < sum_sizes (drop j files)).
Proof.
  intros Hlt files. assert (files ≡ₚ verified s) as Hp by apply sort_list_perm.
  unfold enforceStorageLimit. rewrite (total_size_sum (verified s)) by done.
  destruct (Z.leb_spec (sum_sizes (verified s)) (max_bytes s)).
  - exists 0%nat. split; [by destruct s|]. split; [by rewrite drop_0, Hp|done].
  - destruct (evict_prefix (max_bytes s) files (st_fs s)) as (k & _ & Hev & Hs & Hm);
      [unfold max_bytes; apply u64_range|by rewrite Hp|].
    replace (sum_sizes (verified s)) with (sum_sizes files) by (by rewrite Hp).
    fold files. rewrite Hev. by exists k.
Qed.
End Eviction.

(** A partial file is never an archive. *)
Section Separation.
Lemma under_app root a b : under (root ++ a) (root ++ b) = under a b.
Proof. induction root as [|c root IH]; simpl; [done|]. by rewrite String.eqb_refl. Qed.

Lemma partial_not_under s name : under (logs_dir s) (tmp_dir s ++ [name]) = false.
Proof. unfold logs_dir, tmp_dir. by rewrite <- app_assoc, under_app. Qed.

Lemma archive_under s q : is_archive s q = true -> under (logs_dir s) q = true.
Proof. by intros [? _]%andb_true_iff. Qed.

Lemma final_path_under put_time now s : under (logs_dir s) (final_path_at put_time now s) = true.
Proof.
  unfold final_path_at. rewrite <- (app_nil_r (logs_dir s)) at 1. by rewrite under_app.
Qed.
End Separation.

(** * Properties *)

(** C25. Enforcing the storage limit brings the archives under it, and deletes
    nothing but archives, oldest first, and no more than needed: without the last
    file deleted the archives were still over the limit. *)
Theorem enforceStorageLimit_correct (s : Storage) :
  sum_sizes (verified s) < 2 ^ 64 ->
  let s' := enforceStorageLimit s in
  let deleted p n := st_fs s !! p = Some n /\ st_fs s' !! p = None in
  totalVerifiedBytes s' <= max_bytes s /\
  (forall p n, st_fs s' !! p = Some n -> st_fs s !! p = Some n) /\
  (forall p n, deleted p n -> is_archive s p = true) /\
  (forall p n q m, deleted p n -> is_archive s q = true -> st_fs s' !! q = Some m ->
     n_mtime n <= n_mtime m) /\
  (forall p n, deleted p n ->
     exists p' n', deleted p' n' /\ max_bytes s < totalVerifiedBytes s' + n_size n').
Proof.
  intros Hlt. destruct (enforce_prefix s Hlt) as (k & -> & Hs & Hm).
  set (files := sort_list mtime_leb (verified s)) in *.
  assert (files ≡ₚ verified s) as Hp by apply sort_list_perm.
  pose proof (verified_removed s files k Hp) as Hv.
  pose proof (sum_sizes_nonneg (take k files)) as H0.
  assert (totalVerifiedBytes (with_fs (remove_files (take k files) (st_fs s)) s) =
          sum_sizes (drop k files)) as Ht.
  { unfold totalVerifiedBytes. rewrite total_size_sum, Hv; [done|]. rewrite Hv.
    pose proof (u64_range (u64 (u64 (u64 (st_max_size_gb s) * 1024) * 1024) * 1024)).
    unfold max_bytes in Hs. lia. }
  cbv zeta. rewrite Ht. cbn [st_fs with_fs].
  assert (forall p n, st_fs s !! p = Some n /\
    remove_files (take k files) (st_fs s) !! p = None -> (p, n) ∈ take k files) as Hdel.
  { intros p n [Hn Hr]. rewrite lookup_remove_files in Hr. case_decide as Hin; [|congruence].
    apply list_elem_of_fmap in Hin as ([q m] & -> & Hin). cbn [fst] in *.
    assert ((q, m) ∈ verified s) as Hq by (rewrite <- Hp; by eapply in_take).
    apply verified_spec in Hq as [_ Hq]. simpl in Hq. congruence. }
  split; [done|]. split; [|split; [|split]].
  - intros p n. rewrite lookup_remove_files. by case_decide.
  - intros p n Hd%Hdel. apply in_take in Hd. rewrite Hp in Hd.
    by apply verified_spec in Hd as [? _].
  - intros p n q m Hd%Hdel Ha Hq.
    assert ((q, m) ∈ drop k files) as Hkeep.
    { rewrite <- Hv. apply verified_spec. by split. }
    apply (sorted_split _ _ k (p, n) (q, m) (mtime_sorted (verified s))); done.
  - intros p n Hd%Hdel. destruct k as [|j]; [by apply not_elem_of_nil in Hd|].
    specialize (Hm j eq_refl). destruct (drop j files) as [|[p' n'] rest] eqn:Hdrop.
    + simpl in Hm. unfold max_bytes in Hm.
      pose proof (u64_range (u64 (u64 (u64 (st_max_size_gb s) * 1024) * 1024) * 1024)). lia.
    + assert (files !! j = Some (p', n')) as Hj by (by rewrite <- (Nat.add_0_r j), <- lookup_drop, Hdrop).
      exists p', n'. erewrite take_S_r in Hd |- * by exact Hj.
      assert ((p', n') ∈ verified s) as Hin by (rewrite <- Hp; by eapply list_elem_of_lookup_2).
      apply verified_spec in Hin as [_ Hin]. split; [split; [done|]|].
      * rewrite lookup_remove_files, decide_True; [done|]. rewrite fmap_app. apply elem_of_app. right. left.
      * assert (drop (S j) files = rest) as ->.
        { rewrite <- Nat.add_1_r, <- drop_drop, Hdrop. done. }
        simpl in Hm. unfold sum_sizes at 1. unfold sum_sizes in Hm. lia.
Qed.

Definition sample_storage : Storage :=
  {| st_root := ["var"]; st_max_size_gb := 0;
     st_fs := <[["var"; "logs"; "2024-01-01"; "a.bin"] := {| n_bytes := [1; 2]; n_mtime := 7 |}]>
             (<[["var"; "tmp"; "b.bin.partial"] := {| n_bytes := [3]; n_mtime := 8 |}]> ∅);
     st_partial_counter := 0 |}%string.

Lemma enforceStorageLimit_correct_witness :
  let s' := enforceStorageLimit sample_storage in
  let deleted p n := st_fs sample_storage !! p = Some n /\ st_fs s' !! p = None in
  totalVerifiedBytes s' <= max_bytes sample_storage /\
  (forall p n, st_fs s' !! p = Some n -> st_fs sample_storage !! p = Some n) /\
  (forall p n, deleted p n -> is_archive sample_storage p = true) /\
  (forall p n q m, deleted p n -> is_archive sample_storage q = true -> st_fs s' !! q = Some m ->
     n_mtime n <= n_mtime m) /\
  (forall p n, deleted p n ->
     exists p' n', deleted p' n' /\ max_bytes sample_storage < totalVerifiedBytes s' + n_size n').
Proof. apply (enforceStorageLimit_correct sample_storage). vm_compute. reflexivity. Defined.

Lemma finalizePartial_moves put_time partial now elapsed fd rc s node :
  st_fs s !! partial = Some node -> fsyncFile fd rc = true ->
  finalizePartial put_time partial now elapsed fd rc true s =
    (Some {| final_path := final_path_at put_time now s; archive_duration_ms := Z.quot elapsed 1000000 |},
     with_fs (<[final_path_at put_time now s := node]> (delete partial (st_fs s))) s).
Proof. intros Hn Hs. unfold finalizePartial. rewrite Hn, Hs. cbn. by rewrite lookup_insert_eq. Qed.

(** [finalizePartial] moves the partial file to its archive name with its
    contents unchanged, touching no third file; when it reports a failure it has
    changed nothing. *)
Theorem finalizePartial_correct put_time partial now elapsed fd rc rename_ok s :
  match finalizePartial put_time partial now elapsed fd rc rename_ok s with
  | (Some r, s') =>
      exists node, st_fs s !! partial = Some node /\ fsyncFile fd rc = true /\ rename_ok = true /\
        st_fs s' !! final_path r = Some node /\
        (final_path r <> partial -> st_fs s' !! partial = None) /\
        (forall p, p <> partial -> p <> final_path r -> st_fs s' !! p = st_fs s !! p)
  | (None, s') => s' = s
  end.
Proof.
  destruct (st_fs s !! partial) as [node|] eqn:E; [|by unfold finalizePartial; rewrite E].
  destruct (fsyncFile fd rc) eqn:Hs; [|by unfold finalizePartial; rewrite E, Hs].
  destruct rename_ok; [|by unfold finalizePartial; rewrite E, Hs].
  rewrite (finalizePartial_moves put_time partial now elapsed fd rc s node E Hs). exists node. simpl. split_and!; try done.
  - apply lookup_insert_eq.
  - intros Hne. by rewrite lookup_insert_ne, lookup_delete_eq.
  - intros p Hp Hf. by rewrite lookup_insert_ne, lookup_delete_ne by done.
Qed.

(** Two archives finished within the same second get the same name: the
    second replaces the first, whose contents are gone although both calls
    report success. *)
Theorem same_second_overwrites put_time p1 p2 n1 n2 now e1 e2 s :
  st_fs s !! p1 = Some n1 -> st_fs s !! p2 = Some n2 -> p1 <> p2 ->
  p1 <> final_path_at put_time now s -> p2 <> final_path_at put_time now s ->
  exists r1 s1 r2 s2,
    finalizePartial put_time p1 now e1 3 0 true s = (Some r1, s1) /\
    finalizePartial put_time p2 now e2 3 0 true s1 = (Some r2, s2) /\
    final_path r1 = final_path r2 /\ st_fs s1 !! final_path r1 = Some n1 /\
    st_fs s2 !! final_path r1 = Some n2 /\ st_fs s2 !! p1 = None.
Proof.
  intros H1 H2 Hne Hd1 Hd2. eexists _, _, _, _. split; [by apply finalizePartial_moves|].
  split; [apply finalizePartial_moves; [|done]; cbn; by rewrite lookup_insert_ne, lookup_delete_ne|].
  split; [done|]. cbn. rewrite !lookup_insert_eq. split_and!; try done.
  rewrite lookup_insert_ne, lookup_delete_ne, lookup_insert_ne by done. apply lookup_delete_eq.
Qed.

Lemma same_second_overwrites_witness :
  let s := with_fs (<[["var"; "tmp"; "c.bin.partial"] := {| n_bytes := [4]; n_mtime := 9 |}]>
                      (st_fs sample_storage)) sample_storage in
  exists r1 s1 r2 s2,
    finalizePartial (fun f _ => f) ["var"; "tmp"; "b.bin.partial"] 50 10 3 0 true s = (Some r1, s1) /\
    finalizePartial (fun f _ => f) ["var"; "tmp"; "c.bin.partial"] 50 20 3 0 true s1 = (Some r2, s2) /\
    final_path r1 = final_path r2 /\
    st_fs s1 !! final_path r1 = Some {| n_bytes := [3]; n_mtime := 8 |} /\
    st_fs s2 !! final_path r1 = Some {| n_bytes := [4]; n_mtime := 9 |} /\
    st_fs s2 !! ["var"; "tmp"; "b.bin.partial"] = None.
Proof.
  apply (same_second_overwrites (fun f _ => f) ["var"; "tmp"; "b.bin.partial"]
    ["var"; "tmp"; "c.bin.partial"] {| n_bytes := [3]; n_mtime := 8 |}
    {| n_bytes := [4]; n_mtime := 9 |} 50 10 20); done.
Defined.

(** The file extensions that decide what is an archive and what is a leftover. *)
Example extension_examples :
  extension ["a.bin"] = ".bin"%string /\ extension ["a.bin.partial"] = ".partial"%string /\
  extension [".bin"] = ""%string /\ extension ["x"; "log"] = ""%string.
Proof. done. Qed.
