(* ===== verification/Downloader.v ===== *)
(** [LogDownloader] (src/LogDownloader.cpp): enumeration, download,
    verification and cataloguing of the flight controller's logs, and their
    erasure.

    The world of a downloader is the object itself with the catalog, the
    archive directory and what it sends, plus a script of what the other
    threads and the outside do: before each atomic step of the main thread one
    [Tick] of the script runs (time passes, frames arrive on the receiving
    thread, the companion thread cancels, sends and disk operations succeed or
    fail).  Atomic steps are the critical sections of the source's mutexes and
    the accesses to its atomics.  Logging and the archive summary, which is
    only logged, are left out. *)

From S2P Require Import Prelude Effects LogProtocol Types ReceivedRanges.
From S2P Require Import Sha256 DataFlash FcSampleOffsets Database Storage Session.
From Stdlib Require Import Floats.SpecFloat.
Open Scope Z_scope.

(** What the model takes from the platform: the formatting of local time, the
    165 bytes that happen to follow the data field of a decoded LOG_DATA message
    in memory, and whether [char] is a signed type. *)
Class Platform := {
  platform_rows :: RowChoice;
  put_time : string -> Z -> string;
  past_data : list Z;
  past_data_length : length past_data = 165%nat;
  char_signed : bool;
}.

(** * Messages *)

(** A decoded message from the link. *)
Inductive Frame :=
| LogEntryFrame (e : LogEntry)
| LogDataFrame (id ofs count : Z) (data : list Z)
| OtherFrame.

(** A message to the flight controller. *)
Inductive Request :=
| LogRequestList (first last : Z)
| LogRequestData (id ofs count : Z)
| LogRequestEnd
| LogErase.

#[global] Instance Request_eq_dec : EqDecision Request.
Proof. solve_decision. Defined.

(** * The world *)

Inductive ThreadEvent :=
| Receive (f : Frame)
| CancelRequested.

Record Tick := {
  k_elapsed : Z;
  k_events : list ThreadEvent;
  k_connected : bool;
  k_fresh : bool;
  k_send_ok : bool;
  k_disk_ok : bool;
}.

Record ActiveArchiveProgress := {
  pr_active : bool;
  pr_log_id : Z;
  pr_bytes_received : Z;
  pr_total_bytes : Z;
  pr_bytes_per_sec : Z;
}.

Definition no_progress : ActiveArchiveProgress :=
  {| pr_active := false; pr_log_id := 0; pr_bytes_received := 0; pr_total_bytes := 0;
     pr_bytes_per_sec := 0 |}.

(** What the receiving thread and the companion thread also change. *)
Record Shared := {
  sh_pending : list LogEntry;
  sh_chunks : list LogDataChunk;
  sh_zero_length : Z;
  sh_cancel : bool;
}.

Record World := {
  w_shared : Shared;
  w_last_failure : ArchiveFailureReason;
  w_progress : ActiveArchiveProgress;
  w_progress_begin : Z;
  w_now : Z;  (* steady clock, ns *)
  w_wall : Z; (* system clock, ns *)
  w_db : Database;
  w_storage : Storage;
  w_sent : list (Request * bool);
  w_script : list Tick;
}.

Definition set_shared (sh : Shared) (w : World) : World :=
  {| w_shared := sh; w_last_failure := w_last_failure w; w_progress := w_progress w;
     w_progress_begin := w_progress_begin w; w_now := w_now w; w_wall := w_wall w;
     w_db := w_db w; w_storage := w_storage w; w_sent := w_sent w; w_script := w_script w |}.

Definition set_last_failure (f : ArchiveFailureReason) (w : World) : World :=
  {| w_shared := w_shared w; w_last_failure := f; w_progress := w_progress w;
     w_progress_begin := w_progress_begin w; w_now := w_now w; w_wall := w_wall w;
     w_db := w_db w; w_storage := w_storage w; w_sent := w_sent w; w_script := w_script w |}.

Definition set_progress_record (pr : ActiveArchiveProgress) (start : Z) (w : World) : World :=
  {| w_shared := w_shared w; w_last_failure := w_last_failure w; w_progress := pr;
     w_progress_begin := start; w_now := w_now w; w_wall := w_wall w;
     w_db := w_db w; w_storage := w_storage w; w_sent := w_sent w; w_script := w_script w |}.

Definition set_db (db : Database) (w : World) : World :=
  {| w_shared := w_shared w; w_last_failure := w_last_failure w; w_progress := w_progress w;
     w_progress_begin := w_progress_begin w; w_now := w_now w; w_wall := w_wall w;
     w_db := db; w_storage := w_storage w; w_sent := w_sent w; w_script := w_script w |}.

Definition set_storage (st : Storage) (w : World) : World :=
  {| w_shared := w_shared w; w_last_failure := w_last_failure w; w_progress := w_progress w;
     w_progress_begin := w_progress_begin w; w_now := w_now w; w_wall := w_wall w;
     w_db := w_db w; w_storage := st; w_sent := w_sent w; w_script := w_script w |}.

Definition log_sent (r : Request) (ok : bool) (w : World) : World :=
  {| w_shared := w_shared w; w_last_failure := w_last_failure w; w_progress := w_progress w;
     w_progress_begin := w_progress_begin w; w_now := w_now w; w_wall := w_wall w;
     w_db := w_db w; w_storage := w_storage w; w_sent := w_sent w ++ [(r, ok)];
     w_script := w_script w |}.

(** The constructor: a downloader at the time [now] and [wall] of the clocks, with its
    catalog and archive directory. *)
Definition new_downloader (now wall : Z) (db : Database) (st : Storage) (script : list Tick) : World :=
  {| w_shared := {| sh_pending := []; sh_chunks := []; sh_zero_length := 0; sh_cancel := false |};
     w_last_failure := NoFailure; w_progress := no_progress; w_progress_begin := 0;
     w_now := now; w_wall := wall; w_db := db; w_storage := st; w_sent := []; w_script := script |}.

(** * The other threads *)

(** [trimDataChunkQueue]: drop the oldest chunks over the cap. *)
Definition trimDataChunkQueue (cap : Z) (chunks : list LogDataChunk) : list LogDataChunk :=
  drop (length chunks - Z.to_nat cap) chunks.

Section Model.
Context `{Platform} (settings : DownloadSettings).

Definition queue_cap : Z :=
  if 0 <? max_queued_log_data settings then max_queued_log_data settings else 2048.

(** [onMessage], on the receiving thread.  [chunk.data.assign(data, data + count)]
    reads on past the 90-byte field when the count says so. *)
Definition onMessage (f : Frame) (sh : Shared) : Shared :=
  match f with
  | LogEntryFrame e =>
      {| sh_pending := sh_pending sh ++ [e]; sh_chunks := sh_chunks sh;
         sh_zero_length := sh_zero_length sh; sh_cancel := sh_cancel sh |}
  | LogDataFrame id ofs count data =>
      if count =? 0 then
        {| sh_pending := sh_pending sh; sh_chunks := sh_chunks sh;
           sh_zero_length := u64 (sh_zero_length sh + 1); sh_cancel := sh_cancel sh |}
      else
        let chunk := {| c_id := id; c_offset := ofs; c_count := count;
                        c_data := take (Z.to_nat count) (data ++ past_data) |} in
        {| sh_pending := sh_pending sh;
           sh_chunks := trimDataChunkQueue queue_cap (sh_chunks sh ++ [chunk]);
           sh_zero_length := sh_zero_length sh; sh_cancel := sh_cancel sh |}
  | OtherFrame => sh
  end.

Definition requestCancel (sh : Shared) : Shared :=
  {| sh_pending := sh_pending sh; sh_chunks := sh_chunks sh;
     sh_zero_length := sh_zero_length sh; sh_cancel := true |}.

Definition resetCancel (sh : Shared) : Shared :=
  {| sh_pending := sh_pending sh; sh_chunks := sh_chunks sh;
     sh_zero_length := sh_zero_length sh; sh_cancel := false |}.

Definition run_event (ev : ThreadEvent) (sh : Shared) : Shared :=
  match ev with
  | Receive f => onMessage f sh
  | CancelRequested => requestCancel sh
  end.

(** When the script is over nothing happens any more, and everything succeeds. *)
Definition quiet_tick : Tick :=
  {| k_elapsed := 0; k_events := []; k_connected := true; k_fresh := true;
     k_send_ok := true; k_disk_ok := true |}.

(** One tick of the script, and the world it leaves. *)
Definition interfere (w : World) : Tick * World :=
  let k := default quiet_tick (head (w_script w)) in
  (k, {| w_shared := foldl (fun sh ev => run_event ev sh) (w_shared w) (k_events k);
         w_last_failure := w_last_failure w; w_progress := w_progress w;
         w_progress_begin := w_progress_begin w;
         w_now := w_now w + k_elapsed k;
         w_wall := w_wall w + k_elapsed k;
         w_db := w_db w; w_storage := w_storage w; w_sent := w_sent w;
         w_script := tail (w_script w) |}).

(** An atomic step of the main thread: the others run, then [f]. *)
Definition atomic {A} (f : Tick -> World -> A * World) (w : World) : A * World :=
  let '(k, w') := interfere w in f k w'.

Definition pass_time (d : Z) (w : World) : World :=
  {| w_shared := w_shared w; w_last_failure := w_last_failure w; w_progress := w_progress w;
     w_progress_begin := w_progress_begin w; w_now := w_now w + d;
     w_wall := w_wall w + d;
     w_db := w_db w; w_storage := w_storage w; w_sent := w_sent w; w_script := w_script w |}.

(** * The session's operations *)

Definition ld_cancelled : World -> bool * World := atomic (fun _ w => (sh_cancel (w_shared w), w)).

Definition ld_drainLogDataChunks (id : Z) : World -> list LogDataChunk * World :=
  atomic (fun _ w =>
    let sh := w_shared w in
    (filter (fun c => c_id c = id) (sh_chunks sh),
     set_shared {| sh_pending := sh_pending sh;
                   sh_chunks := filter (fun c => c_id c <> id) (sh_chunks sh);
                   sh_zero_length := sh_zero_length sh; sh_cancel := sh_cancel sh |} w)).

Definition clear_chunks (w : World) : World :=
  let sh := w_shared w in
  set_shared {| sh_pending := sh_pending sh; sh_chunks := [];
                sh_zero_length := sh_zero_length sh; sh_cancel := sh_cancel sh |} w.

Definition clearDataChunks : World -> unit * World := atomic (fun _ w => (tt, clear_chunks w)).

(** [client_.sendMessage]. *)
Definition sendMessage (r : Request) : World -> bool * World :=
  atomic (fun k w => (k_send_ok k, log_sent r (k_send_ok k) w)).

Definition requestLogList : World -> bool * World := sendMessage (LogRequestList 0 0xFFFF).
Definition requestLogData (id ofs count : Z) : World -> bool * World :=
  sendMessage (LogRequestData id ofs count).
Definition requestLogEnd (w : World) : unit * World := (tt, (sendMessage LogRequestEnd w).2).

Definition ld_zeroLengthDataCount : World -> Z * World :=
  atomic (fun _ w => (sh_zero_length (w_shared w), w)).

(** [msg_cv_.wait_for]: woken by a message, or when the timeout is over; it
    takes some time in any case. *)
Definition ld_wait (timeout : Z) (w : World) : unit * World :=
  match w_script w with
  | [] => (tt, pass_time (Z.max 1 timeout) w)
  | _ => let '(_, w') := interfere w in (tt, pass_time 1 w')
  end.

Definition ld_sleep_for (d : Z) : World -> unit * World :=
  atomic (fun _ w => (tt, pass_time (Z.max 0 d) w)).

(** [while (remaining > 0 && !cancelled())]: at most [n] turns of 100 ms. *)
Fixpoint sleep_turns (n : nat) (remaining : Z) (w : World) : World :=
  match n with
  | O => w
  | S n' =>
      if 0 <? remaining then
        let '(stop, w) := ld_cancelled w in
        if stop : bool then w
        else
          let turn := Z.min (ms 100) remaining in
          sleep_turns n' (remaining - turn) (ld_sleep_for turn w).2
      else w
  end.

Definition ld_interruptibleSleep (d : Z) (w : World) : unit * World :=
  (tt, sleep_turns (Z.to_nat (d / ms 100 + 1)) d w).

Definition classifyTimeout (w : World) : ArchiveFailureReason * World :=
  let '(k, w) := interfere w in
  if negb (k_connected k) then (TransportClosed, w)
  else
    let '(k, w) := interfere w in
    if negb (k_fresh k) then (LinkTimeout, w) else (LogDataTimeout, w).

Definition abortTransfer (reason : string) (w : World) : unit * World :=
  requestLogEnd (clearDataChunks w).2.

Definition ld_now : World -> Z * World := atomic (fun _ w => (w_now w, w)).
Definition disk_ok : World -> bool * World := atomic (fun k w => (k_disk_ok k, w)).

(** ** Progress *)

(** The integer part of a finite double, as [static_cast<uint32_t>] of a value in range. *)
Definition double_trunc (d : double) : Z :=
  match d with
  | S754_finite false m e => u32 (if 0 <=? e then Z.pos m * 2 ^ e else Z.pos m / 2 ^ (- e))
  | _ => 0
  end.

(** [duration<double>] of nanoseconds. *)
Definition double_seconds (ns : Z) : double := double_div (double_of_Z ns) (double_of_Z 1000000000).

(** The literal 0.2. *)
Definition min_elapsed : double := double_div (double_of_Z 2) (double_of_Z 10).

Definition updateProgressBegin (log_id total_bytes : Z) : World -> unit * World :=
  atomic (fun _ w =>
    (tt, set_progress_record
           {| pr_active := true; pr_log_id := log_id; pr_bytes_received := 0;
              pr_total_bytes := total_bytes; pr_bytes_per_sec := 0 |} (w_now w) w)).

Definition ld_updateProgressBytes (bytes_received : Z) : World -> unit * World :=
  atomic (fun _ w =>
    let pr := w_progress w in
    let elapsed := double_seconds (w_now w - w_progress_begin w) in
    (tt, set_progress_record
           {| pr_active := pr_active pr; pr_log_id := pr_log_id pr;
              pr_bytes_received := bytes_received; pr_total_bytes := pr_total_bytes pr;
              pr_bytes_per_sec :=
                if SFltb min_elapsed elapsed
                then double_trunc (double_div (double_of_Z bytes_received) elapsed)
                else pr_bytes_per_sec pr |} (w_progress_begin w) w)).

Definition updateProgressEnd : World -> unit * World :=
  atomic (fun _ w => (tt, set_progress_record no_progress (w_progress_begin w) w)).

(** [activeProgress], on the companion thread. *)
Definition activeProgress (w : World) : ActiveArchiveProgress := w_progress w.

(** The downloader owns its sessions. *)
#[export] Instance Downloader_owner : SessionOwner World := {
  cancelled := ld_cancelled;
  drainLogDataChunks := ld_drainLogDataChunks;
  clearLogDataChunks := clearDataChunks;
  sendLogRequestData := requestLogData;
  sendLogRequestEnd := requestLogEnd;
  zeroLengthDataCount := ld_zeroLengthDataCount;
  waitForLogDataNotify := ld_wait;
  interruptibleSleep := ld_interruptibleSleep;
  sleep_for := ld_sleep_for;
  classifyTransferTimeout := classifyTimeout;
  updateProgressBytes := ld_updateProgressBytes;
  abortLogTransfer := abortTransfer;
  steady_now := ld_now;
  device_ok := disk_ok;
}.

(** * Enumeration *)

Definition clear_pending (w : World) : World :=
  let sh := w_shared w in
  set_shared {| sh_pending := []; sh_chunks := sh_chunks sh;
                sh_zero_length := sh_zero_length sh; sh_cancel := sh_cancel sh |} w.

Definition pending_count : World -> Z * World :=
  atomic (fun _ w => (zlen (sh_pending (w_shared w)), w)).

(** [wait_for] up to 200 ms, then the number of entries, in one critical section. *)
Definition wait_and_count (w : World) : Z * World :=
  let '(_, w) := ld_wait (ms 200) w in (zlen (sh_pending (w_shared w)), w).

Definition kEnumerationIdle : Z := ms 1000.

(** The loop [while (now < deadline)]: entries arrive until none is new for the
    idle time. *)
Fixpoint settle (fuel : nat) (deadline seen last_progress : Z) : M World unit :=
  match fuel with
  | O => out_of_fuel
  | S fuel' =>
      now ← op ld_now;
      if now <? deadline then
        stop ← op ld_cancelled;
        if stop : bool then mret tt
        else
          count ← op wait_and_count;
          if seen <? count then
            now ← op ld_now;
            settle fuel' deadline count now
          else
            now ← op ld_now;
            if kEnumerationIdle <=? now - last_progress then mret tt
            else settle fuel' deadline seen last_progress
      else mret tt
  end.

(** The loop over the attempts, from [attempt] on. *)
Fixpoint enumerate_loop (fuel : nat) (left : nat) (attempt n_attempts : Z) : M World unit :=
  match left with
  | O => mret tt
  | S left' =>
      op requestLogList;;
      seen ← op pending_count;
      start ← op ld_now;
      settle fuel (start + seconds 15) seen start;;
      total ← op pending_count;
      stop ← (if 0 <? total then mret true else op ld_cancelled);
      if (stop : bool) || (attempt =? n_attempts) then mret tt
      else
        op (ld_interruptibleSleep (seconds (enumerate_retry_delay_sec settings)));;
        stop ← op ld_cancelled;
        if stop : bool then mret tt else enumerate_loop fuel left' (attempt + 1) n_attempts
  end.

Definition id_leb (a b : LogEntry) : bool := le_id a <=? le_id b.

(** [std::unique] by id, on the sorted entries. *)
Fixpoint unique_ids (l : list LogEntry) : list LogEntry :=
  match l with
  | e :: ((e' :: _) as l') =>
      match unique_ids l' with
      | f :: r => if le_id e =? le_id f then e :: r else e :: f :: r
      | [] => [e]
      end
  | _ => l
  end.

Definition take_pending : World -> list LogEntry * World :=
  atomic (fun _ w => (sh_pending (w_shared w), w)).

Definition enumerateLogs (fuel : nat) : M World (list LogEntry) :=
  op (atomic (fun _ w => (tt, clear_pending w)));;
  let n_attempts := Z.max 1 (enumerate_attempts settings) in
  enumerate_loop fuel (Z.to_nat n_attempts) 1 n_attempts;;
  entries ← op take_pending;
  op requestLogEnd;;
  mret (unique_ids (sort_list id_leb entries)).

(** * Downloads *)

Inductive DedupDecision := DownloadFull | DedupSkipDuplicate | DownloadAfterProbeMismatch.

Definition checkDedup (entry : LogEntry) (w : World) : DedupDecision * option ArchivedLogCandidate :=
  match findCandidate (le_id entry) (le_size entry) (w_db w) with
  | None => (DownloadFull, None)
  | Some candidate => (DownloadAfterProbeMismatch, Some candidate)
  end.

(** Assign [last_failure_reason_]. *)
Definition fail_as (f : ArchiveFailureReason) : M World unit := act (set_last_failure f).

Definition probe_count (entry : LogEntry) : Z :=
  u32 (Z.min (probe_bytes settings) (i32 (le_size entry))).

Definition downloadProbeAndCompare (fuel : nat) (entry : LogEntry)
    (candidate : ArchivedLogCandidate) : M World bool :=
  let probe_n := probe_count entry in
  op clearDataChunks;;
  '(result, _) ← run settings
    {| p_log_id := le_id entry; p_byte_offset := 0; p_byte_count := probe_n;
       p_probe_bytes := i32 probe_n; p_write_file := false |} fuel new_file;
  op requestLogEnd;;
  if negb (sr_success result) then
    fail_as (sr_failure result);;
    mret false
  else
    mret (String.eqb (sr_probe_sha256 result) (ca_probe_sha256 candidate) &&
          (i32 probe_n =? ca_probe_bytes candidate)).

(** The chunk at [expected_offset] of the queue, taken out of it; an empty one
    is dropped and ends the search. *)
Fixpoint take_chunk (log_id expected_offset : Z) (chunks : list LogDataChunk)
  : option (list Z) * list LogDataChunk :=
  match chunks with
  | [] => (None, [])
  | c :: chunks' =>
      if negb (c_id c =? log_id) || negb (c_offset c =? expected_offset) then
        let '(found, rest) := take_chunk log_id expected_offset chunks' in (found, c :: rest)
      else
        match c_data c with
        | [] => (None, chunks')
        | data => (Some data, chunks')
        end
  end.

(** [wait_for] up to 50 ms, then the search, in one critical section. *)
Definition wait_and_take (log_id expected_offset : Z) (w : World) : option (list Z) * World :=
  let '(_, w) := ld_wait (ms 50) w in
  let sh := w_shared w in
  let '(found, rest) := take_chunk log_id expected_offset (sh_chunks sh) in
  (found, set_shared {| sh_pending := sh_pending sh; sh_chunks := rest;
                        sh_zero_length := sh_zero_length sh; sh_cancel := sh_cancel sh |} w).

(** The loop of [waitForLogData]; [None] is its [return false]. *)
Fixpoint wait_loop (fuel : nat) (log_id expected_offset deadline : Z) : M World (option (list Z)) :=
  match fuel with
  | O => out_of_fuel
  | S fuel' =>
      now ← op ld_now;
      if now <? deadline then
        stop ← op ld_cancelled;
        if stop : bool then mret None
        else
          found ← op (wait_and_take log_id expected_offset);
          match found with
          | Some data => mret (Some data)
          | None => wait_loop fuel' log_id expected_offset deadline
          end
      else mret None
  end.

Definition waitForLogData (fuel : nat) (log_id expected_offset timeout : Z)
  : M World (option (list Z)) :=
  now ← op ld_now;
  wait_loop fuel log_id expected_offset (now + timeout).

(** Open for writing, truncated: the file exists from here on. *)
Definition put_file (p : path) (bytes : list Z) (w : World) : World :=
  set_storage (with_fs (<[p := {| n_bytes := bytes; n_mtime := w_wall w |}]> (st_fs (w_storage w)))
                 (w_storage w)) w.

Definition open_truncate (p : path) : World -> bool * World :=
  atomic (fun k w => if k_disk_ok k then (true, put_file p [] w) else (false, w)).

Definition remove_file (p : path) : World -> unit * World :=
  atomic (fun _ w =>
    (tt, set_storage (with_fs (delete p (st_fs (w_storage w))) (w_storage w)) w)).

(** The out parameters of [downloadLogData]. *)
Record Download := {
  dl_ok : bool;
  dl_sha256 : string;
  dl_probe_sha256 : string;
  dl_probe_bytes : Z;
  dl_start_time : Z;
}.

Definition full_params (entry : LogEntry) : Params :=
  {| p_log_id := le_id entry; p_byte_offset := 0; p_byte_count := le_size entry;
     p_probe_bytes := probe_bytes settings; p_write_file := true |}.

Definition downloadLogData (fuel : nat) (entry : LogEntry) (partial : path) : M World Download :=
  start_time ← op ld_now;
  let failed probe_n := {| dl_ok := false; dl_sha256 := ""; dl_probe_sha256 := "";
                           dl_probe_bytes := probe_n; dl_start_time := start_time |} in
  fail_as NoFailure;;
  op clearDataChunks;;
  opened ← op (open_truncate partial);
  if negb opened then
    fail_as StorageError;;
    mret (failed 0)
  else
    '(result, file) ← run settings (full_params entry) fuel new_file;
    act (put_file partial (f_bytes file));;
    op requestLogEnd;;
    if negb (sr_success result) then
      fail_as (sr_failure result);;
      mret (failed (sr_probe_bytes result))
    else if verify_after_download settings &&
            negb (bytesReceived (sr_ranges result) =? le_size entry) then
      fail_as VerificationFailed;;
      mret (failed (sr_probe_bytes result))
    else
      fail_as NoFailure;;
      mret {| dl_ok := true; dl_sha256 := sr_sha256 result;
              dl_probe_sha256 := sr_probe_sha256 result;
              dl_probe_bytes := sr_probe_bytes result; dl_start_time := start_time |}.

(** Open and read a whole file. *)
Definition read_file (p : path) : World -> FileRead * World :=
  atomic (fun k w =>
    (match st_fs (w_storage w) !! p with
     | None => OpenFailed
     | Some node => if k_disk_ok k then Contents (n_bytes node) else ReadFailed
     end, w)).

Definition verifyDataFlashFile (p : path) : M World bool :=
  if negb (verify_dataflash_parse settings) then mret true
  else
    contents ← op (read_file p);
    result ← or_throw "" (validateDataFlashFile contents);
    if negb (DataFlash.ok result) then mret false
    else
      size ← op (atomic (fun _ w =>
        (default 0 (n_size <$> (st_fs (w_storage w) !! p)), w)));
      mret (negb (dataFlashResyncRatioExceeded result (u32 size)
                    (verify_max_bad_header_ratio settings))).

(** [in.seekg(ofs); in.read(90)] on the open file [bytes]: what is read, and
    whether the stream is still good (a short read sets its failbit). *)
Definition read_chunk (good : bool) (bytes : list Z) (ofs : Z) : list Z * bool :=
  if good then
    let got := take (Z.to_nat kLogChunkSize) (drop (Z.to_nat ofs) bytes) in
    (got, (length got =? Z.to_nat kLogChunkSize)%nat)
  else ([], false).

(** The value of a byte read into a [char]. *)
Definition char_value (b : Z) : Z := if char_signed && (128 <=? b) then b - 256 else b.

(** [std::equal] of the [uint8_t]s of the chunk and the [char]s of the file, whose
    elements are compared as [int]s. *)
Definition same_bytes (chunk file_buf : list Z) : bool :=
  (length file_buf =? length chunk)%nat && bool_decide (chunk = char_value <$> file_buf).

(** The loop over the sampled offsets. *)
Fixpoint reread_samples (fuel : nat) (entry : LogEntry) (bytes : list Z) (good : bool)
    (offsets : list Z) : M World bool :=
  match offsets with
  | [] => op requestLogEnd;; mret true
  | ofs :: offsets' =>
      sent ← op (requestLogData (le_id entry) ofs kLogChunkSize);
      if negb sent then mret false
      else
        found ← waitForLogData fuel (le_id entry) ofs (seconds (download_timeout_sec settings));
        match found with
        | None => mret false
        | Some chunk =>
            let '(file_buf, good') := read_chunk good bytes ofs in
            if same_bytes chunk file_buf
            then reread_samples fuel entry bytes good' offsets'
            else mret false
        end
  end.

Definition reread_params (entry : LogEntry) : Params :=
  {| p_log_id := le_id entry; p_byte_offset := 0; p_byte_count := le_size entry;
     p_probe_bytes := 0; p_write_file := false |}.

Definition verifyFcSampleReread (fuel : nat) (entry : LogEntry) (p : path) (sha256 : string)
  : M World bool :=
  match parseFcRereadMode (verify_fc_reread settings) with
  | RereadNone => mret true
  | RereadFull =>
      op clearDataChunks;;
      '(result, _) ← run settings (reread_params entry) fuel new_file;
      op requestLogEnd;;
      mret (sr_success result && String.eqb (sr_sha256 result) sha256)
  | RereadSample =>
      match buildFcSampleOffsets (le_size entry) (verify_fc_reread_sample_count settings)
              (le_id entry) (le_size entry) sha256 with
      | [] => mret true
      | offsets =>
          contents ← op (read_file p);
          match contents with
          | Contents bytes =>
              op clearDataChunks;;
              reread_samples fuel entry bytes true offsets
          | _ => mret false
          end
      end
  end.

(** * Archiving *)

Definition incrementStat_op (key : string) (delta : Z) (w : World) : World :=
  set_db (incrementStat key delta (w_db w)) w.

Definition unixNow (w : World) : Z := w_wall w / 1000000000.

Definition begin_partial : World -> path * World :=
  atomic (fun _ w =>
    let '(p, st) := beginPartialFile put_time (unixNow w) (w_storage w) in (p, set_storage st w)).

(** What [open] and [fsync] say of a disk that works or fails. *)
Definition sync_view (k : Tick) : Z * Z := if k_disk_ok k then (3, 0) else (-1, 0).

Definition finalize_op (partial : path) (start : Z) : World -> option FinalizeResult * World :=
  atomic (fun k w =>
    let '(r, st) := finalizePartial put_time partial (unixNow w) (w_now w - start)
                      (sync_view k).1 (sync_view k).2 (k_disk_ok k) (w_storage w) in (r, set_storage st w)).

(** A download or a check failed: drop the partial file. *)
Definition discard (partial : path) : M World unit :=
  op updateProgressEnd;; op (remove_file partial);; mret tt.

(** The path as the catalog stores it. *)
Definition path_string (p : path) : string := String.concat "/" p.

Definition catalogue (entry : LogEntry) (d : Download) (r : FinalizeResult) (w : World) : World :=
  set_db
    (setStat "last_archive_time" (unixNow w)
      (incrementStat "bytes_downloaded" (le_size entry)
        (incrementStat "flights_archived" 1
          (insertArchivedLog (dl_sha256 d) (le_id entry) (le_size entry) (le_time_utc entry)
             (dl_probe_sha256 d) (dl_probe_bytes d) (unixNow w) (archive_duration_ms r)
             (path_string (final_path r)) (w_db w))))) w.

(** After the re-read, whose verdict is [same]. *)
Definition finish_archive (entry : LogEntry) (partial : path) (d : Download) (same : bool) : M World ArchiveResult :=
  if negb same then
    discard partial;;
    fail_as RereadMismatch;;
    act (incrementStat_op "archive_failures" 1);;
    mret ArchiveFailed
  else
    finalized ← op (finalize_op partial (dl_start_time d));
    match finalized with
    | None =>
        op updateProgressEnd;;
        fail_as StorageError;;
        act (incrementStat_op "archive_failures" 1);;
        mret ArchiveFailed
    | Some r =>
        op updateProgressEnd;;
        act (catalogue entry d r);;
        mret Downloaded
    end.

(** From the download on. *)
Definition download_and_archive (fuel : nat) (entry : LogEntry) : M World ArchiveResult :=
  partial ← op begin_partial;
  op (updateProgressBegin (le_id entry) (le_size entry));;
  d ← downloadLogData fuel entry partial;
  if negb (dl_ok d) then
    discard partial;;
    reason ← op (fun w => (w_last_failure w, w));
    stop ← (if bool_decide (reason = ReasonCancelled) then mret true else op ld_cancelled);
    if stop : bool then
      act (incrementStat_op "archive_cancellations" 1);;
      mret ArchiveCancelled
    else
      act (incrementStat_op "archive_failures" 1);;
      mret ArchiveFailed
  else
    parsed ← verifyDataFlashFile partial;
    if negb parsed then
      discard partial;;
      fail_as ParseFailed;;
      act (incrementStat_op "archive_failures" 1);;
      mret ArchiveFailed
    else
      same ← verifyFcSampleReread fuel entry partial (dl_sha256 d);
      finish_archive entry partial d same.

Definition archiveOne (fuel : nat) (entry : LogEntry) : M World ArchiveResult :=
  '(decision, candidate) ← op (fun w => (checkDedup entry w, w));
  duplicate ← (match decision, candidate with
               | DownloadAfterProbeMismatch, Some c => downloadProbeAndCompare fuel entry c
               | _, _ => mret false
               end);
  if duplicate : bool then
    act (incrementStat_op "flights_skipped" 1);;
    mret SkippedDuplicate
  else
    stop ← (match candidate with Some _ => op ld_cancelled | None => mret false end);
    if stop : bool then mret ArchiveCancelled
    else
      stop ← op ld_cancelled;
      if stop : bool then mret ArchiveCancelled else download_and_archive fuel entry.

(** [makeScopeExit]: run [guard] however [m] ends. *)
Definition with_scope_exit {A} (guard : World -> World) (m : M World A) : M World A :=
  fun w => let '(r, w') := m w in (r, guard w').

Definition count_result (r : ArchiveResult) (last : ArchiveFailureReason) (c : ArchiveCycleResult)
  : ArchiveCycleResult :=
  match r with
  | SkippedDuplicate =>
      {| cy_downloaded := cy_downloaded c; cy_skipped := cy_skipped c + 1;
         cy_failed := cy_failed c; cy_cancelled := cy_cancelled c;
         cy_all_archived := cy_all_archived c; cy_last_failure_reason := cy_last_failure_reason c |}
  | Downloaded =>
      {| cy_downloaded := cy_downloaded c + 1; cy_skipped := cy_skipped c;
         cy_failed := cy_failed c; cy_cancelled := cy_cancelled c;
         cy_all_archived := cy_all_archived c; cy_last_failure_reason := cy_last_failure_reason c |}
  | ArchiveCancelled =>
      {| cy_downloaded := cy_downloaded c; cy_skipped := cy_skipped c;
         cy_failed := cy_failed c; cy_cancelled := cy_cancelled c + 1;
         cy_all_archived := cy_all_archived c; cy_last_failure_reason := ReasonCancelled |}
  | ArchiveFailed =>
      {| cy_downloaded := cy_downloaded c; cy_skipped := cy_skipped c;
         cy_failed := cy_failed c + 1; cy_cancelled := cy_cancelled c;
         cy_all_archived := cy_all_archived c; cy_last_failure_reason := last |}
  end.

(** The loop over the logs; the flag is [any_failed]. *)
Fixpoint archive_loop (fuel : nat) (logs : list LogEntry) (any_failed : bool) (c : ArchiveCycleResult)
  : M World (bool * ArchiveCycleResult) :=
  match logs with
  | [] => mret (any_failed, c)
  | entry :: logs' =>
      stop ← op ld_cancelled;
      if stop : bool then mret (true, count_result ArchiveCancelled NoFailure c)
      else
        r ← archiveOne fuel entry;
        last ← op (fun w => (w_last_failure w, w));
        let c' := count_result r last c in
        match r with
        | ArchiveCancelled => mret (true, c')
        | ArchiveFailed => archive_loop fuel logs' true c'
        | _ => archive_loop fuel logs' any_failed c'
        end
  end.

Definition archiveAll (fuel : nat) (logs : list LogEntry) : M World ArchiveCycleResult :=
  with_scope_exit (fun w => (requestLogEnd (clearDataChunks w).2).2)
    ('(any_failed, c) ← archive_loop fuel logs false default_cycle;
     mret {| cy_downloaded := cy_downloaded c; cy_skipped := cy_skipped c;
             cy_failed := cy_failed c; cy_cancelled := cy_cancelled c;
             cy_all_archived := negb any_failed;
             cy_last_failure_reason := cy_last_failure_reason c |}).

Definition eraseFlightControllerLogs : World -> bool * World :=
  fun w =>
    let '(sent, w) := sendMessage LogErase w in
    if sent then (true, set_db (markAllErased (w_db w)) w) else (false, w).
End Model.
