(* ===== verification/Sqlite.v ===== *)
(** [Database] call by call (src/Database.cpp): the calls of SQLite it makes, what it
    checks of their results and what it throws.

    [Database.v] has the meaning of the statements; here any call may fail.  SQLite is
    not part of the repository: the model takes from its documentation that a call
    that fails leaves the rows as they were, that [sqlite3_prepare_v2] then gives no
    statement, and that a step of a query says SQLITE_ROW when there is a row.  Which
    calls fail, with what code and message, is a script.  The [CREATE ... IF NOT
    EXISTS] statements and the pragmas leave the rows alone.

    The theorem says what each operation leaves behind when calls fail. *)

From S2P Require Import Prelude Effects Types Database Storage Downloader.
Open Scope Z_scope.

Definition SQLITE_OK : Z := 0.
Definition SQLITE_ROW : Z := 100.
Definition SQLITE_DONE : Z := 101.

(** A call that fails: its code, and [sqlite3_errmsg]; [None] without a connection. *)
Record SqlError := { er_code : Z; er_message : option string }.

Definition failing (e : SqlError) : Prop :=
  er_code e <> SQLITE_OK /\ er_code e <> SQLITE_ROW /\ er_code e <> SQLITE_DONE.

(** The object: the tables behind [db_], whether it is set, the statements that were
    prepared and not finalized, and the calls to come ([None]: it succeeds). *)
Record Connection := {
  db_tables : Database;
  db_set : bool;
  db_statements : Z;
  db_calls : list (option SqlError);
}.

(** The constructor, on the tables of the file. *)
Definition new_connection (tables : Database) (calls : list (option SqlError)) : Connection :=
  {| db_tables := tables; db_set := false; db_statements := 0; db_calls := calls |}.

(** The destructor. *)
Definition close_connection (c : Connection) : Connection :=
  if db_set c then {| db_tables := db_tables c; db_set := false; db_statements := db_statements c;
                      db_calls := tail (db_calls c) |}
  else c.

(** * The library *)

(** A call: its result when it succeeds and when it fails. *)
Definition sqlite_call {A} (good : Connection -> A * Connection) (bad : SqlError -> A) (c : Connection)
  : A * Connection :=
  let c' := {| db_tables := db_tables c; db_set := db_set c; db_statements := db_statements c;
               db_calls := tail (db_calls c) |} in
  match default None (head (db_calls c)) with
  | None => good c'
  | Some e => (bad e, c')
  end.

Definition with_tables (db : Database) (c : Connection) : Connection :=
  {| db_tables := db; db_set := db_set c; db_statements := db_statements c; db_calls := db_calls c |}.

Definition with_statements (n : Z) (c : Connection) : Connection :=
  {| db_tables := db_tables c; db_set := db_set c; db_statements := n; db_calls := db_calls c |}.

(** A code and the message that goes with it. *)
Definition Reply : Type := Z * option string.
Definition error_reply (e : SqlError) : Reply := (er_code e, er_message e).

(** A call that passes the connection on unless it fails. *)
Definition reply_call (f : Connection -> Connection) (code : Z) : Connection -> Reply * Connection :=
  sqlite_call (fun c => ((code, None), f c)) error_reply.

(** A connection that could not be opened is there all the same when it has a message. *)
Definition sqlite3_open (c : Connection) : Reply * Connection :=
  let '(r, c) := reply_call id SQLITE_OK c in
  (r, {| db_tables := db_tables c; db_set := (r.1 =? SQLITE_OK) || bool_decide (is_Some r.2);
         db_statements := db_statements c; db_calls := db_calls c |}).

Definition sqlite3_exec (f : Database -> Database) : Connection -> Reply * Connection :=
  reply_call (fun c => with_tables (f (db_tables c)) c) SQLITE_OK.

Definition sqlite3_prepare_v2 : Connection -> Reply * Connection :=
  reply_call (fun c => with_statements (db_statements c + 1) c) SQLITE_OK.

(** A step of a statement that writes. *)
Definition step_update (f : Database -> Database) : Connection -> Reply * Connection :=
  reply_call (fun c => with_tables (f (db_tables c)) c) SQLITE_DONE.

(** The first step of a query, and the row it is at. *)
Definition step_query {A} (q : Database -> option A) : Connection -> (Z * option A) * Connection :=
  sqlite_call (fun c => (match q (db_tables c) with
                         | Some row => (SQLITE_ROW, Some row)
                         | None => (SQLITE_DONE, None)
                         end, c)) (fun e => (er_code e, None)).

Definition sqlite3_finalize (c : Connection) : unit * Connection :=
  (tt, with_statements (db_statements c - 1) c).

(** * The operations *)

Definition checkSqlite (r : Reply) (context : string) : M Connection unit :=
  if negb (r.1 =? SQLITE_OK) && negb (r.1 =? SQLITE_DONE) && negb (r.1 =? SQLITE_ROW) then
    throw (context +:+ ": " +:+ default "unknown"%string r.2)
  else mret tt.

Definition exec (f : Database -> Database) : M Connection unit :=
  r ← op (sqlite3_exec f);
  if negb (r.1 =? SQLITE_OK) then throw (default "sqlite exec failed"%string r.2) else mret tt.

(** [initialize]: the connection, two pragmas and the tables. *)
Definition initialize : M Connection unit :=
  r ← op sqlite3_open;
  checkSqlite r "sqlite3_open";;
  exec id;;
  exec id;;
  exec id.

Section Operations.
Context `{RowChoice}.

Definition prepare (context : string) : M Connection unit :=
  r ← op sqlite3_prepare_v2;
  checkSqlite r context.

(** A query: the row of its first step, if it says that there is one. *)
Definition run_query {A} (prepare_context : string) (q : Database -> option A) : M Connection (option A) :=
  prepare prepare_context;;
  r ← op (step_query q);
  op sqlite3_finalize;;
  mret (if r.1 =? SQLITE_ROW then r.2 else None).

Definition sql_findCandidate (fc_log_id fc_log_size : Z) : M Connection (option ArchivedLogCandidate) :=
  run_query "prepare findCandidate" (findCandidate fc_log_id fc_log_size).

Definition sql_hasArchived (fc_log_id fc_log_size : Z) : M Connection bool :=
  c ← sql_findCandidate fc_log_id fc_log_size;
  mret (match c with Some _ => true | None => false end).

(** A statement that writes: prepared, executed, checked and finalized; when the
    check throws it is not finalized. *)
Definition run_update (prepare_context step_context : string) (f : Database -> Database) : M Connection unit :=
  prepare prepare_context;;
  r ← op (step_update f);
  checkSqlite r step_context;;
  op sqlite3_finalize.

Definition sql_insertArchivedLog (sha256 : string) (fc_log_id fc_log_size fc_log_time_utc : Z)
    (probe_sha256 : string) (probe_bytes archive_time archive_duration_ms : Z)
    (filename : string) : M Connection unit :=
  run_update "prepare insert" "insert archived log"
    (insertArchivedLog sha256 fc_log_id fc_log_size fc_log_time_utc probe_sha256 probe_bytes
       archive_time archive_duration_ms filename).

Definition sql_markAllErased : M Connection unit := exec markAllErased.

Definition sql_getStat (key : string) : M Connection Z :=
  value ← run_query "prepare getStat" (fun db => statistics db !! key);
  mret (default 0 value).

Definition sql_setStat (key : string) (value : Z) : M Connection unit :=
  run_update "prepare setStat" "setStat" (setStat key value).

Definition sql_incrementStat (key : string) (delta : Z) : M Connection Z :=
  current ← sql_getStat key;
  let next := current + delta in
  sql_setStat key next;;
  mret next.
End Operations.

(** What [archiveOne] tells the catalog of an archived log, at the time [now]. *)
Definition sql_catalogue `{RowChoice} (entry : LogEntry) (d : Download) (r : FinalizeResult) (now : Z)
  : M Connection unit :=
  sql_insertArchivedLog (dl_sha256 d) (le_id entry) (le_size entry) (le_time_utc entry)
    (dl_probe_sha256 d) (dl_probe_bytes d) now (archive_duration_ms r) (path_string (final_path r));;
  sql_incrementStat "flights_archived" 1;;
  sql_incrementStat "bytes_downloaded" (le_size entry);;
  sql_setStat "last_archive_time" now.

(** * Operations with and without errors *)

Definition calls_ok (c : Connection) : Prop := Forall (fun o => forall e, o = Some e -> failing e) (db_calls c).

(** No call fails. *)
Definition healthy (c : Connection) : Prop := Forall (fun o => o = None) (db_calls c).

Lemma healthy_ok c : healthy c -> calls_ok c.
Proof. intros Hc. eapply Forall_impl; [exact Hc|]. by intros o -> e. Qed.

(** The connection after a call. *)
Definition called (c : Connection) : Connection :=
  {| db_tables := db_tables c; db_set := db_set c; db_statements := db_statements c; db_calls := tail (db_calls c) |}.

Lemma called_ok c : calls_ok c -> calls_ok (called c).
Proof. unfold calls_ok. simpl. destruct (db_calls c); [done|]. by intros [_ ?]%Forall_cons. Qed.

Lemma called_healthy c : healthy c -> healthy (called c).
Proof. unfold healthy. simpl. destruct (db_calls c); [done|]. by intros [_ ?]%Forall_cons. Qed.

Lemma healthy_call {A} good (bad : SqlError -> A) c : healthy c -> sqlite_call good bad c = good (called c).
Proof.
  intros Hc. unfold sqlite_call. destruct c as [db st n [|o calls]]; [done|].
  by apply Forall_cons in Hc as [-> _].
Qed.

(** A call succeeds, or fails with a code that is none of success. *)
Lemma call_cases {A} good (bad : SqlError -> A) c : calls_ok c ->
  sqlite_call good bad c = good (called c) \/
  (exists e, failing e /\ sqlite_call good bad c = (bad e, called c)).
Proof.
  intros Hc. unfold sqlite_call. destruct c as [db st n [|o calls]]; [by left|].
  apply Forall_cons in Hc as [Ho _]. simpl. destruct o as [e|]; [right|by left].
  exists e. split; [by apply Ho|done].
Qed.

(** A triple with a postcondition for exceptions. *)
Definition ends {A} (P : Connection -> Prop) (m : M Connection A) (Q : A -> Connection -> Prop)
    (T : Connection -> Prop) : Prop :=
  forall c, P c -> match m c with
    | (Ok a, c') => Q a c'
    | (Throw _, c') => T c'
    | (OutOfFuel, _) => False
    end.

Section Triples.
Context {A B : Type}.

Lemma ends_ret (P : Connection -> Prop) (Q : A -> Connection -> Prop) T a :
  (forall c, P c -> Q a c) -> ends P (mret a) Q T.
Proof using Type. intros HQ c Hc. by apply HQ. Qed.

Lemma ends_bind P (m : M Connection A) R (k : A -> M Connection B) Q T :
  ends P m R T -> (forall a, ends (R a) (k a) Q T) -> ends P (m ≫= k) Q T.
Proof using Type.
  intros Hm Hk c Hc. specialize (Hm c Hc). unfold mbind, M_bind.
  destruct (m c) as [[a|e|] c']; [|done..]. by apply Hk.
Qed.

Lemma ends_weaken (P P' : Connection -> Prop) (m : M Connection A) (Q Q' : A -> Connection -> Prop)
    (T T' : Connection -> Prop) :
  ends P m Q T -> (forall c, P' c -> P c) -> (forall a c, Q a c -> Q' a c) -> (forall c, T c -> T' c) ->
  ends P' m Q' T'.
Proof using Type.
  intros Hm HP HQ HT c Hc. specialize (Hm c (HP c Hc)). destruct (m c) as [[a|e|] c']; auto.
Qed.

Lemma ends_pure (R : Prop) P (m : M Connection A) Q T :
  (R -> ends P m Q T) -> ends (fun c => R /\ P c) m Q T.
Proof using Type. intros Hm c [HR Hc]. by apply Hm. Qed.
End Triples.

(** The tables and the statements that are open. *)
Definition at_rest (db : Database) (n : Z) (c : Connection) : Prop :=
  db_tables c = db /\ db_statements c = n /\ calls_ok c.

(** After an exception: the rows are there, and at most one statement is open. *)
Definition thrown (db : Database) (n : Z) (c : Connection) : Prop :=
  db_tables c = db /\ n <= db_statements c <= n + 1.

(** The code of a call and its check. *)
Definition good_code (r : Reply) : bool := (r.1 =? SQLITE_OK) || (r.1 =? SQLITE_DONE) || (r.1 =? SQLITE_ROW).

Lemma check_run r context c :
  checkSqlite r context c =
    if good_code r then (Ok tt, c) else (Throw (context +:+ ": " +:+ default "unknown"%string r.2), c).
Proof.
  unfold checkSqlite, good_code. by destruct (r.1 =? SQLITE_OK), (r.1 =? SQLITE_DONE), (r.1 =? SQLITE_ROW).
Qed.

Lemma failing_code e : failing e -> good_code (error_reply e) = false.
Proof. unfold failing, good_code. simpl. lia. Qed.

Lemma reply_bind {B} f code context (k : M Connection B) P (Q : B -> Connection -> Prop) T :
  code ∈ [SQLITE_OK; SQLITE_DONE; SQLITE_ROW] ->
  (forall c, P c -> calls_ok c) ->
  (forall c, P c -> T (called c)) ->
  ends (fun c' => exists c, P c /\ c' = f (called c)) k Q T ->
  ends P (r ← op (reply_call f code); checkSqlite r context;; k) Q T.
Proof.
  intros Hcode Hok HT Hk c Hc. unfold mbind, M_bind, op. unfold reply_call.
  destruct (call_cases (fun c => ((code, None), f c)) error_reply c (Hok c Hc)) as [->|(e & He & ->)].
  - rewrite check_run. assert (good_code (code, None) = true) as ->.
    { unfold good_code. simpl. set_unfold in Hcode. destruct Hcode as [->|[->|[->|[]]]]; done. }
    apply Hk. by exists c.
  - rewrite check_run, failing_code by done. by apply HT.
Qed.

Section Specs.
Context `{RowChoice} (db : Database) (n : Z).

Lemma prepare_ends context : ends (at_rest db n) (prepare context) (fun _ => at_rest db (n + 1)) (thrown db n).
Proof using Type.
  unfold prepare. intros c (<- & <- & Hc). unfold mbind, M_bind, op, sqlite3_prepare_v2, reply_call.
  destruct (call_cases (fun c => ((SQLITE_OK, None), with_statements (db_statements c + 1) c)) error_reply c Hc)
    as [->|(e & He & ->)]; rewrite check_run.
  - split; [done|]. split; [done|]. by apply called_ok.
  - rewrite failing_code by done. unfold thrown. simpl. split; [done|lia].
Qed.

Lemma finalize_ends m : ends (at_rest db (m + 1)) (op sqlite3_finalize) (fun _ => at_rest db m) (thrown db n).
Proof using Type. intros c (<- & Hn & Hc). split; [done|]. split; [simpl; lia|done]. Qed.

Lemma run_update_ends context context' f :
  ends (at_rest db n) (run_update context context' f) (fun _ => at_rest (f db) n) (thrown db n).
Proof using Type.
  unfold run_update. eapply ends_bind; [apply prepare_ends|]. intros u. unfold step_update.
  apply reply_bind; [set_solver|by intros c (_ & _ & Hc)| |].
  - intros c (<- & Hn & _). unfold thrown. simpl. split; [done|lia].
  - intros c' (c & (<- & Hn & Hc) & ->). split; [done|]. split; [simpl; lia|]. by apply called_ok.
Qed.

(** A query that fails looks like one without a row. *)
Lemma run_query_ends {A} context (q : Database -> option A) :
  ends (at_rest db n) (run_query context q)
    (fun r c => (r = q db \/ r = None) /\ at_rest db n c) (thrown db n).
Proof using Type.
  unfold run_query. eapply ends_bind; [apply prepare_ends|]. intros u.
  eapply (ends_bind _ _ (fun r c => ((if r.1 =? SQLITE_ROW then r.2 else None) = q db \/
    (if r.1 =? SQLITE_ROW then r.2 else None) = None) /\ at_rest db (n + 1) c)).
  - intros c (<- & Hn & Hc). unfold op, step_query.
    match goal with |- context [sqlite_call ?g ?b c] => destruct (call_cases g b c Hc) as [->|(e & (_ & He & _) & ->)] end.
    + destruct (q (db_tables (called c))) eqn:E; simpl in *; (split; [by auto|]); (split; [done|split; [done|by apply called_ok]]).
    + simpl. replace (er_code e =? SQLITE_ROW) with false by (symmetry; apply Z.eqb_neq; done).
      split; [by right|]. split; [done|split; [done|by apply called_ok]].
  - intros r. apply ends_pure. intros Hr. eapply ends_bind; [apply finalize_ends|]. intros u'.
    apply ends_ret. intros c Hc. by split.
Qed.

Lemma exec_ends f : ends (at_rest db n) (exec f) (fun _ => at_rest (f db) n) (thrown db n).
Proof using Type.
  unfold exec. intros c (<- & <- & Hc). unfold mbind, M_bind, op, sqlite3_exec, reply_call.
  destruct (call_cases (fun c => ((SQLITE_OK, None), with_tables (f (db_tables c)) c)) error_reply c Hc)
    as [->|(e & (He & _) & ->)]; simpl.
  - split; [done|]. split; [done|]. by apply called_ok.
  - replace (er_code e =? SQLITE_OK) with false by (symmetry; by apply Z.eqb_neq).
    unfold thrown. simpl. split; [done|lia].
Qed.

Lemma getStat_ends key : ends (at_rest db n) (sql_getStat key)
  (fun v c => (v = getStat key db \/ v = 0) /\ at_rest db n c) (thrown db n).
Proof using Type.
  unfold sql_getStat. eapply ends_bind; [apply run_query_ends|]. intros r. apply ends_pure. intros Hr.
  apply ends_ret. intros c Hc. split; [|done]. destruct Hr as [->| ->]; [by left|by right].
Qed.

Lemma incrementStat_ends key delta : ends (at_rest db n) (sql_incrementStat key delta)
  (fun v c => (v = getStat key db + delta \/ v = delta) /\ at_rest (setStat key v db) n c) (thrown db n).
Proof using Type.
  unfold sql_incrementStat. eapply ends_bind; [apply getStat_ends|]. intros v. apply ends_pure. intros Hv.
  eapply ends_bind; [apply run_update_ends|]. intros u. apply ends_ret. intros c Hc. split; [|done].
  destruct Hv as [->| ->]; [by left|right; lia].
Qed.
End Specs.

(** ** Without errors *)

Section Healthy.
Context `{RowChoice}.

(** [m] returns [v] and does to the tables what [f] does. *)
Definition does {A} (m : M Connection A) (v : Database -> A) (f : Database -> Database) : Prop := forall c,
  healthy c -> exists c', m c = (Ok (v (db_tables c)), c') /\ healthy c' /\
    db_tables c' = f (db_tables c) /\ db_statements c' = db_statements c /\ db_set c' = db_set c.

Lemma does_bind {A B} (m : M Connection A) v f (k : A -> M Connection B) v' f' :
  does m v f -> (forall db, does (k (v db)) (v' db) (f' db)) ->
  does (m ≫= k) (fun db => v' db (f db)) (fun db => f' db (f db)).
Proof using Type.
  intros Hm Hk c Hc. destruct (Hm c Hc) as (c1 & E1 & Hc1 & <- & <- & <-). unfold mbind, M_bind. rewrite E1.
  exact (Hk (db_tables c) c1 Hc1).
Qed.

Lemma does_ret {A} (a : A) : does (mret a) (fun _ => a) id.
Proof using Type. intros c Hc. by exists c. Qed.

Lemma run_update_does context context' f : does (run_update context context' f) (fun _ => tt) f.
Proof using Type.
  intros c Hc. pose proof (called_healthy _ Hc) as Hc1. pose proof (called_healthy _ Hc1) as Hc2.
  unfold run_update, prepare, sqlite3_prepare_v2, step_update, reply_call, mbind, M_bind, op.
  rewrite healthy_call by done. rewrite check_run. cbn [good_code fst snd Z.eqb SQLITE_OK orb].
  rewrite healthy_call by exact Hc1. rewrite check_run. cbn.
  eexists. split; [reflexivity|]. split; [exact Hc2|]. split; [done|]. split; [simpl; lia|done].
Qed.

Lemma run_query_does {A} context (q : Database -> option A) : does (run_query context q) q id.
Proof using Type.
  intros c Hc. pose proof (called_healthy _ Hc) as Hc1. pose proof (called_healthy _ Hc1) as Hc2.
  unfold run_query, prepare, sqlite3_prepare_v2, step_query, reply_call, mbind, M_bind, op.
  rewrite healthy_call by done. rewrite check_run. cbn [good_code fst snd Z.eqb SQLITE_OK orb].
  rewrite healthy_call by exact Hc1. cbn. destruct (q (db_tables c)) eqn:E; cbn;
    (eexists; split; [reflexivity|]; split; [exact Hc2|]; split; [done|]; split; [simpl; lia|done]).
Qed.

Lemma exec_does f : does (exec f) (fun _ => tt) f.
Proof using Type.
  intros c Hc. pose proof (called_healthy _ Hc) as Hc1.
  unfold exec, sqlite3_exec, reply_call, mbind, M_bind, op. rewrite healthy_call by done. cbn.
  eexists. split; [reflexivity|]. by split_and!.
Qed.

Lemma getStat_does key : does (sql_getStat key) (getStat key) id.
Proof using Type.
  unfold sql_getStat.
  apply (does_bind _ (fun db => statistics db !! key) id _ (fun db _ => getStat key db) (fun _ => id));
    [apply run_query_does|]. intros db. apply does_ret.
Qed.

Lemma incrementStat_does key delta :
  does (sql_incrementStat key delta) (fun db => getStat key db + delta) (incrementStat key delta).
Proof using Type.
  unfold sql_incrementStat.
  apply (does_bind _ (getStat key) id _ (fun db _ => getStat key db + delta)
    (fun db => setStat key (getStat key db + delta))); [apply getStat_does|]. intros db.
  apply (does_bind _ (fun _ => tt) (setStat key (getStat key db + delta)) _ (fun _ _ => getStat key db + delta) (fun _ => id));
    [apply run_update_does|]. intros _. apply does_ret.
Qed.
Lemma initialize_does c : healthy c -> exists c', initialize c = (Ok tt, c') /\ healthy c' /\
  db_tables c' = db_tables c /\ db_set c' = true.
Proof using Type.
  intros Hc. unfold initialize, sqlite3_open, reply_call. unfold mbind at 1, M_bind at 1, op at 1.
  rewrite healthy_call by done. cbn [fst snd]. unfold mbind at 1, M_bind at 1. rewrite check_run.
  cbn [good_code fst snd Z.eqb SQLITE_OK orb id].
  set (c0 := Build_Connection _ _ _ _). assert (healthy c0) as H0 by exact (called_healthy _ Hc).
  destruct (does_bind (exec id) (fun _ => tt) id (fun _ => exec id;; exec id) (fun _ _ => tt) (fun _ => id)
    (exec_does id) (fun _ => does_bind _ _ _ _ (fun _ _ => tt) (fun _ => id) (exec_does id)
    (fun _ => exec_does id)) c0 H0) as (c' & E & Hc' & Ht & _ & Hs).
  by exists c'.
Qed.

(** The tables after an archived log are those of the downloader's catalog. *)
Lemma catalogue_does entry d r w :
  does (sql_catalogue entry d r (unixNow w)) (fun _ => tt) (fun db => w_db (catalogue entry d r (set_db db w))).
Proof using Type.
  unfold sql_catalogue.
  refine (does_bind _ _ _ _ (fun _ _ => tt) (fun _ db => setStat "last_archive_time" (unixNow w)
    (incrementStat "bytes_downloaded" (le_size entry) (incrementStat "flights_archived" 1 db)))
    (run_update_does _ _ _) (fun _ => _)).
  refine (does_bind _ _ _ _ (fun _ _ => tt) (fun _ db => setStat "last_archive_time" (unixNow w)
    (incrementStat "bytes_downloaded" (le_size entry) db)) (incrementStat_does _ _) (fun _ => _)).
  refine (does_bind _ _ _ _ (fun _ _ => tt) (fun _ db => setStat "last_archive_time" (unixNow w) db)
    (incrementStat_does _ _) (fun _ => _)).
  apply run_update_does.
Qed.
End Healthy.

(** The bookkeeping of an archived log when calls fail: the rows are those of before,
    or the log's row was added; and it was added when nothing was thrown. *)
Lemma catalogue_ends `{RowChoice} entry d r now db n : ends (at_rest db n) (sql_catalogue entry d r now)
  (fun _ c => archived_logs (db_tables c) = archived_logs (insertArchivedLog (dl_sha256 d) (le_id entry)
     (le_size entry) (le_time_utc entry) (dl_probe_sha256 d) (dl_probe_bytes d) now (archive_duration_ms r)
     (path_string (final_path r)) db))
  (fun c => archived_logs (db_tables c) = archived_logs db \/
     archived_logs (db_tables c) = archived_logs (insertArchivedLog (dl_sha256 d) (le_id entry)
     (le_size entry) (le_time_utc entry) (dl_probe_sha256 d) (dl_probe_bytes d) now (archive_duration_ms r)
     (path_string (final_path r)) db)).
Proof.
  set (db1 := insertArchivedLog _ _ _ _ _ _ _ _ _ db).
  assert (forall db2, archived_logs db2 = archived_logs db1 -> forall c, thrown db2 n c ->
    archived_logs (db_tables c) = archived_logs db \/ archived_logs (db_tables c) = archived_logs db1) as Hthrown.
  { intros db2 Hdb2 c [-> _]. by right. }
  unfold sql_catalogue. eapply ends_bind.
  { eapply ends_weaken; [apply (run_update_ends db n)|done|intros u c Hc; exact Hc|]. intros c [-> _]. by left. }
  intros u. eapply ends_bind.
  { eapply ends_weaken; [apply (incrementStat_ends db1 n)|done|intros v c [_ Hc]; exact Hc|by apply Hthrown]. }
  intros v. eapply ends_bind.
  { eapply ends_weaken; [apply incrementStat_ends|done|intros v' c [_ Hc]; exact Hc|by apply Hthrown]. }
  intros v'. eapply ends_weaken; [apply run_update_ends|done|by intros u' c [-> _]|by apply Hthrown].
Qed.

(** [initialize] succeeds exactly when none of its four calls fails. *)
Definition call_fails (c : Connection) : bool := bool_decide (is_Some (default None (head (db_calls c)))).

(** A computation of one call: it throws when the call fails. *)
Definition one_call (m : M Connection unit) : Prop := forall c, calls_ok c ->
  if call_fails c then exists what, (m c).1 = Throw what
  else exists c', m c = (Ok tt, c') /\ db_calls c' = tail (db_calls c).

Lemma exec_one_call f : one_call (exec f).
Proof.
  intros c Hc. unfold call_fails, exec, sqlite3_exec, reply_call, sqlite_call, mbind, M_bind, op.
  destruct c as [db st n [|[e|] calls]]; try (eexists; by split). apply Forall_cons in Hc as [He _].
  destruct (He e eq_refl) as (H0 & _). cbn.
  replace (er_code e =? SQLITE_OK) with false by (symmetry; by apply Z.eqb_neq). by eexists.
Qed.

Lemma open_one_call : one_call (r ← op sqlite3_open; checkSqlite r "sqlite3_open").
Proof.
  intros c Hc. unfold call_fails, sqlite3_open, reply_call, sqlite_call, mbind, M_bind, op.
  destruct c as [db st n [|[e|] calls]]; try (eexists; by split). apply Forall_cons in Hc as [He _].
  cbn -[checkSqlite]. rewrite check_run, failing_code by (by apply He). by eexists.
Qed.

(** The calls of [m] and of [k] one after the other. *)
Lemma calls_chain n m k c : one_call m ->
  (forall c', calls_ok c' -> (k c').1 = Ok tt <-> Forall (fun call => call = None) (take n (db_calls c'))) ->
  calls_ok c ->
  ((m;; k) c).1 = Ok tt <-> Forall (fun call => call = None) (take (S n) (db_calls c)).
Proof.
  intros Hm Hk Hc. specialize (Hm c Hc). unfold mbind, M_bind, call_fails in *.
  destruct (db_calls c) as [|[e|] calls] eqn:E; cbn in Hm.
  - destruct Hm as (c' & -> & Hc'). rewrite Hk by (unfold calls_ok; rewrite Hc'; constructor). rewrite Hc'. cbn. by rewrite take_nil.
  - destruct Hm as [what Hm]. destruct (m c) as [[] c']; try done. split; [done|].
    by intros [? _]%Forall_cons.
  - destruct Hm as (c' & -> & Hc'). unfold calls_ok in *. rewrite E in Hc. apply Forall_cons in Hc as [_ Hc].
    rewrite Hk by (by rewrite Hc'). rewrite Hc'. cbn. rewrite Forall_cons. tauto.
Qed.

Lemma initialize_opens c : calls_ok c ->
  (initialize c).1 = Ok tt <-> Forall (fun call => call = None) (take 4 (db_calls c)).
Proof.
  intros Hc. assert (initialize c = ((r ← op sqlite3_open; checkSqlite r "sqlite3_open");;
    exec id;; exec id;; exec id;; mret tt) c) as ->.
  { unfold initialize, mbind, M_bind, op. destruct (sqlite3_open c) as [r c1].
    destruct (checkSqlite r "sqlite3_open" c1) as [[]]; try done. destruct (exec id _) as [[] c2]; try done.
    destruct (exec id c2) as [[] c3]; try done. by destruct (exec id c3) as [[[]| |] c4]. }
  apply calls_chain; [apply open_one_call| |done]. intros c1 H1.
  do 3 (apply calls_chain; [apply exec_one_call| |done]; intros ? ?).
  split; [constructor|done].
Qed.

(** * Properties *)

(** C15. The catalog when SQLite calls fail, with whatever codes: a statement that writes
    is either executed, or the operation throws and the rows and counters are as
    before, with at most the one statement that failed left open; a lookup that fails
    after it was prepared counts as one that found nothing; and then a counter does not
    keep its value: [incrementStat] starts it again at [delta]. *)
Theorem sqlite_errors `{RowChoice} (db : Database) (n : Z) :
  (forall sha id size utc probe pn time ms name,
     ends (at_rest db n) (sql_insertArchivedLog sha id size utc probe pn time ms name)
       (fun _ => at_rest (insertArchivedLog sha id size utc probe pn time ms name db) n) (thrown db n)) /\
  ends (at_rest db n) sql_markAllErased (fun _ => at_rest (markAllErased db) n) (thrown db n) /\
  (forall key v, ends (at_rest db n) (sql_setStat key v) (fun _ => at_rest (setStat key v db) n) (thrown db n)) /\
  (forall id size, ends (at_rest db n) (sql_findCandidate id size)
     (fun found c => (found = findCandidate id size db \/ found = None) /\ at_rest db n c) (thrown db n)) /\
  (forall key delta, ends (at_rest db n) (sql_incrementStat key delta)
     (fun v c => (v = getStat key db + delta \/ v = delta) /\ at_rest (setStat key v db) n c) (thrown db n)) /\
  (forall key delta e rest c, failing e -> at_rest db n c -> db_calls c = [None; Some e; None; None] ++ rest ->
     exists c', sql_incrementStat key delta c = (Ok delta, c') /\ db_tables c' = setStat key delta db).
Proof.
  split; [intros; apply run_update_ends|]. split; [apply exec_ends|].
  split; [intros; apply run_update_ends|]. split; [intros; apply run_query_ends|].
  split; [intros; apply incrementStat_ends|].
  intros key delta e rest [tables set m calls] (_ & He & _) (<- & _ & _) Hc. simpl in Hc. subst calls.
  unfold sql_incrementStat, sql_getStat, run_query, sql_setStat, run_update, prepare, mbind, M_bind, op.
  unfold checkSqlite, mret, M_ret. cbn.
  replace (er_code e =? SQLITE_ROW) with false by (symmetry; by apply Z.eqb_neq). cbn.
  eexists. split; reflexivity.
Qed.

(** Without errors the calls do what the statements mean: every operation of the
    catalog returns what [Database] says, changes the tables in that way, leaves no
    statement open and throws nothing; so does the bookkeeping of an archived log,
    which gives the downloader's catalog. *)
Theorem sqlite_refines `{RowChoice} :
  (forall sha id size utc probe n time ms name,
     does (sql_insertArchivedLog sha id size utc probe n time ms name) (fun _ => tt)
       (insertArchivedLog sha id size utc probe n time ms name)) /\
  does sql_markAllErased (fun _ => tt) markAllErased /\
  (forall fc size, does (sql_findCandidate fc size) (findCandidate fc size) id) /\
  (forall fc size, does (sql_hasArchived fc size) (hasArchived fc size) id) /\
  (forall key, does (sql_getStat key) (getStat key) id) /\
  (forall key v, does (sql_setStat key v) (fun _ => tt) (setStat key v)) /\
  (forall key delta, does (sql_incrementStat key delta) (fun db => getStat key db + delta) (incrementStat key delta)) /\
  (forall entry d r w, does (sql_catalogue entry d r (unixNow w)) (fun _ => tt)
     (fun db => w_db (catalogue entry d r (set_db db w)))).
Proof.
  split; [intros; apply run_update_does|]. split; [apply exec_does|]. split; [intros; apply run_query_does|].
  split.
  { intros fc size. unfold sql_hasArchived, sql_findCandidate.
    refine (does_bind _ (findCandidate fc size) id _
      (fun db _ => match findCandidate fc size db with Some _ => true | None => false end) (fun _ => id) _ _).
    - apply run_query_does.
    - intros db. apply does_ret. }
  split; [apply getStat_does|]. split; [intros; apply run_update_does|].
  split; [apply incrementStat_does|apply catalogue_does].
Qed.

(** A busy database between two archived logs: the count of flights starts again. *)
Example counter_restarts :
  let busy := {| er_code := 5; er_message := Some "database is locked"%string |} in
  let c := new_connection (setStat "flights_archived" 41 empty_database) [None; Some busy; None; None] in
  (sql_incrementStat "flights_archived" 1 c).1 = Ok 1 /\
  getStat "flights_archived" (db_tables (sql_incrementStat "flights_archived" 1 c).2) = 1.
Proof. vm_compute. split; reflexivity. Qed.
