(* ===== verification/Reports.v ===== *)
(** What the service writes to its log where that is computed: the summary line of
    an archived log (src/ArchiveSummary.cpp), the benchmark of a session, the
    statistics, the effective companion settings (src/CompanionDiagnostics.cpp), the
    throttled warning about dropped chunks (the second half of [trimDataChunkQueue] in
    src/LogDownloader.cpp), the messages of [finalizePartial]
    (src/StorageManager.cpp), and the logger that takes them (src/Logger.cpp).

    A message is its level and its text.  spdlog is outside: of it the model takes that
    a logger passes a message of its level or above to its sinks in order, and then
    flushes them if the message is of the level [flush_on] or above.
    [std::fixed << std::setprecision(1)] rounds the exact value of the double to
    the nearest tenth, ties to even. *)

From S2P Require Import Prelude Types Database Storage Session DataFlash Downloader CompanionTypes.
From Stdlib Require Import Floats.SpecFloat.
From stdpp Require Import pretty.
Open Scope Z_scope.

Inductive Level := LevelDebug | LevelInfo | LevelWarn | LevelError.

#[global] Instance Level_eq_dec : EqDecision Level.
Proof. solve_decision. Defined.

(** * The logger *)

Inductive Sink := SystemdSink (name : string) | StdoutSink | FileSink (file_path : string) (truncate : bool).

#[global] Instance Sink_eq_dec : EqDecision Sink.
Proof. solve_decision. Defined.

Record Logger := {
  lg_name : string;
  lg_sinks : list Sink;
  lg_level : Level;
  lg_flush_on : Level;
}.

(** The constructor; [systemd]: the build has MCLS_HAS_SYSTEMD. *)
Definition new_logger (systemd : bool) (name : string) (verbose : bool) (file_path : string) : Logger :=
  {| lg_name := name;
     lg_sinks := [if systemd then SystemdSink name else StdoutSink] ++
                 (if String.eqb file_path "" then [] else [FileSink file_path true]);
     lg_level := if verbose then LevelDebug else LevelInfo;
     lg_flush_on := LevelInfo |}.

Definition Message : Type := Level * string.

Definition severity (l : Level) : Z :=
  match l with LevelDebug => 1 | LevelInfo => 2 | LevelWarn => 3 | LevelError => 4 end.

(** What happens to a sink. *)
Inductive SinkCall := Write (s : Sink) (m : Message) | Flush (s : Sink).

(** [spdlog::logger::log]. *)
Definition spdlog_log (lg : Logger) (m : Message) : list SinkCall :=
  if severity (lg_level lg) <=? severity m.1 then
    ((fun s => Write s m) <$> lg_sinks lg) ++
    (if severity (lg_flush_on lg) <=? severity m.1 then Flush <$> lg_sinks lg else [])
  else [].

Definition info (message : string) (lg : Logger) : list SinkCall := spdlog_log lg (LevelInfo, message).
Definition warn (message : string) (lg : Logger) : list SinkCall := spdlog_log lg (LevelWarn, message).
Definition error (message : string) (lg : Logger) : list SinkCall := spdlog_log lg (LevelError, message).
Definition debug (message : string) (lg : Logger) : list SinkCall := spdlog_log lg (LevelDebug, message).

(** Several messages in turn. *)
Definition log_all (ms : list Message) (lg : Logger) : list SinkCall := ms ≫= fun m => spdlog_log lg m.

(** * The summary of an archived log *)

Inductive VerificationOutcome := VerificationSkipped | VerificationOk | VerificationBad.

Definition outcomeStr (o : VerificationOutcome) : string :=
  match o with
  | VerificationOk => "ok"
  | VerificationBad => "failed"
  | VerificationSkipped => "skipped"
  end.

Record ArchivePerformanceSummary := {
  su_log_id : Z;
  su_total_size : Z;
  su_duration_ms : Z;
  su_avg_throughput_kbps : spec_float;
  su_download : StreamDownloadMetrics;
  su_parse_result : VerificationOutcome;
  su_sample_reread_result : VerificationOutcome;
  su_sha256 : string;
  su_final_decision : string;
  su_log_erase : string;
}.

(** The quotient rounded to the nearest integer, ties to even. *)
Definition round_half_even (n d : Z) : Z :=
  let q := n / d in
  let r := n mod d in
  if (2 * r <? d) || ((2 * r =? d) && Z.even q) then q else q + 1.

(** Ten times the value, rounded. *)
Definition tenths (m : positive) (e : Z) : Z :=
  if 0 <=? e then 10 * Z.pos m * 2 ^ e else round_half_even (10 * Z.pos m) (2 ^ (- e)).

(** [std::fixed << std::setprecision(1) << d]. *)
Definition fixed1 (d : spec_float) : string :=
  let sign (s : bool) : string := if s then "-" else "" in
  match d with
  | S754_zero s => sign s +:+ "0.0"
  | S754_infinity s => sign s +:+ "inf"
  | S754_nan => "nan"
  | S754_finite s m e =>
      let t := tenths m e in
      sign s +:+ pretty (t / 10) +:+ "." +:+ pretty (t mod 10)
  end.

Definition formatLine (s : ArchivePerformanceSummary) : string :=
  "ArchiveSummary log_id=" +:+ pretty (su_log_id s) +:+ " size=" +:+ pretty (su_total_size s) +:+
  " duration_ms=" +:+ pretty (su_duration_ms s) +:+
  " avg_kbps=" +:+ fixed1 (su_avg_throughput_kbps s) +:+ " duplicates=" +:+
  pretty (m_duplicate_packets (su_download s)) +:+ " gap_fills=" +:+ pretty (m_gap_fill_requests (su_download s)) +:+
  " overlap_conflicts=" +:+ pretty (m_overlap_conflicts (su_download s)) +:+
  " parse=" +:+ outcomeStr (su_parse_result s) +:+
  " sample_reread=" +:+ outcomeStr (su_sample_reread_result s) +:+
  " sha256=" +:+ (if String.eqb (su_sha256 s) "" then "-" else su_sha256 s) +:+
  " decision=" +:+ su_final_decision s +:+
  " erase=" +:+ su_log_erase s.

Definition logArchiveSummary (s : ArchivePerformanceSummary) : Logger -> list SinkCall := info (formatLine s).

(** The throughput of an archived log, in KiB a second. *)
Definition avg_throughput_kbps (size duration_ms : Z) : spec_float :=
  if 0 <? duration_ms then
    double_div (double_div (double_of_Z size) (double_of_Z 1024))
               (double_div (double_of_Z duration_ms) (double_of_Z 1000))
  else S754_zero false.

(** What [finalizePartial] logs; [rename_error]: the message of a failed rename, [dir]:
    what [open] and [fsync] say of the directory. *)
Definition finalize_messages (partial final : path) (fd rc : Z) (rename_error : option string) (dir : Z * Z)
    (st : Storage) : list Message :=
  match st_fs st !! partial with
  | None => [(LevelError, "Partial file missing: " +:+ path_string partial)]
  | Some _ =>
      if negb (fsyncFile fd rc) then [(LevelError, "Failed to fsync partial file: " +:+ path_string partial)]
      else match rename_error with
           | Some ec => [(LevelError, "Failed to rename partial to final: " +:+ ec)]
           | None =>
               if negb (fsyncParentDir dir.1 dir.2)
               then [(LevelWarn, "Failed to fsync parent directory for: " +:+ path_string final)] else []
           end
  end.

(** [logStall], which no code calls. *)
Definition logStall (retry_limit log_id offset expected received attempt : Z) (reason : string) : Message :=
  (LevelWarn, "LOG_DATA stall: log=" +:+ pretty log_id +:+ " offset=" +:+ pretty offset +:+
     " expected=" +:+ pretty expected +:+ "B received=" +:+ pretty received +:+
     "B attempt=" +:+ pretty (i32 (attempt + 1)) +:+ "/" +:+ pretty (i32 (retry_limit + 1)) +:+
     " reason=" +:+ reason).

(** [logBenchmark]; [elapsed_ms]: since the start of the session.  The quotient is
    below 2^31 for any log that took two milliseconds.  [estimated_rtt_ms], which
    is never assigned, stays 0. *)
Definition logBenchmark (log_id elapsed_ms bytes_received : Z) (m : StreamDownloadMetrics) : Message :=
  let sec := double_div (double_of_Z elapsed_ms) (double_of_Z 1000) in
  let kbps := if SFltb (S754_zero false) sec
              then double_div (double_div (double_of_Z bytes_received) (double_of_Z 1024)) sec
              else S754_zero false in
  (LevelInfo, "Benchmark log=" +:+ pretty log_id +:+ " kbps=" +:+ pretty (i32 (double_trunc kbps)) +:+
     " chunks=" +:+ pretty (m_log_data_packets m) +:+ " gap_fills=" +:+ pretty (m_gap_fill_requests m) +:+
     " queue_max=" +:+ pretty (m_queue_depth_max m) +:+ " rtt_ms=0").

(** [DroneLogService::logStatistics]. *)
Definition logStatistics (db : Database) (st : Storage) : Message :=
  let stat key := pretty (getStat key db) in
  (LevelInfo, "Statistics: flights_archived=" +:+ stat "flights_archived" +:+
     ", bytes_downloaded=" +:+ stat "bytes_downloaded" +:+
     ", archive_failures=" +:+ stat "archive_failures" +:+
     ", archive_cancellations=" +:+ stat "archive_cancellations" +:+
     ", retries=" +:+ stat "retries" +:+
     ", storage_bytes=" +:+ pretty (totalVerifiedBytes st) +:+
     ", last_archive_time=" +:+ stat "last_archive_time").

(** * The companion's settings *)

(** [socketErrorMessage]: [errno] and its [strerror]. *)
Definition socketErrorMessage (errno : Z) (strerror : Z -> string) : string :=
  "errno " +:+ pretty errno +:+ " " +:+ strerror errno.

Definition logEffectiveSettings (settings : CompanionSettings) (config_path : string)
    (companion_table_present : bool) : list Message :=
  [(LevelInfo, "Companion config from " +:+ config_path +:+ ": [companion] table " +:+
      (if companion_table_present then "present" else "absent (using defaults)"));
   (LevelInfo, "Companion enabled=" +:+ (if companion_enabled settings then "true" else "false") +:+
      " bind=" +:+ companion_bind_host settings +:+ ":" +:+ pretty (companion_bind_port settings) +:+
      " send=" +:+ send_host settings +:+ ":" +:+ pretty (send_port settings) +:+
      " auth=" +:+ (if String.eqb (token settings) "" then "disabled" else "token-configured") +:+
      " max_request_bytes=" +:+ pretty (max_request_bytes settings) +:+
      " max_response_bytes=" +:+ pretty (max_response_bytes settings) +:+
      " max_fc_logs_per_response=" +:+ pretty (max_fc_logs_per_response settings))] ++
  (if negb companion_table_present && negb (companion_enabled settings) then
     [(LevelInfo, "Companion hint: add [companion] enabled = true to " +:+ config_path +:+
        " (not sample_master_config.toml) then restart the service")]
   else []) ++
  (if companion_enabled settings && (companion_bind_port settings =? send_port settings) then
     [(LevelWarn, "Companion misconfiguration: bind_port and send_port are both " +:+
        pretty (companion_bind_port settings) +:+
        " — bind_port must differ (wfb-ng owns send_port, typically 14540)")]
   else []).

(** [logUdpPeer]: [peer] is what [getnameinfo] says. *)
Definition logUdpPeer (prefix : string) (peer : option (string * string)) : Message :=
  match peer with
  | Some (host, port) => (LevelDebug, prefix +:+ " from " +:+ host +:+ ":" +:+ port)
  | None => (LevelDebug, prefix +:+ " from unknown peer (getnameinfo failed)")
  end.

Definition with_token (t : string) (s : CompanionSettings) : CompanionSettings :=
  {| companion_enabled := companion_enabled s; companion_bind_host := companion_bind_host s;
     companion_bind_port := companion_bind_port s; send_host := send_host s; send_port := send_port s;
     token := t; max_request_bytes := max_request_bytes s; max_response_bytes := max_response_bytes s;
     max_fc_logs_per_response := max_fc_logs_per_response s;
     udp_proxy_keepalive_ms := udp_proxy_keepalive_ms s |}.

(** * The warning about dropped chunks *)

(** [last_queue_overflow_log_], 0 for never, and [queue_overflow_suppressed_]. *)
Record Throttle := { th_last : Z; th_suppressed : Z }.

Definition new_throttle : Throttle := {| th_last := 0; th_suppressed := 0 |}.

(** A warning: when, how many chunks, how many warnings were left out before it. *)
Record Dropped := { dr_time : Z; dr_chunks : Z; dr_suppressed : Z }.

Definition dropped_text (cap : Z) (d : Dropped) : Message :=
  (LevelWarn, "Dropped " +:+ pretty (dr_chunks d) +:+ " oldest LOG_DATA chunk(s) (queue cap=" +:+ pretty cap +:+ ")" +:+
     (if 0 <? dr_suppressed d then " [" +:+ pretty (dr_suppressed d) +:+ " similar events suppressed]" else "")).

(** The end of [trimDataChunkQueue], for [dropped] chunks at the time [now]. *)
Definition note_dropped (dropped now : Z) (th : Throttle) : list Dropped * Throttle :=
  if dropped =? 0 then ([], th)
  else if (th_last th =? 0) || (seconds 5 <=? now - th_last th) then
    ([{| dr_time := now; dr_chunks := dropped; dr_suppressed := th_suppressed th |}],
     {| th_last := now; th_suppressed := 0 |})
  else ([], {| th_last := th_last th; th_suppressed := u64 (th_suppressed th + 1) |}).

(** One call after the other: the chunks dropped and the time of each. *)
Fixpoint note_all (calls : list (Z * Z)) (th : Throttle) : list Dropped * Throttle :=
  match calls with
  | [] => ([], th)
  | (dropped, now) :: calls' =>
      let '(ds, th) := note_dropped dropped now th in
      let '(ds', th) := note_all calls' th in
      (ds ++ ds', th)
  end.

(** * What the messages say *)

(** The messages a sink was given. *)
Definition written (sink : Sink) (calls : list SinkCall) : list Message :=
  omap (fun c => match c with Write s m => if decide (s = sink) then Some m else None | Flush _ => None end) calls.

Lemma written_app sink calls calls' : written sink (calls ++ calls') = written sink calls ++ written sink calls'.
Proof. apply omap_app. Qed.

Lemma sinks_distinct systemd name verbose file_path : NoDup (lg_sinks (new_logger systemd name verbose file_path)).
Proof.
  cbn. destruct (String.eqb file_path ""); [apply NoDup_singleton|].
  destruct systemd; (constructor; [by intros ?%list_elem_of_singleton|apply NoDup_singleton]).
Qed.

Lemma written_once sink (sinks : list Sink) m : NoDup sinks ->
  written sink ((fun s => Write s m) <$> sinks) = if decide (sink ∈ sinks) then [m] else [].
Proof.
  induction 1 as [|s sinks Hs Hn IH]; [by rewrite decide_False by apply not_elem_of_nil|].
  cbn. fold (written sink ((fun s => Write s m) <$> sinks)). rewrite IH.
  destruct (decide (s = sink)) as [->|Hne].
  - rewrite (decide_False (P := sink ∈ sinks)) by done. by rewrite decide_True by left.
  - destruct (decide (sink ∈ sinks)).
    + by rewrite decide_True by (by right).
    + rewrite decide_False; [done|]. by intros [->|?]%elem_of_cons.
Qed.

Lemma written_flush sink (sinks : list Sink) : written sink (Flush <$> sinks) = [].
Proof. by induction sinks. Qed.

(** Every sink of the service's logger is given the same messages, in order and once
    each: all of them when it is verbose, and else all but the debug messages. *)
Theorem sinks_agree systemd name verbose file_path ms sink :
  sink ∈ lg_sinks (new_logger systemd name verbose file_path) ->
  written sink (log_all ms (new_logger systemd name verbose file_path)) =
  filter (fun m => verbose = true \/ m.1 <> LevelDebug) ms.
Proof.
  intros Hin. set (lg := new_logger systemd name verbose file_path) in *.
  pose proof (sinks_distinct systemd name verbose file_path) as Hn. fold lg in Hn. unfold log_all.
  induction ms as [|m ms IH]; [done|]. rewrite bind_cons, written_app, IH, filter_cons.
  assert (written sink (spdlog_log lg m) = if decide (verbose = true \/ m.1 <> LevelDebug) then [m] else []) as ->.
  { unfold spdlog_log. change (lg_level lg) with (if verbose then LevelDebug else LevelInfo).
    destruct (Z.leb_spec (severity (if verbose then LevelDebug else LevelInfo)) (severity m.1)) as [Hle|Hlt].
    - rewrite written_app, written_once, decide_True by done.
      assert (forall b : bool, written sink (if b then Flush <$> lg_sinks lg else []) = []) as ->
        by (intros []; [apply written_flush|done]).
      rewrite decide_True; [done|]. destruct verbose; [by left|right]. intros E. rewrite E in Hle. by simpl in Hle.
    - rewrite decide_False; [done|]. intros [->|Hm]; destruct m as [[] t]; simpl in Hlt; try lia; try done.
      all: destruct verbose; simpl in Hlt; lia. }
  by destruct (decide _).
Qed.

(** An error is logged exactly when the file was not archived. *)
Lemma finalize_reports put_time partial now elapsed fd rc rename_error dir st final :
  (finalizePartial put_time partial now elapsed fd rc (bool_decide (rename_error = None)) st).1 = None <->
  exists text, finalize_messages partial final fd rc rename_error dir st = [(LevelError, text)].
Proof.
  unfold finalizePartial, finalize_messages. destruct (st_fs st !! partial) as [node|]; [|by split; eauto].
  destruct (fsyncFile fd rc); cbn [negb]; [|by split; eauto].
  destruct rename_error as [ec|]; cbn [bool_decide negb]; [by split; eauto|].
  rewrite lookup_insert_eq. split; [done|]. destruct (fsyncParentDir _ _); by intros [? ?].
Qed.

Lemma settings_hide_token settings t t' config_path present : t <> ""%string -> t' <> ""%string ->
  logEffectiveSettings (with_token t settings) config_path present =
  logEffectiveSettings (with_token t' settings) config_path present.
Proof.
  intros Ht%String.eqb_neq Ht'%String.eqb_neq. unfold logEffectiveSettings, with_token. simpl.
  by rewrite Ht, Ht'.
Qed.

(** Rounding is to the nearest: twice the distance is at most the divisor. *)
Lemma round_half_even_near n d : 0 < d -> 2 * Z.abs (n - d * round_half_even n d) <= d.
Proof.
  intros Hd. unfold round_half_even. pose proof (Z.div_mod n d ltac:(lia)) as Hn.
  pose proof (Z.mod_pos_bound n d Hd) as Hm.
  destruct ((2 * (n mod d) <? d) || ((2 * (n mod d) =? d) && Z.even (n / d))) eqn:E; lia.
Qed.

Example benchmark_example :
  (logBenchmark 7 2000 1048576 no_metrics).2 =
  "Benchmark log=7 kbps=512 chunks=0 gap_fills=0 queue_max=0 rtt_ms=0"%string /\
  logBenchmark 7 0 1048576 no_metrics = logBenchmark 7 5 0 no_metrics.
Proof. vm_compute. done. Qed.

Example fixed1_examples :
  fixed1 (avg_throughput_kbps 1048576 2000) = "512.0"%string /\
  fixed1 (avg_throughput_kbps 100000 700) = "139.5"%string /\
  fixed1 (avg_throughput_kbps 5 0) = "0.0"%string.
Proof. vm_compute. done. Qed.

Section Throttling.
(** The events left out in the warnings. *)
Definition left_out (ds : list Dropped) : Z := foldr (fun d n => dr_suppressed d + n) 0 ds.

Lemma left_out_app ds ds' : left_out (ds ++ ds') = left_out ds + left_out ds'.
Proof. unfold left_out. induction ds as [|d ds IH]; simpl; [done|]. rewrite IH. lia. Qed.

(** The calls that dropped something. *)
Definition drops (calls : list (Z * Z)) : list (Z * Z) := filter (fun c => c.1 <> 0) calls.

(** Every call that dropped chunks is in a warning or counted as left out, and
    warnings are at least five seconds apart. *)
Lemma throttle_accounts calls : forall th,
  0 <= th_last th -> 0 <= th_suppressed th -> th_suppressed th + zlen calls < 2 ^ 64 ->
  Forall (fun c => 0 < c.2) calls ->
  let '(ds, th') := note_all calls th in
  zlen (drops calls) + th_suppressed th = zlen ds + left_out ds + th_suppressed th' /\
  match ds with
  | [] => th_last th' = th_last th
  | d :: _ => th_last th = 0 \/ th_last th + seconds 5 <= dr_time d
  end /\
  (forall i d d', ds !! i = Some d -> ds !! S i = Some d' -> dr_time d + seconds 5 <= dr_time d').
Proof.
  induction calls as [|[n now] calls IH]; intros th Hl Hs Hlt Hpos; cbn [note_all].
  { split; [unfold zlen; simpl; lia|]. by split. }
  apply Forall_cons in Hpos as [Hnow Hpos]. simpl in Hnow.
  unfold note_dropped, drops in *. unfold zlen in Hlt |- *. rewrite filter_cons. simpl length in Hlt. cbn [fst].
  destruct (Z.eqb_spec n 0) as [->|Hn].
  { rewrite decide_False by (by intros ?). specialize (IH th Hl Hs ltac:(unfold zlen; lia) Hpos).
    by destruct (note_all calls th). }
  rewrite decide_True by done. destruct ((th_last th =? 0) || (seconds 5 <=? now - th_last th)) eqn:E.
  - specialize (IH {| th_last := now; th_suppressed := 0 |} ltac:(simpl; lia) ltac:(simpl; lia)
      ltac:(simpl; unfold zlen; lia) Hpos). cbn [th_last th_suppressed] in IH.
    destruct (note_all calls _) as [ds th']. destruct IH as (Hc & Hfirst & Hgap). unfold zlen in *.
    cbn [app]. split; [cbn [length left_out foldr dr_suppressed]; fold (left_out ds); simpl length; lia|].
    split; [simpl; lia|]. intros [|i] d d' Hd Hd'; simpl in Hd, Hd'; [|by eapply Hgap].
    injection Hd as <-. destruct ds as [|d1 ds]; [done|]. injection Hd' as ->. simpl. destruct Hfirst; [lia|done].
  - specialize (IH {| th_last := th_last th; th_suppressed := u64 (th_suppressed th + 1) |}).
    cbn [th_last th_suppressed] in IH. rewrite u64_small in IH by lia.
    rewrite u64_small by lia.
    specialize (IH Hl ltac:(lia) ltac:(unfold zlen; lia) Hpos).
    destruct (note_all calls _) as [ds th']. destruct IH as (Hc & Hfirst & Hgap). unfold zlen in *.
    cbn [app]. split; [simpl length; lia|]. by split.
Qed.
End Throttling.
