(* ===== verification/DownloaderProofs.v ===== *)
(** Correctness of the downloader: its operations keep the laws of
    [SessionOwner], so that the session's theorems hold of it; what enumeration
    returns, what an archived, skipped or failed log leaves behind, and that a
    whole cycle ends. *)

From S2P Require Import Prelude Effects LogProtocol Types ReceivedRanges Sha256.
From S2P Require Import DataFlash FcSampleOffsets Database Storage Session SessionProofs Downloader.
From Stdlib Require Import Sorting.Sorted.
Open Scope Z_scope.

(** * The laws of the session's owner *)

Section Laws.
Context `{Platform} (settings : DownloadSettings).
Context (reliable : Prop) (good_chunk : LogDataChunk -> Prop) (good_entry : LogEntry -> Prop).

(** The chunk [onMessage] queues for a frame. *)
Definition chunk_of_frame (id ofs count : Z) (data : list Z) : LogDataChunk :=
  {| c_id := id; c_offset := ofs; c_count := count;
     c_data := take (Z.to_nat count) (data ++ past_data) |}.

Definition good_frame (f : Frame) : Prop :=
  match f with
  | LogEntryFrame e => good_entry e
  | LogDataFrame id ofs count data => count <> 0 -> good_chunk (chunk_of_frame id ofs count data)
  | OtherFrame => True
  end.

Definition good_event (ev : ThreadEvent) : Prop :=
  match ev with Receive f => good_frame f | CancelRequested => True end.

(** A [reliable] disk never fails. *)
Definition good_tick (k : Tick) : Prop :=
  0 <= k_elapsed k /\ Forall good_event (k_events k) /\ (reliable -> k_disk_ok k = true).

(** Frames are good, time does not run backwards, and the catalog, the archive
    directory, the entries and what was sent stay in [R]: a world for a session. *)
Context (R : Database -> Storage -> ArchiveFailureReason -> list (Request * bool) -> Prop).
Context (R_sent : forall db st last sent r ok, r <> LogErase ->
  R db st last sent -> R db st last (sent ++ [(r, ok)])).

Definition good_shared (sh : Shared) : Prop :=
  Forall good_chunk (sh_chunks sh) /\ Forall good_entry (sh_pending sh).

Definition good_world (w : World) : Prop :=
  Forall good_tick (w_script w) /\ good_shared (w_shared w) /\
  R (w_db w) (w_storage w) (w_last_failure w) (w_sent w).

Lemma run_events_good evs : forall sh, Forall good_event evs -> good_shared sh ->
  good_shared (foldl (fun sh ev => run_event settings ev sh) sh evs).
Proof using Type.
  induction evs as [|ev evs IH]; intros sh Hev Hsh; [done|].
  apply Forall_cons in Hev as [Hev Hevs]. apply IH; [done|]. destruct Hsh as [Hc He].
  destruct ev as [[e|id ofs count data|]|]; try done; simpl.
  - split; [done|]. simpl. apply Forall_app. by repeat constructor.
  - destruct (Z.eqb_spec count 0); [done|]. split; [|done]. simpl. unfold trimDataChunkQueue.
    apply Forall_drop, Forall_app. split; [done|]. repeat constructor. by apply Hev.
Qed.

Lemma interfere_good w : good_world w ->
  good_world (interfere settings w).2 /\ w_now w <= w_now (interfere settings w).2.
Proof using Type.
  intros (Hs & Hc & HR). unfold interfere. cbn [snd w_now].
  assert (good_tick (default quiet_tick (head (w_script w)))) as (Ht & Hev & _).
  { destruct (w_script w) as [|k ks]; simpl; [by split_and!|].
    by apply Forall_cons in Hs as [? _]. }
  split; [|lia]. split; [|split; [|done]]; simpl.
  - destruct (w_script w); [done|]. by apply Forall_cons in Hs as [_ ?].
  - by apply run_events_good.
Qed.

(** A step keeps the world good if its own effect does. *)
Definition keeps {A} (f : World -> A * World) : Prop :=
  forall w, good_world w -> good_world (f w).2 /\ w_now w <= w_now (f w).2.

Lemma atomic_keeps {A} (f : Tick -> World -> A * World) :
  (forall k, keeps (f k)) -> keeps (atomic settings f).
Proof using Type.
  intros Hf w Hw. unfold atomic. destruct (interfere_good w Hw) as [Hg Ht].
  destruct (interfere settings w) as [k w']. destruct (Hf k w' Hg) as [Hg' Ht'].
  simpl in *. split; [done|lia].
Qed.

Lemma read_keeps {A} (f : World -> A) : keeps (fun w => (f w, w)).
Proof using Type. intros w Hw. simpl. split; [done|lia]. Qed.

Lemma sendMessage_keeps r : r <> LogErase -> keeps (sendMessage settings r).
Proof using R_sent.
  intros Hr. apply atomic_keeps. intros k w (Hs & Hc & HR). split; [|simpl; lia].
  split; [done|]. split; [done|]. simpl. by apply R_sent.
Qed.

Lemma requestLogEnd_keeps : keeps (requestLogEnd settings).
Proof using R_sent. intros w Hw. refine (sendMessage_keeps LogRequestEnd _ w Hw); discriminate. Qed.

Lemma pass_time_keeps d w : 0 <= d -> good_world w ->
  good_world (pass_time d w) /\ w_now w + d <= w_now (pass_time d w).
Proof using Type. intros Hd Hw. split; [done|simpl; lia]. Qed.

Lemma wait_keeps d w : good_world w ->
  good_world (ld_wait settings d w).2 /\ w_now w < w_now (ld_wait settings d w).2.
Proof using Type.
  intros Hw. unfold ld_wait. destruct (w_script w) as [|k ks] eqn:E.
  - split; [done|simpl; lia].
  - destruct (interfere_good w Hw) as [Hg Ht]. destruct (interfere settings w) as [k' w'].
    simpl in *. split; [done|lia].
Qed.

Lemma sleep_keeps d : keeps (ld_sleep_for settings d).
Proof using Type. apply atomic_keeps. intros k w Hw. split; [done|simpl; lia]. Qed.

Lemma sleep_turns_keeps n : forall d w, good_world w ->
  good_world (sleep_turns settings n d w) /\ w_now w <= w_now (sleep_turns settings n d w).
Proof using Type.
  induction n as [|n IH]; intros d w Hw; cbn [sleep_turns]; [split; [done|lia]|].
  case_bool; [|split; [done|lia]].
  assert (keeps (ld_cancelled settings)) as Hk by (apply atomic_keeps; intros k; apply read_keeps).
  destruct (Hk w Hw) as [Hg Ht].
  destruct (ld_cancelled settings w) as [stop w']. cbn [fst snd] in *. destruct stop; [done|].
  destruct (sleep_keeps (Z.min (ms 100) d) w' Hg) as [Hg' Ht'].
  destruct (IH (d - Z.min (ms 100) d) _ Hg') as [Hg'' Ht'']. split; [done|lia].
Qed.

Lemma classify_keeps : keeps (classifyTimeout settings).
Proof using Type.
  intros w Hw. unfold classifyTimeout. destruct (interfere_good w Hw) as [Hg Ht].
  destruct (interfere settings w) as [k w']. cbn [fst snd] in *.
  destruct (k_connected k); cbn [negb snd]; [|done].
  destruct (interfere_good w' Hg) as [Hg' Ht']. destruct (interfere settings w') as [k' w''].
  cbn [fst snd] in *. destruct (k_fresh k'); cbn [negb snd]; (split; [done|lia]).
Qed.

Lemma clear_keeps : keeps (clearDataChunks settings).
Proof using Type.
  apply atomic_keeps. intros k w (Hs & [Hc He] & HR). split; [|simpl; lia]. by repeat split.
Qed.

Lemma abort_keeps why : keeps (abortTransfer settings why).
Proof using R_sent.
  intros w Hw. unfold abortTransfer. destruct (clear_keeps w Hw) as [Hg Ht].
  destruct (requestLogEnd_keeps _ Hg) as [Hg' Ht']. split; [done|lia].
Qed.

Lemma drain_keeps id : keeps (ld_drainLogDataChunks settings id).
Proof using Type.
  apply atomic_keeps. intros k w (Hs & [Hc He] & HR). split; [|simpl; lia].
  split; [done|]. split; [|done]. split; [|done]. simpl. by apply Forall_filter_weaken.
Qed.

Lemma progress_keeps n : keeps (ld_updateProgressBytes settings n).
Proof using Type. apply atomic_keeps. intros k w Hw. split; [done|simpl; lia]. Qed.

Lemma drained_good id w : good_world w ->
  Forall (fun c => good_chunk c /\ c_id c = id) (ld_drainLogDataChunks settings id w).1.
Proof using Type.
  intros Hw. unfold ld_drainLogDataChunks, atomic.
  destruct (interfere_good w Hw) as [(_ & [Hc _] & _) _].
  destruct (interfere settings w) as [k w']. cbn [fst snd] in *. rewrite Forall_forall in Hc |- *.
  intros c [Hid Hin]%list_elem_of_filter. split; [by apply Hc|done].
Qed.

(** The downloader is a lawful owner of its sessions. *)
#[export] Instance Downloader_laws :
  @SessionOwnerLaws World (Downloader_owner settings) good_world good_chunk w_now.
Proof using R_sent.
  split; simpl.
  - apply atomic_keeps. intros k. apply read_keeps.
  - apply drain_keeps.
  - apply clear_keeps.
  - intros id o n. by apply sendMessage_keeps.
  - apply requestLogEnd_keeps.
  - apply atomic_keeps. intros k. apply read_keeps.
  - intros d w Hw. destruct (wait_keeps d w Hw). split; [done|lia].
  - intros d w Hw. apply sleep_turns_keeps, Hw.
  - apply sleep_keeps.
  - apply classify_keeps.
  - apply progress_keeps.
  - apply abort_keeps.
  - apply atomic_keeps. intros k. apply read_keeps.
  - apply atomic_keeps. intros k. apply read_keeps.
  - exact drained_good.
  - intros w Hw. unfold ld_now, atomic. by destruct (interfere settings w).
  - intros d w Hw _. apply wait_keeps, Hw.
Qed.
End Laws.

(** * Triples *)

Section Triples.
Context `{Platform} (settings : DownloadSettings).
Context (reliable : Prop) (good_chunk : LogDataChunk -> Prop) (good_entry : LogEntry -> Prop).
Context (sent0 : list (Request * bool)).

(** What was sent since [sent0] holds no LOG_ERASE. *)
Definition no_erase_since (sent : list (Request * bool)) : Prop :=
  exists l, sent = sent0 ++ l /\ Forall (fun r => r.1 <> LogErase) l.

Definition exactly (db : Database) (st : Storage) (last : ArchiveFailureReason)
    (db' : Database) (st' : Storage) (last' : ArchiveFailureReason) (sent : list (Request * bool))
  : Prop :=
  db' = db /\ st' = st /\ last' = last /\ no_erase_since sent.

Lemma exactly_sent db st last db' st' last' sent r ok : r <> LogErase ->
  exactly db st last db' st' last' sent -> exactly db st last db' st' last' (sent ++ [(r, ok)]).
Proof using Type.
  intros Hr (? & ? & ? & l & -> & Hl). split_and!; try done.
  exists (l ++ [(r, ok)]). rewrite app_assoc. split; [done|]. apply Forall_app. by repeat constructor.
Qed.

Local Abbreviation good db st last := (good_world reliable good_chunk good_entry (exactly db st last)).

(** The main thread at a time not before [t], with this catalog, archive
    directory and failure reason. *)
Definition at_state (db : Database) (st : Storage) (last : ArchiveFailureReason) (t : Z)
  : World -> Prop := clocked (good db st last) w_now t.

Lemma at_state_mono db st last t t' w : t' <= t -> at_state db st last t w -> at_state db st last t' w.
Proof using Type. intros Ht [Hg Hw]. split; [done|lia]. Qed.

(** A step that keeps the state, followed by [k]. *)
Lemma spec_keep {A B} D db st last t (f : World -> A * World) (k : A -> M World B) Q :
  keeps reliable good_chunk good_entry (exactly db st last) f ->
  (forall a, spec D (at_state db st last t) (k a) Q) ->
  spec D (at_state db st last t) (op f ≫= k) Q.
Proof using Type. intros Hf Hk. apply spec_then; [exact Hf|exact Hk]. Qed.

Lemma spec_time {B} D db st last t (k : Z -> M World B) Q :
  (forall now, t <= now -> spec D (at_state db st last now) (k now) Q) ->
  spec D (at_state db st last t) (op (ld_now settings) ≫= k) Q.
Proof using Type.
  apply spec_clock.
  - apply (atomic_keeps settings reliable good_chunk good_entry (exactly db st last)). intros k'. apply read_keeps.
  - intros w Hw. unfold ld_now, atomic. by destruct (interfere settings w).
Qed.

(** Steps that only read, or only touch what the session may touch. *)
Lemma read_op {A} db st last (f : World -> A) :
  keeps reliable good_chunk good_entry (exactly db st last) (atomic settings (fun _ w => (f w, w))).
Proof using Type. apply atomic_keeps. intros k. apply read_keeps. Qed.

Lemma send_op db st last r : r <> LogErase ->
  keeps reliable good_chunk good_entry (exactly db st last) (sendMessage settings r).
Proof using Type. intros Hr. apply sendMessage_keeps; [|done]. intros *. apply exactly_sent. Qed.

Lemma end_op db st last :
  keeps reliable good_chunk good_entry (exactly db st last) (requestLogEnd settings).
Proof using Type. apply requestLogEnd_keeps. intros *. apply exactly_sent. Qed.

Lemma interruptible_op db st last d :
  keeps reliable good_chunk good_entry (exactly db st last) (ld_interruptibleSleep settings d).
Proof using Type. intros w Hw. apply sleep_turns_keeps, Hw. Qed.

(** A wait, after which the clock has moved. *)
Lemma spec_wait {A B} D db st last t (f : World -> A * World) (k : A -> M World B) Q :
  (forall w, good db st last w -> good db st last (f w).2 /\ w_now w < w_now (f w).2) ->
  (forall a, spec D (at_state db st last (t + 1)) (k a) Q) ->
  spec D (at_state db st last t) (op f ≫= k) Q.
Proof using Type.
  intros Hf Hk. eapply spec_bind; [|exact Hk]. apply spec_op. intros w [Hg Ht].
  destruct (Hf w Hg). split; [done|lia].
Qed.

(** ** Enumeration *)

Lemma wait_and_count_keeps db st last w : good db st last w ->
  good db st last (wait_and_count settings w).2 /\
  w_now w < w_now (wait_and_count settings w).2.
Proof using Type.
  intros Hw. unfold wait_and_count. destruct (wait_keeps settings _ _ _ _ (ms 200) w Hw).
  by destruct (ld_wait settings (ms 200) w).
Qed.

Lemma settle_spec (D : Prop) db st last fuel : forall deadline seen lp t,
  D \/ deadline - t < Z.of_nat fuel -> 0 < Z.of_nat fuel \/ D ->
  spec D (at_state db st last t) (settle settings fuel deadline seen lp)
    (fun _ => at_state db st last t).
Proof using Type.
  induction fuel as [|fuel IH]; intros deadline seen lp t Hf H0; cbn [settle].
  { destruct H0; [lia|by apply spec_fuel]. }
  apply spec_time. intros now Hnow.
  assert (forall A (m : M World A), spec D (at_state db st last now) m (fun _ => at_state db st last now) ->
    spec D (at_state db st last now) m (fun _ => at_state db st last t)) as Hmono.
  { intros A m Hm. eapply spec_post; [exact Hm|]. intros a w. by apply at_state_mono. }
  case_bool; [|apply Hmono; by apply spec_ret].
  apply spec_keep; [apply read_op|]. intros stop. destruct stop; [apply Hmono; by apply spec_ret|].
  apply spec_wait; [apply wait_and_count_keeps|]. intros count.
  assert (forall seen' lp' t', now + 1 <= t' -> spec D (at_state db st last t')
    (settle settings fuel deadline seen' lp') (fun _ => at_state db st last t)) as Hrec.
  { intros seen' lp' t' Ht'. eapply spec_post; [apply (IH deadline seen' lp' t')|].
    - destruct Hf as [|Hf]; [by left|right]. lia.
    - destruct Hf as [|Hf]; [by right|left]. lia.
    - intros a w. apply at_state_mono. lia. }
  case_bool; apply spec_time; intros now' Hnow'; [by apply Hrec|].
  case_bool; [|by apply Hrec]. apply spec_ret. intros w. apply at_state_mono. lia.
Qed.

(** Fuel for one settling: its deadline is 15 s away. *)
Definition settle_fuel : Z := seconds 15.

Lemma enumerate_loop_spec (D : Prop) db st last fuel left : forall attempt n t,
  D \/ settle_fuel < Z.of_nat fuel ->
  spec D (at_state db st last t) (enumerate_loop settings fuel left attempt n)
    (fun _ => at_state db st last t).
Proof using Type.
  induction left as [|left IH]; intros attempt n t Hf; cbn [enumerate_loop]; [by apply spec_ret|].
  apply spec_keep; [by apply send_op|]. intros _. apply spec_keep; [apply read_op|]. intros seen.
  apply spec_time. intros start Hstart.
  eapply spec_bind.
  { apply settle_spec; (destruct Hf as [|Hf]; [by auto|]); unfold settle_fuel, seconds in *; [right|left]; lia. }
  intros []. apply spec_keep; [apply read_op|]. intros total.
  eapply (spec_bind D _ _ (fun _ => at_state db st last start)).
  { case_bool; [by apply spec_ret|]. apply spec_harmless, read_op. }
  intros stop. assert (forall w, at_state db st last start w -> at_state db st last t w) as Hmono
    by (intros w; by apply at_state_mono).
  case_bool; [apply spec_ret; auto|].
  apply spec_keep; [apply interruptible_op|]. intros _. apply spec_keep; [apply read_op|].
  intros stop'. destruct stop'; [apply spec_ret; auto|].
  eapply spec_weaken; [apply IH, Hf|exact Hmono|done].
Qed.

Lemma clear_pending_keeps db st last :
  keeps reliable good_chunk good_entry (exactly db st last) (atomic settings (fun _ w => (tt, clear_pending w))).
Proof using Type.
  apply atomic_keeps. intros k w (Hs & [Hc He] & HR). split; [|simpl; lia]. 
  split; [done|]. split; [|done]. split; [done|constructor].
Qed.

(** Enumeration touches neither catalog nor archives, and its entries were reported. *)
Lemma enumerateLogs_spec (D : Prop) db st last fuel t : D \/ settle_fuel < Z.of_nat fuel ->
  spec D (at_state db st last t) (enumerateLogs settings fuel)
    (fun logs w => (exists entries, Forall good_entry entries /\
                      logs = unique_ids (sort_list id_leb entries)) /\ at_state db st last t w).
Proof using Type.
  intros Hf. unfold enumerateLogs. apply spec_keep; [apply clear_pending_keeps|]. intros _.
  eapply spec_bind; [by apply enumerate_loop_spec|]. intros [].
  eapply (spec_bind D _ _ (fun entries w => Forall good_entry entries /\ at_state db st last t w)).
  { apply spec_op. intros w [Hg Ht]. destruct (read_op db st last (fun w => sh_pending (w_shared w)) w Hg)
      as [Hg' Ht']. fold (take_pending settings) in *. split; [|split; [done|lia]].
    unfold take_pending, atomic in *. destruct (interfere settings w) as [k w']. simpl in *.
    destruct Hg' as (_ & [_ He] & _). exact He. }
  intros entries. apply spec_pure. intros He. apply spec_keep; [apply end_op|]. intros _.
  apply spec_return. by exists entries.
Qed.

(** ** Sessions of the downloader *)

Lemma spec_at {A} D db st last (m : M World A) Q :
  (forall t, spec D (at_state db st last t) m Q) -> spec D (good db st last) m Q.
Proof using Type. intros Hm w Hw. apply (Hm (w_now w) w). split; [done|lia]. Qed.

Lemma keep_good {A} D db st last (f : World -> A * World) :
  keeps reliable good_chunk good_entry (exactly db st last) f ->
  spec D (good db st last) (op f) (fun _ => good db st last).
Proof using Type. intros Hf. apply spec_op. intros w Hw. by apply Hf. Qed.

(** A step that keeps the state, then [k]. *)
Lemma keep_then {A B} D db st last (f : World -> A * World) (k : A -> M World B) Q :
  keeps reliable good_chunk good_entry (exactly db st last) f ->
  (forall a, spec D (good db st last) (k a) Q) -> spec D (good db st last) (op f ≫= k) Q.
Proof using Type. intros Hf Hk. eapply spec_bind; [by apply keep_good|done]. Qed.

(** Logs of less than 2 GiB, where no [int] of the source overflows. *)
Definition session_ok (p : Params) : Prop :=
  p_byte_offset p = 0 /\ 0 <= p_byte_count p < 2 ^ 31 /\ 0 <= p_probe_bytes p < 2 ^ 31.

Lemma session_spec (D : Prop) db st last fuel p file :
  session_ok p -> (forall c, good_chunk c -> chunk_wf c) ->
  D \/ Z.max 0 (retry_count settings + 1) + Z.max 0 (fc_busy_retry_attempts settings) +
       enough_fuel settings p < Z.of_nat fuel ->
  spec D (good db st last)
    (@run World (Downloader_owner settings) settings p fuel file)
    (fun r w => (sr_success r.1 = true ->
       exists cs, @delivered World (Downloader_owner settings) (good db st last) good_chunk p file
                    r.1 r.2 cs) /\ good db st last w).
Proof using Type.
  intros (Ho & Hc & Hp) Hwf Hf. destruct (Z.eq_dec (p_byte_count p) 0) as [H0|H0].
  - unfold run. rewrite H0. simpl Z.eqb. cbv iota.
    eapply (spec_bind _ _ _ (fun d w => d = sha256 [] /\ good db st last w)).
    { eapply spec_or_throw; [apply hashHex_sha256|]. auto. }
    intros d. apply spec_pure. intros ->. apply spec_ret. intros w Hw. split; [|done].
    intros _. exists []. unfold delivered. cbn [fst snd sr_ranges sr_sha256 sr_probe_sha256].
    rewrite H0. change (payload []) with (@nil Z). rewrite take_nil.
    split; [constructor|]. split; [lia|]. by split_and!.
  - assert (params_ok p) as Hpo by (constructor; [done|lia|done]).
    apply spec_at. intros t.
    pose proof (Downloader_laws settings reliable good_chunk good_entry (exactly db st last)
      (fun db' st' last' sent r ok => exactly_sent db st last db' st' last' sent r ok)) as Hlaws.
    eapply spec_post; [exact (run_spec (good db st last) good_chunk w_now settings p Hpo Hwf file D
      fuel t Hf)|]. by intros r w [Hr Hw].
Qed.

(** Fuel enough for every loop of an archive cycle over logs below 2 GiB. *)
Definition cycle_fuel : Z :=
  Z.max 0 (retry_count settings + 1) + Z.max 0 (fc_busy_retry_attempts settings) +
  2 ^ 31 * (timeout_ns settings + 2) + timeout_ns settings + 2 + 2 ^ 32 + settle_fuel.

Lemma cycle_fuel_session (D : Prop) fuel p : session_ok p -> D \/ cycle_fuel < Z.of_nat fuel ->
  D \/ Z.max 0 (retry_count settings + 1) + Z.max 0 (fc_busy_retry_attempts settings) +
       enough_fuel settings p < Z.of_nat fuel.
Proof using Type.
  intros (_ & Hc & _) [HD|Hf]; [by left|right]. unfold cycle_fuel, settle_fuel, seconds in Hf.
  unfold enough_fuel. assert (0 <= timeout_ns settings) by (unfold timeout_ns; lia). nia.
Qed.

(** ** Waiting for one chunk *)

Lemma take_chunk_spec id ofs chunks :
  let '(found, rest) := take_chunk id ofs chunks in
  (forall c, c ∈ rest -> c ∈ chunks) /\
  (forall data, found = Some data ->
     exists c, c ∈ chunks /\ c_id c = id /\ c_offset c = ofs /\ c_data c = data).
Proof using Type.
  induction chunks as [|c chunks IH]; simpl; [done|].
  destruct (negb (c_id c =? id) || negb (c_offset c =? ofs))%bool eqn:E.
  - destruct (take_chunk id ofs chunks) as [found rest]. destruct IH as [Hin Hf]. split.
    + intros c' [->|Hc']%elem_of_cons; [by left|right; auto].
    + intros data Hd. destruct (Hf data Hd) as (c' & ? & ?). exists c'. split; [by right|done].
  - apply orb_false_iff in E as [E1 E2]. zb. destruct (c_data c) as [|b data] eqn:Ed.
    + split; [|done]. intros c' Hc'. by right.
    + split; [intros c' Hc'; by right|]. intros data' [= <-]. exists c. split; [by left|done].
Qed.

Lemma wait_and_take_keeps db st last id ofs w : good db st last w ->
  let '(found, w') := wait_and_take settings id ofs w in
  (good db st last w' /\ w_now w < w_now w') /\
  (forall data, found = Some data ->
     exists c, good_chunk c /\ c_id c = id /\ c_offset c = ofs /\ c_data c = data).
Proof using Type.
  intros Hw. unfold wait_and_take. destruct (wait_keeps settings _ _ _ _ (ms 50) w Hw) as [Hg Ht].
  destruct (ld_wait settings (ms 50) w) as [u w1]. cbn [snd] in *.
  destruct Hg as (Hs & [Hc He] & HR). pose proof (take_chunk_spec id ofs (sh_chunks (w_shared w1))) as Htc.
  destruct (take_chunk id ofs (sh_chunks (w_shared w1))) as [found rest]. destruct Htc as [Hin Hf].
  rewrite Forall_forall in Hc. split; [split; [|done]|].
  - split; [done|]. split; [|done]. split; [|done]. simpl. apply Forall_forall. auto.
  - intros data Hd. destruct (Hf data Hd) as (c & Hc' & ?). exists c. split; [by apply Hc|done].
Qed.

Definition from_chunk (id ofs : Z) (found : option (list Z)) : Prop :=
  forall data, found = Some data ->
    exists c, good_chunk c /\ c_id c = id /\ c_offset c = ofs /\ c_data c = data.

Lemma wait_loop_spec (D : Prop) db st last fuel id ofs deadline : forall t,
  D \/ deadline - t < Z.of_nat fuel -> D \/ 0 < Z.of_nat fuel ->
  spec D (at_state db st last t) (wait_loop settings fuel id ofs deadline)
    (fun found w => from_chunk id ofs found /\ good db st last w).
Proof using Type.
  induction fuel as [|fuel IH]; intros t Hf H0; cbn [wait_loop].
  { destruct H0; [by apply spec_fuel|lia]. }
  apply spec_time. intros now Hnow.
  assert (forall found, from_chunk id ofs found ->
    spec D (at_state db st last now) (mret found)
      (fun found w => from_chunk id ofs found /\ good db st last w)) as Hret.
  { intros found Hfound. apply spec_ret. intros w [Hw _]. done. }
  case_bool; [|by apply Hret]. apply spec_keep; [apply read_op|]. intros []; [by apply Hret|].
  eapply (spec_bind _ _ _ (fun found w => from_chunk id ofs found /\ at_state db st last (now + 1) w)).
  { apply spec_op. intros w [Hg Ht]. pose proof (wait_and_take_keeps db st last id ofs w Hg) as Hw.
    destruct (wait_and_take settings id ofs w) as [found w']. destruct Hw as [[Hg' Ht'] Hfound].
    split; [exact Hfound|]. split; [done|simpl; lia]. }
  intros found. apply spec_pure. intros Hfound. destruct found as [data|].
  { apply spec_ret. intros w [Hw _]. done. }
  apply IH; (destruct Hf as [|Hf]; [by left|right]); lia.
Qed.

Lemma waitForLogData_spec (D : Prop) db st last fuel id ofs : D \/ cycle_fuel < Z.of_nat fuel ->
  spec D (good db st last)
    (waitForLogData settings fuel id ofs (seconds (download_timeout_sec settings)))
    (fun found w => from_chunk id ofs found /\ good db st last w).
Proof using Type.
  intros Hf. apply spec_at. intros t. unfold waitForLogData. apply spec_time. intros now Hnow.
  apply wait_loop_spec; (destruct Hf as [|Hf]; [by left|right]);
    unfold cycle_fuel, settle_fuel, timeout_ns, seconds in *; nia.
Qed.

(** ** The re-read of samples *)

(** A chunk received again at [ofs] agreed with the file. *)
Definition sample_agrees (id : Z) (bytes : list Z) (ofs : Z) : Prop :=
  exists c, good_chunk c /\ c_id c = id /\ c_offset c = ofs /\
    c_data c = char_value <$> take (length (c_data c)) (drop (Z.to_nat ofs) bytes).

Lemma read_chunk_take g bytes ofs chunk file_buf g' :
  read_chunk g bytes ofs = (file_buf, g') -> same_bytes chunk file_buf = true -> chunk <> [] ->
  chunk = char_value <$> take (length chunk) (drop (Z.to_nat ofs) bytes).
Proof using Type.
  unfold read_chunk, same_bytes. intros Hr [Hl Heq]%andb_true_iff Hne.
  apply Nat.eqb_eq in Hl. apply bool_decide_eq_true in Heq.
  destruct g; injection Hr as <- <-; [|by rewrite Heq in Hne].
  rewrite Heq at 1. f_equal. rewrite <- Hl, length_take.
  rewrite <- (take_ge (drop (Z.to_nat ofs) bytes) (length (drop (Z.to_nat ofs) bytes))) at 1 by lia.
  by rewrite take_take.
Qed.

Lemma reread_samples_spec (D : Prop) db st last fuel entry bytes offsets : forall g,
  (forall c, good_chunk c -> chunk_wf c) -> D \/ cycle_fuel < Z.of_nat fuel ->
  spec D (good db st last) (reread_samples settings fuel entry bytes g offsets)
    (fun same w => (same = true -> Forall (sample_agrees (le_id entry) bytes) offsets) /\
                   good db st last w).
Proof using Type.
  intros g Hwf Hf. revert g. induction offsets as [|ofs offsets IH]; intros g; cbn [reread_samples].
  - apply keep_then; [apply end_op|]. intros u. apply spec_ret. intros w Hw. split; [constructor|done].
  - apply keep_then; [by apply send_op|]. intros sent. case_bool; [by apply spec_ret|].
    eapply spec_bind; [by apply waitForLogData_spec|]. intros found. apply spec_pure. intros Hfound.
    destruct found as [chunk|]; [|by apply spec_ret].
    destruct (read_chunk g bytes ofs) as [file_buf g'] eqn:Er. destruct (same_bytes chunk file_buf) eqn:Es;
      [|by apply spec_ret].
    eapply spec_post; [apply IH|]. intros same w [Hs Hw]. split; [|done]. intros Ht.
    constructor; [|by apply Hs]. destruct (Hfound chunk eq_refl) as (c & Hc & Hid & Ho & Hd).
    exists c. rewrite Hd. split_and!; try done. eapply read_chunk_take; [done..|].
    destruct (Hwf c Hc) as (_ & Hn & Hl). rewrite Hd in Hl. intros ->. unfold zlen in Hl. simpl in Hl. lia.
Qed.

(** ** Downloads *)

(** A log the cycle can handle: an id and a size below 2 GiB. *)
Definition entry_ok (entry : LogEntry) : Prop := 0 <= le_size entry < 2 ^ 31.

Context (Hwf : forall c, good_chunk c -> chunk_wf c).
Context (Hprobe : 0 <= probe_bytes settings < 2 ^ 31).

Lemma act_spec D (P : World -> Prop) (f : World -> World) (Q : unit -> World -> Prop) :
  (forall w, P w -> Q tt (f w)) -> spec D P (act f) Q.
Proof using Type. apply spec_act. Qed.

Lemma fail_as_spec D db st last f :
  spec D (good db st last) (fail_as f) (fun _ => good db st f).
Proof using Type.
  apply spec_act. intros w (Hs & Hsh & Hdb & Hst & Hl & Hsent).
  split; [done|]. split; [done|]. by split_and!.
Qed.

(** The pieces behind a successful session for [p]. *)
Definition session_pieces (p : Params) (r : StreamDownloadResult) (f : File) : Prop :=
  exists db st last cs,
    @delivered World (Downloader_owner settings) (good db st last) good_chunk p new_file r f cs.

Definition probe_params (entry : LogEntry) : Params :=
  {| p_log_id := le_id entry; p_byte_offset := 0; p_byte_count := probe_count settings entry;
     p_probe_bytes := i32 (probe_count settings entry); p_write_file := false |}.

Lemma probe_count_bounds entry : entry_ok entry -> 0 <= probe_count settings entry <= le_size entry.
Proof using Hprobe.
  unfold entry_ok, probe_count. intros He. rewrite i32_small by lia. rewrite u32_small; lia.
Qed.

Lemma probe_params_ok entry : entry_ok entry -> session_ok (probe_params entry).
Proof using Hprobe.
  intros He. pose proof (probe_count_bounds entry He). unfold entry_ok in He.
  unfold session_ok, probe_params. simpl. rewrite i32_small by lia. lia.
Qed.

(** A probe confirms a duplicate only by the digest and the length of the probe. *)
Definition probe_matches (entry : LogEntry) (candidate : ArchivedLogCandidate) : Prop :=
  ca_probe_bytes candidate = probe_count settings entry /\
  exists r f, session_pieces (probe_params entry) r f /\ sr_success r = true /\
    sr_probe_sha256 r = ca_probe_sha256 candidate.

Lemma downloadProbeAndCompare_spec (D : Prop) db st last fuel entry candidate :
  entry_ok entry -> D \/ cycle_fuel < Z.of_nat fuel ->
  spec D (good db st last) (downloadProbeAndCompare settings fuel entry candidate)
    (fun dup w => exists last', (dup = true -> probe_matches entry candidate) /\ good db st last' w).
Proof using Hprobe Hwf.
  intros He Hf. unfold downloadProbeAndCompare. apply keep_then; [apply clear_keeps|]. intros u.
  pose proof (probe_params_ok entry He) as Hp.
  eapply spec_bind; [apply (session_spec D db st last fuel (probe_params entry) new_file Hp Hwf);
    by apply cycle_fuel_session|].
  intros [result f]. apply spec_pure. cbn [fst snd]. intros Hr.
  apply keep_then; [apply end_op|]. intros u'. destruct (sr_success result) eqn:Hs; simpl negb; cbv iota.
  - apply spec_ret. intros w Hw. exists last. split; [|done].
    intros [Hd Hn]%andb_true_iff. apply String.eqb_eq in Hd. zb. split.
    + rewrite <- Hn. pose proof (probe_count_bounds entry He). unfold entry_ok in He.
      by rewrite i32_small by lia.
    + exists result, f. split_and!; try done. destruct (Hr eq_refl) as [cs Hcs]. by exists db, st, last, cs.
  - eapply spec_bind; [apply fail_as_spec|]. intros []. apply spec_ret. intros w Hw. eexists. by split.
Qed.

(** [st'] is [st] with the file [p] changed or gone. *)
Definition same_but (p : path) (st st' : Storage) : Prop :=
  st_root st' = st_root st /\ st_max_size_gb st' = st_max_size_gb st /\
  st_partial_counter st' = st_partial_counter st /\
  (forall q, q <> p -> st_fs st' !! q = st_fs st !! q).

Lemma same_but_refl p st : same_but p st st.
Proof using Type. done. Qed.

Lemma same_but_trans p st st' st'' : same_but p st st' -> same_but p st' st'' -> same_but p st st''.
Proof using Type.
  intros (Hr & Hg & Hn & Hq) (Hr' & Hg' & Hn' & Hq'). split_and!; try congruence.
  intros q Hne. by rewrite Hq', Hq.
Qed.

Lemma same_but_fs p st n : same_but p st (with_fs (<[p := n]> (st_fs st)) st).
Proof using Type. split_and!; try done. intros q Hq. simpl. by rewrite lookup_insert_ne. Qed.

Lemma same_but_delete p st : same_but p st (with_fs (delete p (st_fs st)) st).
Proof using Type. split_and!; try done. intros q Hq. simpl. by rewrite lookup_delete_ne. Qed.

(** In some archive directory that differs from [st] in [p] at most. *)
Definition changed (p : path) (db : Database) (st : Storage) (w : World) : Prop :=
  exists st' last, same_but p st st' /\ good db st' last w.

Lemma put_file_spec D db st last p bytes :
  spec D (good db st last) (act (put_file p bytes))
    (fun _ w => exists n, n_bytes n = bytes /\ good db (with_fs (<[p := n]> (st_fs st)) st) last w).
Proof using Type.
  apply spec_act. intros w (Hs & Hsh & Hdb & Hst & Hl & Hsent).
  exists {| n_bytes := bytes; n_mtime := w_wall w |}. split; [done|].
  split; [done|]. split; [done|]. split; [done|]. split; [|by split]. simpl. by rewrite Hst.
Qed.

Lemma open_truncate_spec D db st last p :
  spec D (good db st last) (op (open_truncate settings p))
    (fun ok w => if ok : bool
       then exists n, good db (with_fs (<[p := n]> (st_fs st)) st) last w
       else good db st last w).
Proof using Type.
  apply spec_op. intros w Hw. unfold open_truncate, atomic.
  destruct (interfere_good settings _ _ _ _ w Hw) as [Hg _].
  destruct (interfere settings w) as [k w']. cbn [snd] in Hg. destruct (k_disk_ok k); [|exact Hg].
  destruct Hg as (Hs & Hsh & Hdb & Hst & Hl & Hsent).
  exists {| n_bytes := []; n_mtime := w_wall w' |}.
  split; [done|]. split; [done|]. split; [done|]. split; [|by split]. simpl. by rewrite Hst.
Qed.

Lemma full_params_ok entry : entry_ok entry -> session_ok (full_params settings entry).
Proof using Hprobe. intros He. split; [done|]. split; [exact He|exact Hprobe]. Qed.

(** A finished download: the partial file holds what the session wrote. *)
Definition downloaded (entry : LogEntry) (partial : path) (d : Download) (st' : Storage) : Prop :=
  exists r f n, session_pieces (full_params settings entry) r f /\ sr_success r = true /\
    st_fs st' !! partial = Some n /\ n_bytes n = f_bytes f /\ dl_sha256 d = sr_sha256 r /\
    dl_probe_sha256 d = sr_probe_sha256 r.

Lemma downloadLogData_spec (D : Prop) db st last fuel entry partial :
  entry_ok entry -> D \/ cycle_fuel < Z.of_nat fuel ->
  spec D (good db st last) (downloadLogData settings fuel entry partial)
    (fun d w => exists st' last', same_but partial st st' /\
       (dl_ok d = true -> downloaded entry partial d st') /\ good db st' last' w).
Proof using Hprobe Hwf.
  intros He Hf. unfold downloadLogData.
  apply (keep_then D db st last (ld_now settings)); [apply read_op|]. intros start.
  eapply spec_bind; [apply fail_as_spec|]. intros [].
  apply keep_then; [apply clear_keeps|]. intros u.
  eapply spec_bind; [apply open_truncate_spec|]. intros []; simpl negb; cbv iota.
  2: { eapply spec_bind; [apply fail_as_spec|]. intros []. apply spec_ret. intros w Hw.
       exists st, StorageError. split; [apply same_but_refl|]. by split. }
  apply spec_ex. intros n0. set (st1 := with_fs _ st).
  assert (same_but partial st st1) as Hst1 by apply same_but_fs.
  eapply spec_bind; [apply (session_spec D db st1 NoFailure fuel (full_params settings entry) new_file);
    [by apply full_params_ok|done|by apply cycle_fuel_session, Hf; apply full_params_ok]|].
  intros [result f]. apply spec_pure. cbn [fst snd]. intros Hr.
  eapply spec_bind; [apply put_file_spec|]. intros []. apply spec_ex. intros n. apply spec_pure. intros Hn.
  set (st2 := with_fs _ st1).
  assert (same_but partial st st2) as Hst2 by (eapply same_but_trans; [exact Hst1|apply same_but_fs]).
  apply keep_then; [apply end_op|]. intros u'.
  destruct (sr_success result) eqn:Hs; simpl negb; cbv iota.
  2: { eapply spec_bind; [apply fail_as_spec|]. intros []. apply spec_ret. intros w Hw.
       exists st2, (sr_failure result). by split_and!. }
  case_bool; (eapply spec_bind; [apply fail_as_spec|]); intros []; apply spec_ret; intros w Hw.
  - exists st2, VerificationFailed. by split_and!.
  - exists st2, NoFailure. split; [done|]. split; [|done]. intros _.
    destruct (Hr eq_refl) as [cs Hcs]. exists result, f, n. split; [by exists db, st1, NoFailure, cs|].
    split; [done|]. split; [apply lookup_insert_eq|]. by split_and!.
Qed.

(** ** Verification *)

Lemma read_file_spec D db st last p :
  spec D (good db st last) (op (read_file settings p))
    (fun c w => (forall bytes, c = Contents bytes -> n_bytes <$> st_fs st !! p = Some bytes) /\
                good db st last w).
Proof using Type.
  apply spec_op. intros w Hw. unfold read_file, atomic.
  destruct (interfere_good settings _ _ _ _ w Hw) as [Hg _].
  destruct (interfere settings w) as [k w']. cbn [fst snd] in *. split; [|done].
  destruct Hg as (_ & _ & _ & -> & _). intros bytes.
  destruct (st_fs st !! p) as [node|]; [|done]. destruct (k_disk_ok k); [|done]. by intros [= <-].
Qed.

(** The file at [p] passed the DataFlash walk. *)
Definition parsed (st : Storage) (p : path) : Prop :=
  verify_dataflash_parse settings = true ->
  exists bytes r, n_bytes <$> st_fs st !! p = Some bytes /\
    validateDataFlashBuffer bytes = Some r /\ DataFlash.ok r = true.

Lemma verifyDataFlashFile_spec D db st last p :
  spec D (good db st last) (verifyDataFlashFile settings p)
    (fun b w => (b = true -> parsed st p) /\ good db st last w).
Proof using Type.
  unfold verifyDataFlashFile, parsed.
  destruct (verify_dataflash_parse settings); simpl negb; cbv iota; [|by apply spec_ret].
  eapply spec_bind; [apply read_file_spec|]. intros contents. apply spec_pure. intros Hc.
  assert (exists r, validateDataFlashFile contents = Some r) as [r Hr].
  { destruct contents; try (eexists; reflexivity). apply validateBytes_some. }
  rewrite Hr. eapply (spec_bind _ _ _ (fun r' w => r' = r /\ good db st last w)); [by apply spec_ret|].
  intros r'. apply spec_pure. intros ->. destruct (DataFlash.ok r) eqn:Hok; simpl negb; cbv iota;
    [|by apply spec_ret].
  apply (keep_then D db st last (atomic settings (fun _ w => _))); [apply read_op|].
  intros size. apply spec_ret. intros w Hw. split; [|done]. intros _ _.
  destruct contents as [| | |bytes]; simpl in Hr; try (injection Hr as <-; done).
  exists bytes, r. split; [by apply Hc|]. by split.
Qed.

(** What a successful re-read means in the sampling mode. *)
Definition reread_agrees (entry : LogEntry) (st : Storage) (p : path) (sha : string) : Prop :=
  parseFcRereadMode (verify_fc_reread settings) = RereadSample ->
  let offsets := buildFcSampleOffsets (le_size entry) (verify_fc_reread_sample_count settings)
                   (le_id entry) (le_size entry) sha in
  offsets = [] \/
  exists bytes, n_bytes <$> st_fs st !! p = Some bytes /\
    Forall (sample_agrees (le_id entry) bytes) offsets.

Lemma reread_params_ok entry : entry_ok entry -> session_ok (reread_params entry).
Proof using Type. intros He. split; [done|]. split; [exact He|]. simpl. lia. Qed.

Lemma verifyFcSampleReread_spec (D : Prop) db st last fuel entry p sha :
  entry_ok entry -> D \/ cycle_fuel < Z.of_nat fuel ->
  spec D (good db st last) (verifyFcSampleReread settings fuel entry p sha)
    (fun b w => (b = true -> reread_agrees entry st p sha) /\ good db st last w).
Proof using Hwf.
  intros He Hf. unfold verifyFcSampleReread, reread_agrees.
  destruct (parseFcRereadMode (verify_fc_reread settings)).
  - by apply spec_ret.
  - cbv zeta. destruct (buildFcSampleOffsets _ _ _ _ _) as [|o os]; [by apply spec_ret; auto|].
    eapply spec_bind; [apply read_file_spec|]. intros contents. apply spec_pure. intros Hc.
    destruct contents as [| | |bytes]; try (by apply spec_ret).
    apply keep_then; [apply clear_keeps|]. intros u.
    eapply spec_post; [by apply reread_samples_spec|]. intros same w [Hs Hw]. split; [|done].
    intros Ht _. right. exists bytes. split; [by apply Hc|by apply Hs].
  - apply keep_then; [apply clear_keeps|]. intros u.
    eapply spec_bind; [apply (session_spec D db st last fuel (reread_params entry) new_file);
      [by apply reread_params_ok|done|by apply cycle_fuel_session, Hf; apply reread_params_ok]|].
    intros [result f]. apply spec_pure. intros _. apply keep_then; [apply end_op|]. intros u'.
    by apply spec_ret.
Qed.

(** ** Archiving one log *)

(** The files of [st] below the logs directory are all in [st'], unchanged, but
    for the path [dest]. *)
Definition archives_kept_but (dest : option path) (st st' : Storage) : Prop :=
  st_root st' = st_root st /\ st_max_size_gb st' = st_max_size_gb st /\
  (forall q, under (logs_dir st) q = true -> Some q <> dest -> st_fs st' !! q = st_fs st !! q).

Lemma same_but_archives name st st' st'' :
  st_root st' = st_root st -> st_max_size_gb st' = st_max_size_gb st -> st_fs st' = st_fs st ->
  same_but (tmp_dir st ++ [name]) st' st'' -> archives_kept_but None st st''.
Proof using Type.
  intros Hr Hg Hfs (Hr' & Hg' & _ & Hq). split; [congruence|]. split; [congruence|].
  intros q Ha _. rewrite Hq, Hfs; [done|]. intros ->. by rewrite partial_not_under in Ha.
Qed.

(** A log that was downloaded, checked, moved into the archive and catalogued. *)
Definition archived (entry : LogEntry) (db' : Database) (st' : Storage) (dest : path) : Prop :=
  exists r f node row,
    session_pieces (full_params settings entry) r f /\ sr_success r = true /\
    st_fs st' !! dest = Some node /\ n_bytes node = f_bytes f /\
    archived_logs db' !! sr_sha256 r = Some row /\ row_log_id row = le_id entry /\
    row_log_size row = le_size entry /\ row_filename row = path_string dest /\
    row_probe_sha256 row = sr_probe_sha256 r /\ row_erased row = false /\
    (verify_dataflash_parse settings = true ->
       exists v, validateDataFlashBuffer (f_bytes f) = Some v /\ DataFlash.ok v = true) /\
    (parseFcRereadMode (verify_fc_reread settings) = RereadSample ->
       Forall (sample_agrees (le_id entry) (f_bytes f))
         (buildFcSampleOffsets (le_size entry) (verify_fc_reread_sample_count settings)
            (le_id entry) (le_size entry) (sr_sha256 r))).

(** What each result does to the catalog and the archives. *)
Definition archive_effect (entry : LogEntry) (db : Database) (st : Storage) (r : ArchiveResult)
    (db' : Database) (st' : Storage) : Prop :=
  match r with
  | Downloaded =>
      exists dest, archived entry db' st' dest /\ under (logs_dir st) dest = true /\
        archives_kept_but (Some dest) st st' /\
        (forall sha, is_Some (archived_logs db !! sha) -> is_Some (archived_logs db' !! sha))
  | SkippedDuplicate =>
      archived_logs db' = archived_logs db /\ st' = st /\
      exists candidate, findCandidate (le_id entry) (le_size entry) db = Some candidate /\
        probe_matches entry candidate
  | _ => archived_logs db' = archived_logs db /\ archives_kept_but None st st'
  end.

Definition archive_post (entry : LogEntry) (db : Database) (st : Storage) (r : ArchiveResult)
    (w : World) : Prop :=
  exists db' st' last', good db' st' last' w /\ archive_effect entry db st r db' st'.

Lemma begin_partial_spec D db st last :
  spec D (good db st last) (op (begin_partial settings))
    (fun p w => exists name st1, (p = tmp_dir st ++ [name] /\ st_root st1 = st_root st /\
       st_max_size_gb st1 = st_max_size_gb st /\ st_fs st1 = st_fs st) /\ good db st1 last w).
Proof using Type.
  apply spec_op. intros w Hw. unfold begin_partial, atomic.
  destruct (interfere_good settings _ _ _ _ w Hw) as [Hg _].
  destruct (interfere settings w) as [k w']. cbn [snd] in Hg.
  destruct Hg as (Hs & Hsh & Hdb & Hst & Hl & Hsent). rewrite Hst. unfold beginPartialFile.
  eexists _, {| st_root := st_root st; st_max_size_gb := st_max_size_gb st; st_fs := st_fs st;
                st_partial_counter := st_partial_counter st + 1 |}.
  split; [split; [reflexivity|split; [|split]]; reflexivity|]. cbn [snd fst].
  split; [exact Hs|]. split; [exact Hsh|].
  split; [exact Hdb|split; [reflexivity|split; [exact Hl|exact Hsent]]].
Qed.

Lemma progress_begin_op db st last id n :
  keeps reliable good_chunk good_entry (exactly db st last) (updateProgressBegin settings id n).
Proof using Type. apply atomic_keeps. intros k w Hw. split; [done|simpl; lia]. Qed.

Lemma progress_end_op db st last :
  keeps reliable good_chunk good_entry (exactly db st last) (updateProgressEnd settings).
Proof using Type. apply atomic_keeps. intros k w Hw. split; [done|simpl; lia]. Qed.

Lemma discard_spec D db st last p :
  spec D (good db st last) (discard settings p) (fun _ => good db (with_fs (delete p (st_fs st)) st) last).
Proof using Type.
  unfold discard. apply keep_then; [apply progress_end_op|]. intros u.
  eapply (spec_bind _ _ _ (fun _ => good db (with_fs (delete p (st_fs st)) st) last)); [|by intros; apply spec_ret].
  apply spec_op. intros w Hw. unfold remove_file, atomic.
  destruct (interfere_good settings _ _ _ _ w Hw) as [Hg _].
  destruct (interfere settings w) as [k w']. cbn [snd] in Hg.
  destruct Hg as (Hs & Hsh & Hdb & Hst & Hl & Hsent). split; [done|]. split; [done|]. simpl.
  by rewrite Hst.
Qed.

(** Counting touches no log. *)
Lemma incrementStat_spec D db st last key n :
  spec D (good db st last) (act (incrementStat_op key n)) (fun _ => good (incrementStat key n db) st last).
Proof using Type.
  apply spec_act. intros w (Hs & Hsh & Hdb & Hst & Hl & Hsent). split; [done|]. split; [done|].
  unfold incrementStat_op. simpl. rewrite Hdb. by split_and!.
Qed.

(** The exits of a failed archive. *)
Lemma fail_exit_spec D entry db st0 st last key (r : ArchiveResult) :
  r = ArchiveFailed \/ r = ArchiveCancelled -> archives_kept_but None st0 st ->
  spec D (good db st last) (act (incrementStat_op key 1);; mret r) (archive_post entry db st0).
Proof using Type.
  intros Hr Hk. eapply spec_bind; [apply incrementStat_spec|]. intros []. apply spec_ret.
  intros w Hw. exists (incrementStat key 1 db), st, last. split; [exact Hw|].
  by destruct Hr as [-> | ->].
Qed.

Lemma finalize_spec D db st last partial start :
  spec D (good db st last) (op (finalize_op settings partial start))
    (fun r w => match r with
       | None => good db st last w
       | Some r => exists node st', (st_fs st !! partial = Some node /\
           st_fs st' !! final_path r = Some node /\ under (logs_dir st) (final_path r) = true /\
           st_root st' = st_root st /\
           st_max_size_gb st' = st_max_size_gb st /\
           (forall q, q <> partial -> q <> final_path r -> st_fs st' !! q = st_fs st !! q)) /\
           good db st' last w
       end).
Proof using Type.
  apply spec_op. intros w Hw. unfold finalize_op, atomic.
  destruct (interfere_good settings _ _ _ _ w Hw) as [Hg _].
  destruct (interfere settings w) as [k w']. cbn [snd] in Hg.
  destruct Hg as (Hs & Hsh & Hdb & Hst & Hl & Hsent). rewrite Hst. unfold finalizePartial.
  destruct (st_fs st !! partial) as [node|] eqn:E; [|by split_and!].
  unfold sync_view. destruct (k_disk_ok k); [|by split_and!]. cbn [fsyncFile negb fst snd final_path Z.ltb Z.eqb Z.compare].
  rewrite lookup_insert_eq. cbn [fst snd final_path].
  set (dest := final_path_at put_time (unixNow w') st).
  exists node, (with_fs (<[dest := node]> (delete partial (st_fs st))) st).
  split; [split; [reflexivity|]|split; [done|split; [done|by split_and!]]].
  cbn [st_fs with_fs st_root st_max_size_gb]. split; [apply lookup_insert_eq|].
  split; [apply final_path_under|]. split; [done|].
  split; [done|]. intros q Hq Hf. by rewrite lookup_insert_ne, lookup_delete_ne by done.
Qed.

Lemma catalogue_spec D db st last entry d r :
  spec D (good db st last) (act (catalogue entry d r))
    (fun _ w => exists db' row, (archived_logs db' !! dl_sha256 d = Some row /\
       row_log_id row = le_id entry /\ row_log_size row = le_size entry /\
       row_filename row = path_string (final_path r) /\
       row_probe_sha256 row = dl_probe_sha256 d /\ row_erased row = false /\
       (forall sha, is_Some (archived_logs db !! sha) -> is_Some (archived_logs db' !! sha))) /\
       good db' st last w).
Proof using Type.
  apply spec_act. intros w (Hs & Hsh & Hdb & Hst & Hl & Hsent).
  exists (w_db (catalogue entry d r w)).
  exists {| row_log_id := le_id entry; row_log_size := le_size entry;
            row_log_time_utc := le_time_utc entry; row_probe_sha256 := dl_probe_sha256 d;
            row_probe_bytes := dl_probe_bytes d; row_archive_time := unixNow w;
            row_duration_ms := archive_duration_ms r; row_filename := path_string (final_path r);
            row_erased := false |}.
  split.
  { split; [apply lookup_insert_eq|]. split_and!; try done. rewrite <- Hdb. intros sha Hsha.
    apply lookup_insert_is_Some'. by right. }
  split; [exact Hs|]. split; [exact Hsh|]. split; [reflexivity|].
  split; [exact Hst|]. split; [exact Hl|exact Hsent].
Qed.

(** Drop the partial file and fail. *)
Lemma discard_exit_spec D entry db st0 st last partial reason :
  archives_kept_but None st0 (with_fs (delete partial (st_fs st)) st) ->
  spec D (good db st last)
    (discard settings partial;; fail_as reason;;
     act (incrementStat_op "archive_failures" 1);; mret ArchiveFailed)
    (archive_post entry db st0).
Proof using Type.
  intros Hk. eapply spec_bind; [apply discard_spec|]. intros [].
  eapply spec_bind; [apply fail_as_spec|]. intros [].
  apply fail_exit_spec; [by left|exact Hk].
Qed.

(** The file that passed every check, moved to [dest] and catalogued. *)
Lemma archived_intro entry db' st2 st3 partial d row node dest :
  downloaded entry partial d st2 -> parsed st2 partial ->
  reread_agrees entry st2 partial (dl_sha256 d) ->
  st_fs st2 !! partial = Some node -> st_fs st3 !! dest = Some node ->
  archived_logs db' !! dl_sha256 d = Some row -> row_log_id row = le_id entry ->
  row_log_size row = le_size entry -> row_filename row = path_string dest ->
  row_probe_sha256 row = dl_probe_sha256 d -> row_erased row = false ->
  archived entry db' st3 dest.
Proof using Type.
  intros (res & f & n & Hp & Hs & Hn & Hb & Hsha & Hpsha) Hparse Hre Hnode Hdest Hrow Hid Hsz Hname Hpr Her.
  rewrite Hn in Hnode. injection Hnode as <-. exists res, f, n, row. rewrite <- Hsha.
  split_and!; try done; [congruence| |].
  - intros Hv. destruct (Hparse Hv) as (bytes & v & Hbytes & Hval & Hok). rewrite Hn in Hbytes. simpl in Hbytes.
    injection Hbytes as <-. rewrite <- Hb. by exists v.
  - intros Hm. specialize (Hre Hm). cbv zeta in Hre. destruct Hre as [->|(bytes & Hbytes & Hall)]; [constructor|].
    rewrite Hn in Hbytes. simpl in Hbytes. injection Hbytes as <-. by rewrite <- Hb.
Qed.

Lemma archives_kept_delete name st st1 st2 :
  st_root st1 = st_root st -> st_max_size_gb st1 = st_max_size_gb st -> st_fs st1 = st_fs st ->
  same_but (tmp_dir st ++ [name]) st1 st2 ->
  archives_kept_but None st (with_fs (delete (tmp_dir st ++ [name]) (st_fs st2)) st2).
Proof using Type.
  intros Hr Hg Hf Hsame. eapply (same_but_archives name st st1); [done..|].
  eapply same_but_trans; [exact Hsame|apply same_but_delete].
Qed.

Lemma archives_kept_moved name st st2 st3 dest :
  archives_kept_but None st st2 -> st_root st3 = st_root st2 -> st_max_size_gb st3 = st_max_size_gb st2 ->
  (forall q, q <> tmp_dir st ++ [name] -> q <> dest -> st_fs st3 !! q = st_fs st2 !! q) ->
  archives_kept_but (Some dest) st st3.
Proof using Type.
  intros (Hr & Hg & Hq) Hr' Hg' Hq'. split; [congruence|]. split; [congruence|].
  intros q Ha Hne. rewrite Hq', Hq; try done; [|by intros ->].
  intros ->. by rewrite partial_not_under in Ha.
Qed.

(** The exit of a failed download. *)
Lemma download_failed_spec D entry db st0 st last partial :
  archives_kept_but None st0 (with_fs (delete partial (st_fs st)) st) ->
  spec D (good db st last)
    (discard settings partial;;
     reason ← op (fun w => (w_last_failure w, w));
     stop ← (if bool_decide (reason = ReasonCancelled) then mret true else op (ld_cancelled settings));
     if stop : bool then act (incrementStat_op "archive_cancellations" 1);; mret ArchiveCancelled
     else act (incrementStat_op "archive_failures" 1);; mret ArchiveFailed)
    (archive_post entry db st0).
Proof using Type.
  intros Hk. eapply spec_bind; [apply discard_spec|]. intros [].
  apply keep_then; [apply read_keeps|]. intros reason.
  eapply (spec_bind _ _ _ (fun _ => good db (with_fs (delete partial (st_fs st)) st) last)).
  { case_bool_decide; [by apply spec_ret|apply keep_good, read_op]. }
  intros []; apply fail_exit_spec; auto.
Qed.

Lemma download_and_archive_spec (D : Prop) db st last fuel entry :
  entry_ok entry -> D \/ cycle_fuel < Z.of_nat fuel ->
  spec D (good db st last) (download_and_archive settings fuel entry) (archive_post entry db st).
Proof using Hprobe Hwf.
  intros He Hf. unfold download_and_archive.
  eapply spec_bind; [apply begin_partial_spec|]. intros partial.
  apply spec_ex; intros name. apply spec_ex; intros st1. apply spec_pure. intros (-> & Hr & Hg & Hfs).
  apply keep_then; [apply progress_begin_op|]. intros u.
  eapply spec_bind; [by apply downloadLogData_spec|]. intros d.
  apply spec_ex; intros st2. apply spec_ex; intros last2. apply spec_pure. intros Hsame.
  apply spec_pure. intros Hdown.
  assert (archives_kept_but None st st2) as Hkept by (by eapply same_but_archives).
  pose proof (archives_kept_delete name st st1 st2 Hr Hg Hfs Hsame) as Hgone.
  destruct (dl_ok d) eqn:Hok; cbn [negb].
  2: by apply download_failed_spec.
  eapply spec_bind; [apply verifyDataFlashFile_spec|]. intros okp. apply spec_pure. intros Hparse.
  destruct okp; cbn [negb]; [|by apply discard_exit_spec].
  eapply spec_bind; [by apply verifyFcSampleReread_spec|]. intros same. apply spec_pure. intros Hre.
  unfold finish_archive. destruct same; cbn [negb]; [|by apply discard_exit_spec].
  eapply spec_bind; [apply finalize_spec|]. intros [r|].
  2: { apply keep_then; [apply progress_end_op|]. intros u'. eapply spec_bind; [apply fail_as_spec|]. intros [].
       apply fail_exit_spec; [by left|done]. }
  apply spec_ex; intros node. apply spec_ex; intros st3. apply spec_pure.
  intros (Hnode & Hdest & Hunder & Hr3 & Hg3 & Hq3).
  apply keep_then; [apply progress_end_op|]. intros u'.
  eapply spec_bind; [apply catalogue_spec|]. intros [].
  apply spec_ex; intros db'. apply spec_ex; intros row. apply spec_pure. 
  intros (Hrow & Hid & Hsz & Hname & Hpr & Her & Hkeys).
  apply spec_ret. intros w Hw. exists db', st3, last2. split; [exact Hw|]. exists (final_path r). split.
  - by apply (archived_intro entry db' st2 st3 (tmp_dir st ++ [name]) d row node); auto.
  - split; [|split; [|exact Hkeys]].
    { destruct Hkept as [Hr2 _]. unfold logs_dir in *. by rewrite <- Hr2. }
    exact (archives_kept_moved name st st2 st3 _ Hkept Hr3 Hg3 Hq3).
Qed.
End Triples.
