(* ===== verification/ArchiveProofs.v ===== *)
(** Archiving one log and a whole cycle: what each result of [archiveOne] leaves
    in the catalog and the archive directory, how [archiveAll] counts the results,
    that the archived files are the flight controller's logs when the link
    delivers their bytes, and that a cycle ends. *)

From stdpp Require Import pretty.
From S2P Require Import Prelude Effects LogProtocol Types ReceivedRanges Sha256 DataFlash.
From S2P Require Import FcSampleOffsets Database Storage Session SessionProofs Downloader DownloaderProofs.
Open Scope Z_scope.

(** What a scope exit leaves of a postcondition it keeps. *)
Lemma spec_scope_exit {A} D P (m : M World A) Q guard :
  spec D P m Q -> (forall a w, Q a w -> Q a (guard w)) -> spec D P (with_scope_exit guard m) Q.
Proof.
  intros Hm Hg w Hw. unfold with_scope_exit. specialize (Hm w Hw). destruct (m w) as [[a|e|] w'];
    try done. by apply Hg.
Qed.

(** * A cycle, log by log *)

Section Cycle.
Context `{Platform} (settings : DownloadSettings).
Context (reliable : Prop) (good_chunk : LogDataChunk -> Prop) (good_entry : LogEntry -> Prop).
Context (sent0 : list (Request * bool)).
Context (Hwf : forall c, good_chunk c -> chunk_wf c).
Context (Hprobe : 0 <= probe_bytes settings < 2 ^ 31).

Local Abbreviation good db st last :=
  (good_world reliable good_chunk good_entry (exactly sent0 db st last)).
Local Abbreviation effect := (archive_effect settings reliable good_chunk good_entry sent0).
Local Abbreviation fuel_ok D fuel := (D \/ cycle_fuel settings < Z.of_nat fuel).

(** What [checkDedup] decides of the candidate it finds. *)
Definition dedup_of (c : option ArchivedLogCandidate) : DedupDecision * option ArchivedLogCandidate :=
  match c with
  | Some candidate => (DownloadAfterProbeMismatch, Some candidate)
  | None => (DownloadFull, None)
  end.

Lemma count_exit_spec D entry db st last :
  (exists c, findCandidate (le_id entry) (le_size entry) db = Some c /\
     probe_matches settings reliable good_chunk good_entry sent0 entry c) ->
  spec D (good db st last) (act (incrementStat_op "flights_skipped" 1);; mret SkippedDuplicate)
    (archive_post settings reliable good_chunk good_entry sent0 entry db st).
Proof using Type.
  intros Hc. eapply spec_bind; [apply incrementStat_spec|]. intros []. apply spec_ret.
  intros w Hw. exists (incrementStat "flights_skipped" 1 db), st, last. by split_and!.
Qed.

Lemma cancelled_exit_spec (D : Prop) entry db st last (m : M World ArchiveResult) :
  spec D (good db st last) m (archive_post settings reliable good_chunk good_entry sent0 entry db st) ->
  spec D (good db st last)
    (stop ← op (ld_cancelled settings);
     if (stop : bool) then mret ArchiveCancelled else m)
    (archive_post settings reliable good_chunk good_entry sent0 entry db st).
Proof using Type.
  intros Hm. apply keep_then; [apply read_op|]. intros []; [|exact Hm].
  apply spec_ret. intros w Hw. exists db, st, last. by split_and!.
Qed.

Lemma archiveOne_spec (D : Prop) db st last fuel entry : entry_ok entry -> fuel_ok D fuel ->
  spec D (good db st last) (archiveOne settings fuel entry)
    (archive_post settings reliable good_chunk good_entry sent0 entry db st).
Proof using Hprobe Hwf.
  intros He Hf. unfold archiveOne.
  eapply (spec_bind _ _ _ (fun dc w => dc = dedup_of (findCandidate (le_id entry) (le_size entry) db) /\
                                       good db st last w)).
  { apply spec_op. intros w Hw. split; [|exact Hw]. destruct Hw as (_ & _ & Hdb & _).
    cbn [fst]. unfold checkDedup. by rewrite Hdb. }
  intros dc. apply spec_pure. intros ->.
  destruct (findCandidate (le_id entry) (le_size entry) db) as [c|] eqn:Ec; cbn [dedup_of].
  - eapply spec_bind; [by apply downloadProbeAndCompare_spec|]. intros dup.
    apply spec_ex. intros last'. apply spec_pure. intros Hdup. destruct dup.
    + apply count_exit_spec. exists c. split; [done|by apply Hdup].
    + apply cancelled_exit_spec, cancelled_exit_spec. by apply download_and_archive_spec.
  - eapply (spec_bind _ _ _ (fun b w => b = false /\ good db st last w)); [by apply spec_ret|].
    intros b. apply spec_pure. intros ->.
    eapply (spec_bind _ _ _ (fun b w => b = false /\ good db st last w)); [by apply spec_ret|].
    intros b. apply spec_pure. intros ->.
    apply cancelled_exit_spec. by apply download_and_archive_spec.
Qed.

(** The logs of a cycle, in order, with the result of each and its effect. *)
Inductive archive_run : Database -> Storage -> list LogEntry -> list ArchiveResult ->
    Database -> Storage -> Prop :=
| archive_none db st : archive_run db st [] [] db st
| archive_next db st entry r db1 st1 entries rs db' st' :
    effect entry db st r db1 st1 -> archive_run db1 st1 entries rs db' st' ->
    archive_run db st (entry :: entries) (r :: rs) db' st'.

Definition successful (r : ArchiveResult) : bool :=
  match r with SkippedDuplicate | Downloaded => true | _ => false end.

Definition occurrences (r : ArchiveResult) (rs : list ArchiveResult) : Z :=
  zlen (filter (fun r' => r' = r) rs).

(** The counters of [c0] after the results [rs]; the last of [rs] may belong to
    a log that was not reached. *)
Definition counted (c0 : ArchiveCycleResult) (rs : list ArchiveResult) (c : ArchiveCycleResult) : Prop :=
  cy_downloaded c = cy_downloaded c0 + occurrences Downloaded rs /\
  cy_skipped c = cy_skipped c0 + occurrences SkippedDuplicate rs /\
  cy_failed c = cy_failed c0 + occurrences ArchiveFailed rs /\
  cy_cancelled c = cy_cancelled c0 + occurrences ArchiveCancelled rs.

Lemma counted_next c0 r last rs c :
  counted (count_result r last c0) rs c -> counted c0 (r :: rs) c.
Proof using Type.
  intros (Hd & Hs & Hf & Hc). unfold counted, occurrences in *. rewrite !filter_cons, Hd, Hs, Hf, Hc.
  destruct r; simpl; rewrite ?decide_True, ?decide_False by done; unfold zlen; simpl length;
    split_and!; lia.
Qed.

(** How a loop that started with the flag [a0] and the counters [c0] ended. *)
Definition cycle_done (db : Database) (st : Storage) (logs : list LogEntry) (a0 : bool)
    (c0 : ArchiveCycleResult) (ac : bool * ArchiveCycleResult) (w : World) : Prop :=
  exists rs db' st' last',
    (archive_run db st (take (length rs) logs) rs db' st' /\ counted c0 rs ac.2 /\
     ac.1 = a0 || negb (forallb successful rs) /\
     (length rs = length logs \/ last rs = Some ArchiveCancelled) /\
     (forallb successful rs = true ->
        cy_last_failure_reason ac.2 = cy_last_failure_reason c0) /\
     (last rs = Some ArchiveCancelled -> cy_last_failure_reason ac.2 = ReasonCancelled)) /\
    good db' st' last' w.

Lemma cycle_stop db st last' logs entry db1 st1 a0 c0 lf w :
  effect entry db st ArchiveCancelled db1 st1 -> good db1 st1 last' w ->
  cycle_done db st (entry :: logs) a0 c0 (true, count_result ArchiveCancelled lf c0) w.
Proof using Type.
  intros He Hw. exists [ArchiveCancelled], db1, st1, last'. split; [|exact Hw]. split_and!.
  - simpl. rewrite take_0. eapply archive_next; [exact He|apply archive_none].
  - unfold counted, occurrences. simpl. unfold zlen. simpl. lia.
  - simpl. by rewrite orb_true_r.
  - by right.
  - done.
  - done.
Qed.

Lemma cycle_next db st logs entry r db1 st1 a0 c0 lf ac w :
  effect entry db st r db1 st1 -> r <> ArchiveCancelled ->
  cycle_done db1 st1 logs (a0 || negb (successful r)) (count_result r lf c0) ac w ->
  cycle_done db st (entry :: logs) a0 c0 ac w.
Proof using Type.
  intros He Hr (rs & db' & st' & last' & (Hrun & Hc & Ha & Hl & Hs & Hx) & Hw).
  exists (r :: rs), db', st', last'. split; [|exact Hw]. split_and!.
  - simpl. by eapply archive_next.
  - by apply (counted_next c0 r lf).
  - rewrite Ha. simpl. by destruct a0, (successful r).
  - destruct Hl as [Hl|Hl]; [left; simpl; by rewrite Hl|right]. rewrite last_cons, Hl. done.
  - simpl. intros [Hr' Hrs]%andb_true_iff. rewrite (Hs Hrs). by destruct r.
  - rewrite last_cons. destruct (last rs) as [x|] eqn:E; [by apply Hx|]. by intros [= ->].
Qed.

Lemma archive_loop_spec (D : Prop) fuel logs : Forall entry_ok logs -> fuel_ok D fuel ->
  forall db st last a0 c0,
  spec D (good db st last) (archive_loop settings fuel logs a0 c0) (cycle_done db st logs a0 c0).
Proof using Hprobe Hwf.
  intros Hlogs Hf. induction Hlogs as [|entry logs He Hlogs IH]; intros db st last a0 c0;
    cbn [archive_loop].
  - apply spec_ret. intros w Hw. exists [], db, st, last. split; [|exact Hw]. split_and!; try done.
    + apply archive_none.
    + unfold counted, occurrences. simpl. unfold zlen. simpl. lia.
    + by rewrite orb_false_r.
    + by left.
  - apply keep_then; [apply read_op|]. intros [].
    { apply spec_ret. intros w Hw. by eapply (cycle_stop db st last). }
    eapply spec_bind; [by apply archiveOne_spec|]. intros r.
    apply spec_ex; intros db1. apply spec_ex; intros st1. apply spec_ex; intros last1.
    eapply (spec_bind _ _ _ (fun _ w => effect entry db st r db1 st1 /\ good db1 st1 last1 w)).
    { apply spec_op. by intros w [Hw Hr]. }
    intros lf. apply spec_pure. intros Hr.
    destruct r; try (eapply spec_post; [apply IH|]; intros ac w Hac;
      eapply (cycle_next db st logs entry _ db1 st1 a0 c0 lf); [exact Hr|done|];
      by rewrite ?orb_false_r, ?orb_true_r).
    apply spec_ret. intros w Hw. by eapply (cycle_stop db st last1).
Qed.

(** What [archiveAll] returns and leaves behind. *)
Definition all_done (db : Database) (st : Storage) (logs : list LogEntry) (c : ArchiveCycleResult)
    (w : World) : Prop :=
  exists rs db' st' last',
    (archive_run db st (take (length rs) logs) rs db' st' /\ counted default_cycle rs c /\
     cy_all_archived c = forallb successful rs /\
     (length rs = length logs \/ last rs = Some ArchiveCancelled) /\
     (forallb successful rs = true -> cy_last_failure_reason c = NoFailure) /\
     (last rs = Some ArchiveCancelled -> cy_last_failure_reason c = ReasonCancelled)) /\
    good db' st' last' w.

Lemma archiveAll_spec (D : Prop) db st last fuel logs : Forall entry_ok logs -> fuel_ok D fuel ->
  spec D (good db st last) (archiveAll settings fuel logs) (all_done db st logs).
Proof using Hprobe Hwf.
  intros Hlogs Hf. unfold archiveAll. eapply (spec_scope_exit _ _ _ (all_done db st logs)).
  - eapply spec_bind; [by apply archive_loop_spec|]. intros [a c]. apply spec_ret.
    intros w (rs & db' & st' & last' & (Hrun & Hc & Ha & Hl & Hs & Hx) & Hw).
    exists rs, db', st', last'. split; [|exact Hw]. split_and!; try done.
    cbn [fst snd cy_all_archived] in *. by rewrite Ha, orb_false_l, negb_involutive.
  - intros c w (rs & db' & st' & last' & Hrs & Hw). exists rs, db', st', last'. split; [exact Hrs|].
    destruct (clear_keeps settings _ _ _ _ w Hw) as [Hw1 _].
    by destruct (end_op settings _ _ _ _ db' st' last' _ Hw1).
Qed.
End Cycle.

(** * What follows of a cycle *)

Section Consequences.
Context `{Platform} (settings : DownloadSettings).
Context (reliable : Prop) (good_chunk : LogDataChunk -> Prop) (good_entry : LogEntry -> Prop).
Context (sent0 : list (Request * bool)).

Lemma effect_keys entry db st r db' st' :
  archive_effect settings reliable good_chunk good_entry sent0 entry db st r db' st' ->
  forall sha, is_Some (archived_logs db !! sha) -> is_Some (archived_logs db' !! sha).
Proof using Type. destruct r; [intros (-> & _)|intros (dest & _ & _ & _ & Hk)|intros (-> & _)..]; auto. Qed.

Lemma effect_archives entry db st r db' st' :
  archive_effect settings reliable good_chunk good_entry sent0 entry db st r db' st' ->
  exists dest, archives_kept_but dest st st' /\ (dest = None \/ r = Downloaded).
Proof using Type.
  destruct r.
  - intros (_ & -> & _). exists None. by split; [|left].
  - intros (dest & _ & _ & Hk & _). exists (Some dest). by split; [|right].
  - intros (_ & Hk). exists None. by split; [|left].
  - intros (_ & Hk). exists None. by split; [|left].
Qed.

(** A cycle forgets no digest, and its storage keeps every archive of before
    that no log of the cycle replaced. *)
Lemma archive_run_kept db st logs rs db' st' :
  archive_run settings reliable good_chunk good_entry sent0 db st logs rs db' st' ->
  (forall sha, is_Some (archived_logs db !! sha) -> is_Some (archived_logs db' !! sha)) /\
  exists dests : list path, zlen dests <= occurrences Downloaded rs /\ st_root st' = st_root st /\
    forall q, under (logs_dir st) q = true -> q ∉ dests -> st_fs st' !! q = st_fs st !! q.
Proof using Type.
  induction 1 as [|db st entry r db1 st1 entries rs db' st' He Hrun [IHk (dests & Hn & Hr & IHq)]].
  { split; [done|]. exists []. by split_and!. }
  split; [intros sha Hsha; by apply IHk, (effect_keys _ _ _ _ _ _ He)|].
  destruct (effect_archives _ _ _ _ _ _ He) as (dest & (Hr1 & _ & Hq1) & Hd).
  exists (option_list dest ++ dests). split; [|split; [congruence|]].
  - unfold occurrences, zlen in *. rewrite filter_cons, length_app.
    destruct Hd as [-> | ->]; [simpl; case_decide; simpl; lia|].
    rewrite decide_True by done. destruct dest; simpl; lia.
  - intros q Ha Hq. rewrite elem_of_app in Hq.
    rewrite IHq; [apply Hq1; [done|]| |tauto].
    + intros <-. apply Hq. left. by left.
    + unfold logs_dir in *. by rewrite Hr1.
Qed.

(** A cycle that only finds duplicates touches neither the files nor the rows. *)
Lemma skipped_run db st logs rs db' st' :
  archive_run settings reliable good_chunk good_entry sent0 db st logs rs db' st' ->
  forallb successful rs = true -> occurrences Downloaded rs = 0 ->
  st' = st /\ archived_logs db' = archived_logs db.
Proof using Type.
  induction 1 as [|db st entry r db1 st1 entries rs db' st' He Hrun IH]; [done|].
  cbn [forallb]. intros [Hr Hrs]%andb_true_iff Hn. unfold occurrences in *. rewrite filter_cons in Hn.
  destruct r; try done.
  rewrite decide_False in Hn by done. destruct He as (Hrows & -> & _). destruct IH as [-> ->]; done.
Qed.

(** The file [dest] holds what a successful download of the whole log delivered. *)
Definition stored (entry : LogEntry) (st : Storage) (dest : path) : Prop :=
  exists r f node,
    session_pieces settings reliable good_chunk good_entry sent0 (full_params settings entry) r f /\
    sr_success r = true /\ st_fs st !! dest = Some node /\ n_bytes node = f_bytes f.

(** The log was in the catalog by its number, size and probe. *)
Definition known_duplicate (entry : LogEntry) (db : Database) : Prop :=
  exists db0 c, findCandidate (le_id entry) (le_size entry) db0 = Some c /\
    probe_matches settings reliable good_chunk good_entry sent0 entry c /\
    is_Some (archived_logs db !! ca_sha256 c).

(** What became of a log: where it was stored, unless a later log of the run
    was finished under the same name. *)
Definition kept (dests : list (option path)) (db : Database) (st : Storage) (i : nat)
    (entry : LogEntry) (r : ArchiveResult) : Prop :=
  match r with
  | Downloaded => exists dest, dests !! i = Some (Some dest) /\ under (logs_dir st) dest = true /\
      (stored entry st dest \/ exists j, (i < j)%nat /\ dests !! j = Some (Some dest))
  | SkippedDuplicate => known_duplicate entry db
  | _ => True
  end.

Lemma effect_kept entry db st r db' st' :
  archive_effect settings reliable good_chunk good_entry sent0 entry db st r db' st' ->
  exists dest, kept [dest] db' st' 0 entry r /\ archives_kept_but dest st st'.
Proof using Type.
  intros He. destruct r; simpl in *.
  - destruct He as (Hdb & -> & c & Hc & Hm). exists None. split; [|done].
    exists db, c. split_and!; try done. rewrite Hdb.
    destruct (findCandidate_row _ _ _ _ Hc) as (row & Hrow & _). by exists row.
  - destruct He as (dest & (res & f & node & row & Hp & Hs & Hn & Hb & _) & Hu & Hk & _).
    exists (Some dest). split; [|done]. exists dest. split; [done|]. destruct Hk as [Hr _].
    split; [unfold logs_dir in *; by rewrite Hr|]. left. by exists res, f, node.
  - exists None. by destruct He.
  - exists None. by destruct He.
Qed.

(** A log of a run is still kept after the rest of the run. *)
Lemma kept_later dest dests entry db st r db' st' :
  kept [dest] db st 0 entry r ->
  (forall sha, is_Some (archived_logs db !! sha) -> is_Some (archived_logs db' !! sha)) ->
  st_root st' = st_root st ->
  (forall q, under (logs_dir st) q = true -> Some q ∉ dests -> st_fs st' !! q = st_fs st !! q) ->
  kept (dest :: dests) db' st' 0 entry r.
Proof using Type.
  intros Hkept Hk Hr Hq. destruct r; simpl in *; [| |done..].
  - destruct Hkept as (db0 & c & ? & ? & ?). exists db0, c. auto.
  - destruct Hkept as (p & [= ->] & Hu & [Hst|(j & Hj & Hlater)]);
      [|by destruct j as [|[]]; [lia|..]].
    exists p. split; [done|]. split; [unfold logs_dir in *; by rewrite Hr|].
    destruct (decide (Some p ∈ dests)) as [Hin|Hout].
    + right. apply list_elem_of_lookup in Hin as [j Hj]. exists (S j). split; [lia|done].
    + left. destruct Hst as (res & f & node & ? & ? & Hn & ?). exists res, f, node.
      by rewrite Hq.
Qed.

(** The logs of a run, one by one, at its end. *)
Lemma archive_run_keeps db st logs rs db' st' :
  archive_run settings reliable good_chunk good_entry sent0 db st logs rs db' st' ->
  exists dests : list (option path), length dests = length rs /\ st_root st' = st_root st /\
    (forall q, under (logs_dir st) q = true -> Some q ∉ dests -> st_fs st' !! q = st_fs st !! q) /\
    forall i entry r, logs !! i = Some entry -> rs !! i = Some r -> kept dests db' st' i entry r.
Proof using Type.
  induction 1 as [|db st entry r db1 st1 entries rs db' st' He Hrun (dests & Hl & Hr & Hq & Hall)].
  { exists []. by split_and!. }
  destruct (archive_run_kept _ _ _ _ _ _ Hrun) as [Hkeys _].
  destruct (effect_kept _ _ _ _ _ _ He) as (dest & Hkept & Hr1 & _ & Hq1).
  exists (dest :: dests). split; [simpl; by rewrite Hl|]. split; [congruence|]. split.
  - intros q Hu Hout. apply not_elem_of_cons in Hout as [Hne Hout].
    rewrite Hq; [by apply Hq1|unfold logs_dir in *; by rewrite Hr1|done].
  - intros [|i] e r'; simpl.
    + intros [= <-] [= <-]. by eapply kept_later.
    + intros Hi Hi'. specialize (Hall i e r' Hi Hi'). destruct r'; simpl in *; try done.
      destruct Hall as (p & Hp & Hu & [Hst|(j & Hj & Hlater)]); exists p; split_and!; try done; [by left|].
      right. exists (S j). split; [lia|done].
Qed.

Lemma archive_run_result db st logs rs db' st' :
  archive_run settings reliable good_chunk good_entry sent0 db st logs rs db' st' ->
  forall i entry, logs !! i = Some entry -> exists r, rs !! i = Some r.
Proof using Type.
  induction 1 as [|db st entry r db1 st1 entries rs db' st' He Hrun IH]; intros [|i] e Hi; simpl in *;
    [done|done|by exists r|by eapply IH].
Qed.

(** A link whose frames are good and whose clock does not run back, and the
    frames already received. *)
Definition link_ok (w : World) : Prop :=
  Forall (good_tick reliable good_chunk good_entry) (w_script w) /\
  good_shared good_chunk good_entry (w_shared w).

Lemma link_world w : link_ok w ->
  good_world reliable good_chunk good_entry
    (exactly (w_sent w) (w_db w) (w_storage w) (w_last_failure w)) w.
Proof using Type.
  intros [Hs Hsh]. split; [done|]. split; [done|]. split_and!; try done.
  exists []. by rewrite app_nil_r.
Qed.
End Consequences.

(** What the MAVLink decoder hands to [onMessage]: a 90-byte data field, a byte
    for the count and a 32-bit offset. *)
Definition decoded (f : Frame) : Prop :=
  match f with
  | LogEntryFrame _ => True
  | LogDataFrame id ofs count data => is_u32 ofs /\ 0 <= count <= 255 /\ length data = 90%nat
  | OtherFrame => True
  end.

Definition decoded_tick (k : Tick) : Prop :=
  0 <= k_elapsed k /\
  Forall (fun ev => match ev with Receive f => decoded f | CancelRequested => True end) (k_events k).

(** A world where frames are decoded ones: no assumption on their contents. *)
Definition any_link (w : World) : Prop :=
  Forall decoded_tick (w_script w) /\ Forall chunk_wf (sh_chunks (w_shared w)).

(** However large the count, the queued chunk is as long as it says: the bytes
    past the data field are in it. *)
Lemma decoded_good `{Platform} f : decoded f -> good_frame chunk_wf (fun _ => True) f.
Proof.
  destruct f as [e|id ofs count data|]; try done. intros (Ho & Hc & Hl) Hn.
  unfold chunk_wf, chunk_of_frame, zlen. cbn [c_offset c_count c_data].
  rewrite length_take, length_app, past_data_length, Hl. split; [done|]. lia.
Qed.

(** A decoded data frame, whatever the entries have to satisfy. *)
Lemma decoded_chunk `{Platform} good_entry id ofs count data : decoded (LogDataFrame id ofs count data) ->
  good_frame chunk_wf good_entry (LogDataFrame id ofs count data).
Proof. apply (decoded_good (LogDataFrame id ofs count data)). Qed.

Lemma any_link_ok `{Platform} w : any_link w -> link_ok False chunk_wf (fun _ => True) w.
Proof.
  intros [Hs Hc]. split; [|split; [done|apply Forall_true; done]].
  eapply Forall_impl; [exact Hs|]. intros k [Ht Hev]. split; [done|]. split; [|done].
  eapply Forall_impl; [exact Hev|]. intros [f|]; [apply decoded_good|done].
Qed.

(** * Honest links *)

(** The data frames carry the bytes of the logs [contents]. *)
Definition honest (contents : Z -> list Z) (c : LogDataChunk) : Prop :=
  honest_chunk (c_id c) (contents (c_id c)) c.

Lemma honest_of_id contents id c : honest contents c -> honest_chunk id (contents id) c.
Proof. intros [Hwf Hc]. split; [exact Hwf|]. intros <-. by apply Hc. Qed.

Lemma honest_wf contents c : honest contents c -> chunk_wf c.
Proof. by intros [Hwf _]. Qed.

Lemma delivered_weaken {W} `{SessionOwner W} (Good : W -> Prop) (g g' : LogDataChunk -> Prop) p f0 r f cs :
  (forall c, g c -> g' c) -> delivered Good g p f0 r f cs -> delivered Good g' p f0 r f cs.
Proof.
  intros Hg (Hcs & Hrest). split; [|exact Hrest]. eapply Forall_impl; [exact Hcs|].
  intros pc (c & n & Hc & ?). exists c, n. split; [by apply Hg|done].
Qed.

Section Honest.
Context `{Platform} (settings : DownloadSettings).
Context (contents : Z -> list Z) (good_entry : LogEntry -> Prop) (sent0 : list (Request * bool)).

(** With a disk that never fails, what a whole session wrote is the log. *)
Lemma session_pieces_log entry r f :
  0 < le_size entry < 2 ^ 31 -> 0 <= probe_bytes settings < 2 ^ 31 ->
  le_size entry = zlen (contents (le_id entry)) ->
  session_pieces settings True (honest contents) good_entry sent0 (full_params settings entry) r f ->
  sr_success r = true -> f_bytes f = contents (le_id entry).
Proof using Type.
  intros Hs Hp Hlen (db & st & last & cs & Hd) _.
  assert (params_ok (full_params settings entry)) as Hok by (constructor; simpl; [done|lia|done]).
  assert (f_good f = true) as Hg.
  { destruct Hd as (_ & _ & _ & _ & _ & _ & Hfine). apply Hfine; [done| |done].
    intros w (Hs' & _). unfold fine, device_ok, Downloader_owner, disk_ok, atomic, interfere.
    cbn [fst]. destruct (w_script w) as [|k ks]; [done|]. apply Forall_cons in Hs' as [(_ & _ & Hk) _].
    by apply Hk. }
  eapply (@delivered_log World (Downloader_owner settings) _ (full_params settings entry) (contents (le_id entry))); [done|done|done| |done].
  eapply (@delivered_weaken World (Downloader_owner settings)); [|exact Hd]. intros c. apply honest_of_id.
Qed.
End Honest.

(** * A sample cycle *)

(** A platform with unsigned [char]s, whose local time is not formatted. *)
#[export, refine] Instance sample_platform : Platform :=
  { platform_rows := FirstRow; put_time f t := (f ++ pretty t)%string;
    past_data := replicate 165 0; char_signed := false }.
Proof. reflexivity. Defined.

(** A DataFlash log of 191 bytes, which the link delivers again and again. *)
Definition sample_content : list Z := encode sample_log.

Definition sample_entry : LogEntry :=
  {| le_id := 1; le_num_logs := 1; le_last_log_num := 1; le_time_utc := 1700000000; le_size := 191 |}.

Definition data_frame (ofs : nat) : Frame :=
  let bytes := take 90 (drop ofs sample_content) in
  LogDataFrame 1 (Z.of_nat ofs) (zlen bytes) (bytes ++ replicate (90 - length bytes) 0).

Definition sample_tick : Tick :=
  {| k_elapsed := 1000000; k_events := [Receive (data_frame 90); Receive (data_frame 0); Receive (data_frame 180)];
     k_connected := true; k_fresh := true; k_send_ok := true; k_disk_ok := true |}.

Definition sample_world : World :=
  {| w_shared := {| sh_pending := []; sh_chunks := []; sh_zero_length := 0; sh_cancel := false |};
     w_last_failure := NoFailure; w_progress := no_progress; w_progress_begin := 0;
     w_now := 5000; w_wall := 1700000001000000000; w_db := empty_database;
     w_storage := {| st_root := ["var"%string]; st_max_size_gb := 10; st_fs := ∅; st_partial_counter := 0 |};
     w_sent := []; w_script := replicate 200 sample_tick |}.

Definition sample_contents (id : Z) : list Z := if id =? 1 then sample_content else [].

(** The frame of the log's bytes from [90 * k] on. *)
Lemma data_frame_honest k : (90 * k < 191)%nat ->
  good_frame (honest sample_contents) (fun _ => True) (data_frame (90 * k)).
Proof.
  intros Hk _. unfold data_frame, chunk_of_frame. set (d := take 90 (drop (90 * k) sample_content)).
  assert (length sample_content = 191%nat) as Hl by (vm_compute; reflexivity).
  assert (0 < length d <= 90)%nat as Hd by (unfold d; rewrite length_take, length_drop, Hl; lia).
  split; cbn [c_id c_offset c_count c_data].
  - unfold chunk_wf, is_u32, zlen. cbn [c_offset c_count c_data].
    rewrite length_take, !length_app, length_replicate, past_data_length. lia.
  - intros _ i Hi _. change (sample_contents 1) with sample_content. cbn [c_data c_offset] in *.
    rewrite length_take in Hi. unfold zlen in *. rewrite Nat2Z.id in Hi |- *.
    rewrite <- app_assoc, take_app_le, take_ge by lia.
    unfold d in *. rewrite length_take in Hi. rewrite lookup_take_lt, lookup_drop by lia. f_equal. lia.
Qed.

Lemma sample_link_ok : link_ok True (honest sample_contents) (fun _ => True) sample_world.
Proof.
  split; [|split; constructor]. apply Forall_replicate. split; [done|]. split; [|done].
  repeat (constructor; [first [apply (data_frame_honest 0)|apply (data_frame_honest 1)|apply (data_frame_honest 2)]; lia|]).
  constructor.
Qed.

Lemma sample_any_link : any_link sample_world.
Proof.
  split; [|constructor]. apply Forall_replicate. split; [done|].
  repeat (constructor; [solve [vm_compute; intuition congruence]|]). constructor.
Qed.

(** * Properties *)

(** C4. Archiving is faithful. When the link delivers the bytes of the flight
    controller's logs, in any order and with any losses, repetitions and delays,
    and the disk does not fail, then a log that [archiveOne] reports as downloaded
    has a file in the archive directory that holds exactly its bytes, the catalog
    has its row with its number, size and file name, every other archive is as it
    was, and no LOG_ERASE was sent. *)
Theorem archiveOne_faithful `{Platform} settings contents fuel entry w w' :
  0 <= probe_bytes settings < 2 ^ 31 ->
  0 < le_size entry < 2 ^ 31 -> le_size entry = zlen (contents (le_id entry)) ->
  link_ok True (honest contents) (fun _ => True) w ->
  archiveOne settings fuel entry w = (Ok Downloaded, w') ->
  exists dest node sha row,
    st_fs (w_storage w') !! dest = Some node /\ n_bytes node = contents (le_id entry) /\
    archived_logs (w_db w') !! sha = Some row /\
    row_log_id row = le_id entry /\ row_log_size row = le_size entry /\
    row_filename row = path_string dest /\ row_erased row = false /\
    (forall q, is_archive (w_storage w) q = true -> q <> dest ->
       st_fs (w_storage w') !! q = st_fs (w_storage w) !! q) /\
    no_erase_since (w_sent w) (w_sent w').
Proof.
  intros Hp Hs Hlen Hw Hrun.
  pose proof (spec_run _ _ _ _ _ _ _ (archiveOne_spec settings True (honest contents) (fun _ => True)
    (w_sent w) (honest_wf contents) Hp True (w_db w) (w_storage w) (w_last_failure w) fuel entry
    ltac:(unfold entry_ok; lia) (or_introl I)) (link_world _ _ _ w Hw) Hrun)
    as (db' & st' & last' & (_ & _ & -> & -> & _ & Hsent) & dest & Harch & _ & (_ & _ & Hk) & _).
  destruct Harch as (r & f & node & row & Hsp & Hok & Hnode & Hb & Hrow & Hid & Hsz & Hname & _ & Her & _).
  exists dest, node, (sr_sha256 r), row. split_and!; try done.
  - rewrite Hb. by eapply session_pieces_log.
  - intros q Ha Hq. apply Hk; [by apply archive_under|congruence].
Qed.

Lemma archiveOne_faithful_witness :
  exists w', archiveOne default_download 60 sample_entry sample_world = (Ok Downloaded, w') /\
  exists dest node sha row,
    st_fs (w_storage w') !! dest = Some node /\ n_bytes node = sample_contents (le_id sample_entry) /\
    archived_logs (w_db w') !! sha = Some row /\
    row_log_id row = le_id sample_entry /\ row_log_size row = le_size sample_entry /\
    row_filename row = path_string dest /\ row_erased row = false /\
    (forall q, is_archive (w_storage sample_world) q = true -> q <> dest ->
       st_fs (w_storage w') !! q = st_fs (w_storage sample_world) !! q) /\
    no_erase_since (w_sent sample_world) (w_sent w').
Proof.
  assert (match (archiveOne default_download 60 sample_entry sample_world).1 with
          | Ok Downloaded => true | _ => false end = true) as Hr by (vm_compute; reflexivity).
  destruct (archiveOne default_download 60 sample_entry sample_world) as [[[]|e|] w'] eqn:E; try discriminate Hr.
  exists w'. split; [reflexivity|].
  exact (archiveOne_faithful default_download sample_contents 60 sample_entry sample_world w'
    ltac:(simpl; lia) ltac:(simpl; lia) eq_refl sample_link_ok E).
Defined.

(** C16. Whatever a link delivers, [archiveOne] does not throw, sends no LOG_ERASE,
    and a log that was not archived leaves no trace: when the result is a failure
    or a cancellation the catalog's rows and every archive are as before; when
    the log is skipped, nothing changed and the catalog has a row with its number
    and size whose probe digest and length are those of a probe just downloaded. *)
Theorem archiveOne_harmless `{Platform} settings fuel entry w :
  0 <= probe_bytes settings < 2 ^ 31 -> entry_ok entry -> any_link w ->
  match archiveOne settings fuel entry w with
  | (Ok r, w') =>
      no_erase_since (w_sent w) (w_sent w') /\
      match r with
      | Downloaded => True
      | SkippedDuplicate =>
          archived_logs (w_db w') = archived_logs (w_db w) /\ w_storage w' = w_storage w /\
          exists c, findCandidate (le_id entry) (le_size entry) (w_db w) = Some c /\
            probe_matches settings False chunk_wf (fun _ => True) (w_sent w) entry c
      | ArchiveFailed | ArchiveCancelled =>
          archived_logs (w_db w') = archived_logs (w_db w) /\
          forall q, is_archive (w_storage w) q = true ->
            st_fs (w_storage w') !! q = st_fs (w_storage w) !! q
      end
  | (Throw _, _) => False
  | (OutOfFuel, _) => Z.of_nat fuel <= cycle_fuel settings
  end.
Proof.
  intros Hp He Hw%any_link_ok.
  pose proof (archiveOne_spec settings False chunk_wf (fun _ => True)
    (w_sent w) (fun c Hc => Hc) Hp (Z.of_nat fuel <= cycle_fuel settings) (w_db w) (w_storage w)
    (w_last_failure w) fuel entry He ltac:(lia) w (link_world _ _ _ w Hw)) as Hspec.
  destruct (archiveOne settings fuel entry w) as [[r|e|] w']; try done.
  destruct Hspec as (db' & st' & last' & (_ & _ & -> & -> & _ & Hsent) & Heff).
  split; [done|]. destruct r; [done|done| |]; destruct Heff as (-> & _ & _ & Hq);
    (split; [done|]); intros q Ha; (apply Hq; [by apply archive_under|done]).
Qed.

Lemma archiveOne_harmless_witness :
  match archiveOne default_download 5 sample_entry sample_world with
  | (Ok r, w') =>
      no_erase_since (w_sent sample_world) (w_sent w') /\
      match r with
      | Downloaded => True
      | SkippedDuplicate =>
          archived_logs (w_db w') = archived_logs (w_db sample_world) /\
          w_storage w' = w_storage sample_world /\
          exists c, findCandidate (le_id sample_entry) (le_size sample_entry) (w_db sample_world) = Some c /\
            probe_matches default_download False chunk_wf (fun _ => True) (w_sent sample_world) sample_entry c
      | ArchiveFailed | ArchiveCancelled =>
          archived_logs (w_db w') = archived_logs (w_db sample_world) /\
          forall q, is_archive (w_storage sample_world) q = true ->
            st_fs (w_storage w') !! q = st_fs (w_storage sample_world) !! q
      end
  | (Throw _, _) => False
  | (OutOfFuel, _) => Z.of_nat 5 <= cycle_fuel default_download
  end.
Proof.
  pose proof (archiveOne_harmless default_download 5 sample_entry sample_world
    ltac:(simpl; lia) ltac:(unfold entry_ok; simpl; lia) sample_any_link) as Hr.
  destruct (archiveOne default_download 5 sample_entry sample_world) as [r w']. exact Hr.
Defined.

(** C6. A cycle over logs below 2 GiB never throws, sends no LOG_ERASE and always
    ends (fuel bounds the turns of every loop).  Its counters are those of the
    results of the logs it took in order; it stops early only after a
    cancellation; it reports every log as archived exactly when none failed or was
    cancelled, and then it has gone through all of them.  The catalog keeps every
    digest it had.  A downloaded log can take the name, and so the place, of one
    archive of before (two archives of one second share a name); every other archive
    of before is untouched. *)
Theorem archiveAll_correct `{Platform} settings fuel logs w :
  0 <= probe_bytes settings < 2 ^ 31 -> Forall entry_ok logs -> any_link w ->
  cycle_fuel settings < Z.of_nat fuel ->
  exists c w' rs,
    archiveAll settings fuel logs w = (Ok c, w') /\
    archive_run settings False chunk_wf (fun _ => True) (w_sent w) (w_db w) (w_storage w)
      (take (length rs) logs) rs (w_db w') (w_storage w') /\
    counted default_cycle rs c /\
    (length rs = length logs \/ last rs = Some ArchiveCancelled) /\
    (cy_all_archived c = true <-> length rs = length logs /\ forallb successful rs = true) /\
    no_erase_since (w_sent w) (w_sent w') /\
    (forall sha, is_Some (archived_logs (w_db w) !! sha) -> is_Some (archived_logs (w_db w') !! sha)) /\
    exists dests : list path, zlen dests <= occurrences Downloaded rs /\
      forall q, is_archive (w_storage w) q = true -> q ∉ dests ->
        st_fs (w_storage w') !! q = st_fs (w_storage w) !! q.
Proof.
  intros Hp He Hw%any_link_ok Hf.
  destruct (spec_total _ _ _ w (archiveAll_spec settings False chunk_wf (fun _ => True)
    (w_sent w) (fun c Hc => Hc) Hp False (w_db w) (w_storage w)
    (w_last_failure w) fuel logs He (or_intror Hf)) (link_world _ _ _ w Hw))
    as (c & w' & Hrun & rs & db' & st' & last' & (Har & Hc & Ha & Hl & _) & (_ & _ & <- & <- & _ & Hsent)).
  destruct (archive_run_kept _ _ _ _ _ _ _ _ _ _ _ Har) as [Hk (dests & Hn & _ & Hq)].
  exists c, w', rs. split_and!; try done.
  - rewrite Ha. split; [|tauto]. intros Hs. split; [|done]. destruct Hl as [|Hl]; [done|].
    apply last_Some in Hl as [l ->]. rewrite forallb_app in Hs. simpl in Hs.
    by rewrite andb_false_r in Hs.
  - exists dests. split; [done|]. intros q Hin. by apply Hq, archive_under.
Qed.

Lemma archiveAll_correct_witness :
  exists c w' rs,
    archiveAll default_download (Z.to_nat (cycle_fuel default_download + 1)) [sample_entry] sample_world =
      (Ok c, w') /\
    archive_run default_download False chunk_wf (fun _ => True) (w_sent sample_world) (w_db sample_world)
      (w_storage sample_world) (take (length rs) [sample_entry]) rs (w_db w') (w_storage w') /\
    counted default_cycle rs c /\
    (length rs = 1%nat \/ last rs = Some ArchiveCancelled) /\
    (cy_all_archived c = true <-> length rs = 1%nat /\ forallb successful rs = true) /\
    no_erase_since (w_sent sample_world) (w_sent w') /\
    (forall sha, is_Some (archived_logs (w_db sample_world) !! sha) ->
       is_Some (archived_logs (w_db w') !! sha)) /\
    exists dests : list path, zlen dests <= occurrences Downloaded rs /\
      forall q, is_archive (w_storage sample_world) q = true -> q ∉ dests ->
        st_fs (w_storage w') !! q = st_fs (w_storage sample_world) !! q.
Proof.
  apply (archiveAll_correct default_download _ [sample_entry] sample_world).
  - simpl. lia.
  - constructor; [unfold entry_ok; simpl; lia|constructor].
  - apply sample_any_link.
  - rewrite Z2Nat.id; [lia|]. vm_compute. discriminate.
Defined.
