(* ===== verification/Reread.v ===== *)
(** The re-read of samples ([verifyFcSampleReread] in src/LogDownloader.cpp) as a
    platform sees it: the chunks are [uint8_t]s, the file is read into [char]s, and
    [std::equal] compares their values.

    Where [char] is signed a byte of 128 or more never equals itself.  In the default
    settings the first chunk of a log is among its samples, if the log has a whole
    chunk, and a DataFlash log starts with 0xA3: such a log is never archived there,
    over a link that delivers its bytes and on a disk that works.  A log of less than
    a chunk has no samples and passes. *)

From S2P Require Import Prelude Effects LogProtocol Types ReceivedRanges DataFlash FcSampleOffsets.
From S2P Require Import Database Storage Session SessionProofs Downloader DownloaderProofs ArchiveProofs.
Open Scope Z_scope.

Section Signed.
Context `{Platform} (settings : DownloadSettings) (contents : Z -> list Z).

(** A chunk of the log that agrees with a file that holds the log, at its start. *)
Lemma signed_sample_disagrees id b rest : char_signed = true -> contents id = b :: rest -> 128 <= b < 256 ->
  ~ sample_agrees (honest contents) id (contents id) 0.
Proof using Type.
  intros Hsigned Hlog Hb (c & [Hwf Hof] & <- & Ho & Heq). destruct Hwf as (_ & Hn & Hl).
  destruct (c_data c) as [|x data] eqn:Ed; [unfold zlen in Hl; simpl in Hl; lia|].
  pose proof (Hof eq_refl 0%nat) as Hx. rewrite Ed, Ho, Hlog in Hx. cbn in Hx.
  injection (Hx ltac:(lia) ltac:(unfold zlen; simpl; lia)) as ->.
  rewrite Hlog in Heq. cbn in Heq. injection Heq as Heq _. unfold char_value in Heq.
  rewrite Hsigned in Heq. replace (128 <=? b) with true in Heq by ztest. cbn in Heq. lia.
Qed.

(** An archived log passed the re-read of its first chunk. *)
Lemma archived_first_chunk sent0 entry db' st' dest :
  parseFcRereadMode (verify_fc_reread settings) = RereadSample ->
  0 < verify_fc_reread_sample_count settings < 2 ^ 31 ->
  0 <= probe_bytes settings < 2 ^ 31 -> kLogChunkSize <= le_size entry < 2 ^ 31 ->
  le_size entry = zlen (contents (le_id entry)) ->
  archived settings True (honest contents) (fun _ => True) sent0 entry db' st' dest ->
  sample_agrees (honest contents) (le_id entry) (contents (le_id entry)) 0.
Proof using Type.
  intros Hm Hcount Hp Hs Hlen (r & f & node & row & Hsp & Hok & _ & _ & _ & _ & _ & _ & _ & _ & _ & Hre).
  unfold kLogChunkSize in Hs.
  assert (f_bytes f = contents (le_id entry)) as Hf by (eapply session_pieces_log; try done; lia).
  specialize (Hre Hm). rewrite Hf in Hre. rewrite Forall_forall in Hre. apply Hre.
  by apply first_chunk_sampled; [unfold is_u32; lia|unfold kLogChunkSize; lia|].
Qed.
End Signed.

(** A platform with signed [char]s. *)
Definition signed_platform : Platform :=
  {| platform_rows := FirstRow; put_time f _ := f; past_data := replicate 165 0;
     past_data_length := eq_refl; char_signed := true |}.

(** * Properties *)

(** The sample re-read compares the chunk's unsigned bytes with the file's
    [char]s: it accepts a chunk equal to what the file holds exactly when [char]
    is unsigned or no byte of it is 128 or more.  Where [char] is signed, a log
    whose sampled chunks have such bytes can not pass. *)
Theorem same_bytes_high `{Platform} (chunk : list Z) :
  Forall (fun b => 0 <= b < 256) chunk ->
  same_bytes chunk chunk = negb (char_signed && existsb (fun b => 128 <=? b) chunk).
Proof.
  intros Hb. unfold same_bytes. rewrite Nat.eqb_refl. simpl. unfold char_value.
  induction Hb as [|b chunk Hb _ IH]; [by rewrite andb_false_r|].
  cbn [existsb fmap list_fmap]. destruct char_signed; simpl in *.
  - destruct (Z.leb_spec 128 b); cbn [negb orb].
    + apply bool_decide_eq_false. intros [= Heq]. lia.
    + rewrite <- IH. apply bool_decide_ext. split; [by intros [= ?]|]. by intros <-.
  - apply bool_decide_eq_true in IH. apply bool_decide_eq_true. by rewrite <- IH.
Qed.

Lemma same_bytes_high_witness :
  @same_bytes signed_platform [0xA3; 0x95] [0xA3; 0x95] =
    negb (@char_signed signed_platform && existsb (fun b => 128 <=? b) [0xA3; 0x95]).
Proof. apply (@same_bytes_high signed_platform [0xA3; 0x95]). repeat constructor; lia. Defined.

(** C14. On a platform where [char] is signed (x86) the re-read of samples rejects what
    it should accept.  With at least one sample configured (64 by default), over a link
    that delivers the log's own bytes and on a disk that works, a log of one whole chunk
    or more whose first byte is 128 or above (in DataFlash it is 0xA3) is never reported
    as downloaded: the re-read of its first chunk disagrees with the file that holds it. *)
Theorem signed_char_rejects_logs `{Platform} settings contents fuel entry w b rest :
  char_signed = true ->
  parseFcRereadMode (verify_fc_reread settings) = RereadSample ->
  0 < verify_fc_reread_sample_count settings < 2 ^ 31 ->
  0 <= probe_bytes settings < 2 ^ 31 -> kLogChunkSize <= le_size entry < 2 ^ 31 ->
  le_size entry = zlen (contents (le_id entry)) ->
  contents (le_id entry) = b :: rest -> 128 <= b < 256 ->
  link_ok True (honest contents) (fun _ => True) w ->
  (archiveOne settings fuel entry w).1 <> Ok Downloaded.
Proof.
  intros Hsigned Hm Hcount Hp Hs Hlen Hlog Hb Hw Hrun.
  destruct (archiveOne settings fuel entry w) as [r w'] eqn:E. simpl in Hrun. subst r.
  destruct (spec_run _ _ _ _ _ _ _ (archiveOne_spec settings True (honest contents) (fun _ => True)
    (w_sent w) (honest_wf contents) Hp True (w_db w) (w_storage w) (w_last_failure w) fuel entry
    ltac:(unfold entry_ok, kLogChunkSize in *; lia) (or_introl I)) (link_world _ _ _ w Hw) E)
    as (db' & st' & last' & _ & dest & Harch & _).
  eapply signed_sample_disagrees; [done..|]. by eapply archived_first_chunk.
Qed.

(** ** The sample log on such a platform *)

Lemma signed_link_ok : @link_ok signed_platform True (honest sample_contents) (fun _ => True) sample_world.
Proof. exact sample_link_ok. Qed.

Lemma signed_char_rejects_logs_witness :
  (@archiveOne signed_platform default_download 60 sample_entry sample_world).1 <> Ok Downloaded.
Proof.
  apply (@signed_char_rejects_logs signed_platform default_download sample_contents 60 sample_entry sample_world
    0xA3 (tail sample_content)).
  - reflexivity.
  - vm_compute. reflexivity.
  - split; vm_compute; reflexivity.
  - vm_compute. split; [discriminate|reflexivity].
  - vm_compute. split; [discriminate|reflexivity].
  - vm_compute. reflexivity.
  - vm_compute. reflexivity.
  - lia.
  - exact signed_link_ok.
Defined.

(** On the same input a platform with unsigned [char]s archives the log; here the
    re-read fails. *)
Example platforms_differ :
  (archiveOne default_download 60 sample_entry sample_world).1 = Ok Downloaded /\
  (@archiveOne signed_platform default_download 60 sample_entry sample_world).1 = Ok ArchiveFailed /\
  w_last_failure (@archiveOne signed_platform default_download 60 sample_entry sample_world).2 = RereadMismatch.
Proof. vm_compute. split_and!; reflexivity. Qed.

(** A log of one FMT record is shorter than a chunk: it has no samples, and the same
    platform archives it. *)
Definition short_entry : LogEntry :=
  {| le_id := 1; le_num_logs := 1; le_last_log_num := 1; le_time_utc := 1700000000; le_size := 89 |}.

Definition short_world : World :=
  let data := take 89 sample_content in
  {| w_shared := w_shared sample_world; w_last_failure := NoFailure; w_progress := no_progress;
     w_progress_begin := 0; w_now := 5000; w_wall := 1700000001000000000; w_db := empty_database;
     w_storage := w_storage sample_world; w_sent := [];
     w_script := replicate 40
       {| k_elapsed := 1000000; k_events := [Receive (LogDataFrame 1 0 89 (data ++ [0]))];
          k_connected := true; k_fresh := true; k_send_ok := true; k_disk_ok := true |} |}.

Example short_logs_pass :
  head sample_content = Some 0xA3 /\
  (@archiveOne signed_platform default_download 60 short_entry short_world).1 = Ok Downloaded.
Proof. vm_compute. by split. Qed.
