(* ===== verification/ArchiveSuccess.v ===== *)
(** Completeness of archiving: when the flight controller's frames arrive in time,
    nobody cancels and the disk works, the download of a log, its checks and the
    finalizing of its file succeed ([RereadSuccess] puts them together).

    The downloader is an owner whose sessions are answered ([OwnerDelivers]): the
    frames to come of the script hold every chunk of the log, no more than the queue
    takes, and end before the download timeout. *)

From S2P Require Import Prelude Effects LogProtocol Types ReceivedRanges Sha256 DataFlash FcSampleOffsets.
From S2P Require Import Database Storage Session SessionProofs SessionSuccess Downloader DownloaderProofs ArchiveProofs.
Open Scope Z_scope.

(** * Frames to come *)

Section Flow.
Context `{Platform} (settings : DownloadSettings).

(** The chunk an event queues, and those of the ticks to come. *)
Definition event_chunk (ev : ThreadEvent) : option LogDataChunk :=
  match ev with
  | Receive (LogDataFrame id ofs count data) =>
      if count =? 0 then None else Some (chunk_of_frame id ofs count data)
  | _ => None
  end.

Definition arriving (ks : list Tick) : list LogDataChunk :=
  mjoin ((fun k => omap event_chunk (k_events k)) <$> ks).

Lemma arriving_cons k ks : arriving (k :: ks) = omap event_chunk (k_events k) ++ arriving ks.
Proof using Type. done. Qed.

(** Nobody cancels, the disk works, and time does not run back. *)
Definition smooth (k : Tick) : Prop :=
  Forall (fun ev => ev <> CancelRequested) (k_events k) /\ k_disk_ok k = true /\ 0 <= k_elapsed k.

(** The time of the ticks, with the nanosecond that a wait takes at least. *)
Definition script_time (ks : list Tick) : Z := foldr (fun k n => k_elapsed k + 1 + n) 0 ks.

(** The chunks queued, and those to come. *)
Definition pool (w : World) : list LogDataChunk := sh_chunks (w_shared w) ++ arriving (w_script w).

Definition calm_link (w : World) : Prop :=
  sh_cancel (w_shared w) = false /\ Forall smooth (w_script w).

Lemma script_time_cons k ks : script_time (k :: ks) = k_elapsed k + 1 + script_time ks.
Proof using Type. done. Qed.

Lemma script_time_nonneg ks : Forall smooth ks -> 0 <= script_time ks.
Proof using Type. induction 1 as [|k ks (_ & _ & ?)]; simpl; lia. Qed.

Lemma run_events_calm evs : forall sh, Forall (fun ev => ev <> CancelRequested) evs ->
  sh_cancel (foldl (fun sh ev => run_event settings ev sh) sh evs) = sh_cancel sh.
Proof using Type.
  induction evs as [|ev evs IH]; intros sh Hev; [done|]. apply Forall_cons in Hev as [Hne Hev]. cbn [foldl].
  rewrite IH by done. destruct ev as [[| |]|]; try done. simpl. by case_match.
Qed.

(** With room in the queue every chunk is queued. *)
Lemma run_event_flow ev sh : zlen (sh_chunks sh ++ option_list (event_chunk ev)) <= queue_cap settings ->
  sh_chunks (run_event settings ev sh) = sh_chunks sh ++ option_list (event_chunk ev).
Proof using Type.
  intros Hcap. destruct ev as [[e|id ofs count data|]|]; try (simpl; by rewrite app_nil_r).
  simpl in *. destruct (count =? 0); simpl in *; [by rewrite app_nil_r|].
  unfold trimDataChunkQueue. fold (chunk_of_frame id ofs count data).
  replace (_ - _)%nat with 0%nat; [done|]. unfold zlen in Hcap. rewrite length_app in *. simpl in *. lia.
Qed.

Lemma omap_event_cons ev evs : omap event_chunk (ev :: evs) = option_list (event_chunk ev) ++ omap event_chunk evs.
Proof using Type. simpl. by destruct (event_chunk ev). Qed.

Lemma run_events_flow evs : forall sh, zlen (sh_chunks sh ++ omap event_chunk evs) <= queue_cap settings ->
  sh_chunks (foldl (fun sh ev => run_event settings ev sh) sh evs) = sh_chunks sh ++ omap event_chunk evs.
Proof using Type.
  induction evs as [|ev evs IH]; intros sh Hcap; [simpl; by rewrite app_nil_r|].
  rewrite omap_event_cons in *. cbn [foldl].
  pose proof (run_event_flow ev sh) as Hch. rewrite IH; rewrite Hch, <- ?app_assoc; try done;
    (unfold zlen in *; rewrite length_app; rewrite !length_app in Hcap; lia).
Qed.

Lemma interfere_calm w : calm_link w ->
  calm_link (interfere settings w).2 /\ w_script (interfere settings w).2 = tail (w_script w) /\
  w_now (interfere settings w).2 + script_time (w_script (interfere settings w).2)
    <= w_now w + script_time (w_script w) /\
  k_disk_ok (interfere settings w).1 = true.
Proof using Type.
  intros [Hc Hs]. unfold calm_link, interfere. cbn [fst snd w_shared w_script w_now].
  destruct (w_script w) as [|k ks]; cbn [head default id tail k_events k_elapsed k_disk_ok quiet_tick foldl].
  { split_and!; try done. rewrite Z.add_0_r. done. }
  apply Forall_cons in Hs as [(Hev & Hd & He) Hs]. rewrite run_events_calm by done.
  split_and!; try done. rewrite script_time_cons. lia.
Qed.

Lemma interfere_pool w : zlen (pool w) <= queue_cap settings -> pool (interfere settings w).2 = pool w.
Proof using Type.
  unfold pool, interfere. cbn [fst snd w_shared w_script].
  destruct (w_script w) as [|k ks]; cbn [head default id tail k_events quiet_tick foldl]; [done|].
  rewrite arriving_cons, app_assoc. intros Hcap. rewrite run_events_flow; [done|].
  unfold zlen in *. rewrite length_app in Hcap. lia.
Qed.

(** ** The owner *)

Context (id : Z) (log : list Z) (limit : Z).

(** The frames hold what the session still needs, and the queue takes them. *)
Record flowing (seen : list LogDataChunk) (chunks : list LogDataChunk) : Prop := {
  fl_room : zlen chunks <= queue_cap settings;
  fl_sent : Forall (fun c => c_id c = id -> sent_chunk id log c) chunks;
  fl_all : all_sent log (seen ++ filter (fun c => c_id c = id) chunks);
}.

Definition in_time (w : World) : Prop := w_now w + script_time (w_script w) < limit.

(** The session begins [n] steps from here, with an empty queue. *)
Definition starts_in (n : nat) (w : World) : Prop :=
  calm_link w /\ in_time w /\ flowing [] (arriving (drop n (w_script w))).

Definition world_due (waiting : bool) (seen : list LogDataChunk) (w : World) : Prop :=
  calm_link w /\ flowing seen (pool w) /\
  (in_time w \/ all_sent log seen \/ waiting = true /\ w_script w = []).

(** Steps of the main thread that leave the shared state and the clock alone. *)
Definition aside {A} (f : Tick -> World -> A * World) : Prop := forall k w,
  w_shared (f k w).2 = w_shared w /\ w_script (f k w).2 = w_script w /\ w_now (f k w).2 = w_now w.

(** Steps that leave the cancel flag and the clock alone. *)
Definition gentle {A} (f : Tick -> World -> A * World) : Prop := forall k w,
  sh_cancel (w_shared (f k w).2) = sh_cancel (w_shared w) /\ w_script (f k w).2 = w_script w /\
  w_now (f k w).2 = w_now w.

Lemma interfere_due b seen w : world_due b seen w -> world_due b seen (interfere settings w).2.
Proof using Type.
  intros (Hc & Hf & Ht). destruct (interfere_calm w Hc) as (Hc' & Hs & Hl & _).
  pose proof (interfere_pool w (fl_room _ _ Hf)) as Hp. split; [done|]. rewrite Hp. split; [done|]. unfold in_time in *. destruct Ht as [Ht|[Ht|[-> Ht]]]; [left; lia|right; by left|].
  right. right. by rewrite Hs, Ht.
Qed.

Lemma aside_due {A} b seen (f : Tick -> World -> A * World) w :
  aside f -> world_due b seen w -> world_due b seen (atomic settings f w).2.
Proof using Type.
  intros Hf Hw. apply interfere_due in Hw. unfold atomic. destruct (interfere settings w) as [k w'].
  destruct (Hf k w') as (Hsh & Hsc & Hn). unfold world_due, calm_link, pool, in_time in *.
  by rewrite Hsh, Hsc, Hn.
Qed.

(** A step towards the session. *)
Lemma interfere_starts n w : starts_in (S n) w -> starts_in n (interfere settings w).2.
Proof using Type.
  intros (Hc & Ht & Hf). destruct (interfere_calm w Hc) as (Hc' & Hs & Hl & _).
  split; [done|]. unfold in_time in *. split; [lia|]. rewrite Hs.
  replace (drop n (tail (w_script w))) with (drop (S n) (w_script w)); [done|].
  destruct (w_script w); [simpl; by rewrite ?drop_nil|done].
Qed.

Lemma gentle_starts {A} n (f : Tick -> World -> A * World) w :
  gentle f -> starts_in (S n) w -> starts_in n (atomic settings f w).2.
Proof using Type.
  intros Hf Hw. apply interfere_starts in Hw. unfold atomic. destruct (interfere settings w) as [k w'].
  destruct (Hf k w') as (Hsh & Hsc & Hn). unfold starts_in, calm_link, in_time in *.
  by rewrite Hsh, Hsc, Hn.
Qed.

(** Clearing the queue begins the session. *)
Lemma clear_starts w : starts_in 1 w -> world_due true [] (clearDataChunks settings w).2.
Proof using Type.
  intros Hw. apply interfere_starts in Hw as (Hc & Ht & Hf). unfold clearDataChunks, atomic.
  destruct (interfere settings w) as [k w']. rewrite drop_0 in Hf. split; [done|]. split; [|by left].
  done.
Qed.

Lemma filter_others (chunks : list LogDataChunk) :
  filter (fun c => c_id c = id) (filter (fun c => c_id c <> id) chunks) = [].
Proof using Type.
  induction chunks as [|c chunks IH]; [done|]. destruct (decide (c_id c = id)).
  - by rewrite (filter_cons_False (fun c => c_id c <> id)) by auto.
  - by rewrite (filter_cons_True (fun c => c_id c <> id)), filter_cons_False.
Qed.

Lemma drain_due seen w : world_due true seen w ->
  Forall (sent_chunk id log) (ld_drainLogDataChunks settings id w).1 /\
  world_due false (seen ++ (ld_drainLogDataChunks settings id w).1) (ld_drainLogDataChunks settings id w).2.
Proof using Type.
  intros Hw. apply interfere_due in Hw as (Hc & [Hr Hs Ha] & Ht). unfold ld_drainLogDataChunks, atomic.
  destruct (interfere settings w) as [k w']. cbn [fst snd] in *. unfold pool in *.
  set (q := sh_chunks (w_shared w')) in *. set (ks := arriving (w_script w')) in *.
  apply Forall_app in Hs as [Hq Hks]. rewrite filter_app, app_assoc in Ha.
  split; [rewrite Forall_forall in Hq |- *; intros c [Hid Hin]%list_elem_of_filter; by apply Hq|].
  split; [done|]. split.
  - unfold pool. cbn [w_shared set_shared w_script sh_chunks]. fold q ks. split.
    + etrans; [|exact Hr]. unfold zlen. rewrite !length_app. pose proof (length_filter (fun c => c_id c <> id) q). lia.
    + apply Forall_app. split; [by apply Forall_filter_weaken|done].
    + by rewrite filter_app, filter_others.
  - destruct Ht as [Ht|[Ht|[_ Ht]]]; [by left|right; left; by apply all_sent_more|right; left]. unfold ks in Ha. rewrite Ht in Ha. by rewrite app_nil_r in Ha.
Qed.

Lemma wait_due seen w : world_due false seen w -> world_due true seen (ld_wait settings (ms 10) w).2.
Proof using Type.
  intros Hw. unfold ld_wait. destruct (w_script w) as [|k ks] eqn:E.
  - destruct Hw as (Hc & Hf & _). split; [done|]. split; [done|]. right. by right.
  - pose proof Hw as (Hc & _ & Ht). pose proof (interfere_due _ _ _ Hw) as (Hc' & Hf' & _).
    destruct Hc as [_ Hs]. rewrite E in Hs. apply Forall_cons in Hs as [_ Hs].
    unfold interfere in *. cbn [fst snd w_shared w_script w_now] in *. rewrite E in *.
    cbn [head default Datatypes.id tail] in *. split; [done|]. split; [done|].
    unfold in_time in *. destruct Ht as [Ht|[Ht|[? _]]]; [left|right; by left|done].
    rewrite E, script_time_cons in Ht. cbn [w_now pass_time w_script]. lia.
Qed.

#[export] Instance World_delivers :
  @OwnerDelivers World (Downloader_owner settings) id log limit (starts_in 2) world_due.
Proof using Type.
  split.
  - intros w Hw. exact (clear_starts _ (gentle_starts 1 (fun _ w => (w_now w, w)) w ltac:(done) Hw)).
  - intros b seen w Hw. split; [|by apply (aside_due b seen (fun _ w => (sh_cancel (w_shared w), w)))].
    apply interfere_due in Hw as ([Hc _] & _). revert Hc. by destruct w.
  - intros b seen o n w.
    by apply (aside_due b seen (fun k w => (k_send_ok k, log_sent (LogRequestData id o n) (k_send_ok k) w))).
  - intros b seen w. by apply (aside_due b seen (fun _ w => (sh_zero_length (w_shared w), w))).
  - intros b seen n w. by apply aside_due.
  - intros b seen w. by apply (aside_due b seen (fun _ w => (w_now w, w))).
  - intros seen w Hw Hmiss. apply interfere_due in Hw as ([_ Hs] & _ & [Ht|[?|[? _]]]); [|done..].
    pose proof (script_time_nonneg _ Hs). unfold in_time in Ht.
    change ((@steady_now _ (Downloader_owner settings) w).1) with (w_now (interfere settings w).2). lia.
  - intros b seen w Hw. split; [|by apply (aside_due b seen (fun k w => (k_disk_ok k, w)))].
    destruct Hw as (Hc & _). by pose proof (interfere_calm w Hc) as (_ & _ & _ & Hd).
  - apply drain_due.
  - apply wait_due.
Qed.

Lemma gentle_calm {A} (f : Tick -> World -> A * World) w :
  gentle f -> calm_link w -> calm_link (atomic settings f w).2.
Proof using Type.
  intros Hf Hw. apply interfere_calm in Hw as [Hw _]. unfold atomic. destruct (interfere settings w) as [k w'].
  destruct (Hf k w') as (Hsh & Hsc & _). unfold calm_link in *. by rewrite Hsh, Hsc.
Qed.

Lemma interfere_later w : calm_link w -> w_now w <= w_now (interfere settings w).2.
Proof using Type.
  intros [_ Hs]. unfold interfere. cbn [snd w_now]. destruct (w_script w) as [|k ks]; simpl; [lia|].
  apply Forall_cons in Hs as [(_ & _ & ?) _]. lia.
Qed.
End Flow.

(** * Archiving *)

(** Two triples of one computation, then the next. *)
Lemma both_bind {W A B} P K (m : M W A) R R' (k : A -> M W B) Q :
  spec True P m R -> spec True K m R' -> (forall a, spec True (fun w => R a w /\ R' a w) (k a) Q) ->
  spec True (fun w => P w /\ K w) (m ≫= k) Q.
Proof. intros Hm Hm' Hk. eapply spec_bind; [by apply (spec_conj True _ _ _ _ _ Hm Hm')|exact Hk]. Qed.

Lemma act_same {W} (P : W -> Prop) f : (forall w, P w -> P (f w)) -> spec True P (act f) (fun _ => P).
Proof. intros Hf w Hw. by apply Hf. Qed.

(** The same when the second triple knows the value. *)
Lemma both_known {W A B} P K (m : M W A) R K' v (k : A -> M W B) Q :
  spec True P m R -> spec True K m (fun a w => a = v /\ K' w) -> spec True (fun w => R v w /\ K' w) (k v) Q ->
  spec True (fun w => P w /\ K w) (m ≫= k) Q.
Proof.
  intros Hm Hm' Hk. eapply both_bind; [done..|]. intros a w (Ha & -> & Hw). by apply Hk.
Qed.

Lemma both_pure {W A} (R : Prop) P K (m : M W A) Q :
  (R -> spec True (fun w => P w /\ K w) m Q) -> spec True (fun w => (R /\ P w) /\ K w) m Q.
Proof. intros Hm w [[HR Hw] HK]. by apply Hm. Qed.

Lemma both_ex {W A X} (P : X -> W -> Prop) K (m : M W A) Q :
  (forall x, spec True (fun w => P x w /\ K w) m Q) -> spec True (fun w => (exists x, P x w) /\ K w) m Q.
Proof. intros Hm w [[x Hw] HK]. apply (Hm x). by split. Qed.

(** What the checks accept of a log. *)
Definition accepted (settings : DownloadSettings) (entry : LogEntry) (log : list Z) : Prop :=
  verify_dataflash_parse settings = true ->
  exists v, validateDataFlashBuffer log = Some v /\ DataFlash.ok v = true /\
    dataFlashResyncRatioExceeded v (le_size entry) (verify_max_bad_header_ratio settings) = false.

Section Archive.
Context `{Platform} (settings : DownloadSettings).
Context (contents : Z -> list Z) (good_entry : LogEntry -> Prop) (sent0 : list (Request * bool)).
Context (entry : LogEntry) (t0 : Z).
Context (Hprobe : 0 <= probe_bytes settings < 2 ^ 31) (Hretry : 0 <= retry_count settings).
Context (Hsize : 0 < le_size entry < 2 ^ 31) (Hlen : le_size entry = zlen (contents (le_id entry))).

Local Abbreviation log := (contents (le_id entry)).
Local Abbreviation limit := (t0 + seconds (download_timeout_sec settings)).
Local Abbreviation good db st last :=
  (good_world True (honest contents) good_entry (exactly sent0 db st last)).

(** The session begins [n] steps from here; and after it. *)
Definition coming_up (n : nat) (w : World) : Prop :=
  starts_in settings (le_id entry) log limit n w /\ t0 <= w_now w.

Lemma gentle_step {A} n (f : Tick -> World -> A * World) : gentle f ->
  spec True (coming_up (S n)) (op (atomic settings f)) (fun _ => coming_up n).
Proof using Type.
  intros Hf. apply spec_op. intros w [Hs Ht]. split; [by apply gentle_starts|].
  pose proof (interfere_later settings w (proj1 Hs)) as Hl. unfold atomic.
  destruct (interfere settings w) as [k w']. destruct (Hf k w') as (_ & _ & ->). simpl in Hl. lia.
Qed.

Lemma calm_step {A} (f : Tick -> World -> A * World) : gentle f ->
  spec True calm_link (op (atomic settings f)) (fun _ => calm_link).
Proof using Type. intros Hf. apply spec_op. intros w. by apply gentle_calm. Qed.

(** An owner keeps its laws for the chunks of one log. *)
Lemma log_laws (Good : World -> Prop) :
  @SessionOwnerLaws World (Downloader_owner settings) Good (honest contents) w_now ->
  @SessionOwnerLaws World (Downloader_owner settings) Good (honest_chunk (le_id entry) log) w_now.
Proof using Type.
  intros []. split; try done. intros id w Hw. eapply Forall_impl; [by apply drain_good|].
  intros c [Hc Hi]. split; [by apply honest_of_id|done].
Qed.

(** The session of the log. *)
Lemma log_session_succeeds db st last fuel :
  spec True (fun w => good db st last w /\ coming_up 2 w)
    (@run World (Downloader_owner settings) settings (full_params settings entry) fuel new_file)
    (fun r w => (sr_success r.1 = true /\ f_bytes r.2 = log /\ bytesReceived (sr_ranges r.1) = le_size entry) /\
       good db st last w /\ calm_link w).
Proof using Hlen Hprobe Hretry Hsize.
  assert (params_ok (full_params settings entry)) as Hp by (constructor; simpl; [done|lia|done]).
  pose proof (log_laws (good db st last) (Downloader_laws settings True (honest contents) good_entry
    (exactly sent0 db st last) (fun db' st' last' sent r ok => exactly_sent sent0 db st last db' st' last' sent r ok)))
    as Hlaws.
  pose proof (@run_succeeds World (Downloader_owner settings) (good db st last) w_now settings (full_params settings entry)
    log limit (starts_in settings (le_id entry) log limit 2) (world_due settings (le_id entry) log limit) Hlaws
    (World_delivers settings (le_id entry) log limit) Hp Hlen new_file eq_refl t0 ltac:(lia) fuel Hretry) as Hrun.
  eapply spec_weaken; [exact Hrun| |].
  - intros w [Hg [Hs Ht]]. by split.
  - intros r w [(Hok & Hf & cs & Hcs) (t & seen & [Hg _] & Hc & _)]. split; [|done]. split; [done|].
    rewrite Hlen. by eapply (@delivered_log World (Downloader_owner settings) _ (full_params settings entry)).
Qed.

Lemma cancelled_step n : spec True (coming_up (S n)) (op (ld_cancelled settings))
  (fun stop w => stop = false /\ coming_up n w).
Proof using Type.
  apply spec_op. intros w [Hs Ht]. pose proof (interfere_later settings w (proj1 Hs)) as Hl.
  apply interfere_starts in Hs. unfold ld_cancelled, atomic.
  destruct (interfere settings w) as [k w']. cbn [fst snd] in *. pose proof Hs as ([-> _] & _).
  split; [done|]. split; [done|lia].
Qed.

Lemma begin_step n : spec True (coming_up (S n)) (op (begin_partial settings)) (fun _ => coming_up n).
Proof using Type.
  apply spec_op. intros w [Hs Ht]. pose proof (interfere_later settings w (proj1 Hs)) as Hl.
  apply interfere_starts in Hs. unfold begin_partial, atomic.
  destruct (interfere settings w) as [k w']. cbn [fst snd] in *. split; [exact Hs|]. simpl. lia.
Qed.

(** A step of the disk, which works. *)
Lemma open_step n p : spec True (coming_up (S n)) (op (open_truncate settings p))
  (fun ok w => ok = true /\ coming_up n w).
Proof using Type.
  apply spec_op. intros w [Hs Ht]. pose proof (interfere_later settings w (proj1 Hs)) as Hl.
  pose proof (interfere_calm settings w (proj1 Hs)) as (_ & _ & _ & Hd).
  apply interfere_starts in Hs. unfold open_truncate, atomic.
  destruct (interfere settings w) as [k w']. cbn [fst snd] in *. rewrite Hd. split; [done|]. split; [exact Hs|].
  simpl. lia.
Qed.

Lemma download_succeeds db st last fuel partial :
  spec True (fun w => good db st last w /\ coming_up 5 w) (downloadLogData settings fuel entry partial)
    (fun d w => dl_ok d = true /\ exists st' last' n,
       (st_fs st' !! partial = Some n /\ n_bytes n = log) /\ good db st' last' w /\ calm_link w).
Proof using Hlen Hprobe Hretry Hsize.
  unfold downloadLogData.
  eapply both_bind; [apply (keep_good _ _ _ _ _ _ _ _ (ld_now settings)), read_op|
    by apply (gentle_step 4 (fun _ w => (w_now w, w)))|]. intros start.
  eapply both_bind; [apply fail_as_spec|by apply act_same|]. intros [].
  eapply both_bind; [apply keep_good, clear_keeps|by apply (gentle_step 3 (fun _ w => (tt, clear_chunks w)))|]. intros u.
  eapply both_known; [apply open_truncate_spec|apply open_step|]. cbn [negb]. apply both_ex. intros n0.
  eapply spec_bind; [apply log_session_succeeds|]. intros [result f]. apply spec_pure. cbn [fst snd].
  intros (-> & Hf & Hn).
  eapply both_bind; [apply put_file_spec|by apply act_same|]. intros [].
  apply both_ex. intros n. apply both_pure. intros Hbytes.
  eapply both_bind; [apply keep_good, end_op|by apply (calm_step (fun k w => (tt, log_sent LogRequestEnd (k_send_ok k) w)))|].
  intros u'. cbn [negb]. replace (bytesReceived (sr_ranges result) =? le_size entry) with true by ztest.
  rewrite andb_false_r. eapply both_bind; [apply fail_as_spec|by apply act_same|]. intros [].
  apply spec_ret. intros w [Hg Hc]. split; [done|]. eexists _, NoFailure, n. split; [|by split].
  split; [apply lookup_insert_eq|by rewrite Hbytes].
Qed.

(** The log is one that the checks accept. *)
Context (Haccepted : accepted settings entry log).

Lemma read_step db st last p n : st_fs st !! p = Some n ->
  spec True (fun w => good db st last w /\ calm_link w) (op (read_file settings p))
    (fun c w => c = Contents (n_bytes n) /\ good db st last w /\ calm_link w).
Proof using Type.
  intros Hn. apply spec_op. intros w [Hg Hc]. unfold read_file, atomic.
  destruct (interfere_good settings _ _ _ _ w Hg) as [Hg' _].
  pose proof (interfere_calm settings w Hc) as (Hc' & _ & _ & Hd).
  destruct (interfere settings w) as [k w']. cbn [fst snd] in *. split; [|done].
  pose proof Hg' as (_ & _ & _ & -> & _). by rewrite Hn, Hd.
Qed.

Lemma verify_succeeds db st last p n : st_fs st !! p = Some n -> n_bytes n = log ->
  spec True (fun w => good db st last w /\ calm_link w) (verifyDataFlashFile settings p)
    (fun b w => b = true /\ good db st last w /\ calm_link w).
Proof using Haccepted Hlen Hsize.
  intros Hn Hb. pose proof Haccepted as Hacc. unfold verifyDataFlashFile, accepted in *.
  destruct (verify_dataflash_parse settings); cbn [negb]; [|by apply spec_ret].
  destruct (Hacc eq_refl) as (v & Hv & Hok & Hratio).
  eapply spec_bind; [by apply read_step|]. intros c. apply spec_pure. intros ->. rewrite Hb.
  eapply (spec_bind _ _ _ (fun v' w => v' = v /\ good db st last w /\ calm_link w)).
  { eapply spec_or_throw; [exact Hv|done]. }
  intros v'. apply spec_pure. intros ->. rewrite Hok. cbn [negb].
  eapply (spec_bind _ _ _ (fun size w => size = le_size entry /\ good db st last w /\ calm_link w)).
  { apply spec_op. intros w [Hg Hc]. unfold atomic. destruct (interfere_good settings _ _ _ _ w Hg) as [Hg' _].
    pose proof (interfere_calm settings w Hc) as [Hc' _].
    destruct (interfere settings w) as [k w']. cbn [fst snd] in *. split; [|done].
    pose proof Hg' as (_ & _ & _ & -> & _). rewrite Hn. simpl. unfold n_size. by rewrite Hb. }
  intros size. apply spec_pure. intros ->. apply spec_ret. intros w Hw. split; [|done].
  rewrite u32_small by lia. by rewrite Hratio.
Qed.

Lemma finalize_succeeds db st last partial start n : st_fs st !! partial = Some n ->
  spec True (fun w => good db st last w /\ calm_link w) (op (finalize_op settings partial start))
    (fun r w => is_Some r).
Proof using Type.
  intros Hn. apply spec_op. intros w [Hg Hc]. unfold finalize_op, atomic.
  destruct (interfere_good settings _ _ _ _ w Hg) as [Hg' _].
  pose proof (interfere_calm settings w Hc) as (_ & _ & _ & Hd).
  destruct (interfere settings w) as [k w']. cbn [fst snd] in *.
  destruct Hg' as (_ & _ & _ & -> & _). unfold finalizePartial, sync_view. rewrite Hn, Hd. cbn.
  by rewrite lookup_insert_eq.
Qed.

Lemma finish_succeeds db st last partial n d : st_fs st !! partial = Some n ->
  spec True (fun w => good db st last w /\ calm_link w) (finish_archive settings entry partial d true)
    (fun r _ => r = Downloaded).
Proof using Type.
  intros Hn. unfold finish_archive. cbn [negb].
  eapply spec_bind; [by apply (finalize_succeeds db st last _ _ n)|]. by intros r w [fr ->].
Qed.
End Archive.

(** A download of the log [id] that is answered: nobody cancels, the disk works, and
    the frames that arrive after the eight steps up to the request are chunks of the
    log, all of them, no more than the queue takes, before the timeout. *)
Definition answered `{Platform} (settings : DownloadSettings) (id : Z) (log : list Z) (w : World) : Prop :=
  starts_in settings id log (w_now w + seconds (download_timeout_sec settings)) 8 w.

(** * A log that is answered *)

Definition slot_chunk (k : Z) : LogDataChunk :=
  {| c_id := 1; c_offset := 90 * k; c_count := zlen (slot_bytes sample_content k); c_data := slot_bytes sample_content k |}.

Lemma slot_chunk_sent k : 0 <= k -> 90 * k < zlen sample_content -> sent_chunk 1 sample_content (slot_chunk k).
Proof. intros Hk Hl. split; [done|]. by exists k. Qed.

Lemma sample_accepted : accepted default_download sample_entry (sample_contents (le_id sample_entry)).
Proof. intros _. eexists. split; [vm_compute; reflexivity|]. split; vm_compute; reflexivity. Qed.

(** The chunks of the sample log flow, and come once more. *)
Lemma sample_slots_flow : flowing default_download 1 sample_content [] (slot_chunk <$> [1; 0; 2; 1; 0; 2]).
Proof.
  assert (zlen sample_content = 191) as Hl by (vm_compute; reflexivity). split.
  - vm_compute. discriminate.
  - rewrite Forall_fmap. repeat (constructor; [intros _; apply slot_chunk_sent; lia|]). constructor.
  - intros k Hk Hlt. assert (k = 0 \/ k = 1 \/ k = 2) as Hcase by lia. exists (slot_chunk k). split; [|done].
    apply list_elem_of_filter. split; [done|]. apply (list_elem_of_fmap_2 slot_chunk).
    destruct Hcase as [->|[->| ->]]; set_solver.
Qed.
