(* ===== verification/RereadSuccess.v ===== *)
(** Completeness of archiving, continued: a log that is answered is archived.  The
    default settings read samples of it again, from the flight controller; then the
    sampled chunks have to arrive once more after the download, and [char] has to be
    unsigned.

    [before_reread] is the part of [archiveOne] up to the re-read; the world it leaves
    is the one the second answers are counted from. *)

From S2P Require Import Prelude Effects LogProtocol Types ReceivedRanges Sha256 DataFlash FcSampleOffsets.
From S2P Require Import Database Storage Session SessionProofs SessionSuccess Downloader DownloaderProofs ArchiveProofs.
From S2P Require Import ArchiveSuccess.
From Stdlib Require Import Sorting.Sorted.
Open Scope Z_scope.

(** * Waiting for the samples *)

Section Samples.
Context `{Platform} (settings : DownloadSettings) (id : Z) (log : list Z).

Local Abbreviation timeout := (seconds (download_timeout_sec settings)).

Definition sample_in (chunks : list LogDataChunk) (ofs : Z) : Prop :=
  exists c, c ∈ chunks /\ c_id c = id /\ c_offset c = ofs.

(** The samples [rest] are in the queue or to come, in time and with room for them. *)
Record rereadable (rest : list Z) (w : World) : Prop := {
  re_calm : calm_link w;
  re_sends : Forall (fun k => k_send_ok k = true) (w_script w);
  re_time : script_time (w_script w) < timeout;
  re_room : zlen (pool w) <= queue_cap settings;
  re_sent : Forall (fun c => c_id c = id -> sent_chunk id log c) (pool w);
  re_samples : Forall (sample_in (pool w)) rest;
}.

(** The deadline is beyond the time of the script. *)
Definition before (deadline : Z) (w : World) : Prop := w_now w + script_time (w_script w) < deadline.

Lemma script_time_tail ks : Forall smooth ks -> script_time (tail ks) <= script_time ks.
Proof using Type. intros Hs. destruct Hs as [|k ks (_ & _ & He) Hs]; [done|]. simpl. lia. Qed.

Lemma interfere_rereadable rest w : rereadable rest w -> rereadable rest (interfere settings w).2.
Proof using Type.
  intros [Hc Hs Ht Hr Hg Hp]. destruct (interfere_calm settings w Hc) as (Hc' & Hsc & _).
  pose proof (script_time_tail _ (proj2 Hc)). pose proof (interfere_pool settings w Hr) as Hpool.
  split; rewrite ?Hpool, ?Hsc; try done; [|lia]. destruct Hs; [constructor|done].
Qed.

Lemma interfere_before rest deadline w : rereadable rest w -> before deadline w ->
  before deadline (interfere settings w).2.
Proof using Type.
  intros [Hc _ _ _ _ _] Hb. destruct (interfere_calm settings w Hc) as (_ & _ & Hl & _). unfold before in *. lia.
Qed.

(** A step that only reads. *)
Lemma read_step_ready {A} (f : World -> A) rest w : rereadable rest w ->
  rereadable rest (atomic settings (fun _ w => (f w, w)) w).2.
Proof using Type.
  intros Hw. apply interfere_rereadable in Hw. unfold atomic. by destruct (interfere settings w).
Qed.

(** The wait: the script moves on, or it is over. *)
Lemma wait_ready rest deadline d w : rereadable rest w -> before deadline w ->
  let w' := (ld_wait settings d w).2 in
  rereadable rest w' /\ (before deadline w' \/ w_script w' = []).
Proof using Type.
  intros Hw Hb. unfold ld_wait. destruct (w_script w) as [|k ks] eqn:E; cbv zeta.
  - split; [|right; simpl; by rewrite E]. destruct Hw as [Hc Hs Ht Hr Hg Hp]. split; try done.
  - pose proof (interfere_rereadable rest w Hw) as Hw'.
    assert (before (deadline - 1) (interfere settings w).2) as Hb'.
    { destruct Hw as [[_ Hsm] _ _ _ _ _]. unfold before, interfere in *. cbn [snd w_now w_script].
      rewrite E in *. cbn [head default Datatypes.id tail]. rewrite script_time_cons in Hb. lia. }
    destruct (interfere settings w) as [k' w']. cbn [snd] in *. split.
    + destruct Hw' as [Hc Hs Ht Hr Hg Hp]. by split.
    + left. unfold before in *. cbn [w_now pass_time w_script]. lia.
Qed.

(** Taking a sample out of the queue. *)
Lemma take_chunk_found ofs chunks :
  Forall (fun c => c_id c = id -> sent_chunk id log c) chunks ->
  let '(found, rest) := take_chunk id ofs chunks in
  (sample_in chunks ofs -> exists c, c ∈ chunks /\ c_id c = id /\ c_offset c = ofs /\ found = Some (c_data c)) /\
  (found = None -> ~ sample_in chunks ofs) /\
  (length rest <= length chunks)%nat /\ (forall c, c ∈ rest -> c ∈ chunks) /\
  (found = None -> rest = chunks) /\
  (forall c, c ∈ chunks -> c_offset c <> ofs -> c ∈ rest).
Proof using Type.
  induction chunks as [|c chunks IH]; intros Hg; cbn [take_chunk].
  { split_and!; try done; [intros (c & Hc & _)|intros _ (c & Hc & _)]; by apply not_elem_of_nil in Hc. }
  apply Forall_cons in Hg as [Hc Hg]. specialize (IH Hg).
  destruct (negb (c_id c =? id) || negb (c_offset c =? ofs))%bool eqn:E.
  - destruct (take_chunk id ofs chunks) as [found rest]. destruct IH as (I1 & I2 & I3 & I4 & I5 & I6).
    assert (sample_in (c :: chunks) ofs -> sample_in chunks ofs) as Hin.
    { intros (c' & [->|Hc']%elem_of_cons & Hi & Ho); [by rewrite Hi, Ho, !Z.eqb_refl in E|by exists c']. }
    split_and!.
    + intros Hs. destruct (I1 (Hin Hs)) as (c' & Hc' & Hrest). exists c'. split; [by right|done].
    + intros Hf Hs. by apply I2, Hin.
    + simpl. lia.
    + intros c' [->|Hc']%elem_of_cons; [by left|right; auto].
    + intros Hf. by rewrite (I5 Hf).
    + intros c' [->|Hc']%elem_of_cons Hne; [by left|right; auto].
  - apply orb_false_iff in E as [E1 E2]. zb. destruct (Hc ltac:(done)) as (_ & k & Hk & Hlt & _ & Hd & _).
    destruct (c_data c) as [|x data] eqn:Ed.
    { exfalso. symmetry in Hd. apply (f_equal length) in Hd. unfold slot_bytes, zlen in *.
      rewrite length_take, length_drop in Hd. cbn [length] in Hd. lia. }
    split_and!; try done.
    + intros _. exists c. rewrite Ed. split_and!; try done. by left.
    + simpl. lia.
    + intros c' Hc'. by right.
    + intros c' [->|Hc']%elem_of_cons Hne; [done|done].
Qed.
(** The bytes of the log at [ofs]. *)
Definition sample_bytes (ofs : Z) (data : list Z) : Prop :=
  exists c, sent_chunk id log c /\ c_offset c = ofs /\ data = c_data c.

Lemma wait_and_take_ready rest ofs deadline w :
  rereadable (ofs :: rest) w -> ofs ∉ rest -> before deadline w ->
  let '(found, w') := wait_and_take settings id ofs w in
  match found with
  | Some data => sample_bytes ofs data /\ rereadable rest w'
  | None => rereadable (ofs :: rest) w' /\ before deadline w'
  end.
Proof using Type.
  intros Hw Hne Hb. destruct (wait_ready (ofs :: rest) deadline (ms 50) w Hw Hb) as [Hw1 Hb1].
  unfold wait_and_take. destruct (ld_wait settings (ms 50) w) as [u w1]. cbn [snd] in *.
  destruct Hw1 as [Hc Hs Ht Hr Hg Hp]. unfold pool in *. apply Forall_app in Hg as [Hg Hga].
  pose proof (take_chunk_found ofs (sh_chunks (w_shared w1)) Hg) as Htf.
  pose proof (take_chunk_spec id ofs (sh_chunks (w_shared w1))) as Hts.
  destruct (take_chunk id ofs (sh_chunks (w_shared w1))) as [found left].
  destruct Htf as (_ & I2 & I3 & I4 & I5 & I6). destruct Hts as [_ Hfound].
  apply Forall_cons in Hp as [Ho Hp]. destruct found as [data|].
  - destruct (Hfound data eq_refl) as (c & Hin & Hi & Hofs & Hd). split.
    { exists c. split; [|done]. rewrite Forall_forall in Hg. by apply Hg. }
    split; unfold pool; cbn [w_shared set_shared w_script sh_chunks sh_cancel]; try done.
    + unfold zlen in *. rewrite length_app in *. lia.
    + apply Forall_app. split; [|done]. rewrite Forall_forall in Hg |- *. auto.
    + rewrite Forall_forall in Hp |- *. intros o Hoin. destruct (Hp o Hoin) as (c' & Hc' & Hi' & Ho').
      exists c'. split; [|done]. apply elem_of_app in Hc' as [Hc'|Hc']; apply elem_of_app; [left|by right].
      apply I6; [done|]. intros He. apply Hne. by rewrite <- He, Ho'.
  - rewrite (I5 eq_refl). split.
    + split; unfold pool; cbn [w_shared set_shared w_script sh_chunks sh_cancel]; try done.
      * by apply Forall_app.
      * by constructor.
    + destruct Hb1 as [Hb1|Hnil]; [exact Hb1|exfalso]. rewrite Hnil, app_nil_r in Ho. by apply I2.
Qed.

(** The loop of [waitForLogData] finds the sample. *)
Lemma wait_loop_finds rest ofs fuel : ofs ∉ rest -> forall deadline,
  spec True (fun w => rereadable (ofs :: rest) w /\ before deadline w)
    (wait_loop settings fuel id ofs deadline)
    (fun found w => exists data, found = Some data /\ sample_bytes ofs data /\ rereadable rest w).
Proof using Type.
  intros Hne. induction fuel as [|fuel IH]; intros deadline; cbn [wait_loop]; [by apply spec_fuel|].
  set (P := fun w => rereadable (ofs :: rest) w /\ before deadline w).
  assert (forall w, P w -> P (interfere settings w).2) as HP.
  { intros w [Hw Hb]. split; [by apply interfere_rereadable|by eapply interfere_before]. }
  eapply (spec_bind _ _ _ (fun now w => (now <? deadline) = true /\ P w)).
  { apply spec_op. intros w Hw. apply HP in Hw. unfold ld_now, atomic. destruct (interfere settings w) as [k w'].
    cbn [fst snd] in *. split; [|done]. destruct Hw as [[[_ Hsm] _ _ _ _ _] Hb].
    pose proof (script_time_nonneg _ Hsm). unfold before in Hb. apply Z.ltb_lt. lia. }
  intros now. apply spec_pure. intros ->.
  eapply (spec_bind _ _ _ (fun stop w => stop = false /\ P w)).
  { apply spec_op. intros w Hw. apply HP in Hw. unfold ld_cancelled, atomic. destruct (interfere settings w) as [k w'].
    cbn [fst snd] in *. split; [|done]. by destruct Hw as [[[Hc _] _ _ _ _ _] _]. }
  intros stop. apply spec_pure. intros ->.
  eapply (spec_bind _ _ _ (fun found w => match found with
    | Some data => sample_bytes ofs data /\ rereadable rest w | None => P w end)).
  { apply spec_op. intros w [Hw Hb]. pose proof (wait_and_take_ready rest ofs deadline w Hw Hne Hb) as Ht.
    by destruct (wait_and_take settings id ofs w) as [[data|] w']. }
  intros [data|]; [|apply IH]. apply spec_ret. intros w [Hd Hw]. by exists data.
Qed.

Lemma waitForLogData_finds rest ofs fuel : ofs ∉ rest ->
  spec True (rereadable (ofs :: rest)) (waitForLogData settings fuel id ofs timeout)
    (fun found w => exists data, found = Some data /\ sample_bytes ofs data /\ rereadable rest w).
Proof using Type.
  intros Hne. unfold waitForLogData.
  eapply (spec_bind _ _ _ (fun now w => rereadable (ofs :: rest) w /\ before (now + timeout) w)).
  { apply spec_op. intros w Hw%interfere_rereadable. unfold ld_now, atomic. destruct (interfere settings w) as [k w'].
    cbn [fst snd] in *. split; [done|]. destruct Hw as [_ _ Ht _ _ _]. unfold before. lia. }
  intros now. by apply wait_loop_finds.
Qed.

(** ** The comparison *)

Context (Hchar : char_signed = false).

Lemma char_values (bytes : list Z) : char_value <$> bytes = bytes.
Proof using Hchar.
  induction bytes as [|b bytes IH]; [done|]. cbn. rewrite IH. unfold char_value. by rewrite Hchar.
Qed.

Lemma sample_agreed ofs data : sample_bytes ofs data -> valid_offset (zlen log) ofs ->
  exists file_buf, read_chunk true log ofs = (file_buf, true) /\ same_bytes data file_buf = true.
Proof using Hchar.
  intros (c & (_ & k & Hk & _ & Ho & Hd & _) & <- & ->) (_ & _ & Hsize). unfold kLogChunkSize in *.
  rewrite Hd, Ho in *. unfold read_chunk, kLogChunkSize. change (Z.to_nat 90) with 90%nat. fold (slot_bytes log k).
  exists (slot_bytes log k). split.
  - f_equal. apply Nat.eqb_eq. unfold slot_bytes, zlen in *. rewrite length_take, length_drop. lia.
  - unfold same_bytes. rewrite char_values, Nat.eqb_refl. simpl. by apply bool_decide_eq_true.
Qed.

(** All samples agree. *)
Lemma reread_accepts fuel entry offsets : le_id entry = id -> NoDup offsets -> Forall (valid_offset (zlen log)) offsets ->
  spec True (rereadable offsets) (reread_samples settings fuel entry log true offsets)
    (fun same w => same = true /\ calm_link w).
Proof using Hchar.
  intros Hid Hn. induction Hn as [|ofs offsets Hofs Hn IH]; intros Hv; cbn [reread_samples].
  - eapply (spec_bind _ _ _ (fun _ => calm_link)); [|intros u; apply spec_ret; by intros w Hw].
    apply spec_op. intros w [Hc _ _ _ _ _]. destruct (interfere_calm settings w Hc) as [Hc' _].
    unfold requestLogEnd, sendMessage, atomic. by destruct (interfere settings w).
  - apply Forall_cons in Hv as [Hv Hvs].
    eapply (spec_bind _ _ _ (fun sent w => sent = true /\ rereadable (ofs :: offsets) w)).
    { apply spec_op. intros w Hw. pose proof (interfere_rereadable _ w Hw) as Hw'.
      destruct Hw as [_ Hsend _ _ _ _]. unfold requestLogData, sendMessage, atomic.
      assert (k_send_ok (interfere settings w).1 = true) as Hk
        by (unfold interfere; cbn [fst]; by destruct Hsend).
      destruct (interfere settings w) as [k w']. cbn [fst snd] in *. split; [done|].
      destruct Hw' as [Hc Hs Ht Hr Hg Hp]. by split. }
    intros sent. apply spec_pure. intros ->. cbn [negb]. rewrite Hid.
    eapply spec_bind; [by apply waitForLogData_finds|]. intros found. apply spec_ex. intros data.
    apply spec_pure. intros ->. apply spec_pure. intros Hd.
    destruct (sample_agreed ofs data Hd Hv) as (file_buf & -> & ->). by apply IH.
Qed.
End Samples.

(** * From the download to the archive *)

Lemma increasing_NoDup l : StronglySorted Z.lt l -> NoDup l.
Proof.
  induction 1 as [|x l Hs IH Hx]; constructor; [|done]. intros Hin. rewrite Forall_forall in Hx.
  specialize (Hx x Hin). lia.
Qed.

Section Prefix.
Context `{Platform} (settings : DownloadSettings).

(** [download_and_archive] up to the re-read: the partial file, the download and
    what the checks say of it. *)
Definition before_reread (fuel : nat) (entry : LogEntry) : M World (path * Download * bool) :=
  partial ← op (begin_partial settings);
  op (updateProgressBegin settings (le_id entry) (le_size entry));;
  d ← downloadLogData settings fuel entry partial;
  if negb (dl_ok d) then mret (partial, d, false)
  else
    parsed ← verifyDataFlashFile settings partial;
    mret (partial, d, parsed).

Lemma split_at_reread fuel entry w partial d w2 :
  before_reread fuel entry w = (Ok (partial, d, true), w2) ->
  download_and_archive settings fuel entry w =
    (same ← verifyFcSampleReread settings fuel entry partial (dl_sha256 d);
     finish_archive settings entry partial d same) w2.
Proof using Type.
  unfold before_reread, download_and_archive. unfold mbind, M_bind, op.
  destruct (begin_partial settings w) as [p w1]. destruct (updateProgressBegin _ _ _ w1) as [u w3].
  destruct (downloadLogData settings fuel entry p w3) as [[d'|e|] w4]; [|done..].
  destruct (dl_ok d') eqn:Ed; cbn [negb]; [|done].
  destruct (verifyDataFlashFile settings p w4) as [[b|e|] w5]; [|done..].
  intros [= <- <- -> <-]. reflexivity.
Qed.

(** The chunks of the samples come, after the file was opened and the queue cleared. *)
Definition reread_answered (id : Z) (log : list Z) (offsets : list Z) (w : World) : Prop :=
  Forall (fun k => k_send_ok k = true) (w_script w) /\
  script_time (w_script w) < seconds (download_timeout_sec settings) /\
  let chunks := arriving (drop 2 (w_script w)) in
  zlen chunks <= queue_cap settings /\
  Forall (fun c => c_id c = id -> sent_chunk id log c) chunks /\
  Forall (sample_in id chunks) offsets.

(** The re-read of a log whose turn begins at [w]: it is not asked for, or the samples
    are answered in the world the download leaves and [char] is unsigned. *)
Definition second_answers (fuel : nat) (entry : LogEntry) (log : list Z) (w : World) : Prop :=
  match parseFcRereadMode (verify_fc_reread settings) with
  | RereadNone => True
  | RereadSample => char_signed = false /\
      forall partial d parsed w2,
        before_reread fuel entry (ld_cancelled settings w).2 = (Ok (partial, d, parsed), w2) ->
        reread_answered (le_id entry) log
          (buildFcSampleOffsets (le_size entry) (verify_fc_reread_sample_count settings) (le_id entry)
             (le_size entry) (dl_sha256 d)) w2
  | RereadFull => False
  end.

Context (contents : Z -> list Z) (good_entry : LogEntry -> Prop) (sent0 : list (Request * bool)).
Context (entry : LogEntry) (t0 : Z).
Context (Hprobe : 0 <= probe_bytes settings < 2 ^ 31) (Hretry : 0 <= retry_count settings).
Context (Hsize : 0 < le_size entry < 2 ^ 31) (Hlen : le_size entry = zlen (contents (le_id entry))).

Local Abbreviation log := (contents (le_id entry)).
Local Abbreviation good db st last :=
  (good_world True (honest contents) good_entry (exactly sent0 db st last)).

(** A re-read that is answered accepts the file. *)
Lemma reread_succeeds fuel p sha db st last n w0 :
  parseFcRereadMode (verify_fc_reread settings) = RereadSample -> char_signed = false ->
  verify_fc_reread_sample_count settings < 2 ^ 31 ->
  st_fs st !! p = Some n -> n_bytes n = log -> good db st last w0 -> calm_link w0 ->
  reread_answered (le_id entry) log
    (buildFcSampleOffsets (le_size entry) (verify_fc_reread_sample_count settings) (le_id entry) (le_size entry) sha) w0 ->
  spec True (fun w => w = w0) (verifyFcSampleReread settings fuel entry p sha)
    (fun same w => same = true /\ calm_link w).
Proof using Hlen Hsize.
  intros Hm Hchar Hcount Hn Hb Hg Hc (Hsend & Htime & Hroom & Hsent & Hin).
  destruct (buildFcSampleOffsets_valid (le_size entry) (verify_fc_reread_sample_count settings) (le_id entry)
    (le_size entry) sha) as [[Hsorted Hvalid] _]; [unfold is_u32; lia|lia|].
  unfold verifyFcSampleReread. rewrite Hm.
  set (offsets := buildFcSampleOffsets _ _ _ _ sha) in *.
  assert (spec True (fun w => w = w0)
    (bytes ← op (read_file settings p);
     match bytes with
     | Contents bytes => op (clearDataChunks settings);; reread_samples settings fuel entry bytes true offsets
     | _ => mret false
     end) (fun same w => same = true /\ calm_link w)) as Hread.
  { destruct (interfere_good settings _ _ _ _ w0 Hg) as [Hg1 _].
    destruct (interfere_calm settings w0 Hc) as (Hc1 & Hs1 & _ & Hd).
    eapply (spec_bind _ _ _ (fun bytes w => bytes = Contents log /\ w = (interfere settings w0).2)).
    { apply spec_op. intros w ->. unfold read_file, atomic. destruct (interfere settings w0) as [k w1].
      cbn [fst snd] in *. split; [|done]. destruct Hg1 as (_ & _ & _ & -> & _). by rewrite Hn, Hd, Hb. }
    intros bytes. apply spec_pure. intros ->.
    eapply (spec_bind _ _ _ (fun _ => rereadable settings (le_id entry) log offsets)).
    { apply spec_op. intros w ->. set (w1 := (interfere settings w0).2) in *.
      destruct (interfere_calm settings w1 Hc1) as (Hc2 & Hs2 & _). unfold clearDataChunks, atomic.
      destruct (interfere settings w1) as [k w2]. cbn [fst snd] in *.
      assert (w_script w2 = drop 2 (w_script w0)) as Hscript by (rewrite Hs2, Hs1; by destruct (w_script w0) as [|? []]).
      pose proof (script_time_tail _ (proj2 Hc)). pose proof (script_time_tail _ (proj2 Hc1)).
      split; unfold pool; cbn [clear_chunks set_shared w_shared w_script sh_chunks app]; rewrite ?Hscript; try done.
      - by apply Forall_drop.
      - rewrite <- Hscript, Hs2. rewrite Hs1 in *. lia. }
    intros u. apply reread_accepts; [done|done| |by rewrite <- Hlen].
    by apply increasing_NoDup. }
  destruct offsets as [|ofs offsets]; [|exact Hread]. apply spec_ret. by intros w ->.
Qed.
Context (Haccepted : accepted settings entry log).

Lemma prefix_succeeds db st last fuel :
  spec True (fun w => good db st last w /\ coming_up settings contents entry t0 7 w) (before_reread fuel entry)
    (fun x w => x.2 = true /\ exists st' last' n, (st_fs st' !! x.1.1 = Some n /\ n_bytes n = log) /\
       good db st' last' w /\ calm_link w).
Proof using Haccepted Hlen Hprobe Hretry Hsize.
  unfold before_reread. eapply both_bind; [apply begin_partial_spec|apply begin_step|]. intros partial.
  apply both_ex; intros name. apply both_ex; intros st1. apply both_pure. intros (-> & _).
  eapply both_bind; [apply keep_good, progress_begin_op|by apply gentle_step|]. intros u.
  eapply spec_bind; [by apply download_succeeds|]. intros d. apply spec_pure. intros ->. cbn [negb].
  apply spec_ex; intros st2. apply spec_ex; intros last2. apply spec_ex; intros n. apply spec_pure. intros [Hn Hb].
  eapply spec_bind; [by apply (verify_succeeds settings contents good_entry sent0 entry Hsize Hlen Haccepted db st2 last2 _ n)|].
  intros ok. apply spec_pure. intros ->. apply spec_ret. intros w Hw. split; [done|]. by exists st2, last2, n.
Qed.

(** The part before the re-read ends. *)
Lemma prefix_ends db st last fuel : cycle_fuel settings < Z.of_nat fuel ->
  spec False (good db st last) (before_reread fuel entry) (fun _ _ => True).
Proof using Hprobe Hsize.
  intros Hf. unfold before_reread. eapply spec_bind; [apply begin_partial_spec|]. intros partial.
  apply spec_ex; intros name. apply spec_ex; intros st1. apply spec_pure. intros _.
  apply keep_then; [apply progress_begin_op|]. intros u.
  eapply spec_bind; [apply downloadLogData_spec; [apply honest_wf|done|unfold entry_ok; lia|by right]|]. intros d.
  apply spec_ex; intros st2. apply spec_ex; intros last2. apply spec_pure. intros _. apply spec_pure. intros _.
  destruct (dl_ok d); cbn [negb]; [|by apply spec_ret].
  eapply spec_bind; [apply verifyDataFlashFile_spec|]. intros ok. by apply spec_ret.
Qed.

(** The re-read, and the archive. *)
Lemma rest_succeeds db st last fuel partial d n w : st_fs st !! partial = Some n -> n_bytes n = log ->
  good db st last w -> calm_link w -> verify_fc_reread_sample_count settings < 2 ^ 31 ->
  match parseFcRereadMode (verify_fc_reread settings) with
  | RereadNone => True
  | RereadSample => char_signed = false /\ reread_answered (le_id entry) log
      (buildFcSampleOffsets (le_size entry) (verify_fc_reread_sample_count settings) (le_id entry)
         (le_size entry) (dl_sha256 d)) w
  | RereadFull => False
  end ->
  spec True (fun w' => w' = w)
    (same ← verifyFcSampleReread settings fuel entry partial (dl_sha256 d);
     finish_archive settings entry partial d same) (fun r _ => r = Downloaded).
Proof using Hlen Hprobe Hsize.
  intros Hn Hb Hg Hc Hcount Hans.
  assert (spec True (fun w' => w' = w) (verifyFcSampleReread settings fuel entry partial (dl_sha256 d))
    (fun same w => same = true /\ calm_link w)) as Hre.
  { destruct (parseFcRereadMode (verify_fc_reread settings)) eqn:Hm; [|destruct Hans as [Hchar Hans]|done].
    - unfold verifyFcSampleReread. rewrite Hm. apply spec_ret. by intros w' ->.
    - by apply (reread_succeeds fuel partial (dl_sha256 d) db st last n w). }
  assert (spec True (fun w' => w' = w) (verifyFcSampleReread settings fuel entry partial (dl_sha256 d))
    (fun _ => good db st last)) as Hgood.
  { eapply spec_weaken; [apply (verifyFcSampleReread_spec settings True (honest contents) good_entry sent0
      (honest_wf contents) True db st last fuel entry partial (dl_sha256 d)); [unfold entry_ok; lia|by left]|by intros w' ->|].
    by intros same w' [_ Hw]. }
  eapply (spec_bind _ _ _ (fun same w' => (same = true /\ calm_link w') /\ good db st last w')).
  { eapply spec_weaken; [exact (spec_conj True _ _ _ _ _ Hre Hgood)|by intros w' ->|done]. }
  intros same w' [[-> Hc'] Hg'].
  by apply (finish_succeeds settings contents good_entry sent0 entry db st last partial n d Hn w').
Qed.
End Prefix.

(** A turn of a new log that nobody cancels is the download. *)
Lemma turn_begins `{Platform} settings contents fuel entry w :
  link_ok True (honest contents) (fun _ => True) w ->
  findCandidate (le_id entry) (le_size entry) (w_db w) = None ->
  answered settings (le_id entry) (contents (le_id entry)) w ->
  let w1 := (ld_cancelled settings w).2 in
  archiveOne settings fuel entry w = download_and_archive settings fuel entry w1 /\
  good_world True (honest contents) (fun _ => True)
    (exactly (w_sent w) (w_db w) (w_storage w) (w_last_failure w)) w1 /\
  coming_up settings contents entry (w_now w) 7 w1.
Proof.
  intros Hlink Hnew Hans w1.
  pose proof (gentle_step settings contents entry (w_now w) 7 (fun _ w => (sh_cancel (w_shared w), w)) ltac:(done)
    w (conj Hans (Z.le_refl _))) as Hup.
  pose proof (read_op settings True (honest contents) (fun _ => True) (w_sent w) (w_db w) (w_storage w)
    (w_last_failure w) (fun w => sh_cancel (w_shared w)) w (link_world _ _ _ w Hlink)) as [Hgood _].
  split; [|split; [exact Hgood|exact Hup]].
  assert (ld_cancelled settings w = (false, w1)) as Ec.
  { subst w1. clear Hup Hgood. destruct Hans as (Hc & _). apply interfere_calm with (settings := settings) in Hc as [[Hc _] _].
    unfold ld_cancelled, atomic. destruct (interfere settings w) as [k w']. cbn [fst snd] in *. by rewrite Hc. }
  unfold archiveOne, checkDedup. unfold mbind, M_bind, op. cbn [fst snd]. rewrite Hnew.
  unfold mret, M_ret. cbn [dedup_of]. unfold op. by rewrite Ec.
Qed.

(** A log that is answered is archived, and the link is as good as before. *)
Lemma answered_archives `{Platform} settings contents fuel entry w :
  0 <= probe_bytes settings < 2 ^ 31 -> 0 <= retry_count settings ->
  verify_fc_reread_sample_count settings < 2 ^ 31 ->
  0 < le_size entry < 2 ^ 31 -> le_size entry = zlen (contents (le_id entry)) ->
  accepted settings entry (contents (le_id entry)) ->
  link_ok True (honest contents) (fun _ => True) w ->
  findCandidate (le_id entry) (le_size entry) (w_db w) = None ->
  answered settings (le_id entry) (contents (le_id entry)) w ->
  second_answers settings fuel entry (contents (le_id entry)) w ->
  cycle_fuel settings < Z.of_nat fuel ->
  exists w', archiveOne settings fuel entry w = (Ok Downloaded, w') /\
    archive_effect settings True (honest contents) (fun _ => True) (w_sent w) entry (w_db w) (w_storage w)
      Downloaded (w_db w') (w_storage w') /\
    link_ok True (honest contents) (fun _ => True) w'.
Proof.
  intros Hp Hr Hcount Hs Hlen Hacc Hlink Hnew Hans Hsecond Hf.
  pose proof (link_world _ _ _ w Hlink) as Hgood.
  destruct (spec_total _ _ _ w (archiveOne_spec settings True (honest contents) (fun _ => True) (w_sent w)
    (honest_wf contents) Hp False (w_db w) (w_storage w) (w_last_failure w) fuel entry
    ltac:(unfold entry_ok; lia) (or_intror Hf)) Hgood)
    as (r & w' & Hrun & (db' & st' & last' & (Hsc & Hsh & Hdb & Hst & _) & Heff)).
  enough (r = Downloaded) as ->.
  { exists w'. split; [done|]. rewrite Hst, Hdb. by split. }
  destruct (turn_begins settings contents fuel entry w Hlink Hnew Hans) as (Hone & Hgood1 & Hup).
  destruct (spec_total _ _ _ _ (spec_conj False _ _ _ _ _
    (prefix_ends settings contents (fun _ => True) (w_sent w) entry Hp Hs (w_db w) (w_storage w) (w_last_failure w) fuel Hf)
    (prefix_succeeds settings contents (fun _ => True) (w_sent w) entry (w_now w) Hp Hr Hs Hlen Hacc
       (w_db w) (w_storage w) (w_last_failure w) fuel)) (conj Hgood1 (conj Hgood1 Hup)))
    as ([[partial d] parsed] & w2 & Hbefore & _ & Hparsed & st2 & last2 & n & (Hn & Hb) & Hg2 & Hc2).
  cbn in Hparsed, Hn. subst parsed.
  rewrite Hone, (split_at_reread settings fuel entry _ _ _ _ Hbefore) in Hrun.
  pose proof (rest_succeeds settings contents (fun _ => True) (w_sent w) entry Hp Hs Hlen (w_db w) st2 last2 fuel
    partial d n w2 Hn Hb Hg2 Hc2 Hcount) as Hrest.
  unfold second_answers in Hsecond.
  destruct (parseFcRereadMode (verify_fc_reread settings)); [|destruct Hsecond as [Hchar Hsecond]|done].
  - specialize (Hrest I w2 eq_refl). by rewrite Hrun in Hrest.
  - specialize (Hrest (conj Hchar (Hsecond _ _ _ _ Hbefore)) w2 eq_refl). by rewrite Hrun in Hrest.
Qed.

(** * A world that answers twice *)

Definition answering_world : World :=
  {| w_shared := w_shared sample_world; w_last_failure := NoFailure; w_progress := no_progress; w_progress_begin := 0;
     w_now := w_now sample_world; w_wall := w_wall sample_world; w_db := empty_database;
     w_storage := w_storage sample_world; w_sent := [];
     w_script := replicate 8 quiet_tick ++ [sample_tick] ++ replicate 60 quiet_tick ++ [sample_tick] |}.

Lemma quiet_smooth n : Forall smooth (replicate n quiet_tick).
Proof. apply Forall_replicate. split_and!; [constructor|done|done]. Qed.

Lemma sample_smooth : smooth sample_tick.
Proof. split_and!; [repeat (constructor; [done|]); constructor|done|done]. Qed.

Lemma quiet_arriving n ks : arriving (replicate n quiet_tick ++ ks) = arriving ks.
Proof. by induction n as [|n IH]. Qed.

Lemma sample_arriving : arriving [sample_tick] = slot_chunk <$> [1; 0; 2].
Proof. vm_compute. reflexivity. Qed.

Lemma quiet_script_time n ks : script_time (replicate n quiet_tick ++ ks) = Z.of_nat n + script_time ks.
Proof. induction n as [|n IH]; [done|]. cbn [replicate app]. rewrite script_time_cons, IH. simpl. lia. Qed.

Lemma sample_script_time : script_time [sample_tick] = 1000001.
Proof. reflexivity. Qed.

Lemma sample_script_link n m :
  Forall (good_tick True (honest sample_contents) (fun _ => True))
    (replicate n quiet_tick ++ [sample_tick] ++ replicate m quiet_tick ++ [sample_tick]).
Proof.
  destruct sample_link_ok as [Hs _].
  apply (Forall_inv (P := good_tick True (honest sample_contents) (fun _ => True))) in Hs.
  rewrite !Forall_app, !Forall_singleton. split_and!; try done; apply Forall_replicate; by split_and!.
Qed.

(** A script that answers the download of the sample log, and the re-read of it. *)
Lemma sample_answered w n m :
  w_script w = replicate (8 + n) quiet_tick ++ [sample_tick] ++ replicate m quiet_tick ++ [sample_tick] ->
  sh_cancel (w_shared w) = false -> Z.of_nat n + Z.of_nat m < 1000000 -> answered default_download 1 sample_content w.
Proof.
  intros Hs Hc Hn. split; [split; [done|]|].
  { rewrite Hs, !Forall_app, !Forall_singleton. split_and!; auto using quiet_smooth, sample_smooth. }
  split.
  { unfold in_time. rewrite Hs, quiet_script_time. cbn [app]. rewrite script_time_cons, quiet_script_time, sample_script_time.
    unfold seconds. cbn [download_timeout_sec default_download k_elapsed sample_tick]. lia. }
  assert (arriving (drop 8 (w_script w)) = slot_chunk <$> [1; 0; 2; 1; 0; 2]) as ->; [|exact sample_slots_flow].
  rewrite Hs, replicate_add, <- app_assoc, drop_app_length' by (by rewrite length_replicate).
  rewrite quiet_arriving. cbn [app]. rewrite arriving_cons, quiet_arriving, sample_arriving. vm_compute. reflexivity.
Qed.

Lemma sample_reread_answered offsets w n :
  w_script w = replicate (2 + n) quiet_tick ++ [sample_tick] -> Z.of_nat n < 1000000 ->
  Forall (valid_offset (zlen sample_content)) offsets ->
  reread_answered default_download 1 sample_content offsets w.
Proof.
  intros Hs Hn Hv. split; [|split].
  - rewrite Hs, Forall_app, Forall_singleton. split; [by apply Forall_replicate|done].
  - rewrite Hs, quiet_script_time, sample_script_time. unfold seconds. cbn [download_timeout_sec default_download]. lia.
  - rewrite Hs, replicate_add, <- app_assoc, drop_app_length' by (by rewrite length_replicate).
    rewrite quiet_arriving, sample_arriving. split; [vm_compute; discriminate|].
    assert (zlen sample_content = 191) as Hl by (vm_compute; reflexivity). split.
    + rewrite Forall_fmap. repeat (constructor; [intros _; apply slot_chunk_sent; lia|]). constructor.
    + eapply Forall_impl; [exact Hv|]. intros ofs (Hlo & Hmod & Hhi). unfold kLogChunkSize in *.
      pose proof (Z.div_mod ofs 90 ltac:(done)). assert (ofs = 0 \/ ofs = 90) as Hcase by lia.
      exists (slot_chunk (ofs / 90)). split_and!; [|done|destruct Hcase as [->| ->]; reflexivity].
      apply (list_elem_of_fmap_2 slot_chunk). destruct Hcase as [->| ->]; set_solver.
Qed.

Lemma sample_second fuel w n :
  w_script (before_reread default_download fuel sample_entry (ld_cancelled default_download w).2).2 =
    replicate (2 + n) quiet_tick ++ [sample_tick] -> Z.of_nat n < 1000000 ->
  second_answers default_download fuel sample_entry sample_content w.
Proof.
  intros Hs Hn. split; [done|]. intros partial d parsed w2 Hrun. rewrite Hrun in Hs.
  apply (sample_reread_answered _ _ n Hs Hn).
  assert (zlen sample_content = 191) as -> by (vm_compute; reflexivity).
  apply buildFcSampleOffsets_valid; [unfold is_u32; simpl; lia|simpl; lia].
Qed.

(** The script the download leaves. *)
Lemma downloaded_script rest :
  w_script (before_reread default_download (80 + rest) sample_entry (ld_cancelled default_download answering_world).2).2 =
    replicate (2 + 44) quiet_tick ++ [sample_tick].
Proof. vm_compute. reflexivity. Qed.

Lemma answering_link_ok : link_ok True (honest sample_contents) (fun _ => True) answering_world.
Proof. split; [apply sample_script_link|exact (proj2 sample_link_ok)]. Qed.

Lemma answering_again rest :
  second_answers default_download (80 + rest) sample_entry sample_content answering_world.
Proof. apply (sample_second _ _ 44 (downloaded_script rest)). lia. Qed.

(** * Properties *)

(** C5. Archiving succeeds when it is answered.  A log that is not in the catalog and
    that the checks accept is downloaded, archived and catalogued whenever nobody
    cancels, the disk works, and the chunks of the log, in any order and with any
    repetitions, all arrive after the request, within the download timeout and no
    more than the queue holds; the file in the archive holds exactly the log's
    bytes.  With the re-read of samples, which is the default, the sampled chunks
    must come once more after the download, and [char] be unsigned. *)
Theorem archiveOne_succeeds `{Platform} settings contents fuel entry w :
  0 <= probe_bytes settings < 2 ^ 31 -> 0 <= retry_count settings ->
  verify_fc_reread_sample_count settings < 2 ^ 31 ->
  0 < le_size entry < 2 ^ 31 -> le_size entry = zlen (contents (le_id entry)) ->
  accepted settings entry (contents (le_id entry)) ->
  link_ok True (honest contents) (fun _ => True) w ->
  findCandidate (le_id entry) (le_size entry) (w_db w) = None ->
  answered settings (le_id entry) (contents (le_id entry)) w ->
  second_answers settings fuel entry (contents (le_id entry)) w ->
  cycle_fuel settings < Z.of_nat fuel ->
  exists w' dest node, archiveOne settings fuel entry w = (Ok Downloaded, w') /\
    st_fs (w_storage w') !! dest = Some node /\ n_bytes node = contents (le_id entry) /\
    hasArchived (le_id entry) (le_size entry) (w_db w') = true.
Proof.
  intros Hp Hr Hcount Hs Hlen Hacc Hlink Hnew Hans Hsecond Hf.
  destruct (answered_archives settings contents fuel entry w) as (w' & Hrun & (dest & Heff & _) & _); try done.
  destruct Heff as (r & f & node & row & Hsp & Hok & Hnode & Hb & Hrow & Hid & Hsz & _).
  exists w', dest, node. split_and!; [done|done| |].
  - rewrite Hb. by eapply session_pieces_log.
  - apply hasArchived_spec. eauto.
Qed.

Lemma archiveOne_succeeds_witness :
  let fuel := (80 + Z.to_nat (cycle_fuel default_download))%nat in
  exists w' dest node, archiveOne default_download fuel sample_entry answering_world = (Ok Downloaded, w') /\
    st_fs (w_storage w') !! dest = Some node /\ n_bytes node = sample_contents (le_id sample_entry) /\
    hasArchived (le_id sample_entry) (le_size sample_entry) (w_db w') = true.
Proof.
  intros fuel.
  apply (archiveOne_succeeds default_download sample_contents fuel sample_entry answering_world).
  - simpl. lia.
  - simpl. lia.
  - simpl. lia.
  - simpl. lia.
  - vm_compute. reflexivity.
  - exact sample_accepted.
  - exact answering_link_ok.
  - reflexivity.
  - by apply (sample_answered _ 0 60).
  - apply answering_again.
  - unfold fuel. rewrite Nat2Z.inj_add, Z2Nat.id; [lia|]. vm_compute. discriminate.
Defined.
