(* ===== verification/EnumerationProofs.v ===== *)
(** What the receiving thread queues, and what [enumerateLogs] returns: every
    entry heard from its start to its end, once per number, in order. *)

From S2P Require Import Prelude Effects LogProtocol Types ReceivedRanges Sha256 DataFlash.
From S2P Require Import FcSampleOffsets Database Storage Session SessionProofs Downloader DownloaderProofs ArchiveProofs.
From Stdlib Require Import Sorting.Sorted.
Open Scope Z_scope.

(** * Sorting and removing repetitions *)

Section Unique.
Lemma unique_ids_spec l : StronglySorted (fun a b => id_leb a b = true) l ->
  StronglySorted (fun a b => le_id a < le_id b) (unique_ids l) /\
  (forall e, e ∈ unique_ids l -> e ∈ l) /\
  (forall e, e ∈ l -> exists e', e' ∈ unique_ids l /\ le_id e' = le_id e).
Proof.
  induction l as [|e l IH]; intros Hs; [split_and!; [constructor|done|]; intros e He; by apply not_elem_of_nil in He|].
  apply StronglySorted_inv in Hs as [Hs Hall]. destruct (IH Hs) as (Hu & Hin & Hid).
  destruct l as [|e' l].
  { split_and!; [repeat constructor|done|]. intros e0 He0. by exists e0. }
  change (unique_ids (e :: e' :: l)) with
    (match unique_ids (e' :: l) with
     | f :: r => if le_id e =? le_id f then e :: r else e :: f :: r
     | [] => [e]
     end).
  destruct (unique_ids (e' :: l)) as [|f r].
  { exfalso. destruct (Hid e' ltac:(by left)) as (x & Hx & _). by apply not_elem_of_nil in Hx. }
  assert (forall x, x ∈ f :: r -> le_id e <= le_id x) as Hle.
  { intros x Hx%Hin. rewrite Forall_forall in Hall. specialize (Hall x Hx). unfold id_leb in Hall. zb. lia. }
  apply StronglySorted_inv in Hu as [Hur Huf].
  pose proof (Hle f ltac:(by left)) as Hef.
  destruct (Z.eqb_spec (le_id e) (le_id f)) as [Heq|Hne]; split_and!.
  - constructor; [done|]. eapply Forall_impl; [exact Huf|]. intros x Hx. simpl in Hx. lia.
  - intros x [->|Hx]%elem_of_cons; [by left|]. right. apply Hin. by right.
  - intros x [->|Hx]%elem_of_cons; [exists e; split; [by left|done]|].
    destruct (Hid x Hx) as (y & [->|Hy]%elem_of_cons & Hyx); [exists e; split; [by left|lia]|].
    exists y. split; [by right|done].
  - constructor; [by constructor|]. constructor; [lia|].
    eapply Forall_impl; [exact Huf|]. intros x Hx. simpl in Hx. lia.
  - intros x [->|Hx]%elem_of_cons; [by left|]. right. by apply Hin.
  - intros x [->|Hx]%elem_of_cons; [exists e; split; [by left|done]|].
    destruct (Hid x Hx) as (y & Hy & Hyx). exists y. split; [by right|done].
Qed.
End Unique.

(** * The entries heard *)

(** The entries received in the ticks [ks], in order. *)
Definition entry_of (ev : ThreadEvent) : list LogEntry :=
  match ev with Receive (LogEntryFrame e) => [e] | _ => [] end.

Definition entries_of (ks : list Tick) : list LogEntry := ks ≫= (fun k => k_events k ≫= entry_of).

Section Heard.
Context `{Platform} (settings : DownloadSettings) (script0 : list Tick).

(** The queue of entries holds those received since the script was [script0]. *)
Definition heard (w : World) : Prop :=
  exists used, script0 = used ++ w_script w /\ sh_pending (w_shared w) = entries_of used.

Lemma run_events_pending evs : forall sh,
  sh_pending (foldl (fun sh ev => run_event settings ev sh) sh evs) = sh_pending sh ++ (evs ≫= entry_of).
Proof using Type.
  induction evs as [|ev evs IH]; intros sh; simpl; [by rewrite app_nil_r|]. rewrite IH.
  destruct ev as [[e|id ofs count data|]|]; simpl; rewrite <- ?app_assoc; try done. by case_match.
Qed.

Lemma interfere_heard w : heard w -> heard (interfere settings w).2.
Proof using Type.
  intros (used & Hs & Hp). unfold heard, interfere. cbn [snd w_script w_shared].
  destruct (w_script w) as [|k ks] eqn:E; simpl.
  - exists used. by split.
  - exists (used ++ [k]). rewrite <- app_assoc. split; [done|].
    rewrite run_events_pending, Hp. unfold entries_of. by rewrite bind_app, bind_singleton.
Qed.

Definition listens {A} (f : World -> A * World) : Prop := forall w, heard w -> heard (f w).2.

Lemma atomic_listens {A} (f : Tick -> World -> A * World) :
  (forall k, listens (f k)) -> listens (atomic settings f).
Proof using Type.
  intros Hf w Hw. unfold atomic. pose proof (interfere_heard w Hw) as Hi.
  destruct (interfere settings w) as [k w']. by apply Hf.
Qed.

Lemma read_listens {A} (f : World -> A) : listens (atomic settings (fun _ w => (f w, w))).
Proof using Type. apply atomic_listens. by intros k w. Qed.

Lemma wait_listens d w : heard w -> heard (ld_wait settings d w).2.
Proof using Type.
  intros Hw. unfold ld_wait. destruct (w_script w) as [|k ks] eqn:E; [exact Hw|].
  pose proof (interfere_heard w Hw) as Hi. by destruct (interfere settings w) as [k' w'].
Qed.

Lemma count_listens : listens (wait_and_count settings).
Proof using Type.
  intros w Hw. unfold wait_and_count. pose proof (wait_listens (ms 200) w Hw) as Hw'.
  by destruct (ld_wait settings (ms 200) w).
Qed.

Lemma sleep_listens n : forall d w, heard w -> heard (sleep_turns settings n d w).
Proof using Type.
  induction n as [|n IH]; intros d w Hw; cbn [sleep_turns]; [done|]. case_bool; [|done].
  assert (heard (ld_cancelled settings w).2) as Hc by (by apply read_listens).
  destruct (ld_cancelled settings w) as [stop w']. cbn [snd] in Hc.
  destruct stop; [done|]. apply IH. revert Hc. apply atomic_listens. by intros k w0.
Qed.

Local Abbreviation listening m := (spec True heard m (fun _ => heard)).

Lemma listen_op {A B} (f : World -> A * World) (k : A -> M World B) :
  listens f -> (forall a, listening (k a)) -> listening (op f ≫= k).
Proof using Type.
  intros Hf Hk. eapply (spec_bind _ _ _ (fun _ => heard)); [|done]. apply spec_op. exact Hf.
Qed.

Lemma settle_listens fuel : forall deadline seen lp,
  listening (settle settings fuel deadline seen lp).
Proof using Type.
  induction fuel as [|fuel IH]; intros deadline seen lp; cbn [settle]; [by apply spec_fuel|].
  apply listen_op; [apply read_listens|]. intros now. case_bool; [|by apply spec_ret].
  apply listen_op; [apply read_listens|]. intros []; [by apply spec_ret|].
  apply listen_op; [apply count_listens|]. intros count.
  case_bool; (apply listen_op; [apply read_listens|]; intros now'); [apply IH|].
  case_bool; [by apply spec_ret|apply IH].
Qed.

Lemma enumerate_listens fuel left : forall attempt n,
  listening (enumerate_loop settings fuel left attempt n).
Proof using Type.
  induction left as [|left IH]; intros attempt n; cbn [enumerate_loop]; [by apply spec_ret|].
  apply listen_op; [apply atomic_listens; by intros k w|]. intros sent.
  apply listen_op; [apply read_listens|]. intros seen.
  apply listen_op; [apply read_listens|]. intros start.
  eapply (spec_bind _ _ _ (fun _ => heard)); [apply settle_listens|]. intros [].
  apply listen_op; [apply read_listens|]. intros total.
  eapply (spec_bind _ _ _ (fun _ => heard)).
  { case_bool; [by apply spec_ret|]. apply spec_op, read_listens. }
  intros stop. case_bool; [by apply spec_ret|].
  apply listen_op; [intros w; apply sleep_listens|]. intros u.
  apply listen_op; [apply read_listens|]. intros []; [by apply spec_ret|apply IH].
Qed.

Lemma sendMessage_script r w : w_script (sendMessage settings r w).2 = tail (w_script w).
Proof using Type. done. Qed.

(** The entries [enumerateLogs] starts from are those heard since it began. *)
Lemma enumerateLogs_heard fuel :
  spec True (fun w => tail (w_script w) = script0) (enumerateLogs settings fuel)
    (fun logs w => exists used rest, script0 = used ++ rest /\ w_script w = tail rest /\
       logs = unique_ids (sort_list id_leb (entries_of used))).
Proof using Type.
  unfold enumerateLogs. eapply (spec_bind _ _ _ (fun _ => heard)).
  { apply spec_op. intros w Hw. unfold atomic, interfere. cbn [snd].
    exists []. unfold clear_pending, set_shared. cbn [w_script w_shared sh_pending]. by rewrite Hw. }
  intros []. eapply (spec_bind _ _ _ (fun _ => heard)); [apply enumerate_listens|]. intros [].
  eapply (spec_bind _ _ _ (fun entries w => exists used, script0 = used ++ w_script w /\
    entries = entries_of used)).
  { apply spec_op. intros w Hw. assert (heard (take_pending settings w).2) as (used & Hs & Hp)
      by (by apply read_listens). exists used. split; [exact Hs|]. rewrite <- Hp.
    unfold take_pending, atomic. by destruct (interfere settings w). }
  intros entries.
  eapply (spec_bind _ _ _ (fun _ w => exists used rest, script0 = used ++ rest /\
    w_script w = tail rest /\ entries = entries_of used)).
  { apply spec_op. intros w (used & Hs & He). exists used, (w_script w).
    split; [done|]. split; [apply sendMessage_script|done]. }
  intros []. apply spec_ret. intros w (used & rest & Hs & Hr & ->). by exists used, rest.
Qed.
End Heard.

(** * Properties *)

(** C23. [enumerateLogs] ends, and returns the entries heard from its start to its
    end: every number once, in increasing order, each with an entry that was
    received for it and none forgotten.  Catalog and archives are untouched and no
    LOG_ERASE is sent. *)
Theorem enumerateLogs_correct `{Platform} settings fuel w :
  any_link w -> settle_fuel < Z.of_nat fuel ->
  exists logs w' used rest,
    enumerateLogs settings fuel w = (Ok logs, w') /\
    tail (w_script w) = used ++ rest /\ w_script w' = tail rest /\
    StronglySorted (fun a b => le_id a < le_id b) logs /\
    (forall e, e ∈ logs -> e ∈ entries_of used) /\
    (forall e, e ∈ entries_of used -> exists e', e' ∈ logs /\ le_id e' = le_id e) /\
    w_db w' = w_db w /\ w_storage w' = w_storage w /\ no_erase_since (w_sent w) (w_sent w').
Proof.
  intros Hw%any_link_ok Hf.
  destruct (spec_total _ _ _ w (enumerateLogs_spec settings False chunk_wf (fun _ => True)
    (w_sent w) False (w_db w) (w_storage w) (w_last_failure w) fuel (w_now w) (or_intror Hf)))
    as (logs & w' & Hrun & _ & (_ & _ & Hdb & Hst & _ & Hsent) & _);
    [split; [by apply link_world|lia]|].
  pose proof (spec_run _ _ _ _ _ _ _ (enumerateLogs_heard settings (tail (w_script w)) fuel)
    eq_refl Hrun) as (used & rest & Hs & Hr & ->).
  destruct (unique_ids_spec (sort_list id_leb (entries_of used))) as (Hsorted & Hin & Hid).
  { apply sort_list_sorted; unfold id_leb; intros; zb; lia. }
  exists (unique_ids (sort_list id_leb (entries_of used))), w', used, rest. split_and!; try done.
  - intros e He%Hin. by rewrite sort_list_perm in He.
  - intros e He. apply Hid. by rewrite sort_list_perm.
Qed.

Definition entry_tick (id size : Z) : Tick :=
  {| k_elapsed := 1000000;
     k_events := [Receive (LogEntryFrame {| le_id := id; le_num_logs := 2; le_last_log_num := 2;
                                            le_time_utc := 0; le_size := size |})];
     k_connected := true; k_fresh := true; k_send_ok := true; k_disk_ok := true |}.

(** Two logs are listed, the second before and after the first. *)
Definition listing_world : World :=
  {| w_shared := w_shared sample_world; w_last_failure := NoFailure; w_progress := no_progress;
     w_progress_begin := 0; w_now := 5000; w_wall := 0; w_db := empty_database;
     w_storage := w_storage sample_world; w_sent := [];
     w_script := [quiet_tick; quiet_tick; entry_tick 2 500; entry_tick 1 300; entry_tick 2 600] |}.

Lemma listing_any_link : any_link listing_world.
Proof. split; [|constructor]. repeat (constructor; [split; [by vm_compute|repeat constructor]|]). constructor. Qed.

Lemma enumerateLogs_correct_witness :
  exists logs w' used rest,
    enumerateLogs default_download (Z.to_nat (settle_fuel + 1)) listing_world = (Ok logs, w') /\
    tail (w_script listing_world) = used ++ rest /\ w_script w' = tail rest /\
    StronglySorted (fun a b => le_id a < le_id b) logs /\
    (forall e, e ∈ logs -> e ∈ entries_of used) /\
    (forall e, e ∈ entries_of used -> exists e', e' ∈ logs /\ le_id e' = le_id e) /\
    w_db w' = w_db listing_world /\ w_storage w' = w_storage listing_world /\
    no_erase_since (w_sent listing_world) (w_sent w').
Proof.
  apply (enumerateLogs_correct default_download _ listing_world); [apply listing_any_link|].
  rewrite Z2Nat.id; [lia|]. vm_compute. discriminate.
Defined.

(** The listing, run. *)
Example listing_example :
  match (enumerateLogs default_download 60 listing_world).1 with
  | Ok logs => le_size <$> logs = [300; 500]
  | _ => False
  end.
Proof. vm_compute. reflexivity. Qed.

(** C39. [onMessage] keeps at most the configured number of chunks, the newest
    ones; the chunk it queues carries the frame's first [count] bytes as long as
    the count is at most the 90 of the data field, and holds bytes from past the
    field otherwise; entries are never dropped, and no frame cancels or forgets a
    cancellation. *)
Theorem onMessage_queues `{Platform} settings id ofs count data sh :
  length data = 90%nat -> 0 < count <= 255 ->
  let sh' := onMessage settings (LogDataFrame id ofs count data) sh in
  let chunk := chunk_of_frame id ofs count data in
  zlen (sh_chunks sh') <= queue_cap settings /\
  last (sh_chunks sh') = Some chunk /\
  (exists dropped, sh_chunks sh ++ [chunk] = dropped ++ sh_chunks sh' /\
     (zlen (sh_chunks sh) < queue_cap settings -> dropped = [])) /\
  (if decide (count <= 90) then c_data chunk = take (Z.to_nat count) data
   else c_data chunk = data ++ take (Z.to_nat count - 90) past_data) /\
  sh_pending sh' = sh_pending sh /\ sh_cancel sh' = sh_cancel sh.
Proof.
  intros Hl Hc sh' chunk. unfold sh', onMessage. destruct (Z.eqb_spec count 0); [lia|].
  cbn [sh_chunks sh_pending sh_cancel].
  fold (chunk_of_frame id ofs count data). fold chunk. unfold trimDataChunkQueue. set (cap := queue_cap settings).
  assert (0 < cap) as Hpos by (unfold cap, queue_cap; case_bool; lia).
  set (d := (length (sh_chunks sh ++ [chunk]) - Z.to_nat cap)%nat).
  assert (length (sh_chunks sh ++ [chunk]) = S (length (sh_chunks sh))) as Hn
    by (rewrite length_app; simpl; lia).
  assert (d = length (sh_chunks sh ++ [chunk]) - Z.to_nat cap)%nat as Hd by done. clearbody d.
  split_and!; try done.
  - unfold zlen. rewrite length_drop. lia.
  - rewrite drop_app_le by lia. by rewrite last_snoc.
  - exists (take d (sh_chunks sh ++ [chunk])). split; [by rewrite take_drop|].
    intros Hlt. unfold zlen in Hlt. replace d with 0%nat by lia. done.
  - unfold chunk, chunk_of_frame. cbn [c_data]. case_decide.
    + rewrite take_app_le by lia. done.
    + rewrite take_app_ge by lia. by rewrite Hl.
Qed.

Lemma onMessage_queues_witness :
  let sh := {| sh_pending := []; sh_chunks := [chunk_of_frame 1 0 90 (replicate 90 7)];
               sh_zero_length := 0; sh_cancel := false |} in
  let sh' := onMessage default_download (LogDataFrame 1 90 100 (replicate 90 8)) sh in
  let chunk := chunk_of_frame 1 90 100 (replicate 90 8) in
  zlen (sh_chunks sh') <= queue_cap default_download /\
  last (sh_chunks sh') = Some chunk /\
  (exists dropped, sh_chunks sh ++ [chunk] = dropped ++ sh_chunks sh' /\
     (zlen (sh_chunks sh) < queue_cap default_download -> dropped = [])) /\
  (if decide (100 <= 90) then c_data chunk = take (Z.to_nat 100) (replicate 90 8)
   else c_data chunk = replicate 90 8 ++ take (Z.to_nat 100 - 90) past_data) /\
  sh_pending sh' = sh_pending sh /\ sh_cancel sh' = sh_cancel sh.
Proof.
  apply (onMessage_queues default_download 1 90 100 (replicate 90 8)
    {| sh_pending := []; sh_chunks := [chunk_of_frame 1 0 90 (replicate 90 7)];
       sh_zero_length := 0; sh_cancel := false |}); [done|lia].
Defined.
