(* ===== verification/Threads.v ===== *)
(** Threads that share a state: programs are sequences of atomic steps, a system
    is its state with what is left of every thread, and a schedule says who
    takes the next step.  A process that was terminated takes none any more.

    [guarded] is the proof rule: a program annotated with an assertion before
    each of its steps, where every assertion survives what the other threads
    may do, and every step does only what this thread may. *)

From S2P Require Import Prelude.

(** * Programs *)

(** One atomic step reads and changes the state; it may have to wait, which is
    the answer [None]. *)
Inductive prog (S A : Type) : Type :=
| Ret (a : A)
| Atom (B : Type) (f : S -> option (B * S)) (k : B -> prog S A).
Arguments Ret {S A} a.
Arguments Atom {S A B} f k.

Fixpoint prog_bind {S A B} (k : A -> prog S B) (p : prog S A) : prog S B :=
  match p with
  | Ret a => k a
  | Atom f k' => Atom f (fun b => prog_bind k (k' b))
  end.

#[global] Instance prog_ret S : MRet (prog S) := fun A a => Ret a.
#[global] Instance prog_mbind S : MBind (prog S) := fun A B k p => prog_bind k p.

Section Steps.
Context {S : Type}.

Definition atom {A} (f : S -> A * S) : prog S A := Atom (fun s => Some (f s)) Ret.
Definition get {A} (f : S -> A) : prog S A := atom (fun s => (f s, s)).
Definition put (f : S -> S) : prog S unit := atom (fun s => (tt, f s)).

(** Wait until [b] holds. *)
Definition await (b : S -> bool) : prog S unit :=
  Atom (fun s => if b s then Some (tt, s) else None) Ret.

(** Run a program alone; [None] if it has to wait. *)
Fixpoint run_alone {A} (p : prog S A) (s : S) : option (A * S) :=
  match p with
  | Ret a => Some (a, s)
  | Atom f k => match f s with Some (b, s') => run_alone (k b) s' | None => None end
  end.

Lemma run_bind {A B} (p : prog S A) (k : A -> prog S B) : forall s,
  run_alone (p ≫= k) s =
    match run_alone p s with Some (a, s') => run_alone (k a) s' | None => None end.
Proof.
  induction p as [a|C f k' IH]; intros s; [done|]. simpl. destruct (f s) as [[b s']|]; [|done]. apply IH.
Qed.

Lemma run_get {A B} (f : S -> A) (k : A -> prog S B) s :
  run_alone (get f ≫= k) s = run_alone (k (f s)) s.
Proof. done. Qed.

Lemma run_put {B} (f : S -> S) (k : unit -> prog S B) s :
  run_alone (put f ≫= k) s = run_alone (k tt) (f s).
Proof. done. Qed.
End Steps.

(** * Classes of programs *)

(** A set of programs that sequencing stays in. *)
Class ProgClass {S : Type} (ok : forall A, prog S A -> Prop) := {
  ok_ret A (a : A) : ok A (Ret a);
  ok_bind A B (p : prog S A) (k : A -> prog S B) :
    ok A p -> (forall a, ok B (k a)) -> ok B (p ≫= k);
}.

(** Programs all of whose steps are in [R]. *)
Fixpoint steps_in {S} (R : S -> S -> Prop) {A} (p : prog S A) : Prop :=
  match p with
  | Ret _ => True
  | Atom f k => (forall s b s', f s = Some (b, s') -> R s s') /\ forall b, steps_in R (k b)
  end.

#[global] Instance steps_in_class {S} (R : S -> S -> Prop) : ProgClass (@steps_in S R).
Proof.
  split; [done|]. intros A B p k Hp Hk. induction p as [a|C f k' IH]; [apply Hk|].
  destruct Hp as [Hf Hp]. split; [done|]. intros b. by apply IH.
Qed.

Section StepsIn.
Context {S : Type} (R : S -> S -> Prop) `{!Reflexive R}.

Lemma steps_in_get {A} (f : S -> A) : steps_in R (get f).
Proof using All. split; [|done]. by intros s b s' [= _ <-]. Qed.

Lemma steps_in_put (f : S -> S) : (forall s, R s (f s)) -> steps_in R (put f).
Proof using Type. intros Hf. split; [|done]. by intros s b s' [= _ <-]. Qed.

Lemma steps_in_await (b : S -> bool) : steps_in R (await b).
Proof using All. split; [|done]. intros s u s'. destruct (b s); [by intros [= _ <-]|done]. Qed.
End StepsIn.

(** Programs whose results satisfy [P]. *)
Fixpoint ends_in {S A} (P : A -> Prop) (p : prog S A) : Prop :=
  match p with
  | Ret a => P a
  | Atom f k => forall b, ends_in P (k b)
  end.

Lemma ends_in_bind {S A B} (P : B -> Prop) (p : prog S A) (k : A -> prog S B) :
  (forall a, ends_in P (k a)) -> ends_in P (p ≫= k).
Proof. intros Hk. induction p as [a|C f k' IH]; [apply Hk|]. intros b. apply IH. Qed.

(** Walk through a program all of whose steps are in a relation, with [prim] for
    the steps that are not plain. *)
Ltac steps_in_walk prim := repeat first
  [ done
  | apply steps_in_get
  | apply steps_in_await
  | by apply steps_in_put
  | prim
  | match goal with
    | |- steps_in ?R (_ ≫= _) => apply (ok_bind (ok := @steps_in _ R)); [|intros ?]
    | |- steps_in _ (if ?b then _ else _) => destruct b
    | |- steps_in _ (match ?x with _ => _ end) => destruct x
    end ].

Lemma steps_in_run {S} (R : S -> S -> Prop) `{!Reflexive R, !Transitive R} {A} (p : prog S A) :
  steps_in R p -> forall s a s', run_alone p s = Some (a, s') -> R s s'.
Proof.
  induction p as [a|B f k IH]; simpl; [by intros _ s a' s' [= _ <-]|].
  intros [Hf Hk] s a s' E. destruct (f s) as [[b s1]|] eqn:Ef; [|done].
  transitivity s1; [by eapply Hf|by eapply IH].
Qed.

(** * Systems *)

(** Every thread runs finite programs one after the other: a program returns the
    label of the next one. *)
Section System.
Context {S N T : Type} `{EqDecision T} (body : N -> prog S N).

(** The process is gone. *)
Context (halted : S -> bool).

Record Sys := { shared : S; threads : T -> prog S N }.

Definition set_thread (t : T) (p : prog S N) (ts : T -> prog S N) : T -> prog S N :=
  fun t' => if decide (t' = t) then p else ts t'.

(** The next step of thread [t]; a thread that has to wait stays where it is. *)
Definition sys_step (t : T) (c : Sys) : Sys :=
  if halted (shared c) then c else
  match threads c t with
  | Ret n => {| shared := shared c; threads := set_thread t (body n) (threads c) |}
  | Atom f k =>
      match f (shared c) with
      | Some (b, s') => {| shared := s'; threads := set_thread t (k b) (threads c) |}
      | None => c
      end
  end.

Definition run_schedule (ts : list T) (c : Sys) : Sys := foldl (fun c t => sys_step t c) c ts.

Lemma run_schedule_app ts ts' c : run_schedule (ts ++ ts') c = run_schedule ts' (run_schedule ts c).
Proof. apply foldl_app. Qed.

Lemma halted_run ts : forall c, halted (shared c) = true -> run_schedule ts c = c.
Proof.
  induction ts as [|t ts IH]; intros c Hc; [done|].
  change (run_schedule (t :: ts) c) with (run_schedule ts (sys_step t c)).
  unfold sys_step. rewrite Hc. by apply IH.
Qed.
(** [n] steps of one thread after the other. *)
Fixpoint steps_alone (n : nat) (p : prog S N) (s : S) : option (prog S N * S) :=
  match n with
  | O => Some (p, s)
  | Datatypes.S n' =>
      if halted s then None
      else match p with
           | Ret m => steps_alone n' (body m) s
           | Atom f k => match f s with Some (b, s') => steps_alone n' (k b) s' | None => None end
           end
  end.

Lemma steps_alone_run t n : forall p s p' s' c, threads c t = p -> shared c = s ->
  steps_alone n p s = Some (p', s') ->
  let c' := run_schedule (replicate n t) c in
  shared c' = s' /\ threads c' t = p' /\ forall t', t' <> t -> threads c' t' = threads c t'.
Proof.
  induction n as [|n IH]; intros p s p' s' c Hp Hs E; [by injection E as <- <-|].
  change (run_schedule (replicate (Datatypes.S n) t) c) with (run_schedule (replicate n t) (sys_step t c)).
  cbn [steps_alone] in E. unfold sys_step. rewrite Hs. destruct (halted s); [done|]. rewrite Hp.
  assert (forall q s1, steps_alone n q s1 = Some (p', s') ->
    let c' := run_schedule (replicate n t) {| shared := s1; threads := set_thread t q (threads c) |} in
    shared c' = s' /\ threads c' t = p' /\ forall t', t' <> t -> threads c' t' = threads c t') as Hnext.
  { intros q s1 Eq. destruct (IH q s1 p' s' {| shared := s1; threads := set_thread t q (threads c) |})
      as (H1 & H2 & H3); [simpl; unfold set_thread; by rewrite decide_True|done|done|].
    split_and!; [done|done|]. intros t' Ht. rewrite H3 by done. simpl. unfold set_thread. by rewrite decide_False. }
  destruct p as [m|B f k]; [by apply Hnext|]. destruct (f s) as [[b s1]|]; [by apply Hnext|done].
Qed.
End System.
Arguments Sys : clear implicits.

(** * Proofs about programs *)

Section Guarded.
Context {S : Type}.

(** [Inv] holds always.  [Rely]: what the others may do.  [Guar]: what the
    program may do. *)
Context (Inv : S -> Prop) (Rely Guar : S -> S -> Prop).

Definition stable (P : S -> Prop) : Prop :=
  forall s s', Inv s -> Inv s' -> P s -> Rely s s' -> P s'.

(** The conditions only have to hold if the assertion can. *)
Fixpoint guarded {A} (P : S -> Prop) (p : prog S A) (Q : A -> S -> Prop) : Prop :=
  (exists s, Inv s /\ P s) ->
  stable P /\
  match p with
  | Ret a => forall s, Inv s -> P s -> Q a s
  | Atom f k =>
      exists P', (forall s b s', Inv s -> P s -> f s = Some (b, s') ->
                    Inv s' /\ Guar s s' /\ P' b s') /\
        forall b, guarded (P' b) (k b) Q
  end.

Lemma guarded_some {A} P (p : prog S A) Q : (forall s, Inv s -> P s -> guarded P p Q) -> guarded P p Q.
Proof using Type. intros Hp. destruct p; intros (s & Hi & Hs); (apply (Hp s Hi Hs); by exists s). Qed.

Lemma guarded_stable {A} P (p : prog S A) Q s : Inv s -> P s -> guarded P p Q -> stable P.
Proof using Type. intros Hi Hs Hp. destruct p; apply Hp; by exists s. Qed.

Lemma guarded_pre {A} (P P0 : S -> Prop) (p : prog S A) Q :
  guarded P0 p Q -> stable P -> (forall s, Inv s -> P s -> P0 s) -> guarded P p Q.
Proof using Type.
  intros Hp Hst HP. apply guarded_some. intros s Hi Hs.
  assert (exists s, Inv s /\ P0 s) as Hex by (exists s; auto).
  destruct p as [a|B f k]; intros _; destruct (Hp Hex) as [_ Hp']; (split; [done|]).
  - auto.
  - destruct Hp' as (P' & Hf & Hk). exists P'. split; [|done]. eauto.
Qed.

Lemma guarded_post {A} (p : prog S A) : forall P (Q Q' : A -> S -> Prop),
  guarded P p Q -> (forall a s, Inv s -> Q a s -> Q' a s) -> guarded P p Q'.
Proof using Type.
  induction p as [a|B f k IH]; intros P Q Q' Hp HQ; intros Hex; destruct (Hp Hex) as [Hst Hp'];
    (split; [done|]); [auto|].
  destruct Hp' as (P' & Hf & Hk). exists P'. split; [done|]. intros b. exact (IH b _ _ _ (Hk b) HQ).
Qed.

Lemma guarded_bind {A B} (p : prog S A) (k : A -> prog S B) : forall P R Q,
  guarded P p R -> (forall a, guarded (R a) (k a) Q) -> guarded P (p ≫= k) Q.
Proof using Type.
  induction p as [a|B' f k' IH]; intros P R Q Hp Hk.
  - change (guarded P (k a) Q). apply guarded_some. intros s Hi Hs.
    destruct (Hp (ex_intro _ s (conj Hi Hs))) as [Hst Hp']. exact (guarded_pre _ _ _ _ (Hk a) Hst Hp').
  - intros Hex. destruct (Hp Hex) as [Hst (P' & Hf & Hk')]. split; [done|]. exists P'.
    split; [done|]. intros b. exact (IH b _ _ _ (Hk' b) Hk).
Qed.

(** A part of the assertion that does not depend on the state. *)
Lemma guarded_pure {A} (R : Prop) P (p : prog S A) Q :
  (R -> guarded P p Q) -> guarded (fun s => R /\ P s) p Q.
Proof using Type.
  intros Hp. apply guarded_some. intros s Hi [HR Hs]. specialize (Hp HR).
  pose proof (guarded_stable _ _ _ s Hi Hs Hp) as Hst. eapply guarded_pre; [exact Hp| |by intros ? _ [_ ?]].
  intros s1 s2 Hi1 Hi2 [_ H1] Hr. split; [done|]. exact (Hst s1 s2 Hi1 Hi2 H1 Hr).
Qed.

Lemma stable_pure (R : Prop) P : stable P -> stable (fun s => R /\ P s).
Proof using Type. intros Hst s1 s2 Hi1 Hi2 [HR H1] Hr. split; [done|]. exact (Hst s1 s2 Hi1 Hi2 H1 Hr). Qed.

Lemma stable_and P Q : stable P -> stable Q -> stable (fun s => P s /\ Q s).
Proof using Type.
  intros HP HQ s1 s2 Hi1 Hi2 [Hp Hq] Hr. split; [exact (HP s1 s2 Hi1 Hi2 Hp Hr)|exact (HQ s1 s2 Hi1 Hi2 Hq Hr)].
Qed.

Lemma guarded_ret {A} P (a : A) Q :
  stable P -> (forall s, Inv s -> P s -> Q a s) -> guarded P (mret a) Q.
Proof using Type. by split. Qed.

(** One step; [Q] holds of its result and the state it leaves. *)
Lemma guarded_step {A} P (f : S -> option (A * S)) Q :
  stable P -> (forall a, stable (Q a)) ->
  (forall s a s', Inv s -> P s -> f s = Some (a, s') -> Inv s' /\ Guar s s' /\ Q a s') ->
  guarded P (Atom f Ret) Q.
Proof using Type.
  intros Hst HQ Hf _. split; [done|]. exists Q. split; [done|]. intros b. by split.
Qed.

Lemma guarded_atom {A} P (f : S -> A * S) Q :
  stable P -> (forall a, stable (Q a)) ->
  (forall s, Inv s -> P s -> Inv (f s).2 /\ Guar s (f s).2 /\ Q (f s).1 (f s).2) ->
  guarded P (atom f) Q.
Proof using Type.
  intros Hst HQ Hf. apply guarded_step; [done..|].
  intros s b s' Hi Hp Hs. specialize (Hf s Hi Hp). destruct (f s). by injection Hs as -> ->.
Qed.

Lemma guarded_put P (f : S -> S) Q :
  stable P -> stable Q ->
  (forall s, Inv s -> P s -> Inv (f s) /\ Guar s (f s) /\ Q (f s)) ->
  guarded P (put f) (fun _ => Q).
Proof using Type. intros Hst HQ Hf. by apply guarded_atom. Qed.
End Guarded.

(** * Proofs about systems *)

Section SystemProofs.
Context {S N T : Type} `{EqDecision T} (body : N -> prog S N) (halted : S -> bool).
Context (Inv : S -> Prop) (Guar : T -> S -> S -> Prop) (Entry : T -> N -> S -> Prop).

(** The others' steps. *)
Definition others (t : T) (s s' : S) : Prop := exists t', t' <> t /\ Guar t' s s'.

(** Every program keeps to its thread's guarantee and ends where the next begins. *)
Definition bodies_ok : Prop :=
  forall t n, guarded Inv (others t) (Guar t) (Entry t n) (body n) (Entry t).

Definition thread_ok (s : S) (t : T) (p : prog S N) : Prop :=
  exists P, P s /\ guarded Inv (others t) (Guar t) P p (Entry t).

Definition sys_ok (c : Sys S N T) : Prop :=
  Inv (shared c) /\ forall t, thread_ok (shared c) t (threads c t).

Lemma sys_step_ok t c : bodies_ok -> sys_ok c ->
  sys_ok (sys_step body halted t c) /\
  (Guar t (shared c) (shared (sys_step body halted t c)) \/ shared (sys_step body halted t c) = shared c).
Proof using Type.
  intros Hb [Hi Hts]. unfold sys_step. destruct (halted (shared c)); [split; [done|by right]|].
  pose proof (Hts t) as (P & HP & Hp).
  destruct (threads c t) as [n|B f k].
  - split; [|by right]. split; [done|]. intros t'. simpl. unfold set_thread.
    destruct (decide (t' = t)) as [->|]; [|apply Hts]. exists (Entry t n). split; [|apply Hb].
    destruct (Hp (ex_intro _ _ (conj Hi HP))) as [_ Hp']. by apply Hp'.
  - destruct (f (shared c)) as [[b s']|] eqn:Ef; [|split; [done|by right]].
    destruct (Hp (ex_intro _ _ (conj Hi HP))) as (_ & P' & Hf & Hk).
    destruct (Hf _ _ _ Hi HP Ef) as (Hi' & Hg & HP').
    split; [|by left]. split; [done|]. intros t'. simpl. unfold set_thread.
    destruct (decide (t' = t)) as [->|Hne]; [exact (ex_intro _ (P' b) (conj HP' (Hk b)))|].
    destruct (Hts t') as (R & HR & Hp'). exists R. split; [|done].
    refine (guarded_stable _ _ _ _ _ _ (shared c) Hi HR Hp' (shared c) s' Hi Hi' HR _). exists t. by split.
Qed.

Lemma run_schedule_ok ts : forall c, bodies_ok -> sys_ok c -> sys_ok (run_schedule body halted ts c).
Proof using Type.
  induction ts as [|t ts IH]; intros c Hb Hc; [done|]. simpl. apply IH; [done|].
  by apply sys_step_ok.
Qed.
End SystemProofs.
