(* ===== verification/CompanionServer.v ===== *)
(** [CompanionUdpServer] (src/CompanionUdpServer.cpp): the requests of the
    companion app, and the thread that receives them.

    The server works on what its owner gave it: callbacks for snapshots, pages,
    jobs, cancellation and the recorder, and the queue of commands.  They are
    programs over the owner's state ([Threads]), gathered in [Callbacks]; the
    socket's [sendto] and [recvfrom] are programs too.  A response that cannot be
    sent is only logged.  An exception on the thread ends the process: a request
    answers [false] then.  The keepalive thread is in [Keepalive]; the logging is left out.

    The theorems: a request that is not authorised does nothing but read and
    answer, every request is answered once with its number and client, none throws,
    and what ends the receiving thread. *)

From S2P Require Import Prelude Json CompanionTypes JsonSample CompanionProtocol Threads.
Open Scope Z_scope.

(** * The owner's side *)

Record Callbacks (S : Type) := {
  snapshot_fn : prog S ServiceSnapshot;
  fc_logs_fn : Z -> Z -> prog S FcLogsPage;
  job_gate : CompanionJobKind -> list Z -> bool -> prog S JobOutcome;
  cancel_fn : option (prog S unit);
  rec_start_fn : option (prog S RecStartResult);
  rec_stop_fn : option (prog S bool);
  push_command : CompanionCommand -> prog S unit;
  send_datagram : string -> prog S bool;
}.
Arguments snapshot_fn {S}. Arguments fc_logs_fn {S}. Arguments job_gate {S}.
Arguments cancel_fn {S}. Arguments rec_start_fn {S}. Arguments rec_stop_fn {S}.
Arguments push_command {S}. Arguments send_datagram {S}.

Definition mutating_ops : list string :=
  ["archive.start"; "archive.cancel"; "logs.refresh"; "logs.download"; "logs.erase";
   "rec.start"; "rec.stop"]%string.

Definition is_mutating (op : string) : bool := existsb (String.eqb op) mutating_ops.

(** A datagram of the socket, or an error of [recvfrom]. *)
Inductive Received := Datagram (text : string) | RecvError.

(** [kBufSize - 1]. *)
Definition kMaxDatagram : nat := 4095.

(** * The server's state *)

Record UdpServer := {
  sv_running : bool;
  sv_socket : bool;      (* [socket_fd_ != -1] *)
  sv_rx : bool;          (* the receiving thread runs *)
  sv_keepalive : bool;   (* the keepalive thread runs *)
}.

Definition new_server : UdpServer :=
  {| sv_running := false; sv_socket := false; sv_rx := false; sv_keepalive := false |}.

Definition isListening (s : UdpServer) : bool := sv_running s && sv_socket s.

(** [start], with what getaddrinfo, socket and bind say. *)
Definition server_start (settings : CompanionSettings) (resolved created bound : bool) (s : UdpServer)
  : bool * UdpServer :=
  if sv_running s then (true, s)
  else if negb resolved then (false, s)
  else if negb created then (false, s)
  else if negb bound then (false, s)
  else (true, {| sv_running := true; sv_socket := true; sv_rx := true;
                 sv_keepalive := 0 <? udp_proxy_keepalive_ms settings |}).

(** [stop], up to the wait for the receiving thread. *)
Definition server_stop (s : UdpServer) : UdpServer :=
  if negb (sv_running s) && negb (sv_socket s) then s
  else {| sv_running := false; sv_socket := false; sv_rx := sv_rx s; sv_keepalive := false |}.

Definition rx_exits (s : UdpServer) : UdpServer :=
  {| sv_running := sv_running s; sv_socket := sv_socket s; sv_rx := false;
     sv_keepalive := sv_keepalive s |}.

(** * Requests *)

Section Server.
Context `{JsonLibrary} (settings : CompanionSettings) {S : Type} (cb : Callbacks S).

(** Send the response; [false] if building it threw. *)
Definition answer (resp : option SerializedResponse) : prog S bool :=
  match resp with
  | Some r => send_datagram cb (resp_json r);; mret true
  | None => mret false
  end.

Definition job_response (req : CompanionRequest) (outcome : JobOutcome) : option SerializedResponse :=
  match out_result outcome with
  | Accepted =>
      if String.eqb (rq_op req) "logs.download"
      then buildDownloadAck (rq_id req) (out_queued outcome) (out_not_found outcome) (rq_client req)
      else buildJobAck (rq_id req) false (rq_client req)
  | AlreadyRunning => buildJobAck (rq_id req) true (rq_client req)
  | Armed => buildError (rq_id req) "armed" (rq_client req)
  | NotConnected => buildError (rq_id req) "not_connected" (rq_client req)
  | NotFound => buildError (rq_id req) "not_found" (rq_client req)
  end.

Definition respondToJobOutcome (req : CompanionRequest) (outcome : JobOutcome) : prog S bool :=
  answer (job_response req outcome).

Definition run_job (req : CompanionRequest) (kind : CompanionJobKind) (ids : list Z) (all : bool)
  : prog S bool :=
  outcome ← job_gate cb kind ids all;
  respondToJobOutcome req outcome.

Definition rec_response (req : CompanionRequest) (result : RecStartResult) : option SerializedResponse :=
  match result with
  | RecStarted | RecAlreadyRecording => buildRecAck (rq_id req) true (rq_client req)
  | RecDisabled => buildError (rq_id req) "recording_disabled" (rq_client req)
  | RecNoMedia => buildError (rq_id req) "no_media" (rq_client req)
  | RecFailed => buildError (rq_id req) "internal" (rq_client req)
  end.

Definition bad_request (req : CompanionRequest) : prog S bool :=
  answer (buildError (rq_id req) "bad_request" (rq_client req)).

(** The operations, for a request that passed the token check. *)
Definition dispatch (req : CompanionRequest) : prog S bool :=
  let max_bytes := u64 (max_response_bytes settings) in
  let op := rq_op req in
  if String.eqb op "status" then
    snap ← snapshot_fn cb;
    answer (Some (buildStatus (rq_id req) snap max_bytes (rq_client req)))
  else if String.eqb op "fc.logs" then
    let limit := Z.min (rq_limit req) (max_fc_logs_per_response settings) in
    page ← fc_logs_fn cb (rq_offset req) limit;
    answer (buildFcLogs (rq_id req) page max_bytes (rq_client req))
  else if String.eqb op "caps" then
    answer (buildCaps (rq_id req) (max_request_bytes settings) (max_response_bytes settings)
              (max_fc_logs_per_response settings) max_bytes (rq_client req))
  else if String.eqb op "archive.start" then run_job req JobArchive [] false
  else if String.eqb op "logs.refresh" then run_job req JobRefresh [] false
  else if String.eqb op "logs.download" then
    if negb (rq_sel_all req) && bool_decide (rq_sel_ids req = []) then bad_request req
    else if kMaxIdsPerRequest <? i32 (zlen (rq_sel_ids req)) then bad_request req
    else run_job req JobDownload (rq_sel_ids req) (rq_sel_all req)
  else if String.eqb op "logs.erase" then run_job req JobEraseAll [] false
  else if String.eqb op "archive.cancel" then
    match cancel_fn cb with Some cancel => cancel | None => mret tt end;;
    push_command cb CancelArchiveCommand;;
    answer (buildJobAck (rq_id req) false (rq_client req))
  else if String.eqb op "rec.start" then
    result ← match rec_start_fn cb with Some start => start | None => mret RecFailed end;
    answer (rec_response req result)
  else if String.eqb op "rec.stop" then
    match rec_stop_fn cb with Some stop => stop | None => mret false end;;
    answer (buildRecAck (rq_id req) false (rq_client req))
  else bad_request req.

(** The request of a datagram, unless it is dropped. *)
Definition admitted (text : string) : option CompanionRequest :=
  if max_request_bytes settings <? i32 (string_size text) then None else parseRequest text.

(** The token check. *)
Definition refused (req : CompanionRequest) : bool :=
  is_mutating (rq_op req) && nonempty (token settings) &&
  negb (String.eqb (rq_token req) (token settings)).

Definition handleRequest (text : string) : prog S bool :=
  match admitted text with
  | None => mret true
  | Some req =>
      if refused req then answer (buildError (rq_id req) "bad_token" (rq_client req))
      else dispatch req
  end.

(** ** The receiving thread *)

Context (is_running : prog S bool) (recvfrom : prog S Received).

(** One turn of [rxLoop]; [false] when the loop is left. *)
Definition server_turn : prog S bool :=
  running ← is_running;
  if negb running then mret false
  else
    received ← recvfrom;
    match received with
    | RecvError => mret false
    | Datagram text =>
        let text := String.substring 0 kMaxDatagram text in
        if string_size text <=? 0 then mret false else handleRequest text
    end.
End Server.

(** * Only authorised requests act *)

Section Authorised.
Context `{JsonLibrary} (settings : CompanionSettings) {S : Type} (cb : Callbacks S).
Context (ok : forall A, prog S A -> Prop) `{!ProgClass ok}.

(** The request passed the token check of a state-changing operation. *)
Definition authorised (req : CompanionRequest) : Prop :=
  is_mutating (rq_op req) = true /\ (token settings = "" \/ rq_token req = token settings).

(** The callbacks of the request's own operation are [ok]. *)
Definition permitted (req : CompanionRequest) : Prop :=
  (rq_op req = "archive.start" -> ok _ (job_gate cb JobArchive [] false)) /\
  (rq_op req = "logs.refresh" -> ok _ (job_gate cb JobRefresh [] false)) /\
  (rq_op req = "logs.download" -> rq_sel_all req = true \/ rq_sel_ids req <> [] ->
     ok _ (job_gate cb JobDownload (rq_sel_ids req) (rq_sel_all req))) /\
  (rq_op req = "logs.erase" -> ok _ (job_gate cb JobEraseAll [] false)) /\
  (rq_op req = "archive.cancel" ->
     (forall cancel, cancel_fn cb = Some cancel -> ok _ cancel) /\
     ok _ (push_command cb CancelArchiveCommand)) /\
  (rq_op req = "rec.start" -> forall p, rec_start_fn cb = Some p -> ok _ p) /\
  (rq_op req = "rec.stop" -> forall p, rec_stop_fn cb = Some p -> ok _ p).

Context (snapshot_ok : ok _ (snapshot_fn cb)) (page_ok : forall o l, ok _ (fc_logs_fn cb o l))
  (send_ok : forall text, ok _ (send_datagram cb text)).

Lemma answer_ok resp : ok _ (answer cb resp).
Proof using ProgClass0 send_ok.
  destruct resp as [r|]; [|apply ok_ret]. apply ok_bind; [apply send_ok|]. intros b. apply ok_ret.
Qed.

Lemma run_job_ok req kind ids all : ok _ (job_gate cb kind ids all) -> ok _ (run_job cb req kind ids all).
Proof using ProgClass0 send_ok. intros Hj. apply ok_bind; [done|]. intros out. apply answer_ok. Qed.

Lemma option_ok {A} (p : option (prog S A)) a : (forall q, p = Some q -> ok _ q) ->
  ok _ (match p with Some q => q | None => mret a end).
Proof using ProgClass0. destruct p; intros Hp; [by apply Hp|apply ok_ret]. Qed.

Local Ltac op_case :=
  match goal with |- context [String.eqb (rq_op ?req) ?op] => destruct (String.eqb_spec (rq_op req) op) as [Eop|_] end.
Local Ltac permission Hp :=
  destruct Hp as (Ha & Hr & Hd & He & Hc & Hs & Ht); [match goal with E : rq_op _ = _ |- _ => by rewrite E end|].

Lemma dispatch_ok req : (is_mutating (rq_op req) = true -> permitted req) ->
  ok _ (dispatch settings cb req).
Proof using ProgClass0 snapshot_ok page_ok send_ok.
  intros Hp. unfold dispatch, bad_request. cbv zeta.
  op_case; [apply ok_bind; [done|intros snap; apply answer_ok]|].
  op_case; [apply ok_bind; [done|intros page; apply answer_ok]|].
  op_case; [apply answer_ok|].
  op_case; [permission Hp; apply run_job_ok; tauto|].
  op_case; [permission Hp; apply run_job_ok; tauto|].
  op_case.
  { permission Hp. destruct (negb (rq_sel_all req) && bool_decide (rq_sel_ids req = [])) eqn:E; [apply answer_ok|].
    case_bool; [apply answer_ok|]. apply run_job_ok.
    destruct (rq_sel_all req); simpl in E; [tauto|]. apply bool_decide_eq_false in E. tauto. }
  op_case; [permission Hp; apply run_job_ok; tauto|].
  op_case.
  { permission Hp. destruct (Hc Eop) as [Hcancel Hpush].
    apply ok_bind; [by apply (option_ok (cancel_fn cb))|]. intros u. apply ok_bind; [done|]. intros u'. apply answer_ok. }
  op_case; [permission Hp; apply ok_bind; [by apply (option_ok (rec_start_fn cb)); auto|
            intros r; apply answer_ok]|].
  op_case; [permission Hp; apply ok_bind; [by apply (option_ok (rec_stop_fn cb)); auto|
            intros r; apply answer_ok]|].
  apply answer_ok.
Qed.

Lemma refused_authorised req : is_mutating (rq_op req) = true -> refused settings req = false ->
  authorised req.
Proof using Type.
  intros Hm Hr. split; [done|]. unfold refused in Hr. rewrite Hm in Hr. unfold nonempty in Hr.
  destruct (String.eqb_spec (token settings) ""); [by left|right].
  by destruct (String.eqb_spec (rq_token req) (token settings)).
Qed.

Lemma handleRequest_ok text :
  (forall req, admitted settings text = Some req -> authorised req -> permitted req) ->
  ok _ (handleRequest settings cb text).
Proof using ProgClass0 snapshot_ok page_ok send_ok.
  intros Hp. unfold handleRequest. destruct (admitted settings text) as [req|]; [|apply ok_ret].
  destruct (refused settings req) eqn:E; [apply answer_ok|]. apply dispatch_ok.
  intros Hm. apply Hp; [done|]. by apply refused_authorised.
Qed.
End Authorised.

(** * Every request is answered *)

Section Answered.
Context `{JsonLaws} (settings : CompanionSettings) {S : Type} (cb : Callbacks S).

(** What was sent so far. *)
Context (sent : S -> list string).

(** A callback that returns, and sends nothing. *)
Definition returns {A} (p : prog S A) : Prop :=
  forall s, exists a s', run_alone p s = Some (a, s') /\ sent s' = sent s.

Record callbacks_return : Prop := {
  snapshot_returns : returns (snapshot_fn cb);
  page_returns o l : returns (fc_logs_fn cb o l);
  job_returns kind ids all : returns (job_gate cb kind ids all);
  cancel_returns p : cancel_fn cb = Some p -> returns p;
  rec_start_returns p : rec_start_fn cb = Some p -> returns p;
  rec_stop_returns p : rec_stop_fn cb = Some p -> returns p;
  push_returns cmd : returns (push_command cb cmd);
  send_returns text s : exists b s',
    run_alone (send_datagram cb text) s = Some (b, s') /\ sent s' = sent s ++ [text];
}.
Context (cb_ok : callbacks_return).

(** The program sends one text, of [P], and does not throw. *)
Definition sends (P : string -> Prop) (p : prog S bool) : Prop :=
  forall s, exists text s', run_alone p s = Some (true, s') /\ sent s' = sent s ++ [text] /\ P text.

Lemma sends_bind {A} (p : prog S A) (k : A -> prog S bool) P :
  returns p -> (forall a, sends P (k a)) -> sends P (p ≫= k).
Proof using Type.
  intros Hp Hk s. destruct (Hp s) as (a & s1 & E & Hs). destruct (Hk a s1) as (text & s2 & E2 & Hs2 & HP).
  exists text, s2. rewrite run_bind, E. by rewrite <- Hs.
Qed.

Lemma option_returns {A} (p : option (prog S A)) a : (forall q, p = Some q -> returns q) ->
  returns (match p with Some q => q | None => mret a end).
Proof using Type. destruct p; intros Hp; [by apply Hp|]. intros s. by exists a, s. Qed.

Lemma answer_sends (P : string -> Prop) resp : (exists r, resp = Some r /\ P (resp_json r)) ->
  sends P (answer cb resp).
Proof using cb_ok.
  intros (r & -> & HP) s. destruct (send_returns cb_ok (resp_json r) s) as (b & s' & E & Hs).
  exists (resp_json r), s'. unfold answer. by rewrite run_bind, E.
Qed.

Context (req : CompanionRequest) (client_ok : utf8 (rq_client req) = true).
Local Abbreviation echo := (echo_text (rq_id req) (rq_client req)).

Lemma job_response_echo out : answers (rq_id req) (rq_client req) (job_response req out).
Proof using All.
  unfold job_response. destruct (out_result out); auto with json. destruct (String.eqb _ _); auto with json.
Qed.

Lemma run_job_sends kind ids all : sends echo (run_job cb req kind ids all).
Proof using All.
  apply sends_bind; [by apply job_returns|]. intros out. apply answer_sends, job_response_echo.
Qed.

Lemma error_sends err : utf8 err = true -> sends echo (answer cb (buildError (rq_id req) err (rq_client req))).
Proof using All. intros He. apply answer_sends. by apply buildError_answers. Qed.

Lemma dispatch_sends :
  sends (fun text => (rq_op req = "status" /\ text = "") \/ echo text) (dispatch settings cb req).
Proof using All.
  assert (forall p, sends echo p -> sends (fun text => (rq_op req = "status" /\ text = "") \/ echo text) p)
    as Hweak. { intros p Hp s. destruct (Hp s) as (text & s' & ? & ? & ?). exists text, s'. auto. }
  unfold dispatch. cbv zeta.
  destruct (String.eqb_spec (rq_op req) "status") as [Eop|_].
  { apply sends_bind; [by apply snapshot_returns|]. intros snap. apply answer_sends. eexists. split; [done|].
    destruct (buildStatus_answers (rq_id req) snap (u64 (max_response_bytes settings)) (rq_client req)); auto. }
  apply Hweak. unfold bad_request.
  assert (forall op (p q : prog S bool), sends echo p -> sends echo q ->
    sends echo (if String.eqb (rq_op req) op then p else q)) as Hif
    by (intros op p q ? ?; by destruct (String.eqb (rq_op req) op)).
  assert (sends echo (answer cb (buildError (rq_id req) "bad_request" (rq_client req)))) as Hbad
    by (apply error_sends; auto with json).
  pose proof run_job_sends as Hjob. repeat apply Hif; try done.
  - apply sends_bind; [by apply page_returns|]. intros page. apply answer_sends. by apply buildFcLogs_answers.
  - apply answer_sends. by apply buildCaps_answers.
  - destruct (negb (rq_sel_all req) && _); [done|]. by case_bool.
  - apply sends_bind; [apply (option_returns (cancel_fn cb)), cancel_returns, cb_ok|]. intros u.
    apply sends_bind; [by apply push_returns|]. intros u'. apply answer_sends. by apply buildJobAck_answers.
  - apply sends_bind; [apply (option_returns (rec_start_fn cb)), rec_start_returns, cb_ok|]. intros r.
    apply answer_sends. unfold rec_response.
    destruct r; try (by apply buildRecAck_answers); apply buildError_answers; auto with json.
  - apply sends_bind; [apply (option_returns (rec_stop_fn cb)), rec_stop_returns, cb_ok|]. intros r.
    apply answer_sends. by apply buildRecAck_answers.
Qed.
End Answered.

Lemma admitted_client `{JsonLaws} settings text req : admitted settings text = Some req ->
  utf8 (rq_client req) = true.
Proof.
  unfold admitted. case_bool; [done|]. intros (obj & Hp & Hreq)%bind_Some.
  repeat match goal with H : (_ ≫= _) = Some _ |- _ => apply bind_Some in H as (? & ? & H) end.
  destruct (String.eqb _ ""); [done|]. injection Hreq as <-. simpl.
  eapply value_string; [by eapply parse_text|done].
Qed.

(** The answer to an admitted request. *)
Definition reply (req : CompanionRequest) `{JsonLibrary} (text : string) : Prop :=
  rq_op req = "status"%string /\ text = ""%string \/ echo_text (rq_id req) (rq_client req) text.

Lemma handleRequest_sends `{JsonLaws} settings {S} (cb : Callbacks S) (sent : S -> list string) text :
  callbacks_return cb sent ->
  match admitted settings text with
  | None => handleRequest settings cb text = mret true
  | Some req => sends sent (reply req) (handleRequest settings cb text)
  end.
Proof.
  intros Hcb. unfold handleRequest. destruct (admitted settings text) as [req|] eqn:E; [|done].
  pose proof (admitted_client settings text req E) as Hc. destruct (refused settings req).
  - intros s. destruct (error_sends settings cb sent Hcb req Hc "bad_token" ltac:(auto with json) s)
      as (a & s' & ? & ? & ?). exists a, s'. split_and!; try done. by right.
  - exact (dispatch_sends settings cb sent Hcb req Hc).
Qed.

(** * Properties *)

(** C17. Only an authorised request acts.  Handling a datagram takes no steps but
    those of reading a snapshot or a page and of sending the answer, unless the
    datagram is a parsed request of a state-changing operation with the configured
    token (any, if none is configured); then the steps of the callbacks of its own
    operation come in, and no others. *)
Theorem only_authorised_requests_act `{JsonLibrary} settings {S} (cb : Callbacks S)
    (R : S -> S -> Prop) text :
  steps_in R (snapshot_fn cb) -> (forall o l, steps_in R (fc_logs_fn cb o l)) ->
  (forall answer, steps_in R (send_datagram cb answer)) ->
  (forall req, admitted settings text = Some req -> authorised settings req ->
     permitted cb (@steps_in S R) req) ->
  steps_in R (handleRequest settings cb text).
Proof. intros Hs Hp Ha Hreq. by apply (handleRequest_ok settings cb (@steps_in S R)). Qed.

(** Every request is answered.  A datagram that is too long or is no request
    is dropped without a trace; any other is answered by exactly one datagram,
    which carries the request's number and its client's name (or is empty, for a
    status that fits no budget); and no exception leaves the thread. *)
Theorem every_request_answered `{JsonLaws} settings {S} (cb : Callbacks S) (sent : S -> list string) text s :
  callbacks_return cb sent ->
  exists s', run_alone (handleRequest settings cb text) s = Some (true, s') /\
  match admitted settings text with
  | None => s' = s
  | Some req => exists answer, sent s' = sent s ++ [answer] /\ reply req answer
  end.
Proof.
  intros Hcb. pose proof (handleRequest_sends settings cb sent text Hcb) as Hh.
  destruct (admitted settings text) as [req|]; [|rewrite Hh; by exists s].
  destruct (Hh s) as (a & s' & ? & ? & ?). exists s'. eauto.
Qed.

(** C34. What ends the receiving thread: the server was stopped, the socket failed,
    or an empty datagram came, although the server then still counts as running. *)
Theorem server_turn_ends `{JsonLaws} settings {S} (cb : Callbacks S) (sent : S -> list string)
    (is_running : prog S bool) (recvfrom : prog S Received) s running s1 received s2 :
  callbacks_return cb sent ->
  run_alone is_running s = Some (running, s1) -> run_alone recvfrom s1 = Some (received, s2) ->
  exists continues s', run_alone (server_turn settings cb is_running recvfrom) s = Some (continues, s') /\
  (continues = false <-> running = false \/ received = RecvError \/ received = Datagram "").
Proof.
  intros Hcb Hr Hd. unfold server_turn. rewrite run_bind, Hr.
  destruct running; cbn [negb]; [|exists false, s1; split; [done|]; split; [by left|done]].
  rewrite run_bind, Hd. destruct received as [text|]; [|exists false, s2; split; [done|]; split; [by right; left|done]].
  assert ((string_size (substring 0 kMaxDatagram text) <=? 0) = String.eqb text "") as ->.
  { unfold string_size. destruct text as [|c text]; [done|]. apply Z.leb_gt. simpl. lia. }
  destruct (String.eqb_spec text "") as [->|Hne].
  - exists false, s2. split; [done|]. split; [by right; right|done].
  - pose proof (handleRequest_sends settings cb sent (substring 0 kMaxDatagram text) Hcb) as Hh.
    assert (exists s', run_alone (handleRequest settings cb (substring 0 kMaxDatagram text)) s2 = Some (true, s'))
      as [s' E].
    { destruct (admitted _ _) as [req|]; [|rewrite Hh; by eexists].
      destruct (Hh s2) as (a & s' & ? & _). by exists s'. }
    exists true, s'. split; [done|]. split; [done|]. intros [?|[?|[= ?]]]; done.
Qed.

(** ** A sample owner: it keeps what was sent and which jobs were asked for. *)

Record Owner := { ow_sent : list string; ow_jobs : list CompanionJobKind }.

Definition sample_callbacks : Callbacks Owner :=
  {| snapshot_fn := get (fun _ => sample_snapshot);
     fc_logs_fn := fun _ _ => get (fun _ => sample_page);
     job_gate := fun kind _ _ => atom (fun s =>
       ({| out_result := Accepted; out_queued := 1; out_not_found := [] |},
        {| ow_sent := ow_sent s; ow_jobs := ow_jobs s ++ [kind] |}));
     cancel_fn := Some (mret tt); rec_start_fn := None; rec_stop_fn := None;
     push_command := fun _ => mret tt;
     send_datagram := fun text => atom (fun s =>
       (true, {| ow_sent := ow_sent s ++ [text]; ow_jobs := ow_jobs s |})) |}.

Definition idle : Owner := {| ow_sent := []; ow_jobs := [] |}.

Definition no_job : Owner -> Owner -> Prop := fun s s' => ow_jobs s' = ow_jobs s.

Lemma sample_callbacks_return : callbacks_return sample_callbacks ow_sent.
Proof.
  assert (forall A (a : A), returns ow_sent (mret a)) as Hret by (intros A a s; by exists a, s).
  split; try done; try (intros; apply Hret); try (by intros; intros s; eexists _, _).
  by intros p [= <-].
Qed.

(** The download of [sample_request], to a server with another token. *)
Definition sample_text : string := json_dump_replace (request_document sample_request).
Definition with_token (t : string) : CompanionSettings :=
  {| companion_enabled := true;
     companion_bind_host := "127.0.0.1";
     companion_bind_port := 14541;
     send_host := "127.0.0.1";
     send_port := 14540;
     token := t;
     max_request_bytes := 4096;
     max_response_bytes := 4096;
     max_fc_logs_per_response := 8;
     udp_proxy_keepalive_ms := 0 |}.
Definition locked : CompanionSettings := with_token "other".
Definition unlocked : CompanionSettings := with_token "".

Lemma only_authorised_requests_act_witness :
  steps_in no_job (handleRequest locked sample_callbacks sample_text).
Proof.
  apply (only_authorised_requests_act locked sample_callbacks no_job sample_text).
  - split; [|done]. by intros s b s' [= _ <-].
  - intros o l. split; [|done]. by intros s b s' [= _ <-].
  - intros text. split; [|done]. by intros s b s' [= _ <-].
  - assert (match admitted locked sample_text with
            | Some req => String.eqb (rq_token req) "key" | None => false end = true) as Hr
      by (vm_compute; reflexivity).
    intros req E [_ [Ht|Ht]]; [done|]. rewrite E, Ht in Hr. discriminate Hr.
Defined.

Lemma every_request_answered_witness :
  exists s', run_alone (handleRequest unlocked sample_callbacks sample_text) {| ow_sent := []; ow_jobs := [] |}
    = Some (true, s') /\ ow_jobs s' = [JobDownload] /\ length (ow_sent s') = 1%nat.
Proof.
  destruct (every_request_answered unlocked sample_callbacks ow_sent sample_text
    {| ow_sent := []; ow_jobs := [] |} sample_callbacks_return) as (s' & E & _).
  exists s'. split; [exact E|].
  assert (match run_alone (handleRequest unlocked sample_callbacks sample_text)
                  {| ow_sent := []; ow_jobs := [] |} with
          | Some (_, s') => bool_decide (ow_jobs s' = [JobDownload]) && Nat.eqb (length (ow_sent s')) 1
          | None => false end = true) as Hr by (vm_compute; reflexivity).
  rewrite E in Hr. apply andb_true_iff in Hr as [Hj%bool_decide_eq_true Hn%Nat.eqb_eq]. by split.
Defined.

(** An empty datagram: the loop is left although the server runs. *)
Lemma server_turn_ends_witness :
  exists s', run_alone (server_turn unlocked sample_callbacks (Ret true) (Ret (Datagram "")))
    idle = Some (false, s').
Proof.
  destruct (server_turn_ends unlocked sample_callbacks ow_sent (Ret true) (Ret (Datagram ""))
    idle true idle (Datagram "") idle sample_callbacks_return ltac:(reflexivity) ltac:(reflexivity))
    as (c & s' & E & Hc).
  exists s'. rewrite E. do 2 f_equal. apply Hc. by right; right.
Defined.
