(* ===== verification/Transports.v ===== *)
(** The transports (src/TcpTransport.cpp, src/UdpTransport.cpp, src/Transport.cpp)
    and the bytes [MavlinkClient::rxLoop] reads from them.

    The abstract class [Transport] of the source is the class [Transport] here:
    TCP and UDP are its instances, and [TransportLaws] states what the client
    relies on: a closed transport reads nothing, and an open one delivers the byte
    stream of what its socket receives, once and in order.  What a socket receives
    is a list, one item per answer of [recv] or [recvfrom]; a list that is used up
    is a socket that blocks.  Addresses go to the system calls and are left out.

    The theorems: both transports keep the laws, and the loop hands the handler the
    messages the MAVLink parser finds in that stream, whatever the transport. *)

From S2P Require Import Prelude.
From stdpp Require Import pretty.
Open Scope Z_scope.

(** The answer of [readByte]; [Blocked]: it has not returned. *)
Inductive Read := ReadByte (b : Z) | ReadEnd | Blocked.

Class Transport (T I : Type) := {
  tr_isConnected : T -> bool;
  tr_disconnect : T -> T;
  (** [sent]: what the system call returns. *)
  tr_send : list Z -> Z -> T -> bool;
  tr_readByte : T -> list I -> Read * T * list I;
}.

(** * TCP *)

Record TcpTransport := { tcp_connected : bool; tcp_socket : bool }.

(** The addresses in turn: socket, then connect. *)
Fixpoint tcp_attempts (addresses : list (bool * bool)) : bool :=
  match addresses with
  | [] => false
  | (created, connected) :: rest =>
      if negb created then tcp_attempts rest
      else if connected : bool then true
      else tcp_attempts rest
  end.

Definition tcp_disconnect (t : TcpTransport) : TcpTransport :=
  {| tcp_connected := false; tcp_socket := false |}.

(** [None]: the address could not be resolved. *)
Definition tcp_connect (addresses : option (list (bool * bool))) (t : TcpTransport) : bool * TcpTransport :=
  let t := tcp_disconnect t in
  match addresses with
  | None => (false, t)
  | Some addresses =>
      if tcp_attempts addresses then (true, {| tcp_connected := true; tcp_socket := true |}) else (false, t)
  end.

(** [recv] of one byte: [None] is the end of the stream or an error. *)
Definition tcp_readByte (t : TcpTransport) (input : list (option Z)) : Read * TcpTransport * list (option Z) :=
  if negb (tcp_connected t) || negb (tcp_socket t) then (ReadEnd, t, input)
  else match input with
       | [] => (Blocked, t, [])
       | Some b :: rest => (ReadByte b, t, rest)
       | None :: rest => (ReadEnd, {| tcp_connected := false; tcp_socket := tcp_socket t |}, rest)
       end.

Definition tcp_send (data : list Z) (sent : Z) (t : TcpTransport) : bool :=
  if negb (tcp_connected t) || negb (tcp_socket t) then false else sent =? i32 (zlen data).

#[export] Instance tcp_transport : Transport TcpTransport (option Z) :=
  {| tr_isConnected := tcp_connected; tr_disconnect := tcp_disconnect; tr_send := tcp_send;
     tr_readByte := tcp_readByte |}.

(** * UDP *)

Definition kMaxDatagramSize : nat := 2048.

Record UdpTransport := {
  udp_connected : bool;
  udp_socket : bool;
  udp_resolved : bool;      (* [remote_resolved_] *)
  rx_buffer : list Z;       (* the [rx_buffer_len_] bytes received *)
  rx_buffer_pos : nat;
}.

Definition udp_disconnect (t : UdpTransport) : UdpTransport :=
  {| udp_connected := false; udp_socket := false; udp_resolved := false; rx_buffer := [];
     rx_buffer_pos := 0 |}.

(** [connect]: the remote address, the socket, and, if there is a local address to
    bind, that address and [bind]. *)
Definition udp_connect (resolved created : bool) (local : option (bool * bool)) (t : UdpTransport)
  : bool * UdpTransport :=
  let t := udp_disconnect t in
  let found := {| udp_connected := false; udp_socket := false; udp_resolved := true; rx_buffer := [];
                  rx_buffer_pos := 0 |} in
  if negb resolved then (false, t)
  else if negb created then (false, t)
  else
    let bound := match local with
                 | None => true
                 | Some (bind_resolved, bind_ok) => if negb bind_resolved then false else bind_ok
                 end in
    if negb bound then (false, found)
    else (true, {| udp_connected := true; udp_socket := true; udp_resolved := true; rx_buffer := [];
                   rx_buffer_pos := 0 |}).

Definition udp_send (data : list Z) (sent : Z) (t : UdpTransport) : bool :=
  if negb (udp_connected t) || negb (udp_socket t) || negb (udp_resolved t) then false
  else sent =? i32 (zlen data).

(** [recvfrom]: a datagram, cut to the buffer, or an error; zero bytes count as an
    error. *)
Definition refillRxBuffer (received : option (list Z)) (t : UdpTransport) : bool * UdpTransport :=
  match received with
  | Some (b :: bytes) =>
      (true, {| udp_connected := udp_connected t; udp_socket := udp_socket t; udp_resolved := udp_resolved t;
                rx_buffer := take kMaxDatagramSize (b :: bytes); rx_buffer_pos := 0 |})
  | _ =>
      (false, {| udp_connected := false; udp_socket := udp_socket t; udp_resolved := udp_resolved t;
                 rx_buffer := rx_buffer t; rx_buffer_pos := rx_buffer_pos t |})
  end.

(** [rx_buffer_[rx_buffer_pos_++]]. *)
Definition next_byte (t : UdpTransport) : Read * UdpTransport :=
  (ReadByte (nth (rx_buffer_pos t) (rx_buffer t) 0),
   {| udp_connected := udp_connected t; udp_socket := udp_socket t; udp_resolved := udp_resolved t;
      rx_buffer := rx_buffer t; rx_buffer_pos := S (rx_buffer_pos t) |}).

Definition udp_readByte (t : UdpTransport) (input : list (option (list Z)))
  : Read * UdpTransport * list (option (list Z)) :=
  if negb (udp_connected t) || negb (udp_socket t) then (ReadEnd, t, input)
  else if Nat.leb (length (rx_buffer t)) (rx_buffer_pos t) then
    match input with
    | [] => (Blocked, t, [])
    | received :: rest =>
        let '(ok, t') := refillRxBuffer received t in
        if negb ok then (ReadEnd, t', rest) else let '(r, t'') := next_byte t' in (r, t'', rest)
    end
  else let '(r, t') := next_byte t in (r, t', input).

#[export] Instance udp_transport : Transport UdpTransport (option (list Z)) :=
  {| tr_isConnected := udp_connected; tr_disconnect := udp_disconnect; tr_send := udp_send;
     tr_readByte := udp_readByte |}.

(** The constructors: a closed transport. *)
Definition new_tcp_transport : TcpTransport := {| tcp_connected := false; tcp_socket := false |}.
Definition new_udp_transport : UdpTransport :=
  {| udp_connected := false; udp_socket := false; udp_resolved := false; rx_buffer := []; rx_buffer_pos := 0 |}.

(** [describe], for the log. *)
Definition tcp_describe (host : string) (port : Z) : string := host +:+ ":" +:+ pretty port.

Definition udp_describe (host : string) (port : Z) (bind_host : string) (bind_port : Z) : string :=
  "udp://" +:+ host +:+ ":" +:+ pretty port +:+
  (if String.eqb bind_host "" then ""
   else " (bind " +:+ bind_host +:+ (if 0 <? bind_port then ":" +:+ pretty bind_port else "") +:+ ")").

(** * Which transport *)

Definition tolower (c : ascii) : ascii :=
  let n := nat_of_ascii c in
  if ((65 <=? n) && (n <=? 90))%nat then ascii_of_nat (n + 32) else c.

Definition lower (value : string) : string :=
  string_of_list_ascii (tolower <$> list_ascii_of_string value).

Inductive TransportKind := Tcp | Udp.

(** [createTransport]; [None] is the exception for any other type. *)
Definition createTransport (transport : string) : option TransportKind :=
  let type := lower transport in
  if String.eqb type "tcp" then Some Tcp else if String.eqb type "udp" then Some Udp else None.

(** * The receiving loop *)

(** [rxLoop] while the client runs: bytes to the parser, its messages to the
    handler, until the transport ends ([Some true]), blocks ([Some false]) or
    [fuel] is used up. *)
Section Loop.
Context {T I : Type} `{Transport T I} {P M : Type} (mavlink_parse_char : P -> Z -> P * option M).

Fixpoint rx_loop (fuel : nat) (p : P) (t : T) (input : list I) : list M * option bool :=
  match fuel with
  | O => ([], None)
  | S fuel' =>
      match tr_readByte t input with
      | (ReadByte b, t', input') =>
          let '(p', m) := mavlink_parse_char p b in
          let '(ms, e) := rx_loop fuel' p' t' input' in
          (match m with Some m => m :: ms | None => ms end, e)
      | (ReadEnd, _, _) => ([], Some true)
      | (Blocked, _, _) => ([], Some false)
      end
  end.

(** The messages in a stream of bytes. *)
Fixpoint messages (p : P) (bytes : list Z) : list M :=
  match bytes with
  | [] => []
  | b :: bytes =>
      let '(p', m) := mavlink_parse_char p b in
      match m with Some m => m :: messages p' bytes | None => messages p' bytes end
  end.
End Loop.

(** * The interface *)

(** [tr_open]: connected, with nothing left over from before.  [tr_stream]: the
    bytes of a socket's input, and whether it ends.  *)
Class TransportLaws (T I : Type) `{Transport T I} := {
  tr_pending : T -> list Z;
  tr_stream : list I -> list Z * bool;
  tr_closed_read t input : tr_isConnected t = false -> tr_readByte t input = (ReadEnd, t, input);
  tr_closed_send t data sent : tr_isConnected t = false -> tr_send data sent t = false;
  tr_disconnected t : tr_isConnected (tr_disconnect t) = false;
  (** Reading takes the next byte of the stream. *)
  tr_ready : T -> Prop;
  tr_read_next t input : tr_ready t ->
    let '(r, t', input') := tr_readByte t input in
    match tr_pending t ++ (tr_stream input).1 with
    | b :: bytes => r = ReadByte b /\ tr_ready t' /\ tr_pending t' ++ (tr_stream input').1 = bytes /\
        (tr_stream input').2 = (tr_stream input).2
    | [] => if (tr_stream input).2 then r = ReadEnd /\ tr_isConnected t' = false
            else r = Blocked /\ t' = t /\ input' = input
    end;
  tr_ready_connected t : tr_ready t -> tr_isConnected t = true;
}.

(** ** The loop, against the interface *)

Lemma rx_loop_stream {T I P M} `{TransportLaws T I} (parser : P -> Z -> P * option M) fuel : forall p t input,
  tr_ready t -> let bytes := tr_pending t ++ (tr_stream input).1 in
  (length bytes < fuel)%nat ->
  rx_loop parser fuel p t input = (messages parser p bytes, Some (tr_stream input).2).
Proof.
  induction fuel as [|fuel IH]; intros p t input Ht; cbv zeta; intros Hf; [lia|].
  pose proof (tr_read_next t input Ht) as Hr. cbn [rx_loop].
  destruct (tr_readByte t input) as [[r t'] input'].
  destruct (tr_pending t ++ (tr_stream input).1) as [|b bytes] eqn:E.
  - destruct (tr_stream input).2; by destruct Hr as [-> _].
  - destruct Hr as (-> & Ht' & Hb & He). simpl. destruct (parser p b) as [p' m].
    rewrite IH by (rewrite ?Hb; simpl in Hf; try done; lia). rewrite Hb, He. by destruct m.
Qed.

(** ** TCP keeps the laws *)

Fixpoint tcp_stream (input : list (option Z)) : list Z * bool :=
  match input with
  | [] => ([], false)
  | None :: _ => ([], true)
  | Some b :: rest => (b :: (tcp_stream rest).1, (tcp_stream rest).2)
  end.

#[export] Program Instance tcp_laws : TransportLaws TcpTransport (option Z) := {|
  tr_pending _ := [];
  tr_stream := tcp_stream;
  tr_ready t := tcp_connected t = true /\ tcp_socket t = true;
|}.
Next Obligation. intros t input E. simpl in *. unfold tcp_readByte. by rewrite E. Qed.
Next Obligation. intros t data sent E. simpl in *. unfold tcp_send. by rewrite E. Qed.
Next Obligation. done. Qed.
Next Obligation.
  intros t input [Hc Hs]. simpl. unfold tcp_readByte. rewrite Hc, Hs. simpl.
  by destruct input as [|[b|] rest].
Qed.
Next Obligation. by intros t []. Qed.

(** ** UDP keeps the laws *)

Fixpoint udp_stream (input : list (option (list Z))) : list Z * bool :=
  match input with
  | [] => ([], false)
  | (None | Some []) :: _ => ([], true)
  | Some d :: rest => (take kMaxDatagramSize d ++ (udp_stream rest).1, (udp_stream rest).2)
  end.

Lemma next_byte_drop t b bytes : drop (rx_buffer_pos t) (rx_buffer t) = b :: bytes ->
  (next_byte t).1 = ReadByte b /\ drop (rx_buffer_pos (next_byte t).2) (rx_buffer (next_byte t).2) = bytes.
Proof.
  intros E. simpl. split.
  - f_equal. rewrite <- (Nat.add_0_r (rx_buffer_pos t)), <- nth_skipn. by rewrite E.
  - change (S (rx_buffer_pos t)) with (1 + rx_buffer_pos t)%nat.
    by rewrite Nat.add_comm, <- drop_drop, E.
Qed.

#[export] Program Instance udp_laws : TransportLaws UdpTransport (option (list Z)) := {|
  tr_pending t := drop (rx_buffer_pos t) (rx_buffer t);
  tr_stream := udp_stream;
  tr_ready t := udp_connected t = true /\ udp_socket t = true;
|}.
Next Obligation. intros t input E. simpl in *. unfold udp_readByte. by rewrite E. Qed.
Next Obligation. intros t data sent E. simpl in *. unfold udp_send. by rewrite E. Qed.
Next Obligation. done. Qed.
Next Obligation.
  intros t input [Hc Hs]. cbn [tr_readByte udp_transport]. unfold udp_readByte. rewrite Hc, Hs. cbn [negb orb].
  destruct (Nat.leb_spec (length (rx_buffer t)) (rx_buffer_pos t)) as [Hle|Hlt].
  - rewrite drop_ge by done. by destruct input as [|[[|b d]|] rest].
  - destruct (drop (rx_buffer_pos t) (rx_buffer t)) as [|b bytes] eqn:Ed.
    { apply (f_equal length) in Ed. rewrite length_drop in Ed. simpl in Ed. lia. }
    destruct (next_byte_drop t b bytes Ed) as [Hr Hd]. destruct (next_byte t) as [r t'] eqn:E.
    injection E as <- <-. simpl in Hd. simpl. rewrite Hd. by split_and!.
Qed.
Next Obligation. by intros t []. Qed.

(** * Properties *)

Lemma tcp_stream_bytes bytes : tcp_stream (Some <$> bytes) = (bytes, false).
Proof. induction bytes as [|b bytes IH]; [done|]. rewrite fmap_cons. cbn [tcp_stream]. by rewrite IH. Qed.

Lemma udp_stream_datagrams ds rest :
  Forall (fun d => d <> [] /\ (length d <= kMaxDatagramSize)%nat) ds ->
  udp_stream ((Some <$> ds) ++ rest) = (concat ds ++ (udp_stream rest).1, (udp_stream rest).2).
Proof.
  induction 1 as [|d ds [Hne Hlen] _ IH]; [simpl; by destruct (udp_stream rest)|].
  destruct d as [|b d]; [done|]. rewrite fmap_cons. cbn [app udp_stream]. rewrite IH.
  rewrite take_ge by done. simpl. rewrite <- ?app_assoc. done.
Qed.

(** C27. The messages do not depend on the transport.  After a successful connect,
    the loop over UDP, fed any datagrams that are not empty and fit the buffer,
    and the loop over TCP, fed their bytes, hand on the same messages, those the
    parser finds in the bytes, and then wait.  Over UDP an empty datagram ends the
    loop like the end of a TCP stream, with everything before it delivered. *)
Theorem transports_agree {P M} (parser : P -> Z -> P * option M) p ds fuel addresses local t_tcp t_udp :
  Forall (fun d => d <> [] /\ (length d <= kMaxDatagramSize)%nat) ds ->
  (length (concat ds) < fuel)%nat ->
  (tcp_connect addresses t_tcp).1 = true -> (udp_connect true true local t_udp).1 = true ->
  let tcp := (tcp_connect addresses t_tcp).2 in
  let udp := (udp_connect true true local t_udp).2 in
  rx_loop parser fuel p udp (Some <$> ds) = (messages parser p (concat ds), Some false) /\
  rx_loop parser fuel p tcp (Some <$> concat ds) = (messages parser p (concat ds), Some false) /\
  rx_loop parser fuel p udp ((Some <$> ds) ++ [Some []]) = (messages parser p (concat ds), Some true).
Proof.
  intros Hds Hf Htcp Hudp tcp udp.
  assert (tr_ready tcp) as Rt.
  { subst tcp. unfold tcp_connect in *. destruct addresses as [a|]; [|done]. by destruct (tcp_attempts a). }
  assert (tr_ready udp /\ tr_pending udp = []) as [Ru Pu].
  { subst udp. revert Hudp. unfold udp_connect. simpl. by destruct local as [[[] []]|]. }
  pose proof (udp_stream_datagrams ds [] Hds) as E1. rewrite app_nil_r in E1. simpl in E1.
  rewrite app_nil_r in E1.
  pose proof (udp_stream_datagrams ds [Some []] Hds) as E2. simpl in E2. rewrite app_nil_r in E2.
  pose proof (tcp_stream_bytes (concat ds)) as E3.
  split_and!; rewrite rx_loop_stream; try done; rewrite ?Pu; cbn [tr_stream udp_laws tcp_laws tr_pending];
    rewrite ?E1, ?E2, ?E3; done.
Qed.

(** A parser that takes a byte for a message, and two datagrams. *)
Lemma transports_agree_witness :
  let parser := fun (n : Z) b => (n + 1, Some (n, b)) in
  let tcp := (tcp_connect (Some [(false, false); (true, true)]) {| tcp_connected := false; tcp_socket := false |}).2 in
  let udp := (udp_connect true true None (udp_disconnect
                {| udp_connected := false; udp_socket := false; udp_resolved := false; rx_buffer := [];
                   rx_buffer_pos := 0 |})).2 in
  rx_loop parser 9 0 udp [Some [7; 8]; Some [9]] = ([(0, 7); (1, 8); (2, 9)], Some false) /\
  rx_loop parser 9 0 tcp (Some <$> [7; 8; 9]) = ([(0, 7); (1, 8); (2, 9)], Some false).
Proof.
  intros parser tcp udp.
  destruct (transports_agree parser 0 [[7; 8]; [9]] 9 (Some [(false, false); (true, true)]) None
    {| tcp_connected := false; tcp_socket := false |}
    (udp_disconnect {| udp_connected := false; udp_socket := false; udp_resolved := false; rx_buffer := [];
                       rx_buffer_pos := 0 |})) as (Hu & Ht & _);
    [repeat constructor; simpl; (done || lia)|simpl; lia|reflexivity|reflexivity|].
  split; [exact Hu|exact Ht].
Defined.
