(* ===== verification/Client.v ===== *)
(** [MavlinkClient] (src/MavlinkClient.cpp): the flags of the connection, the
    time of the last frame and the address of the vehicle.

    The transport is an abstract class of the source; its implementations are
    sockets.  What it answers comes from outside: the result of its [connect],
    and the frames or the end of the stream its [readByte] leads to.  The frame
    parser is the MAVLink library's.  The operations that other threads can see
    half done are put together from these steps in [Service]. *)

From S2P Require Import Prelude LogProtocol Types FlightMonitor Session Downloader.
Open Scope Z_scope.

(** A parsed message: the log protocol's, or a heartbeat. *)
Inductive Message :=
| LogMessage (f : Frame)
| HeartbeatMessage (i : Identity) (base_mode : Z).

(** What the receiving thread reads: a message, or the end of the stream. *)
Inductive Inbound := Parsed (m : Message) | StreamClosed.

(** [MAV_MODE_FLAG_SAFETY_ARMED], from the MAVLink headers. *)
Definition MAV_MODE_FLAG_SAFETY_ARMED : Z := 128.

Definition armed_flag (base_mode : Z) : bool :=
  negb (Z.land base_mode MAV_MODE_FLAG_SAFETY_ARMED =? 0).

Record Client := {
  cl_connected : bool;
  cl_running : bool;
  cl_transport : bool;       (* transport_->isConnected() *)
  cl_rx_alive : bool;        (* the receiving thread runs *)
  cl_last_heartbeat : Z;     (* steady clock, ns *)
  cl_target_system : Z;
  cl_target_component : Z;
}.

Definition new_client (now : Z) : Client :=
  {| cl_connected := false; cl_running := false; cl_transport := false; cl_rx_alive := false;
     cl_last_heartbeat := now; cl_target_system := 1; cl_target_component := 1 |}.

Definition isConnected (c : Client) : bool := cl_connected c && cl_transport c.

Definition heartbeatFresh (heartbeat_timeout_sec now : Z) (c : Client) : bool :=
  now - cl_last_heartbeat c <=? seconds heartbeat_timeout_sec.

(** The flags [disconnect] clears before it joins the receiving thread. *)
Definition close (c : Client) : Client :=
  {| cl_connected := false; cl_running := false; cl_transport := false;
     cl_rx_alive := cl_rx_alive c; cl_last_heartbeat := cl_last_heartbeat c;
     cl_target_system := cl_target_system c; cl_target_component := cl_target_component c |}.

(** A successful [connect]: the flags, and the receiving thread started. *)
Definition open (c : Client) : Client :=
  {| cl_connected := true; cl_running := true; cl_transport := true; cl_rx_alive := true;
     cl_last_heartbeat := cl_last_heartbeat c;
     cl_target_system := cl_target_system c; cl_target_component := cl_target_component c |}.

(** The transport fails under the receiving thread. *)
Definition transport_lost (c : Client) : Client :=
  {| cl_connected := cl_connected c; cl_running := cl_running c; cl_transport := false;
     cl_rx_alive := cl_rx_alive c; cl_last_heartbeat := cl_last_heartbeat c;
     cl_target_system := cl_target_system c; cl_target_component := cl_target_component c |}.

Definition mark_lost (c : Client) : Client :=
  {| cl_connected := false; cl_running := cl_running c; cl_transport := cl_transport c;
     cl_rx_alive := cl_rx_alive c; cl_last_heartbeat := cl_last_heartbeat c;
     cl_target_system := cl_target_system c; cl_target_component := cl_target_component c |}.

Definition rx_ends (c : Client) : Client :=
  {| cl_connected := cl_connected c; cl_running := cl_running c; cl_transport := cl_transport c;
     cl_rx_alive := false; cl_last_heartbeat := cl_last_heartbeat c;
     cl_target_system := cl_target_system c; cl_target_component := cl_target_component c |}.

(** The first part of [handleParsedMessage]. *)
Definition note_message (now : Z) (m : Message) (c : Client) : Client :=
  let '(sys, comp) := match m with
                      | HeartbeatMessage i _ => (i_sysid i, i_compid i)
                      | LogMessage _ => (cl_target_system c, cl_target_component c)
                      end in
  {| cl_connected := cl_connected c; cl_running := cl_running c; cl_transport := cl_transport c;
     cl_rx_alive := cl_rx_alive c; cl_last_heartbeat := now;
     cl_target_system := sys; cl_target_component := comp |}.
