(* ===== verification/Service.v ===== *)
(** [DroneLogService] (src/DroneLogService.cpp): the state machine that watches
    the vehicle and runs the archive cycles, with the jobs of the companion API.

    Four threads share the service: the main loop ([run]), the receiving thread
    of the client ([rxLoop], which calls [onMavlinkMessage]), the companion UDP
    thread (the requests of [CompanionServer], with the service's callbacks) and the
    signal handler; a fifth lets time pass.  Their programs are sequences of accesses
    to the atomics and of critical sections, interleaved by a schedule ([Threads]).
    An exception on a thread other than the main one terminates the process ([terminate]).

    The downloader's long operations run in one step of the main thread, against
    the downloader's own script of what the other threads do to it meanwhile. *)

From S2P Require Import Prelude Effects LogProtocol Types FlightMonitor.
From S2P Require Import Database Storage Session Downloader Client Threads.
From S2P Require Import Json CompanionTypes CompanionServer VideoRecorder.
Open Scope Z_scope.

(** * Data *)

Inductive State :=
| Boot
| Connect
| WaitHeartbeat
| WaitArm
| WaitDisarm
| Delay
| Enumerate
| Archive
| EraseAll
| Cleanup
| ConnectionLost
| ManualRefresh
| ManualDownload
| ManualErase.

#[global] Instance State_eq_dec : EqDecision State.
Proof. solve_decision. Defined.

(** The members only the main thread writes. *)
Record Cycle := {
  last_cycle_result_ : ArchiveCycleResult;
  consecutive_archive_failures_ : Z;
  cached_fc_logs_ : list LogEntry;
  fc_logs_stale_ : bool;
  manual_download_ids_ : list Z;
  manual_download_all_ : bool;
}.

(** The companion's side: its server, what it sent and whether that worked, and
    the recorder. *)
Record CompanionSide := {
  cp_server : UdpServer;
  cp_answers : list (string * bool);
  cp_recorder : Recorder;
}.

(** What the outside has in store: messages, datagrams of the companion, results
    of the transport's [connect] and of [sendto], what the operating system says to
    the recorder, the lengths of time that pass, signals. *)
Record Outside := {
  inbox : list Inbound;
  datagrams : list Received;
  connects : list bool;
  sends_ok : list bool;
  os_views : list OsView;
  delays : list Z;
  signals : nat;
}.

Definition with_inbox (x : list Inbound) (o : Outside) : Outside :=
  {| inbox := x; datagrams := datagrams o; connects := connects o; sends_ok := sends_ok o;
     os_views := os_views o; delays := delays o; signals := signals o |}.
Definition with_datagrams (x : list Received) (o : Outside) : Outside :=
  {| inbox := inbox o; datagrams := x; connects := connects o; sends_ok := sends_ok o;
     os_views := os_views o; delays := delays o; signals := signals o |}.
Definition with_connects (x : list bool) (o : Outside) : Outside :=
  {| inbox := inbox o; datagrams := datagrams o; connects := x; sends_ok := sends_ok o;
     os_views := os_views o; delays := delays o; signals := signals o |}.
Definition with_sends (x : list bool) (o : Outside) : Outside :=
  {| inbox := inbox o; datagrams := datagrams o; connects := connects o; sends_ok := x;
     os_views := os_views o; delays := delays o; signals := signals o |}.
Definition with_views (x : list OsView) (o : Outside) : Outside :=
  {| inbox := inbox o; datagrams := datagrams o; connects := connects o; sends_ok := sends_ok o;
     os_views := x; delays := delays o; signals := signals o |}.
Definition with_delays (x : list Z) (o : Outside) : Outside :=
  {| inbox := inbox o; datagrams := datagrams o; connects := connects o; sends_ok := sends_ok o;
     os_views := os_views o; delays := x; signals := signals o |}.
Definition with_signals (x : nat) (o : Outside) : Outside :=
  {| inbox := inbox o; datagrams := datagrams o; connects := connects o; sends_ok := sends_ok o;
     os_views := os_views o; delays := delays o; signals := x |}.

Record Service := {
  state_ : State;
  archive_requested_ : bool;
  running_ : bool;
  disarm_time_ : Z;
  client_ : Client;
  monitor_ : Monitor;
  cycle_ : Cycle;
  companion_commands_ : list CompanionCommand;
  companion_ : CompanionSide;
  downloader_ : World;  (* with the catalog, the archives and the clock *)
  outside : Outside;
  terminated : bool;    (* [std::terminate] was called *)
}.

(** An exception leaves a thread other than the main one. *)
Definition terminate (s : Service) : Service :=
  {| state_ := state_ s; archive_requested_ := archive_requested_ s; running_ := running_ s;
     disarm_time_ := disarm_time_ s; client_ := client_ s; monitor_ := monitor_ s;
     cycle_ := cycle_ s; companion_commands_ := companion_commands_ s; companion_ := companion_ s;
     downloader_ := downloader_ s; outside := outside s; terminated := true |}.

Definition setState (x : State) (s : Service) : Service :=
  {| state_ := x; archive_requested_ := archive_requested_ s; running_ := running_ s;
     disarm_time_ := disarm_time_ s; client_ := client_ s; monitor_ := monitor_ s;
     cycle_ := cycle_ s; companion_commands_ := companion_commands_ s; companion_ := companion_ s;
     downloader_ := downloader_ s; outside := outside s; terminated := terminated s |}.

Definition set_requested (x : bool) (s : Service) : Service :=
  {| state_ := state_ s; archive_requested_ := x; running_ := running_ s;
     disarm_time_ := disarm_time_ s; client_ := client_ s; monitor_ := monitor_ s;
     cycle_ := cycle_ s; companion_commands_ := companion_commands_ s; companion_ := companion_ s;
     downloader_ := downloader_ s; outside := outside s; terminated := terminated s |}.

Definition stop_running (s : Service) : Service :=
  {| state_ := state_ s; archive_requested_ := archive_requested_ s; running_ := false;
     disarm_time_ := disarm_time_ s; client_ := client_ s; monitor_ := monitor_ s;
     cycle_ := cycle_ s; companion_commands_ := companion_commands_ s; companion_ := companion_ s;
     downloader_ := downloader_ s; outside := outside s; terminated := terminated s |}.

Definition set_disarm_time (x : Z) (s : Service) : Service :=
  {| state_ := state_ s; archive_requested_ := archive_requested_ s; running_ := running_ s;
     disarm_time_ := x; client_ := client_ s; monitor_ := monitor_ s;
     cycle_ := cycle_ s; companion_commands_ := companion_commands_ s; companion_ := companion_ s;
     downloader_ := downloader_ s; outside := outside s; terminated := terminated s |}.

Definition set_client (f : Client -> Client) (s : Service) : Service :=
  {| state_ := state_ s; archive_requested_ := archive_requested_ s; running_ := running_ s;
     disarm_time_ := disarm_time_ s; client_ := f (client_ s); monitor_ := monitor_ s;
     cycle_ := cycle_ s; companion_commands_ := companion_commands_ s; companion_ := companion_ s;
     downloader_ := downloader_ s; outside := outside s; terminated := terminated s |}.

Definition set_monitor (m : Monitor) (s : Service) : Service :=
  {| state_ := state_ s; archive_requested_ := archive_requested_ s; running_ := running_ s;
     disarm_time_ := disarm_time_ s; client_ := client_ s; monitor_ := m;
     cycle_ := cycle_ s; companion_commands_ := companion_commands_ s; companion_ := companion_ s;
     downloader_ := downloader_ s; outside := outside s; terminated := terminated s |}.

Definition set_cycle (c : Cycle) (s : Service) : Service :=
  {| state_ := state_ s; archive_requested_ := archive_requested_ s; running_ := running_ s;
     disarm_time_ := disarm_time_ s; client_ := client_ s; monitor_ := monitor_ s;
     cycle_ := c; companion_commands_ := companion_commands_ s; companion_ := companion_ s;
     downloader_ := downloader_ s; outside := outside s; terminated := terminated s |}.

Definition set_commands (q : list CompanionCommand) (s : Service) : Service :=
  {| state_ := state_ s; archive_requested_ := archive_requested_ s; running_ := running_ s;
     disarm_time_ := disarm_time_ s; client_ := client_ s; monitor_ := monitor_ s;
     cycle_ := cycle_ s; companion_commands_ := q; companion_ := companion_ s;
     downloader_ := downloader_ s; outside := outside s; terminated := terminated s |}.

Definition set_companion (c : CompanionSide) (s : Service) : Service :=
  {| state_ := state_ s; archive_requested_ := archive_requested_ s; running_ := running_ s;
     disarm_time_ := disarm_time_ s; client_ := client_ s; monitor_ := monitor_ s;
     cycle_ := cycle_ s; companion_commands_ := companion_commands_ s; companion_ := c;
     downloader_ := downloader_ s; outside := outside s; terminated := terminated s |}.

Definition set_downloader (w : World) (s : Service) : Service :=
  {| state_ := state_ s; archive_requested_ := archive_requested_ s; running_ := running_ s;
     disarm_time_ := disarm_time_ s; client_ := client_ s; monitor_ := monitor_ s;
     cycle_ := cycle_ s; companion_commands_ := companion_commands_ s; companion_ := companion_ s;
     downloader_ := w; outside := outside s; terminated := terminated s |}.

Definition set_outside (o : Outside) (s : Service) : Service :=
  {| state_ := state_ s; archive_requested_ := archive_requested_ s; running_ := running_ s;
     disarm_time_ := disarm_time_ s; client_ := client_ s; monitor_ := monitor_ s;
     cycle_ := cycle_ s; companion_commands_ := companion_commands_ s; companion_ := companion_ s;
     downloader_ := downloader_ s; outside := o; terminated := terminated s |}.

Definition set_server (f : UdpServer -> UdpServer) (s : Service) : Service :=
  set_companion {| cp_server := f (cp_server (companion_ s));
                   cp_answers := cp_answers (companion_ s);
                   cp_recorder := cp_recorder (companion_ s) |} s.

Definition add_answer (text : string) (ok : bool) (s : Service) : Service :=
  set_companion {| cp_server := cp_server (companion_ s);
                   cp_answers := cp_answers (companion_ s) ++ [(text, ok)];
                   cp_recorder := cp_recorder (companion_ s) |} s.

Definition set_recorder (r : Recorder) (s : Service) : Service :=
  set_companion {| cp_server := cp_server (companion_ s);
                   cp_answers := cp_answers (companion_ s); cp_recorder := r |} s.

Definition set_manual (ids : list Z) (all : bool) (c : Cycle) : Cycle :=
  {| last_cycle_result_ := last_cycle_result_ c;
     consecutive_archive_failures_ := consecutive_archive_failures_ c;
     cached_fc_logs_ := cached_fc_logs_ c; fc_logs_stale_ := fc_logs_stale_ c;
     manual_download_ids_ := ids; manual_download_all_ := all |}.

Definition set_failures (n : Z) (c : Cycle) : Cycle :=
  {| last_cycle_result_ := last_cycle_result_ c; consecutive_archive_failures_ := n;
     cached_fc_logs_ := cached_fc_logs_ c; fc_logs_stale_ := fc_logs_stale_ c;
     manual_download_ids_ := manual_download_ids_ c; manual_download_all_ := manual_download_all_ c |}.

Definition set_cache (logs : list LogEntry) (stale : bool) (c : Cycle) : Cycle :=
  {| last_cycle_result_ := last_cycle_result_ c;
     consecutive_archive_failures_ := consecutive_archive_failures_ c;
     cached_fc_logs_ := logs; fc_logs_stale_ := stale;
     manual_download_ids_ := manual_download_ids_ c; manual_download_all_ := manual_download_all_ c |}.

Definition set_result (r : ArchiveCycleResult) (c : Cycle) : Cycle :=
  {| last_cycle_result_ := r;
     consecutive_archive_failures_ := consecutive_archive_failures_ c;
     cached_fc_logs_ := cached_fc_logs_ c; fc_logs_stale_ := fc_logs_stale_ c;
     manual_download_ids_ := manual_download_ids_ c; manual_download_all_ := manual_download_all_ c |}.

(** * Operations *)

Definition isArchiveBusy (state : State) : bool :=
  match state with
  | Delay | Enumerate | Archive | EraseAll | ManualRefresh | ManualDownload | ManualErase => true
  | _ => false
  end.

Definition isArmed (s : Service) : bool := armed_ (monitor_ s).
Definition vehicleDetected (s : Service) : bool := vehicle_detected_ (monitor_ s).

Abbreviation program := (prog Service).

Definition currentState : program State := get state_.

(** Steps on the downloader: its cancel flag is shared with the other threads. *)
Definition on_downloader (f : World -> World) (s : Service) : Service :=
  set_downloader (f (downloader_ s)) s.

Definition cancel_downloader (w : World) : World := set_shared (requestCancel (w_shared w)) w.
Definition reset_downloader (w : World) : World := set_shared (resetCancel (w_shared w)) w.

Definition requestDownloaderCancel : program unit := put (on_downloader cancel_downloader).
Definition resetDownloaderCancel : program unit := put (on_downloader reset_downloader).

(** A step of the downloader with a result. *)
Definition call {A} (f : World -> A * World) : program A :=
  atom (fun s => let '(a, w) := f (downloader_ s) in (a, set_downloader w s)).

(** A long operation of the downloader; [None] if it threw, or if its fuel was
    not enough. *)
Definition call_long {A} (m : M World A) : program (option A) :=
  call (fun w => let '(o, w') := m w in (match o with Ok a => Some a | _ => None end, w')).

Definition sleep (d : Z) : program unit := put (on_downloader (pass_time d)).

Definition steady_clock : program Z := get (fun s => w_now (downloader_ s)).

Definition isConnected_ : program bool := get (fun s => isConnected (client_ s)).

(** ** The client *)

(** [rx_thread_.join()]: the wait for the receiving thread to end.  On that thread
    itself it throws a [std::system_error], which nothing catches there. *)
Definition join_receiver (on_receiver : bool) : program unit :=
  if on_receiver then put terminate;; await (fun _ => false)
  else await (fun s => negb (cl_rx_alive (client_ s))).

Definition disconnect (on_receiver : bool) : program unit :=
  put (set_client close);;
  join_receiver on_receiver.

(** The outcome of [transport_->connect()], from outside. *)
Definition transport_connect : program bool :=
  atom (fun s => let o := outside s in
    (default true (head (connects o)),
     set_outside (with_connects (tail (connects o)) o) s)).

Definition connect : program bool :=
  disconnect false;;
  ok ← transport_connect;
  if ok : bool then put (set_client open);; mret true else mret false.

(** ** The recorder *)

(** When nothing else is said: nothing is mounted, nothing has ended. *)
Definition no_mount : MountView :=
  {| mv_is_directory := false; mv_access := false; mv_self_dev := None; mv_parent_dev := None |}.
Definition quiet_view : OsView :=
  {| ov_wait := WaitRunning; ov_reap_mount := no_mount; ov_start_mount := no_mount; ov_spawn := (1, 0);
     ov_now := 0; ov_stamp := ""; ov_free := None |}.

(** A step of the recorder, with what the operating system says and the time. *)
Definition on_recorder {A} (f : OsView -> Recorder -> A * Recorder) : program A :=
  atom (fun s =>
    let o := outside s in
    let v := default quiet_view (head (os_views o)) in
    let v := {| ov_wait := ov_wait v; ov_reap_mount := ov_reap_mount v;
                ov_start_mount := ov_start_mount v; ov_spawn := ov_spawn v;
                ov_now := w_now (downloader_ s); ov_stamp := ov_stamp v;
                ov_free := ov_free v |} in
    let '(a, r) := f v (cp_recorder (companion_ s)) in
    (a, set_recorder r (set_outside (with_views (tail (os_views o)) o) s))).

(** ** What the companion is shown *)

(** [buildFcLogsPage]; [start + limit] is a signed addition. *)
Definition buildFcLogsPage `{RowChoice} (offset limit : Z) (s : Service) : FcLogsPage :=
  let cached := cached_fc_logs_ (cycle_ s) in
  let start := Z.max 0 offset in
  let stop := Z.min (i32 (zlen cached)) (i32 (start + limit)) in
  {| pg_count := i32 (zlen cached); pg_offset := offset;
     pg_entries := (fun e => {| fe_id := le_id e; fe_size := le_size e; fe_time_utc := le_time_utc e;
                                fe_downloaded := hasArchived (le_id e) (le_size e)
                                                   (w_db (downloader_ s)) |}) <$>
       take (Z.to_nat (stop - start)) (drop (Z.to_nat start) cached);
     pg_truncated := false; pg_stale := fc_logs_stale_ (cycle_ s) |}.

Definition stateToString (state : State) : string :=
  match state with
  | Boot => "boot"
  | Connect => "connect"
  | WaitHeartbeat => "wait_heartbeat"
  | WaitArm => "wait_arm"
  | WaitDisarm => "wait_disarm"
  | Delay => "delay"
  | Enumerate => "enumerate"
  | Archive => "archive"
  | EraseAll => "erase_all"
  | Cleanup => "cleanup"
  | ConnectionLost => "connection_lost"
  | ManualRefresh => "manual_refresh"
  | ManualDownload => "manual_download"
  | ManualErase => "manual_erase"
  end.

(** The job descriptor of [buildSnapshot]. *)
Definition job_type (state : State) : string :=
  match state with
  | Delay | Enumerate | Archive | EraseAll => "archive"
  | ManualRefresh => "refresh"
  | ManualDownload => "download"
  | ManualErase => "erase"
  | _ => ""
  end.

Section Model.
Context `{Platform} `{JsonLibrary} (settings : DownloadSettings) (companion : CompanionSettings)
  (recording : RecordingSettings) (heartbeat_timeout_sec : Z) (fuel : nat).

Definition heartbeatFresh_ : program bool :=
  get (fun s => heartbeatFresh heartbeat_timeout_sec (w_now (downloader_ s)) (client_ s)).

(** The loop of [waitForHeartbeat]: it polls every 100 ms until the deadline. *)
Fixpoint wait_polls (polls : nat) (deadline : Z) : program bool :=
  match polls with
  | O => mret false
  | S polls' =>
      now ← steady_clock;
      if now <? deadline then
        fresh ← heartbeatFresh_;
        if fresh : bool then mret true
        else sleep (ms 100);; wait_polls polls' deadline
      else mret false
  end.

Definition waitForHeartbeat (timeout : Z) : program bool :=
  now ← steady_clock;
  wait_polls (Z.to_nat (timeout / ms 100 + 1)) (now + timeout).

Definition reconnect : program bool :=
  ok ← connect;
  if ok : bool then waitForHeartbeat (seconds 10) else mret false.

Definition handleConnectionLost (on_receiver : bool) : program unit :=
  state ← currentState;
  if isArchiveBusy state then mret tt
  else
    state ← currentState;
    match state with
    | ConnectionLost | Boot => mret tt
    | _ => disconnect on_receiver;; put (setState ConnectionLost)
    end.

(** ** The receiving thread *)

Definition onFlightEvent (event : Event) : program unit :=
  state ← currentState;
  match event with
  | VehicleArmed =>
      if decide (state = WaitArm) then put (setState WaitDisarm)
      else if isArchiveBusy state then requestDownloaderCancel
      else mret tt
  | VehicleDisarmed =>
      now ← steady_clock;
      put (set_disarm_time now);;
      put (set_requested true);;
      if decide (state = WaitDisarm) then put (setState Delay)
      else if isArchiveBusy state then requestDownloaderCancel
      else mret tt
  | LinkLost => handleConnectionLost true
  | LinkRestored =>
      if decide (state = ConnectionLost) then put (setState Connect) else mret tt
  | VehicleDetected => mret tt
  end.

Fixpoint onFlightEvents (events : list Event) : program unit :=
  match events with
  | [] => mret tt
  | e :: events' => onFlightEvent e;; onFlightEvents events'
  end.

(** A call of the monitor, and the events it passes to the handler. *)
Definition monitor_call (f : Monitor -> list Event * Monitor) : program unit :=
  events ← atom (fun s => let '(ev, m) := f (monitor_ s) in (ev, set_monitor m s));
  onFlightEvents events.

Definition receive (f : Frame) (w : World) : World :=
  set_shared (onMessage settings f (w_shared w)) w.

Definition onMavlinkMessage (m : Message) : program unit :=
  match m with
  | LogMessage f => put (on_downloader (receive f))
  | HeartbeatMessage i base_mode => monitor_call (onHeartbeat i (armed_flag base_mode))
  end;;
  fresh ← heartbeatFresh_;
  if negb fresh then monitor_call onLinkTimeout else mret tt.

(** [readByte] until a message is parsed: the next one of the inbox, or the end
    of the stream. *)
Definition read_message : program (option Message) :=
  Atom (fun s =>
    if cl_transport (client_ s) then
      let o := outside s in
      match inbox o with
      | [] => None
      | Parsed m :: rest =>
          Some (Some m, set_outside (with_inbox rest o) s)
      | StreamClosed :: rest =>
          Some (None, set_client transport_lost (set_outside (with_inbox rest o) s))
      end
    else Some (None, s)) Ret.

(** One turn of [rxLoop]. *)
Definition rx_turn : program unit :=
  await (fun s => cl_rx_alive (client_ s));;
  running ← get (fun s => cl_running (client_ s));
  if negb running then put (set_client rx_ends)
  else
    read ← read_message;
    match read with
    | Some m =>
        put (fun s => set_client (note_message (w_now (downloader_ s)) m) s);;
        onMavlinkMessage m
    | None =>
        running ← get (fun s => cl_running (client_ s));
        (if running : bool then put (set_client mark_lost) else mret tt);;
        put (set_client rx_ends)
    end.

(** ** The main thread *)

(** [int] counters that stay small: one per archive cycle. *)
Definition evaluateArchiveOutcome (result : ArchiveCycleResult) : program unit :=
  if (0 <? cy_cancelled result) && (cy_failed result =? 0) then mret tt
  else if cy_all_archived result && (cy_failed result =? 0) then
    put (fun s => set_cycle (set_failures 0 (cycle_ s)) s)
  else
    put (fun s => set_cycle (set_failures (consecutive_archive_failures_ (cycle_ s) + 1) (cycle_ s)) s);;
    failures ← get (fun s => consecutive_archive_failures_ (cycle_ s));
    let do_reconnect :=
      (reconnect_on_transport_failure settings && isTransportFailure (cy_last_failure_reason result)) ||
      ((0 <? reconnect_after_consecutive_failures settings) &&
       (reconnect_after_consecutive_failures settings <=? failures)) in
    if negb do_reconnect then mret tt
    else
      disconnect false;;
      sleep (ms 300);;
      ok ← connect;
      if ok : bool then
        waitForHeartbeat (seconds 5);;
        put (fun s => set_cycle (set_failures 0 (cycle_ s)) s)
      else mret tt.

Definition cacheEnumerationResult (entries : list LogEntry) : program unit :=
  put (fun s => set_cycle (set_cache entries false (cycle_ s)) s).

Definition returnToIdleState : program unit :=
  armed ← get isArmed;
  put (setState (if armed : bool then WaitDisarm else WaitArm)).

(** The cleanup of storage: the limit, and the statistic of its size. *)
Definition cleanup_storage (w : World) : World :=
  let st := enforceStorageLimit (w_storage w) in
  set_db (setStat "storage_bytes" (i64 (totalVerifiedBytes st)) (w_db w)) (set_storage st w).

(** What a program of the main thread ends with. *)
Inductive Next :=
| NextTop          (* while (running_.load()) *)
| NextDrain        (* the queue of commands *)
| NextProcess      (* processState *)
| NextDestroy      (* the destructor, after [run] or an exception *)
| NextStopped
| NextReceive
| NextCompanion
| NextTime
| NextSignal.

(** [enumerateLogs] with its result cached, then [k] on the logs. *)
Definition with_logs (k : list LogEntry -> program Next) : program Next :=
  logs ← call_long (enumerateLogs settings fuel);
  match logs with
  | None => mret NextDestroy
  | Some logs => cacheEnumerationResult logs;; k logs
  end.

(** [archiveAll] with its result kept, then [k] on it. *)
Definition with_result (logs : list LogEntry) (k : ArchiveCycleResult -> program Next) : program Next :=
  result ← call_long (archiveAll settings fuel logs);
  match result with
  | None => mret NextDestroy
  | Some result => put (fun s => set_cycle (set_result result (cycle_ s)) s);; k result
  end.

(** The end of [processState] and the sleep of the main loop. *)
Definition turn_ends : program Next := sleep (ms 100);; mret NextTop.

Definition selected_logs (all : bool) (ids : list Z) (logs : list LogEntry) : list LogEntry :=
  if all then logs else filter (fun e => le_id e ∈ ids) logs.

(** Three cases of [processState]. *)
Definition in_ManualErase : program Next :=
  resetDownloaderCancel;;
  call (eraseFlightControllerLogs settings);;
  cacheEnumerationResult [];;
  returnToIdleState;;
  turn_ends.

Definition in_Cleanup : program Next :=
  put (on_downloader cleanup_storage);;
  result ← get (fun s => last_cycle_result_ (cycle_ s));
  evaluateArchiveOutcome result;;
  requested ← get archive_requested_;
  (if requested : bool then put (setState Delay) else returnToIdleState);;
  turn_ends.

Definition in_ConnectionLost : program Next :=
  sleep (seconds 2);;
  put (setState Connect);;
  turn_ends.

Definition processState : program Next :=
  state ← currentState;
  match state with
  | Boot => put (setState Connect);; turn_ends
  | Connect =>
      ok ← reconnect;
      (if ok : bool then
         put (fun s => set_cycle (set_cache (cached_fc_logs_ (cycle_ s)) true (cycle_ s)) s);;
         put (setState WaitHeartbeat)
       else sleep (seconds 2));;
      turn_ends
  | WaitHeartbeat =>
      detected ← get vehicleDetected;
      (if detected : bool then put (setState WaitArm)
       else
         fresh ← heartbeatFresh_;
         if negb fresh then handleConnectionLost false else mret tt);;
      turn_ends
  | WaitArm | WaitDisarm =>
      fresh ← heartbeatFresh_;
      (if negb fresh then handleConnectionLost false else mret tt);;
      turn_ends
  | Delay =>
      now ← steady_clock;
      disarmed ← get disarm_time_;
      (if seconds (delay_after_disarm_sec settings) <=? now - disarmed then
         put (set_requested false);;
         resetDownloaderCancel;;
         put (setState Enumerate)
       else mret tt);;
      turn_ends
  | Enumerate => put (setState Archive);; turn_ends
  | Archive =>
      with_logs (fun logs =>
      with_result logs (fun result =>
        (if negb (0 <? cy_cancelled result) && cy_all_archived result &&
            erase_after_success settings && negb (bool_decide (logs = []))
         then put (setState EraseAll) else put (setState Cleanup));;
        turn_ends))
  | EraseAll =>
      cancelled ← call (ld_cancelled settings);
      if cancelled : bool then put (setState Cleanup);; turn_ends
      else
        call (eraseFlightControllerLogs settings);;
        put (setState Cleanup);;
        turn_ends
  | ManualRefresh => with_logs (fun _ => returnToIdleState;; turn_ends)
  | ManualDownload =>
      with_logs (fun logs =>
        selected ← get (fun s => selected_logs (manual_download_all_ (cycle_ s))
                                   (manual_download_ids_ (cycle_ s)) logs);
        with_result selected (fun _ =>
          put (fun s => set_cycle (set_manual [] false (cycle_ s)) s);;
          put (setState Cleanup);;
          turn_ends))
  | ManualErase => in_ManualErase
  | Cleanup => in_Cleanup
  | ConnectionLost => in_ConnectionLost
  end.

Definition handle_command (cmd : CompanionCommand) : program unit :=
  match cmd with
  | StartArchiveCommand =>
      state ← currentState;
      if isArchiveBusy state then mret tt
      else
        armed ← get isArmed;
        if armed : bool then mret tt
        else
          connected ← isConnected_;
          if negb connected then mret tt
          else
            put (set_requested false);;
            resetDownloaderCancel;;
            put (setState Enumerate)
  | CancelArchiveCommand => requestDownloaderCancel
  | RefreshLogsCommand => resetDownloaderCancel;; put (setState ManualRefresh)
  | DownloadLogsCommand ids all =>
      put (fun s => set_cycle (set_manual ids all (cycle_ s)) s);;
      resetDownloaderCancel;;
      put (setState ManualDownload)
  | EraseAllLogsCommand => resetDownloaderCancel;; put (setState ManualErase)
  end.

(** [CompanionCommandQueue::pop]. *)
Definition pop_command : program (option CompanionCommand) :=
  atom (fun s => match companion_commands_ s with
                 | [] => (None, s)
                 | cmd :: rest => (Some cmd, set_commands rest s)
                 end).

(** One turn of the loop of [drainCompanionCommands]. *)
Definition drain_turn : program Next :=
  cmd ← pop_command;
  match cmd with
  | None => mret NextProcess
  | Some cmd => handle_command cmd;; mret NextDrain
  end.

(** [CompanionUdpServer::stop], with the wait for its receiving thread to end. *)
Definition stop_server : program unit :=
  put (set_server server_stop);;
  await (fun s => negb (sv_rx (cp_server (companion_ s)))).

(** The head of the main loop, and what follows it. *)
Definition main_top : program Next :=
  running ← get running_;
  if running : bool then mret NextDrain
  else
    requestDownloaderCancel;;
    disconnect false;;
    on_recorder stop;;
    stop_server;;
    mret NextDestroy.

(** [stop], which only the destructor calls. *)
Definition service_stop : program unit := put stop_running;; requestDownloaderCancel.

(** The destructors of the members that have threads or a process. *)
Definition destroy_recorder : program bool := on_recorder stop.
Definition destroy_server : program unit := stop_server.
Definition destroy_client : program unit := disconnect false.

(** The destructor: [stop], then those of the members, the last member first. *)
Definition service_destroy : program Next :=
  service_stop;;
  destroy_recorder;;
  destroy_server;;
  destroy_client;;
  mret NextStopped.

(** ** The companion thread *)

Definition push (cmd : CompanionCommand) : program unit :=
  put (fun s => set_commands (companion_commands_ s ++ [cmd]) s).

Definition outcome_of (r : JobStartResult) : JobOutcome :=
  {| out_result := r; out_queued := 0; out_not_found := [] |}.

(** The requested ids split into those of the cached enumeration and the others. *)
Definition known_ids (cached : list LogEntry) (ids : list Z) : list Z :=
  filter (fun id => id ∈ le_id <$> cached) ids.
Definition unknown_ids (cached : list LogEntry) (ids : list Z) : list Z :=
  filter (fun id => id ∉ le_id <$> cached) ids.

Definition requestCompanionJob (kind : CompanionJobKind) (ids : list Z) (all : bool)
  : program JobOutcome :=
  state ← currentState;
  let busy := isArchiveBusy state in
  if decide (kind = JobEraseAll) then
    connected ← isConnected_;
    if negb connected then mret (outcome_of NotConnected)
    else
      (if busy then requestDownloaderCancel else mret tt);;
      push EraseAllLogsCommand;;
      mret (outcome_of Accepted)
  else if busy then mret (outcome_of AlreadyRunning)
  else
    armed ← get isArmed;
    if armed : bool then mret (outcome_of Armed)
    else
      connected ← isConnected_;
      if negb connected then mret (outcome_of NotConnected)
      else
        match kind with
        | JobArchive => push StartArchiveCommand;; mret (outcome_of Accepted)
        | JobRefresh => push RefreshLogsCommand;; mret (outcome_of Accepted)
        | JobDownload =>
            cached ← get (fun s => cached_fc_logs_ (cycle_ s));
            let valid := if all then [] else known_ids cached ids in
            let not_found := if all then [] else unknown_ids cached ids in
            let queued := i32 (if all then zlen cached else zlen valid) in
            if negb all && bool_decide (valid = []) then
              mret {| out_result := NotFound; out_queued := queued; out_not_found := not_found |}
            else
              push (DownloadLogsCommand valid all);;
              mret {| out_result := Accepted; out_queued := queued; out_not_found := not_found |}
        | JobEraseAll => mret (outcome_of Accepted)
        end.

(** [buildSnapshot]: one read after the other, of what the other threads change. *)
Definition buildSnapshot : program ServiceSnapshot :=
  state ← currentState;
  connected ← isConnected_;
  fresh ← heartbeatFresh_;
  detected ← get vehicleDetected;
  armed ← get isArmed;
  cache ← get (fun s => (i32 (zlen (cached_fc_logs_ (cycle_ s))), fc_logs_stale_ (cycle_ s)));
  progress ← get (fun s => activeProgress (downloader_ s));
  last ← get (fun s => last_cycle_result_ (cycle_ s));
  used ← get (fun s => totalVerifiedBytes (w_storage (downloader_ s)));
  limit ← get (fun s => max_bytes (w_storage (downloader_ s)));
  count ← get (fun s => getStat "flights_archived" (w_db (downloader_ s)));
  rec ← on_recorder (snapshot recording);
  mret {| sn_state := stateToString state; sn_version := "1.0.0"; sn_job_type := job_type state;
          sn_transport_connected := connected; sn_heartbeat_fresh := fresh;
          sn_vehicle_detected := detected; sn_vehicle_armed := armed;
          sn_fc_logs_count := cache.1; sn_fc_logs_stale := cache.2;
          sn_archive_active := pr_active progress; sn_archive_current_log_id := pr_log_id progress;
          sn_archive_progress_bytes := pr_bytes_received progress;
          sn_archive_progress_total_bytes := pr_total_bytes progress;
          sn_archive_percent :=
            if 0 <? pr_total_bytes progress
            then i32 (u64 (pr_bytes_received progress * 100) / pr_total_bytes progress) else 0;
          sn_archive_bytes_per_sec := pr_bytes_per_sec progress;
          sn_last_cycle_downloaded := cy_downloaded last; sn_last_cycle_skipped := cy_skipped last;
          sn_last_cycle_failed := cy_failed last; sn_last_cycle_cancelled := cy_cancelled last;
          sn_last_cycle_all_archived := cy_all_archived last;
          sn_storage_used_bytes := used; sn_storage_limit_bytes := limit;
          sn_storage_archived_count := count;
          sn_recording_enabled := ss_enabled rec; sn_recording_active := ss_active rec;
          sn_recording_duration_sec := ss_duration_sec rec; sn_recording_free_bytes := ss_free_bytes rec;
          sn_recording_crash_reason := ss_crash_reason rec |}.

(** [sendto], and its result. *)
Definition send_answer (text : string) : program bool :=
  atom (fun s =>
    let o := outside s in
    let ok := default true (head (sends_ok o)) in
    (ok, add_answer text ok (set_outside (with_sends (tail (sends_ok o)) o) s))).

(** What the constructor of the service passes to its server. *)
Definition companion_callbacks : Callbacks Service :=
  {| snapshot_fn := buildSnapshot;
     fc_logs_fn := fun offset limit => get (buildFcLogsPage offset limit);
     job_gate := requestCompanionJob;
     cancel_fn := Some requestDownloaderCancel;
     rec_start_fn := Some (on_recorder (start recording));
     rec_stop_fn := Some (on_recorder stop);
     push_command := push;
     send_datagram := send_answer |}.

(** [recvfrom]: the next datagram; an error once the socket is closed. *)
Definition recvfrom : program Received :=
  Atom (fun s =>
    let o := outside s in
    if sv_socket (cp_server (companion_ s)) then
      match datagrams o with
      | [] => None
      | d :: rest => Some (d, set_outside (with_datagrams rest o) s)
      end
    else Some (RecvError, s)) Ret.

(** One turn of the companion thread. *)
Definition companion_turn : program unit :=
  await (fun s => sv_rx (cp_server (companion_ s)));;
  continues ← server_turn companion companion_callbacks
                (get (fun s => sv_running (cp_server (companion_ s)))) recvfrom;
  if continues : bool then mret tt else put (set_server rx_exits).

(** ** Time and signals *)

Definition time_turn : program unit :=
  Atom (fun s =>
    let o := outside s in
    match delays o with
    | [] => None
    | d :: rest =>
        Some (tt, on_downloader (pass_time d) (set_outside (with_delays rest o) s))
    end) Ret.

Definition signal_turn : program unit :=
  Atom (fun s =>
    let o := outside s in
    match signals o with
    | O => None
    | S n =>
        Some (tt, stop_running (set_outside (with_signals n o) s))
    end) Ret.

(** * The service *)

Inductive Thread := Main | Receiver | Companion | Time | Signal.

#[export] Instance Thread_eq_dec : EqDecision Thread.
Proof using Type. solve_decision. Defined.

Definition body (n : Next) : program Next :=
  match n with
  | NextTop => main_top
  | NextDrain => drain_turn
  | NextProcess => processState
  | NextDestroy => service_destroy
  | NextStopped => await (fun _ => false);; mret NextStopped
  | NextReceive => rx_turn;; mret NextReceive
  | NextCompanion => companion_turn;; mret NextCompanion
  | NextTime => time_turn;; mret NextTime
  | NextSignal => signal_turn;; mret NextSignal
  end.

Definition first_program (t : Thread) : Next :=
  match t with
  | Main => NextTop
  | Receiver => NextReceive
  | Companion => NextCompanion
  | Time => NextTime
  | Signal => NextSignal
  end.

(** The service at the start of the main loop: the server was started if the
    settings ask for one ([bind]: the results of getaddrinfo, socket and bind). *)
Definition boot (bind : bool * bool * bool) (o : Outside) (w : World) : Sys Service Next Thread :=
  {| shared :=
       {| state_ := Boot; archive_requested_ := false; running_ := true; disarm_time_ := 0;
          client_ := new_client (w_now w); monitor_ := new_monitor;
          cycle_ := {| last_cycle_result_ := default_cycle; consecutive_archive_failures_ := 0;
                       cached_fc_logs_ := []; fc_logs_stale_ := true;
                       manual_download_ids_ := []; manual_download_all_ := false |};
          companion_commands_ := [];
          companion_ :=
            {| cp_server := if companion_enabled companion
                            then (server_start companion bind.1.1 bind.1.2 bind.2 new_server).2
                            else new_server;
               cp_answers := []; cp_recorder := new_recorder |};
          downloader_ := w; outside := o; terminated := false |};
     threads := fun t => Ret (first_program t) |}.

Definition service_run : list Thread -> Sys Service Next Thread -> Sys Service Next Thread :=
  run_schedule body terminated.
End Model.
