(* ===== verification/ServiceSafety.v ===== *)
(** The invariant of the service's threads, for every schedule and for any link
    that [good_chunk] and [good_entry] describe: which steps leave alone what an
    erase depends on, that the programs of every thread but the main one consist of
    such steps, and that the main thread erases only after a cycle that archived
    every log ([cleared]) or when it was asked to ([asked]). *)

From S2P Require Import Prelude Effects LogProtocol Types ReceivedRanges FlightMonitor Database Storage.
From S2P Require Import Session SessionProofs Downloader DownloaderProofs ArchiveProofs EnumerationProofs Client Threads Service.
From S2P Require Import Json JsonSample CompanionTypes CompanionProtocol CompanionServer VideoRecorder.
Open Scope Z_scope.

Section Safety.
Context `{Platform} `{JsonLibrary} (settings : DownloadSettings) (companion : CompanionSettings)
  (recording : RecordingSettings) (heartbeat_timeout_sec : Z) (fuel : nat).

(** Whether the disk is, which chunks and entries the link delivers. *)
Context (reliable : Prop) (good_chunk : LogDataChunk -> Prop) (good_entry : LogEntry -> Prop).

(** The datagrams the companion sends. *)
Context (given : list Received).

(** * The invariant *)

Definition erase_count (w : World) : nat := length (filter (fun r => r.1 = LogErase) (w_sent w)).

(** The files below the logs directory are those of [st1]. *)
Definition same_files (st1 st : Storage) : Prop :=
  st_root st = st_root st1 /\
  forall q, under (logs_dir st1) q = true -> st_fs st !! q = st_fs st1 !! q.

Lemma same_files_trans st st1 st2 : same_files st st1 -> same_files st1 st2 -> same_files st st2.
Proof using Type.
  intros [Hr Hq] [Hr' Hq']. split; [congruence|]. intros q Hu.
  rewrite Hq', Hq; [done..|]. unfold logs_dir in *. by rewrite Hr.
Qed.

(** A step of the downloader that forgets no digest and changes no archive. *)
Definition keeps_archive (w w' : World) : Prop :=
  (forall sha, is_Some (archived_logs (w_db w) !! sha) -> is_Some (archived_logs (w_db w') !! sha)) /\
  same_files (w_storage w) (w_storage w').

Lemma keeps_archive_refl w : keeps_archive w w.
Proof using Type. done. Qed.
#[local] Hint Extern 0 (keeps_archive _ _) => exact (keeps_archive_refl _) : core.

Lemma keeps_archive_trans w w1 w2 : keeps_archive w w1 -> keeps_archive w1 w2 -> keeps_archive w w2.
Proof using Type. intros [Hk Hf] [Hk' Hf']. split; [auto|by eapply same_files_trans]. Qed.

Lemma keeps_archive_same w w' :
  archived_logs (w_db w') = archived_logs (w_db w) -> w_storage w' = w_storage w -> keeps_archive w w'.
Proof using Type. intros Hd Hs. split; [by rewrite Hd|by rewrite Hs]. Qed.

(** A cycle has archived all of [logs]; since then the catalog has lost no digest
    and no file of the archive has changed. *)
Definition archived_all (logs : list LogEntry) (w : World) : Prop :=
  Forall good_entry logs /\ exists sent0 db0 st0 rs db1 st1,
    archive_run settings reliable good_chunk good_entry sent0 db0 st0 logs rs db1 st1 /\
    forallb successful rs = true /\
    (forall sha, is_Some (archived_logs db1 !! sha) -> is_Some (archived_logs (w_db w) !! sha)) /\
    same_files st1 (w_storage w).

(** The last cycle allows an erase. *)
Definition cleared (s : Service) : Prop :=
  erase_after_success settings = true /\ cached_fc_logs_ (cycle_ s) <> [] /\
  cy_all_archived (last_cycle_result_ (cycle_ s)) = true /\
  cy_cancelled (last_cycle_result_ (cycle_ s)) <= 0 /\
  archived_all (cached_fc_logs_ (cycle_ s)) (downloader_ s).

Definition good_inbound (m : Inbound) : Prop :=
  match m with Parsed (LogMessage f) => good_frame good_chunk good_entry f | _ => True end.

(** The datagram is an authorised request to erase. *)
Definition asks_erase (text : string) : Prop :=
  exists req, admitted companion (String.substring 0 kMaxDatagram text) = Some req /\
    authorised companion req /\ rq_op req = "logs.erase".

(** Such a request has been received. *)
Definition asked (s : Service) : Prop :=
  exists pre text, given = pre ++ datagrams (outside s) /\ Datagram text ∈ pre /\ asks_erase text.

(** No datagram comes back. *)
Definition received (s s' : Service) : Prop :=
  datagrams (outside s') `suffix_of` datagrams (outside s).

Lemma asked_mono s s' : received s s' -> asked s -> asked s'.
Proof using Type.
  intros [k Hk] (pre & text & Hg & Hin & Ha). exists (pre ++ k), text.
  rewrite Hg, Hk, app_assoc. split_and!; [done|apply elem_of_app; by left|done].
Qed.

(** What comes in is decoded, logs are below 2 GiB, and a manual erase was asked for. *)
Definition good_input (s : Service) : Prop :=
  link_ok reliable good_chunk good_entry (downloader_ s) /\ Forall good_inbound (inbox (outside s)) /\
  datagrams (outside s) `suffix_of` given /\
  (EraseAllLogsCommand ∈ companion_commands_ s -> asked s).

Definition Inv (s : Service) : Prop :=
  good_input s /\ (state_ s = EraseAll -> cleared s) /\ (state_ s = ManualErase -> asked s).

(** A step that leaves alone what an erase depends on. *)
Record calm (s s' : Service) : Prop := {
  calm_input : good_input s -> good_input s';
  calm_result : last_cycle_result_ (cycle_ s') = last_cycle_result_ (cycle_ s);
  calm_cache : cached_fc_logs_ (cycle_ s') = cached_fc_logs_ (cycle_ s);
  calm_archive : keeps_archive (downloader_ s) (downloader_ s');
  calm_sent : erase_count (downloader_ s') = erase_count (downloader_ s);
  calm_erase : state_ s' = EraseAll -> state_ s = EraseAll;
  calm_manual : state_ s' = ManualErase -> state_ s = ManualErase \/ asked s';
  calm_received : received s s';
}.

Lemma calm_refl s : calm s s.
Proof using Type. split; auto. by unfold received. Qed.

Lemma calm_asked s s' : calm s s' -> asked s -> asked s'.
Proof using Type. intros []. by apply asked_mono. Qed.

Lemma archived_all_mono logs w w' : keeps_archive w w' -> archived_all logs w -> archived_all logs w'.
Proof using Type.
  intros [Hk Hf] (Hall & sent0 & db0 & st0 & rs & db1 & st1 & Hrun & Hs & Hk1 & Hf1).
  split; [done|]. exists sent0, db0, st0, rs, db1, st1. split_and!; [done|done|auto|by eapply same_files_trans].
Qed.

Lemma calm_cleared s s' : calm s s' -> cleared s -> cleared s'.
Proof using Type.
  intros [] (He & Hc & Ha & Hx & Hs). unfold cleared. rewrite calm_result0, calm_cache0.
  split_and!; try done. by eapply archived_all_mono.
Qed.

Lemma calm_Inv s s' : calm s s' -> Inv s -> Inv s'.
Proof using Type.
  intros Hc (Hi & He & Hm). split; [by apply Hc|]. split.
  - intros Hs. eapply calm_cleared; [exact Hc|]. by apply He, (calm_erase _ _ Hc).
  - intros Hs. destruct (calm_manual _ _ Hc Hs) as [Hm'|]; [|done]. apply (calm_asked s); auto.
Qed.

(** * Calm programs *)

(** The main thread erases only what it may; the others are calm. *)
Definition Guar (t : Thread) (s s' : Service) : Prop :=
  match t with
  | Main => (erase_count (downloader_ s') <> erase_count (downloader_ s) -> cleared s \/ asked s) /\ received s s'
  | _ => calm s s'
  end.

Lemma calm_guar t s s' : calm s s' -> Guar t s s'.
Proof using Type. intros Hc. destruct t; try done. destruct Hc. split; [by intros []|done]. Qed.

Lemma guar_received t s s' : Guar t s s' -> received s s'.
Proof using Type. destruct t; [by intros []|..]; apply calm_received. Qed.

Definition calmly (P : Service -> Prop) : Prop := forall s s', Inv s -> P s -> calm s s' -> P s'.

Abbreviation Rely := (others Guar).

(** An assertion of the main thread: calm steps keep it. *)
Lemma calmly_stable P : calmly P -> stable Inv (Rely Main) P.
Proof using Type.
  intros HP s s' Hi _ Hs (t & Hne & Hg). destruct t; [done|..]; exact (HP s s' Hi Hs Hg).
Qed.

(** An assertion that lasts, whatever the threads do. *)
Definition lasting (Q : Service -> Prop) : Prop :=
  calmly Q /\ forall t, stable Inv (Rely t) Q.

Lemma received_lasting Q : (forall s s', received s s' -> Q s -> Q s') -> lasting Q.
Proof using Type.
  intros HQ. split.
  - intros s s' _ Hs Hc. exact (HQ s s' (calm_received _ _ Hc) Hs).
  - intros t s s' _ _ Hs (t' & _ & Hg). exact (HQ s s' (guar_received _ _ _ Hg) Hs).
Qed.

Lemma asked_lasting : lasting asked.
Proof using Type. apply received_lasting. apply asked_mono. Qed.

Lemma asked_if_lasting (A : Prop) : lasting (fun s => A -> asked s).
Proof using Type. apply received_lasting. intros s s' Hr Ha HA. eapply asked_mono; [exact Hr|auto]. Qed.

Lemma calmly_and P Q : calmly P -> calmly Q -> calmly (fun s => P s /\ Q s).
Proof using Type. intros HP HQ s s' Hi [Hp Hq] Hc. split; [by eapply HP|by eapply HQ]. Qed.

(** Programs all of whose steps are calm, for any thread and any assertion that
    survives both them and the others. *)
Definition quiet {A} (p : program A) : Prop := forall t P,
  calmly P -> stable Inv (Rely t) P -> guarded Inv (Rely t) (Guar t) P p (fun _ => P).

Lemma quiet_ret {A} (a : A) : quiet (mret a).
Proof using Type. intros t P HP Hst. by apply guarded_ret. Qed.

Lemma quiet_bind {A B} (p : program A) (k : A -> program B) :
  quiet p -> (forall a, quiet (k a)) -> quiet (p ≫= k).
Proof using Type. intros Hp Hk t P HP Hst. eapply guarded_bind; [by apply Hp|]. intros a. by apply Hk. Qed.

Lemma quiet_step {A} (f : Service -> option (A * Service)) :
  (forall s a s', Inv s -> f s = Some (a, s') -> calm s s') -> quiet (Atom f Ret).
Proof using Type.
  intros Hf t P HP Hst. apply guarded_step; [done..|].
  intros s a s' Hi Hs E. specialize (Hf s a s' Hi E). split; [by eapply calm_Inv|].
  split; [by apply calm_guar|by eapply HP].
Qed.

(** Quiet where a lasting assertion holds. *)
Definition quiet_where (Q : Service -> Prop) {A} (p : program A) : Prop := forall t P,
  calmly P -> stable Inv (Rely t) P -> guarded Inv (Rely t) (Guar t) (fun s => P s /\ Q s) p (fun _ => P).

Lemma quiet_anywhere Q {A} (p : program A) : lasting Q -> quiet p -> quiet_where Q p.
Proof using Type.
  intros [HQ HQs] Hp t P HP Hst. eapply guarded_post; [apply Hp; [by apply calmly_and|by apply stable_and]|].
  by intros _ s _ [? _].
Qed.

Lemma quiet_where_mono (Q Q' : Service -> Prop) {A} (p : program A) :
  lasting Q -> (forall s, Q s -> Q' s) -> quiet_where Q' p -> quiet_where Q p.
Proof using Type.
  intros [HQ HQs] Hqq Hp t P HP Hst. eapply guarded_pre; [by apply (Hp t P)|by apply stable_and|].
  intros s _ [? ?]. auto.
Qed.

Lemma quiet_where_class Q : lasting Q -> ProgClass (fun A => @quiet_where Q A).
Proof using Type.
  intros [HQ HQs]. split.
  - intros A a t P HP Hst. apply guarded_ret; [by apply stable_and|by intros s _ [? _]].
  - intros A B p k Hp Hk t P HP Hst. eapply guarded_bind; [|intros a; by apply (Hk a t P)].
    eapply guarded_pre; [apply (Hp t (fun s => P s /\ Q s)); [by apply calmly_and|by apply stable_and]|by apply stable_and|].
    intros s _ [? ?]. auto.
Qed.

Lemma quiet_where_put Q (f : Service -> Service) : lasting Q ->
  (forall s, Inv s -> Q s -> calm s (f s)) -> quiet_where Q (put f).
Proof using Type.
  intros [HQ HQs] Hf t P HP Hst. apply guarded_put; [by apply stable_and|done|].
  intros s Hi [Hs Hq]. pose proof (Hf s Hi Hq) as Hc.
  split; [by eapply calm_Inv|]. split; [by apply calm_guar|by eapply HP].
Qed.

(** A calm step whose result makes a lasting assertion true, then [k]. *)
Lemma quiet_step_where {A B} (f : Service -> option (A * Service)) (R : A -> Service -> Prop)
    (k : A -> program B) :
  (forall a, lasting (R a)) ->
  (forall s a s', Inv s -> f s = Some (a, s') -> calm s s' /\ R a s') ->
  (forall a, quiet_where (R a) (k a)) -> quiet (Atom f Ret ≫= k).
Proof using Type.
  intros HR Hf Hk t P HP Hst.
  eapply (guarded_bind _ _ _ _ _ _ (fun a s => P s /\ R a s)); [|intros a; by apply Hk].
  apply guarded_step; [done|intros a; apply stable_and; [done|apply HR]|].
  intros s a s' Hi Hs E. destruct (Hf s a s' Hi E) as [Hc Ha].
  split; [by eapply calm_Inv|]. split; [by apply calm_guar|]. split; [by eapply HP|done].
Qed.

(** The same with a result of which something is known. *)
Lemma quiet_step_pure {A B} (f : Service -> option (A * Service)) (R : A -> Prop)
    (k : A -> program B) :
  (forall s a s', Inv s -> f s = Some (a, s') -> calm s s' /\ R a) ->
  (forall a, R a -> quiet (k a)) -> quiet (Atom f Ret ≫= k).
Proof using Type.
  intros Hf Hk. apply (quiet_step_where f (fun a _ => R a)); [|done|].
  - intros a. by apply received_lasting.
  - intros a t P HP Hst. apply guarded_some. intros s _ [_ HR].
    apply quiet_anywhere; [by apply received_lasting|by apply Hk|done|done].
Qed.

Lemma quiet_atom {A} (f : Service -> A * Service) :
  (forall s, Inv s -> calm s (f s).2) -> quiet (atom f).
Proof using Type.
  intros Hf. apply quiet_step. intros s a s' Hi E. specialize (Hf s Hi).
  destruct (f s) as [a' s'']. by injection E as <- <-.
Qed.

Lemma quiet_get {A} (f : Service -> A) : quiet (get f).
Proof using Type. apply quiet_atom. intros. apply calm_refl. Qed.

Lemma quiet_put (f : Service -> Service) : (forall s, Inv s -> calm s (f s)) -> quiet (put f).
Proof using Type. intros Hf. by apply quiet_atom. Qed.

Lemma quiet_await b : quiet (await b).
Proof using Type.
  apply quiet_step. intros s a s' _ E. destruct (b s); [|done]. injection E as _ <-. apply calm_refl.
Qed.

Lemma quiet_if {A} (b : bool) (p q : program A) : quiet p -> quiet q -> quiet (if b then p else q).
Proof using Type. by destruct b. Qed.

(** * Calm steps *)

(** A step of the downloader that erases nothing and forgets no digest. *)
Definition keeps_world (w w' : World) : Prop :=
  (link_ok reliable good_chunk good_entry w -> link_ok reliable good_chunk good_entry w') /\
  keeps_archive w w' /\ erase_count w' = erase_count w.

Lemma calm_world s w : keeps_world (downloader_ s) w -> calm s (set_downloader w s).
Proof using Type.
  intros (Hl & Hk & He). split; simpl; auto; [|by unfold received].
  intros (Hi & Hin & Ha & Hq). split_and!; auto.
Qed.

Lemma calm_client f s : calm s (set_client f s).
Proof using Type. split; auto; by unfold received. Qed.

Lemma calm_monitor m s : calm s (set_monitor m s).
Proof using Type. split; auto; by unfold received. Qed.

Lemma calm_requested b s : calm s (set_requested b s).
Proof using Type. split; auto; by unfold received. Qed.

Lemma calm_disarm_time t s : calm s (set_disarm_time t s).
Proof using Type. split; auto; by unfold received. Qed.

Lemma calm_stop s : calm s (stop_running s).
Proof using Type. split; auto; by unfold received. Qed.

Lemma calm_terminate s : calm s (terminate s).
Proof using Type. split; auto; by unfold received. Qed.

Lemma calm_companion c s : calm s (set_companion c s).
Proof using Type. split; auto; by unfold received. Qed.

Lemma calm_setState x s : x <> EraseAll -> x <> ManualErase -> calm s (setState x s).
Proof using Type. split; auto; by unfold received. Qed.

Lemma calm_cycle c s : last_cycle_result_ c = last_cycle_result_ (cycle_ s) ->
  cached_fc_logs_ c = cached_fc_logs_ (cycle_ s) -> calm s (set_cycle c s).
Proof using Type. split; auto; by unfold received. Qed.

Lemma calm_trans s s' s'' : calm s s' -> calm s' s'' -> calm s s''.
Proof using Type.
  intros [] Hc. pose proof (calm_asked _ _ Hc) as Ha. destruct Hc.
  split; try congruence; try tauto; auto.
  - by eapply keeps_archive_trans.
  - unfold received in *. by etrans.
Qed.

Lemma calm_outside o s : sublist (inbox o) (inbox (outside s)) -> datagrams o `suffix_of` datagrams (outside s) ->
  calm s (set_outside o s).
Proof using Type.
  intros Hi Ha. split; simpl; auto. intros (Hl & Hin & Has & Hq). split_and!; simpl; auto.
  - rewrite Forall_forall in Hin |- *. intros m Hm. apply Hin. by eapply elem_of_submseteq, sublist_submseteq.
  - by etrans.
  - intros Hc. by apply (asked_mono s), Hq.
Qed.

(** ** The downloader's steps *)

Lemma no_erase_count w w' : no_erase_since (w_sent w) (w_sent w') -> erase_count w' = erase_count w.
Proof using Type.
  intros (l & Hs & Hl). unfold erase_count. rewrite Hs, filter_app, length_app.
  enough (filter (fun r => r.1 = LogErase) l = []) as -> by (simpl; lia).
  clear Hs. induction Hl as [|r l Hr Hl IH]; [done|]. by rewrite filter_cons_False.
Qed.

Abbreviation same_world w := (good_world reliable good_chunk good_entry
  (exactly (w_sent w) (w_db w) (w_storage w) (w_last_failure w))).

Lemma same_keeps w w' : (link_ok reliable good_chunk good_entry w -> same_world w w') ->
  link_ok reliable good_chunk good_entry w -> keeps_world w w'.
Proof using Type.
  intros Hs Hl. destruct (Hs Hl) as (Hk & Hsh & Hdb & Hst & _ & Hsent).
  split; [done|]. split; [apply keeps_archive_same; [by rewrite Hdb|done]|]. by apply no_erase_count.
Qed.

Lemma atomic_world {A} (f : World -> A * World) w :
  (forall db st last sent, keeps reliable good_chunk good_entry (exactly sent db st last) f) ->
  link_ok reliable good_chunk good_entry w -> keeps_world w (f w).2.
Proof using Type. intros Hf Hl. apply same_keeps; [|done]. intros _. exact (proj1 (Hf _ _ _ _ w (link_world _ _ _ w Hl))). Qed.

Lemma Inv_link s : Inv s -> link_ok reliable good_chunk good_entry (downloader_ s).
Proof using Type. by intros ((Hl & _) & _). Qed.

(** A long operation that is enough fuel for: it returns, and what it returns
    satisfies its triple. *)
Lemma call_world {A} s (m : M World A) (Q : A -> World -> Prop) o s' :
  spec False (same_world (downloader_ s)) m Q -> Inv s ->
  (let '(a, w) := (let '(o, w') := m (downloader_ s) in
                   (match o with Ok a => Some a | _ => None end, w')) in (a, set_downloader w s)) = (o, s') ->
  exists a, o = Some a /\ Q a (downloader_ s') /\ s' = set_downloader (downloader_ s') s.
Proof using Type.
  intros Hm Hi E. specialize (Hm _ (link_world _ _ _ _ (Inv_link s Hi))).
  destruct (m (downloader_ s)) as [[a|e|] w']; try done. injection E as <- <-. by exists a.
Qed.

Lemma set_downloader_calm s w : link_ok reliable good_chunk good_entry (downloader_ s) ->
  (link_ok reliable good_chunk good_entry (downloader_ s) -> same_world (downloader_ s) w) ->
  calm s (set_downloader w s).
Proof using Type. intros Hl Hw. by apply calm_world, same_keeps. Qed.

(** * The operations that are calm *)

Lemma quiet_downloader (f : World -> World) :
  (forall w, link_ok reliable good_chunk good_entry w -> keeps_world w (f w)) ->
  quiet (put (on_downloader f)).
Proof using Type. intros Hf. apply quiet_put. intros s Hi. by apply calm_world, Hf, Inv_link. Qed.

Lemma shared_world w sh : sh_chunks sh = sh_chunks (w_shared w) -> sh_pending sh = sh_pending (w_shared w) ->
  keeps_world w (set_shared sh w).
Proof using Type.
  intros Hc Hp. split; [|by split]. intros [Hs [Hch He]]. split; [done|]. split; simpl; congruence.
Qed.

Lemma quiet_cancel : quiet requestDownloaderCancel.
Proof using Type. apply quiet_downloader. intros w _. by apply shared_world. Qed.

Lemma quiet_reset : quiet resetDownloaderCancel.
Proof using Type. apply quiet_downloader. intros w _. by apply shared_world. Qed.

Lemma quiet_sleep d : quiet (sleep d).
Proof using Type. by apply quiet_downloader. Qed.

Lemma quiet_state x : x <> EraseAll -> x <> ManualErase -> quiet (put (setState x)).
Proof using Type. intros. apply quiet_put. intros. by apply calm_setState. Qed.

(** Walk through a program, step by step. *)
Ltac quietly := repeat first
  [ apply quiet_ret
  | apply quiet_get
  | apply quiet_await
  | apply quiet_cancel
  | apply quiet_reset
  | apply quiet_sleep
  | apply quiet_state; done
  | apply quiet_put; intros ? _; first [ apply calm_client | apply calm_requested
      | apply calm_disarm_time | apply calm_companion | by apply calm_cycle ]
  | assumption
  | match goal with
    | |- quiet (_ ≫= _) => apply quiet_bind; [|intros ?]
    | |- quiet (if ?b then _ else _) => destruct b
    | |- quiet (match ?x with _ => _ end) => destruct x
    end ].

Lemma quiet_disconnect here : quiet (disconnect here).
Proof using Type.
  unfold disconnect, join_receiver. assert (quiet (put terminate)) by (apply quiet_put; intros s _; apply calm_terminate).
  quietly.
Qed.

Lemma quiet_transport_connect : quiet transport_connect.
Proof using Type.
  apply quiet_atom. intros s _. apply calm_outside; reflexivity.
Qed.

Lemma quiet_connect : quiet connect.
Proof using Type.
  unfold connect. pose proof (quiet_disconnect false). pose proof quiet_transport_connect. quietly.
Qed.

Lemma quiet_wait_polls polls : forall deadline, quiet (wait_polls heartbeat_timeout_sec polls deadline).
Proof using Type.
  induction polls as [|polls IH]; intros deadline; cbn [wait_polls];
    unfold steady_clock, heartbeatFresh_; quietly. apply IH.
Qed.

Lemma quiet_waitForHeartbeat d : quiet (waitForHeartbeat heartbeat_timeout_sec d).
Proof using Type. unfold waitForHeartbeat, steady_clock. quietly. apply quiet_wait_polls. Qed.

Lemma quiet_reconnect : quiet (reconnect heartbeat_timeout_sec).
Proof using Type.
  unfold reconnect. pose proof quiet_connect. quietly. apply quiet_waitForHeartbeat.
Qed.

Lemma quiet_connection_lost here : quiet (handleConnectionLost here).
Proof using Type. unfold handleConnectionLost, currentState. pose proof (quiet_disconnect here). quietly. Qed.

Lemma quiet_flight_event e : quiet (onFlightEvent e).
Proof using Type.
  unfold onFlightEvent, currentState, steady_clock. pose proof (quiet_connection_lost true). quietly.
Qed.

Lemma quiet_flight_events es : quiet (onFlightEvents es).
Proof using Type.
  induction es as [|e es IH]; cbn [onFlightEvents]; quietly. apply quiet_flight_event.
Qed.

Lemma quiet_monitor_call f : quiet (monitor_call f).
Proof using Type.
  unfold monitor_call. apply quiet_bind; [|apply quiet_flight_events].
  apply quiet_atom. intros s _. destruct (f (monitor_ s)). apply calm_monitor.
Qed.

Lemma quiet_message m : good_inbound (Parsed m) -> quiet (onMavlinkMessage settings heartbeat_timeout_sec m).
Proof using Type.
  intros Hm. unfold onMavlinkMessage, heartbeatFresh_. pose proof quiet_monitor_call.
  apply quiet_bind; [|intros u; quietly; auto]. destruct m as [f|i mode]; [|auto].
  apply quiet_downloader. intros w _. split; [|by split]. intros [Hs Hsh]. split; [done|].
  refine (run_events_good settings _ _ [Receive f] _ _ Hsh). by constructor.
Qed.

Lemma quiet_rx_turn : quiet (rx_turn settings heartbeat_timeout_sec).
Proof using Type.
  unfold rx_turn. apply quiet_bind; [apply quiet_await|]. intros u.
  apply quiet_bind; [apply quiet_get|]. intros []; cbn [negb]; [|quietly]. unfold read_message.
  apply (quiet_step_pure _ (fun m => match m with Some m => good_inbound (Parsed m) | None => True end)).
  - intros s a s' Hi E. pose proof Hi as ((_ & Hin & _) & _).
    destruct (cl_transport (client_ s)); [|injection E as <- <-; split; [apply calm_refl|done]].
    destruct (inbox (outside s)) as [|[m|] rest] eqn:Ei; [done|..]; injection E as <- <-;
      apply Forall_cons in Hin as [Hm _]; (split; [|done]).
    + apply calm_outside; simpl; [|done]. rewrite Ei. by constructor.
    + eapply calm_trans; [|apply calm_client]. apply calm_outside; simpl; [|done]. rewrite Ei. by constructor.
  - intros [m|] Hm; quietly. by apply quiet_message.
Qed.

(** A queued command: an erase only if it was asked for. *)
Lemma calm_push cmd s : (cmd = EraseAllLogsCommand -> asked s) ->
  calm s (set_commands (companion_commands_ s ++ [cmd]) s).
Proof using Type.
  intros Hcmd. split; simpl; auto; [|by unfold received]. intros (Hl & Hin & Ha & Hq).
  split_and!; try done. simpl. intros [Hc|Hc%list_elem_of_singleton]%elem_of_app; [by apply Hq|by apply Hcmd].
Qed.

Lemma quiet_push cmd : cmd <> EraseAllLogsCommand -> quiet (push cmd).
Proof using Type. intros Hne. apply quiet_put. intros s _. by apply calm_push. Qed.

Lemma quiet_job kind ids all : kind <> JobEraseAll -> quiet (requestCompanionJob kind ids all).
Proof using Type.
  intros Hk. unfold requestCompanionJob, currentState, isConnected_. pose proof quiet_push.
  apply quiet_bind; [apply quiet_get|]. intros state. rewrite decide_False by done. quietly; auto.
Qed.

(** A job that erases, where it was asked for. *)
Lemma asked_erase_job ids all : quiet_where asked (requestCompanionJob JobEraseAll ids all).
Proof using Type.
  unfold requestCompanionJob, currentState, isConnected_.
  pose proof (quiet_where_class asked asked_lasting) as Hclass.
  assert (forall A (p : program A), quiet p -> quiet_where asked p) as Hq
    by (intros A p; apply quiet_anywhere, asked_lasting).
  apply (ok_bind (ok := fun A => @quiet_where asked A)); [apply Hq, quiet_get|]. intros state.
  rewrite decide_True by done.
  apply (ok_bind (ok := fun A => @quiet_where asked A)); [apply Hq, quiet_get|]. intros connected.
  destruct connected; cbn [negb]; [|apply Hq, quiet_ret].
  apply (ok_bind (ok := fun A => @quiet_where asked A)); [apply Hq; quietly|]. intros u.
  apply (ok_bind (ok := fun A => @quiet_where asked A)); [|intros u'; apply Hq, quiet_ret].
  apply quiet_where_put; [apply asked_lasting|]. intros s _ Ha. by apply calm_push.
Qed.

#[local] Instance quiet_class : ProgClass (@quiet).
Proof using Type. split; intros; [by apply quiet_ret|by apply quiet_bind]. Qed.

Lemma quiet_recorder {A} (f : OsView -> Recorder -> A * Recorder) : quiet (on_recorder f).
Proof using Type.
  apply quiet_atom. intros s _. cbv zeta. match goal with |- context [f ?v ?r] => destruct (f v r) as [a r'] end.
  eapply calm_trans; [|apply calm_companion]. by apply calm_outside.
Qed.

Lemma quiet_snapshot : quiet (buildSnapshot recording heartbeat_timeout_sec).
Proof using Type.
  unfold buildSnapshot, currentState, isConnected_, heartbeatFresh_.
  repeat (apply quiet_bind; [first [apply quiet_get|apply quiet_recorder]|]; intros ?). apply quiet_ret.
Qed.

Lemma quiet_send text : quiet (send_answer text).
Proof using Type.
  apply quiet_atom. intros s _. eapply calm_trans; [|apply calm_companion]. by apply calm_outside.
Qed.

Lemma quiet_request text : quiet_where (fun s => asks_erase text -> asked s)
  (handleRequest companion (companion_callbacks recording heartbeat_timeout_sec)
     (String.substring 0 kMaxDatagram text)).
Proof using Type.
  set (Q := fun s => asks_erase text -> asked s). assert (lasting Q) as HQ by apply asked_if_lasting.
  pose proof (quiet_where_class Q HQ) as Hclass.
  assert (forall A (p : program A), quiet p -> quiet_where Q p) as Hq by (intros A p; by apply quiet_anywhere).
  apply (handleRequest_ok _ _ (fun A => @quiet_where Q A)).
  - apply Hq, quiet_snapshot.
  - intros o l. apply Hq, quiet_get.
  - intros answer. apply Hq, quiet_send.
  - intros req Hreq Hauth. unfold permitted. simpl. split_and!; intros Hop; intros;
      try (by apply Hq, quiet_job); simplify_eq; try apply Hq, quiet_recorder.
    + apply (quiet_where_mono Q asked); [done| |apply asked_erase_job]. intros s Ha. apply Ha. by exists req.
    + split; [intros ? [= <-]; apply Hq, quiet_cancel|by apply Hq, quiet_push].
Qed.

(** What is known of a datagram that came. *)
Definition came (d : Received) (s : Service) : Prop :=
  match d with Datagram text => asks_erase text -> asked s | RecvError => True end.

Lemma came_lasting d : lasting (came d).
Proof using Type. destruct d as [text|]; [apply asked_if_lasting|by apply received_lasting]. Qed.

Lemma quiet_companion : quiet (companion_turn companion recording heartbeat_timeout_sec).
Proof using Type.
  unfold companion_turn, server_turn. apply quiet_bind; [apply quiet_await|]. intros _.
  apply quiet_bind; [|intros []; [apply quiet_ret|apply quiet_put; intros s _; apply calm_companion]].
  apply quiet_bind; [apply quiet_get|]. intros []; cbn [negb]; [|apply quiet_ret]. unfold recvfrom.
  apply (quiet_step_where _ came); [apply came_lasting| |].
  - intros s d s' Hi E. pose proof Hi as ((_ & _ & Hg & _) & _).
    destruct (sv_socket _); [|injection E as <- <-; split; [apply calm_refl|done]].
    destruct (datagrams (outside s)) as [|d' rest] eqn:Ed; [done|]. injection E as <- <-. split.
    + apply calm_outside; simpl; [done|]. rewrite Ed. by exists [d'].
    + destruct d' as [text|]; [|done]. intros Ha. destruct Hg as [pre Hg].
      exists (pre ++ [Datagram text]), text. rewrite <- app_assoc. split_and!; [done| |done].
      apply elem_of_app. right. by apply list_elem_of_singleton.
  - intros [text|]; [|apply quiet_anywhere; [apply came_lasting|apply quiet_ret]].
    case_bool; [apply quiet_anywhere; [apply came_lasting|apply quiet_ret]|]. apply quiet_request.
Qed.

Lemma quiet_time : quiet time_turn.
Proof using Type.
  apply quiet_step. intros s a s' Hi E. cbv zeta in E. destruct (delays (outside s)) as [|d rest]; [done|].
  injection E as <- <-. refine (calm_trans _ _ _ (calm_outside _ s _ _) (calm_world _ _ _)); [reflexivity..|by split].
Qed.

Lemma quiet_signal : quiet signal_turn.
Proof using Type.
  apply quiet_step. intros s a s' Hi E. cbv zeta in E. destruct (signals (outside s)) as [|n]; [done|].
  injection E as <- <-. refine (calm_trans _ _ _ (calm_outside _ s _ _) (calm_stop _)); reflexivity.
Qed.

Lemma quiet_outcome r : quiet (evaluateArchiveOutcome settings heartbeat_timeout_sec r).
Proof using Type.
  unfold evaluateArchiveOutcome. pose proof (quiet_disconnect false). pose proof quiet_connect.
  pose proof (quiet_waitForHeartbeat (seconds 5)). quietly.
Qed.

Lemma quiet_idle : quiet returnToIdleState.
Proof using Type.
  unfold returnToIdleState. apply quiet_bind; [apply quiet_get|]. intros []; by apply quiet_state.
Qed.

Lemma quiet_command cmd : quiet_where (fun s => cmd = EraseAllLogsCommand -> asked s) (handle_command cmd).
Proof using Type.
  pose proof (asked_if_lasting (cmd = EraseAllLogsCommand)) as HQ.
  pose proof (quiet_where_class _ HQ) as Hclass.
  unfold handle_command, currentState, isConnected_.
  destruct cmd; try (by apply quiet_anywhere; [exact HQ|quietly]).
  refine (ok_bind (ok := fun A => @quiet_where _ A) _ _ _ _ _ _); [apply quiet_anywhere; [exact HQ|apply quiet_reset]|].
  intros u. apply quiet_where_put; [exact HQ|]. intros s _ Ha.
  split; simpl; auto; by unfold received.
Qed.

Lemma pop_calm s c s' : Inv s ->
  Some (match companion_commands_ s with
        | [] => (None, s)
        | cmd :: rest => (Some cmd, set_commands rest s)
        end) = Some (c, s') ->
  calm s s' /\ (c = Some EraseAllLogsCommand -> asked s').
Proof using Type.
  intros ((_ & _ & _ & Hq) & _) E.
  destruct (companion_commands_ s) as [|cmd rest] eqn:Ec; injection E as <- <-; (split; [|]); try done.
  - apply calm_refl.
  - split; simpl; auto; [|by unfold received]. intros (Hl & Hin & Ha & _). split_and!; try done. simpl.
    intros Hc. apply Hq. by right.
  - intros [= ->]. apply Hq. by left.
Qed.

(** * The archive cycle *)

Context (Hprobe : 0 <= probe_bytes settings < 2 ^ 31).
Context (Hfuel : cycle_fuel settings < Z.of_nat fuel).
Context (Hwf : forall c, good_chunk c -> chunk_wf c) (Hentry : forall e, good_entry e -> entry_ok e).

(** The main thread is not about to erase. *)
Definition not_erasing (s : Service) : Prop := state_ s <> EraseAll.

(** The logs listed last. *)
Definition listed (logs : list LogEntry) (s : Service) : Prop :=
  Forall good_entry logs /\ not_erasing s /\ cached_fc_logs_ (cycle_ s) = logs.

(** [logs] were archived with the result [r], the last one. *)
Definition cycled (logs : list LogEntry) (r : ArchiveCycleResult) (s : Service) : Prop :=
  last_cycle_result_ (cycle_ s) = r /\
  (cy_all_archived r = true -> archived_all logs (downloader_ s)).

Lemma calmly_not_erasing : calmly not_erasing.
Proof using Type. intros s s' _ Hs Hc Hx. by apply Hs, (calm_erase _ _ Hc). Qed.

Lemma calmly_listed logs : calmly (listed logs).
Proof using Type.
  intros s s' Hi (Ho & Hn & Hl) Hc. split; [done|]. split; [by eapply calmly_not_erasing|].
  by rewrite (calm_cache _ _ Hc).
Qed.

Lemma calmly_cycled logs r : calmly (cycled logs r).
Proof using Type.
  intros s s' Hi (Hr & Hs) Hc. split; [by rewrite (calm_result _ _ Hc)|].
  intros Ha. eapply archived_all_mono; [apply (calm_archive _ _ Hc)|auto].
Qed.

Lemma calmly_pure (R : Prop) : calmly (fun _ => R).
Proof using Type. by intros ?. Qed.

Lemma calmly_cleared : calmly cleared.
Proof using Type. intros s s' _ Hs Hc. by eapply calm_cleared. Qed.

Local Abbreviation main P p Q := (guarded Inv (Rely Main) (Guar Main) P p Q).

Lemma main_put P Q f : calmly P -> calmly Q ->
  (forall s, outside (f s) = outside s) ->
  (forall s, Inv s -> P s -> Inv (f s) /\ erase_count (downloader_ (f s)) = erase_count (downloader_ s) /\ Q (f s)) ->
  main P (put f) (fun _ => Q).
Proof using Type.
  intros HP HQ Ho Hf. apply guarded_put; try by apply calmly_stable.
  intros s Hi Hs. destruct (Hf s Hi Hs) as (Hi' & He & Hq). split; [done|]. split; [|done].
  split; [congruence|]. unfold received. by rewrite Ho.
Qed.

Lemma main_quiet {A} P (p : program A) : quiet p -> calmly P -> main P p (fun _ => P).
Proof using Type. intros Hp HP. apply Hp; [done|]. by apply calmly_stable. Qed.

(** A quiet program, then [k]. *)
Lemma main_then {A B} P (p : program A) (k : A -> program B) Q :
  quiet p -> calmly P -> (forall a, main P (k a) Q) -> main P (p ≫= k) Q.
Proof using Type. intros Hp HP Hk. eapply guarded_bind; [by apply main_quiet|done]. Qed.

(** A long operation of the downloader. *)
Lemma main_call_long {A} P (m : M World A) (R : A -> Service -> Prop) (k : option A -> program Next) Q
    (post : World -> A -> World -> Prop) :
  calmly P -> (forall a, calmly (R a)) ->
  (forall s, Inv s -> P s -> spec False (same_world (downloader_ s)) m (post (downloader_ s))) ->
  (forall s a w, Inv s -> P s -> post (downloader_ s) a w ->
     Inv (set_downloader w s) /\ erase_count w = erase_count (downloader_ s) /\
     R a (set_downloader w s)) ->
  (forall a, main (R a) (k (Some a)) Q) ->
  main P (call_long m ≫= k) Q.
Proof using Type.
  intros HP HR Hm Hpost Hk.
  eapply (guarded_bind _ _ _ _ _ _ (fun o s => exists a, o = Some a /\ R a s)).
  - apply guarded_step; [by apply calmly_stable| |].
    + intros o. apply calmly_stable. intros s s' Hi (a & Ho & Ha) Hc. exists a. split; [done|]. by eapply HR.
    + intros s o s' Hi Hs E. injection E as E.
      assert (Hx := call_world s m (post (downloader_ s)) o s' (Hm s Hi Hs) Hi).
      destruct Hx as (a & -> & Ha & ->); [by destruct (m (downloader_ s)) as [o' w']|].
      cbn [downloader_ set_downloader] in Ha. destruct (Hpost s a _ Hi Hs Ha) as (Hi' & He & HRa).
      split; [done|]. split; [|by exists a]. split; [by intros Hne|by unfold received].
  - intros o. apply guarded_some. intros s Hi (a & -> & Ha).
    eapply guarded_pre; [apply (Hk a)| |by intros s' _ (a' & [= ->] & Ha')].
    apply calmly_stable. intros s1 s2 Hi1 (a' & [= ->] & Ha') Hc. exists a'. split; [done|]. by eapply HR.
Qed.

(** While the main thread is not about to erase, the downloader may change all. *)
Lemma Inv_downloader s w : Inv s -> not_erasing s -> link_ok reliable good_chunk good_entry w ->
  Inv (set_downloader w s).
Proof using Type.
  intros ((_ & Hin & Ha & Hq) & He & Hm) Hn Hl. split; [by split_and!|].
  split; [by intros ?%Hn|exact Hm].
Qed.

(** What an enumeration lists and leaves. *)
Lemma enumerate_entries w : spec False (same_world w) (enumerateLogs settings fuel)
  (fun logs w' => Forall good_entry logs /\ same_world w w').
Proof using Hfuel.
  intros w0 Hw0.
  pose proof (enumerateLogs_spec settings reliable good_chunk good_entry (w_sent w) False (w_db w) (w_storage w)
    (w_last_failure w) fuel (w_now w0)
    ltac:(right; unfold cycle_fuel, settle_fuel, timeout_ns, seconds in *; nia) w0
    (conj Hw0 (Z.le_refl _))) as Hspec.
  destruct (enumerateLogs settings fuel w0) as [[logs|e|] w']; try done.
  destruct Hspec as [(entries & He & ->) [Hw' _]]. split; [|done].
  rewrite Forall_forall in He |- *. intros e Hin. apply He.
  destruct (unique_ids_spec (sort_list id_leb entries)) as (_ & Hsub & _).
  { apply sort_list_sorted; unfold id_leb; intros; zb; lia. }
  apply Hsub in Hin. by rewrite sort_list_perm in Hin.
Qed.

(** Enumeration: its result is cached, and [k] runs with it. *)
Lemma main_with_logs k (Q : Next -> Service -> Prop) :
  (forall logs, main (listed logs) (k logs) Q) -> main not_erasing (with_logs settings fuel k) Q.
Proof using Hfuel.
  intros Hk. unfold with_logs.
  eapply (main_call_long _ _ (fun logs s => Forall good_entry logs /\ not_erasing s) _ _
    (fun w logs w' => Forall good_entry logs /\ same_world w w')).
  - apply calmly_not_erasing.
  - intros logs. apply calmly_and; [apply calmly_pure|apply calmly_not_erasing].
  - intros s Hi _. apply enumerate_entries.
  - intros s logs w Hi Hn [Ho Hw]. pose proof Hw as (Hk' & Hsh & _ & _ & _ & Hsent).
    split; [by apply Inv_downloader|]. split; [by apply no_erase_count|done].
  - intros logs. eapply guarded_bind; [|intros u; apply Hk].
    apply main_put; [apply calmly_and; [apply calmly_pure|apply calmly_not_erasing]|apply calmly_listed|done|].
    intros s (Hi & He & Hm) [Ho Hn]. split; [|split; [done|by split]].
    split; [exact Hi|]. split; [by intros ?|exact Hm].
Qed.

Lemma calmly_archived (A : Prop) logs : calmly (fun s => A -> archived_all logs (downloader_ s)).
Proof using Type.
  intros s s' _ Hs Hc HA. eapply archived_all_mono; [apply (calm_archive _ _ Hc)|auto].
Qed.

(** A cycle that reports all its logs as archived has archived them. *)
Lemma all_done_archived s logs r w :
  Forall good_entry logs ->
  all_done settings reliable good_chunk good_entry (w_sent (downloader_ s)) (w_db (downloader_ s))
    (w_storage (downloader_ s)) logs r w ->
  cy_all_archived r = true -> archived_all logs w.
Proof using Type.
  intros Hlogs (rs & db' & st' & last' & (Hrun & _ & Ha & Hlen & _) & (_ & _ & Hdb & Hst & _)) Hall.
  rewrite Ha in Hall. split; [done|]. exists (w_sent (downloader_ s)), (w_db (downloader_ s)), (w_storage (downloader_ s)), rs, db', st'.
  split_and!; [|done|by rewrite Hdb|by rewrite Hst]. destruct Hlen as [Hlen|Hlast].
  - by rewrite Hlen, firstn_all in Hrun.
  - apply last_Some in Hlast as [l ->]. rewrite forallb_app in Hall. simpl in Hall.
    by rewrite andb_false_r in Hall.
Qed.

(** A cycle: its result is kept, and [k] runs with it. *)
Lemma main_with_result logs selected k (Q : Next -> Service -> Prop) :
  Forall good_entry selected ->
  (forall r, main (fun s => listed logs s /\ cycled selected r s) (k r) Q) ->
  main (listed logs) (with_result settings fuel selected k) Q.
Proof using Hentry Hfuel Hprobe Hwf.
  intros Hsel Hk. unfold with_result.
  assert (forall r, calmly (fun s => listed logs s /\
    (cy_all_archived r = true -> archived_all selected (downloader_ s)))) as Hcalm
    by (intros r; apply calmly_and; [apply calmly_listed|apply calmly_archived]).
  eapply (main_call_long _ _ (fun r s => listed logs s /\
      (cy_all_archived r = true -> archived_all selected (downloader_ s))) _ _
    (fun w r w' => all_done settings reliable good_chunk good_entry (w_sent w) (w_db w) (w_storage w) selected r w')).
  - apply calmly_listed.
  - exact Hcalm.
  - intros s Hi _. apply archiveAll_spec; [done|done| |by right]. by eapply Forall_impl.
  - intros s r w Hi Hl Hdone. pose proof Hl as (_ & Hn & _).
    pose proof Hdone as (rs & db' & st' & last' & _ & (Hk' & Hsh & _ & _ & _ & Hsent)).
    split; [by apply Inv_downloader|]. split; [by apply no_erase_count|].
    split; [exact Hl|]. by eapply all_done_archived.
  - intros r. eapply guarded_bind; [|intros u; apply Hk].
    apply main_put; [apply Hcalm|apply calmly_and; [apply calmly_listed|apply calmly_cycled]|done|].
    intros s (Hi & He & Hm) [Hl Hs]. pose proof Hl as (_ & Hn & _).
    split; [|split; [done|by split]]. split; [exact Hi|]. split; [by intros ?|exact Hm].
Qed.

(** * The programs of the main thread *)

Definition label (t : Thread) (n : Next) : Prop :=
  match t, n with
  | Main, (NextTop | NextDrain | NextProcess | NextDestroy | NextStopped) => True
  | Receiver, NextReceive | Companion, NextCompanion | Time, NextTime | Signal, NextSignal => True
  | _, _ => False
  end.

Definition entry (t : Thread) (n : Next) (s : Service) : Prop := label t n.

Lemma main_turn_ends P : calmly P -> main P turn_ends (entry Main).
Proof using Type.
  intros HP. unfold turn_ends. apply main_then; [apply quiet_sleep|done|]. intros u.
  apply guarded_ret; [by apply calmly_stable|done].
Qed.

(** Forget the assertion. *)
Lemma main_any {A} P (p : program A) Q : main (fun _ => True) p Q -> calmly P -> main P p Q.
Proof using Type. intros Hp HP. eapply guarded_pre; [exact Hp|by apply calmly_stable|done]. Qed.

(** A quiet program and the end of the turn. *)
Lemma main_turn {A} P (p : program A) : quiet p -> calmly P -> main P (p;; turn_ends) (entry Main).
Proof using Type. intros Hp HP. apply main_then; [done|done|]. intros u. by apply main_turn_ends. Qed.

Lemma erase_world w : link_ok reliable good_chunk good_entry w ->
  link_ok reliable good_chunk good_entry (eraseFlightControllerLogs settings w).2 /\
  keeps_archive w (eraseFlightControllerLogs settings w).2.
Proof using Type.
  intros [Hs Hsh]. unfold eraseFlightControllerLogs, sendMessage, atomic.
  destruct (interfere_good settings reliable good_chunk good_entry
    (fun db st _ _ => db = w_db w /\ st = w_storage w) w) as [(Hs' & Hsh' & Hdb & Hst) _]; [done|].
  destruct (interfere settings w) as [k w']. cbn [snd] in *.
  destruct (k_send_ok k); cbn [snd]; (split; [done|]); [|by apply keeps_archive_same; simpl; rewrite ?Hdb].
  split; [|simpl; by rewrite Hst]. unfold log_sent. simpl. rewrite Hdb.
  intros sha Hsha. by rewrite lookup_fmap, fmap_is_Some.
Qed.

(** The erase, when it is allowed. *)
Lemma main_erase P :
  (forall s w, Inv s -> P s ->
     keeps_archive (downloader_ s) w -> P (set_downloader w s)) ->
  calmly P -> (forall s, Inv s -> P s -> cleared s \/ asked s) ->
  main P (call (eraseFlightControllerLogs settings)) (fun _ => P).
Proof using Type.
  intros HPe HP Hj. apply guarded_atom; [by apply calmly_stable|intros a; by apply calmly_stable|].
  intros s Hi Hs. pose proof (erase_world _ (Inv_link s Hi)) as [Hl Hk].
  pose proof Hi as ((Hl0 & Hin & Ha & Hq) & He & Hm).
  destruct (eraseFlightControllerLogs settings (downloader_ s)) as [ok w]. cbn [fst snd] in *.
  split; [|split].
  - split; [by split_and!|]. split; [|done]. intros Hst. destruct (He Hst) as (H1 & H2 & H3 & H4 & H5).
    split_and!; try done. by eapply archived_all_mono.
  - split; [intros _; by apply Hj|by unfold received].
  - by apply HPe.
Qed.

(** What the main thread knows of the state it read. *)
Definition knows (st : State) (s : Service) : Prop :=
  (st = EraseAll -> cleared s) /\ (st <> EraseAll -> not_erasing s) /\ (st = ManualErase -> asked s).

Lemma calmly_knows st : calmly (knows st).
Proof using Type.
  intros s s' Hi (Hj & Hn & Hm) Hc. split_and!; [|intros Hne|intros Hst; by apply (calm_asked s), Hm].
  - intros ->. eapply calm_cleared; [exact Hc|by apply Hj].
  - eapply calmly_not_erasing; [exact Hi|by apply Hn|exact Hc].
Qed.

Lemma main_read_state : main (fun _ => True) currentState knows.
Proof using Type.
  apply guarded_atom; [by apply calmly_stable|intros st; apply calmly_stable, calmly_knows|].
  intros s (Hi & He & Hm) _. split; [done|]. split; [by apply (calm_guar Main), calm_refl|].
  split; [exact He|]. by split.
Qed.

(** From a read state on, with less knowledge. *)
Lemma main_knows {A} st (P : Service -> Prop) (p : program A) Q :
  calmly P -> (forall s, knows st s -> P s) -> main P p Q -> main (knows st) p Q.
Proof using Type.
  intros HP Hk Hp. eapply guarded_pre; [exact Hp|apply calmly_stable, calmly_knows|]. auto.
Qed.

(** Entering [EraseAll] needs a cycle that justifies it. *)
Lemma main_decide logs r :
  main (fun s => listed logs s /\ cycled logs r s)
    ((if negb (0 <? cy_cancelled r) && cy_all_archived r && erase_after_success settings &&
         negb (bool_decide (logs = []))
      then put (setState EraseAll) else put (setState Cleanup));; turn_ends) (entry Main).
Proof using Type.
  assert (calmly (fun s => listed logs s /\ cycled logs r s)) as Hcalm
    by (apply calmly_and; [apply calmly_listed|apply calmly_cycled]).
  match goal with |- context [if ?b then _ else _] => destruct b eqn:E end;
    [|apply main_turn; [by apply quiet_state|done]].
  rewrite !andb_true_iff in E. destruct E as (((Hc & Hall) & Her) & Hne). rewrite negb_true_iff, bool_decide_eq_false in Hne.
  rewrite negb_true_iff, Z.ltb_ge in Hc.
  eapply guarded_bind; [|intros u; by apply (main_turn_ends (fun _ => True))].
  apply main_put; [exact Hcalm|done|done|]. intros s (Hi & He & Hm) [(Ho & Hn & Hl) [Hr Hs]].
  split; [|done]. split; [exact Hi|]. split; [|done]. intros _. unfold cleared. simpl.
  rewrite Hl, Hr. split_and!; try done. by apply Hs.
Qed.

Lemma main_erase_all : main cleared
  (cancelled ← call (ld_cancelled settings);
   if (cancelled : bool) then put (setState Cleanup);; turn_ends
   else call (eraseFlightControllerLogs settings);; put (setState Cleanup);; turn_ends) (entry Main).
Proof using Type.
  apply main_then; [|apply calmly_cleared|].
  { apply quiet_atom. intros s Hi. destruct (ld_cancelled settings (downloader_ s)) as [b w] eqn:E.
    apply calm_world. pose proof (atomic_world (ld_cancelled settings) (downloader_ s)
      (fun db st last sent => read_op settings reliable _ _ sent db st last (fun w => sh_cancel (w_shared w)))
      (Inv_link s Hi)) as Hw. by rewrite E in Hw. }
  intros []; [apply main_turn; [by apply quiet_state|apply calmly_cleared]|].
  eapply guarded_bind; [apply main_erase; [|apply calmly_cleared|by left]|].
  - intros s w _ (H1 & H2 & H3 & H4 & H5) Hk. split_and!; try done.
    by eapply archived_all_mono.
  - intros ok. apply main_turn; [by apply quiet_state|apply calmly_cleared].
Qed.

Lemma main_manual_erase : main (fun s => not_erasing s /\ asked s)
  (resetDownloaderCancel;; call (eraseFlightControllerLogs settings);; cacheEnumerationResult [];;
   returnToIdleState;; turn_ends) (entry Main).
Proof using Type.
  assert (calmly (fun s => not_erasing s /\ asked s)) as Hcalm
    by (apply calmly_and; [apply calmly_not_erasing|apply asked_lasting]).
  apply main_then; [apply quiet_reset|done|]. intros u.
  eapply guarded_bind; [apply main_erase; [done|done|intros s _ [_ ?]; by right]|]. intros ok.
  eapply guarded_bind; [|intros u'; by apply (main_turn (fun _ => True)); [apply quiet_idle|]].
  apply main_put; [done..|]. intros s (Hi & He & Hm) [Hn _].
  split; [|done]. split; [exact Hi|]. split; [by intros ?|exact Hm].
Qed.

Lemma main_manual_download : main not_erasing
  (with_logs settings fuel (fun logs =>
     selected ← get (fun s => selected_logs (manual_download_all_ (cycle_ s))
                                (manual_download_ids_ (cycle_ s)) logs);
     with_result settings fuel selected (fun _ =>
       put (fun s => set_cycle (set_manual [] false (cycle_ s)) s);;
       put (setState Cleanup);;
       turn_ends))) (entry Main).
Proof using Hentry Hfuel Hprobe Hwf.
  apply main_with_logs. intros logs.
  eapply (guarded_bind _ _ _ _ _ _ (fun selected s => Forall good_entry selected /\ listed logs s)).
  - apply guarded_atom; [apply calmly_stable, calmly_listed| |].
    + intros sel. apply calmly_stable, calmly_and; [apply calmly_pure|apply calmly_listed].
    + intros s Hi Hl. split; [done|]. split; [by apply (calm_guar Main), calm_refl|]. split; [|done].
      destruct Hl as (Ho & _). cbn [fst]. unfold selected_logs. case_bool; [done|].
      by apply Forall_filter_weaken.
  - intros selected. apply guarded_pure. intros Hsel. apply main_with_result; [done|]. intros r.
    assert (calmly (fun s => listed logs s /\ cycled selected r s)) as Hcalm
      by (apply calmly_and; [apply calmly_listed|apply calmly_cycled]).
    apply main_then; [apply quiet_put; intros s _; by apply calm_cycle|done|]. intros u.
    apply main_turn; [by apply quiet_state|done].
Qed.

(** Files are evicted only while no erase is near. *)
Lemma main_cleanup : main not_erasing (put (on_downloader cleanup_storage)) (fun _ => not_erasing).
Proof using Type.
  apply main_put; [apply calmly_not_erasing..|done|]. intros s Hi Hn.
  split; [|done]. apply Inv_downloader; [done..|]. exact (Inv_link s Hi).
Qed.

Lemma main_process : main (fun _ => True) (processState settings heartbeat_timeout_sec fuel) (entry Main).
Proof using Hentry Hfuel Hprobe Hwf.
  unfold processState. eapply guarded_bind; [apply main_read_state|].
  intros st.
  pose proof (quiet_connection_lost false) as Hlost. pose proof (quiet_get isArmed) as Harmed.
  pose proof (calmly_knows st) as Hk.
  assert (st <> EraseAll -> forall p, main not_erasing p (entry Main) -> main (knows st) p (entry Main)) as Hn.
  { intros Hne p Hp. apply (main_knows st not_erasing); [apply calmly_not_erasing| |done].
    intros s (_ & Hx & _). auto. }
  destruct st.
  - apply main_turn; [by apply quiet_state|done].
  - apply main_then; [apply quiet_reconnect|done|]. intros ok. apply main_turn; [|done]. quietly.
  - apply main_then; [apply quiet_get|done|]. intros detected. apply main_turn; [|done].
    unfold heartbeatFresh_. quietly.
  - apply main_then; [apply quiet_get|done|]. intros fresh. apply main_turn; [|done]. quietly.
  - apply main_then; [apply quiet_get|done|]. intros fresh. apply main_turn; [|done]. quietly.
  - apply main_then; [apply quiet_get|done|]. intros now. apply main_then; [apply quiet_get|done|].
    intros disarmed. apply main_turn; [|done]. quietly.
  - apply main_turn; [by apply quiet_state|done].
  - apply Hn; [done|]. apply main_with_logs. intros logs. apply guarded_some. intros s _ (Ho & _ & _).
    apply main_with_result; [exact Ho|]. intros r. apply main_decide.
  - apply (main_knows EraseAll cleared); [apply calmly_cleared| |apply main_erase_all].
    intros s (Hj & _). auto.
  - apply Hn; [done|]. unfold in_Cleanup. pose proof calmly_not_erasing as Hcalm.
    eapply guarded_bind; [by apply main_cleanup|].
    intros u. apply main_then; [apply quiet_get|done|]. intros r.
    apply main_then; [apply quiet_outcome|done|]. intros u'.
    apply main_then; [apply quiet_get|done|]. intros requested. apply main_turn; [|done].
    pose proof quiet_idle. quietly.
  - unfold in_ConnectionLost. apply main_then; [apply quiet_sleep|done|]. intros u. apply main_turn; [by apply quiet_state|done].
  - apply Hn; [done|]. apply main_with_logs. intros logs. apply main_turn; [apply quiet_idle|apply calmly_listed].
  - apply Hn; [done|]. apply main_manual_download.
  - apply (main_knows ManualErase (fun s => not_erasing s /\ asked s)); [| |apply main_manual_erase].
    + apply calmly_and; [apply calmly_not_erasing|apply asked_lasting].
    + intros s (_ & Hx & Ha). split; [by apply Hx|by apply Ha].
Qed.

(** ** All threads *)

(** A quiet program of any thread, and the label that follows. *)
Lemma quiet_body {A} t (p : program A) (k : A -> Next) :
  quiet p -> (forall a, label t (k a)) ->
  guarded Inv (Rely t) (Guar t) (fun _ => True) (a ← p; mret (k a)) (entry t).
Proof using Type.
  intros Hp Hk. eapply guarded_bind; [by apply (Hp t (fun _ => True))|]. intros a.
  apply guarded_ret; [done|]. intros s _ _. apply Hk.
Qed.

Lemma main_drain : main (fun _ => True) drain_turn (entry Main).
Proof using Type.
  unfold drain_turn.
  eapply (guarded_bind _ _ _ _ _ _ (fun c s => c = Some EraseAllLogsCommand -> asked s)).
  - apply guarded_step; [by apply calmly_stable|intros c; apply asked_if_lasting|].
    intros s c s' Hi _ E. destruct (pop_calm s c s' Hi E) as [Hc Ha].
    split; [by eapply calm_Inv|]. split; [by apply (calm_guar Main)|exact Ha].
  - intros [cmd|]; [|apply guarded_ret; [apply asked_if_lasting|done]].
    eapply guarded_bind.
    + eapply guarded_pre; [apply (quiet_command cmd Main (fun _ => True)); [done|by apply calmly_stable]
        |apply asked_if_lasting|].
      intros s _ Ha. split; [done|]. intros ->. by apply Ha.
    + intros u. by apply guarded_ret; [apply calmly_stable, calmly_pure|].
Qed.

Lemma quiet_stop_server : quiet stop_server.
Proof using Type.
  unfold stop_server. eapply quiet_bind; [apply quiet_put; intros s _; apply calm_companion|].
  intros u. apply quiet_await.
Qed.

Lemma main_head : main (fun _ => True) main_top (entry Main).
Proof using Type.
  unfold main_top. apply main_then; [apply quiet_get|done|]. intros [].
  - apply guarded_ret; [by apply calmly_stable|done].
  - apply main_then; [apply quiet_cancel|done|]. intros u.
    apply main_then; [apply quiet_disconnect|done|]. intros u1.
    apply main_then; [apply quiet_recorder|done|]. intros u2.
    apply main_then; [apply quiet_stop_server|done|]. intros u3.
    apply guarded_ret; [by apply calmly_stable|done].
Qed.

Lemma main_destroy : main (fun _ => True) service_destroy (entry Main).
Proof using Type.
  unfold service_destroy, service_stop, destroy_recorder, destroy_server, destroy_client.
  apply main_then; [|done|intros u].
  { eapply quiet_bind; [apply quiet_put; intros s _; apply calm_stop|]. intros u. apply quiet_cancel. }
  apply main_then; [apply quiet_recorder|done|]. intros u1.
  apply main_then; [apply quiet_stop_server|done|]. intros u2.
  apply main_then; [apply quiet_disconnect|done|]. intros u3.
  apply guarded_ret; [by apply calmly_stable|done].
Qed.

(** Every program keeps to its thread's part. *)
Lemma service_bodies : bodies_ok (body settings companion recording heartbeat_timeout_sec fuel) Inv Guar entry.
Proof using Hentry Hfuel Hprobe Hwf.
  intros t n.
  destruct t, n; try (apply guarded_some; by intros s _ []); unfold body.
  - exact main_head.
  - exact main_drain.
  - exact main_process.
  - exact main_destroy.
  - apply (quiet_body Main); [apply quiet_await|done].
  - apply (quiet_body Receiver); [apply quiet_rx_turn|done].
  - apply (quiet_body Companion); [apply quiet_companion|done].
  - apply (quiet_body Time); [apply quiet_time|done].
  - apply (quiet_body Signal); [apply quiet_signal|done].
Qed.

Lemma boot_ok bind o w :
  link_ok reliable good_chunk good_entry w -> Forall good_inbound (inbox o) ->
  datagrams o = given -> sys_ok Inv Guar entry (boot companion bind o w).
Proof using Type.
  intros Hl Hin Hg. split.
  - split; [split_and!; try done|done]; simpl; [by rewrite Hg|by intros ?%not_elem_of_nil].
  - intros t. exists (entry t (first_program t)). split; [by destruct t|].
    apply guarded_ret; [|done]. by intros s s' _ _.
Qed.
End Safety.
