(* ===== verification/ServiceProofs.v ===== *)
(** Safety of the service, for every schedule of its threads ([ServiceSafety]),
    over links that may deliver anything and over links that deliver the flight
    controller's logs: the logs are erased only when the companion asked for it, or
    when a whole cycle has just archived every log that was listed. *)

From S2P Require Import Prelude Effects LogProtocol Types ReceivedRanges FlightMonitor Database Storage.
From S2P Require Import Session SessionProofs Downloader DownloaderProofs ArchiveProofs EnumerationProofs Client Threads Service.
From S2P Require Import Json JsonSample CompanionTypes CompanionProtocol CompanionServer VideoRecorder ServiceSafety.
Open Scope Z_scope.

(** * A step that sends LOG_ERASE *)

Section Erase.
Context `{Platform} `{JsonLibrary} (settings : DownloadSettings) (companion : CompanionSettings).

Lemma erase_cleared recording heartbeat_timeout_sec fuel reliable good_chunk good_entry bind o w ts t :
  0 <= probe_bytes settings < 2 ^ 31 -> cycle_fuel settings < Z.of_nat fuel ->
  (forall c, good_chunk c -> chunk_wf c) -> (forall e, good_entry e -> entry_ok e) ->
  link_ok reliable good_chunk good_entry w -> Forall (good_inbound good_chunk good_entry) (inbox o) ->
  let run := service_run settings companion recording heartbeat_timeout_sec fuel in
  let before := run ts (boot companion bind o w) in
  let after := run [t] before in
  erase_count (downloader_ (shared after)) <> erase_count (downloader_ (shared before)) ->
  cleared settings reliable good_chunk good_entry (shared before) \/
  asked companion (datagrams o) (shared before).
Proof using Type.
  intros Hp Hf Hwf Hentry Hl Hin run before after Hne.
  pose proof (service_bodies settings companion recording heartbeat_timeout_sec fuel reliable good_chunk good_entry
    (datagrams o) Hp Hf Hwf Hentry) as Hb.
  pose proof (run_schedule_ok _ terminated _ _ _ ts _ Hb
    (boot_ok settings companion reliable good_chunk good_entry (datagrams o) bind o w Hl Hin eq_refl)) as Hok.
  destruct (sys_step_ok _ terminated _ _ _ t _ Hb Hok) as [_ [Hg|Heq]].
  - change after with (sys_step (body settings companion recording heartbeat_timeout_sec fuel) terminated t before) in Hne.
    destruct t; [by apply Hg|..]; apply calm_sent in Hg; by destruct Hne.
  - destruct Hne. change after with (sys_step (body settings companion recording heartbeat_timeout_sec fuel) terminated t before).
    unfold before, run, service_run in *. by rewrite Heq.
Qed.

(** The log was archived, or found to be archived, and the catalog has the row. *)
Definition saved (entry : LogEntry) (db : Database) : Prop :=
  exists sent0 db0 st0 r db1 st1 sha row,
    archive_effect settings False chunk_wf entry_ok sent0 entry db0 st0 r db1 st1 /\
    successful r = true /\ archived_logs db1 !! sha = Some row /\ row_log_id row = le_id entry /\
    row_log_size row = le_size entry /\ is_Some (archived_logs db !! sha).

(** The last cycle allows an erase. *)
Definition justified (s : Service) : Prop :=
  erase_after_success settings = true /\ cached_fc_logs_ (cycle_ s) <> [] /\
  cy_all_archived (last_cycle_result_ (cycle_ s)) = true /\
  cy_cancelled (last_cycle_result_ (cycle_ s)) <= 0 /\
  forall e, e ∈ cached_fc_logs_ (cycle_ s) -> saved e (w_db (downloader_ s)).

Lemma saved_mono e db db' :
  (forall sha, is_Some (archived_logs db !! sha) -> is_Some (archived_logs db' !! sha)) ->
  saved e db -> saved e db'.
Proof using Type.
  intros Hk (sent0 & db0 & st0 & r & db1 & st1 & sha & row & ? & ? & ? & ? & ? & Hs).
  exists sent0, db0, st0, r, db1, st1, sha, row. by apply Hk in Hs.
Qed.

Lemma effect_saved sent0 entry db st r db' st' :
  archive_effect settings False chunk_wf entry_ok sent0 entry db st r db' st' ->
  successful r = true -> saved entry db'.
Proof using Type.
  intros He Hr. pose proof He as He'. exists sent0, db, st, r, db', st'. destruct r; try done.
  - destruct He as (Hdb & _ & c & Hc & _). destruct (findCandidate_row _ _ _ _ Hc) as (row & Hrow & Hid & Hsz & _).
    rewrite <- Hdb in Hrow. exists (ca_sha256 c), row. by split_and!.
  - destruct He as (dest & (res & f & node & row & _ & _ & _ & _ & Hrow & Hid & Hsz & _) & _).
    exists (sr_sha256 res), row. by split_and!.
Qed.

(** A cycle whose results are all successes has saved all its logs. *)
Lemma archive_run_saved sent0 db st logs rs db' st' :
  archive_run settings False chunk_wf entry_ok sent0 db st logs rs db' st' ->
  forallb successful rs = true -> forall e, e ∈ logs -> saved e db'.
Proof using Type.
  induction 1 as [|db st entry r db1 st1 entries rs db' st' He Hrun IH]; intros Hs e Hin.
  { by apply not_elem_of_nil in Hin. }
  simpl in Hs. apply andb_true_iff in Hs as [Hr Hrs]. apply elem_of_cons in Hin as [->|Hin]; [|auto].
  eapply saved_mono; [|by eapply effect_saved]. by eapply archive_run_kept.
Qed.

Lemma cleared_justified s : cleared settings False chunk_wf entry_ok s -> justified s.
Proof using Type.
  intros (He & Hc & Ha & Hx & (_ & sent0 & db0 & st0 & rs & db1 & st1 & Hrun & Hs & Hk & _)).
  split_and!; try done. intros e Hin. eapply saved_mono; [exact Hk|]. by eapply archive_run_saved.
Qed.

Lemma erase_step recording heartbeat_timeout_sec fuel bind o w ts t :
  0 <= probe_bytes settings < 2 ^ 31 -> cycle_fuel settings < Z.of_nat fuel ->
  link_ok False chunk_wf entry_ok w -> Forall (good_inbound chunk_wf entry_ok) (inbox o) ->
  let run := service_run settings companion recording heartbeat_timeout_sec fuel in
  let before := run ts (boot companion bind o w) in
  let after := run [t] before in
  erase_count (downloader_ (shared after)) <> erase_count (downloader_ (shared before)) ->
  justified (shared before) \/ asked companion (datagrams o) (shared before).
Proof using Type.
  intros Hp Hf Hl Hin run before after Hne.
  destruct (erase_cleared recording heartbeat_timeout_sec fuel False chunk_wf entry_ok bind o w ts t
    Hp Hf (fun c Hc => Hc) (fun e He => He) Hl Hin Hne) as [Hc|]; [left|by right].
  by apply cleared_justified.
Qed.

(** ** Over an honest link *)

(** The entries are those of the logs [contents]. *)
Definition entry_of (contents : Z -> list Z) (e : LogEntry) : Prop :=
  entry_ok e /\ le_size e = zlen (contents (le_id e)).

(** The file [dest] holds [bytes]. *)
Definition holds (st : Storage) (dest : path) (bytes : list Z) : Prop :=
  exists node, st_fs st !! dest = Some node /\ n_bytes node = bytes.

Lemma stored_holds contents sent0 entry st dest :
  0 <= probe_bytes settings < 2 ^ 31 -> entry_of contents entry -> 0 < le_size entry ->
  stored settings True (honest contents) (entry_of contents) sent0 entry st dest ->
  holds st dest (contents (le_id entry)).
Proof using Type.
  intros Hp [He Hlen] Hpos (r & f & node & Hsp & Hs & Hn & Hb). exists node. split; [done|].
  rewrite Hb. unfold entry_ok in He. eapply session_pieces_log; [|done..]. lia.
Qed.

(** What became of each log of a cycle that allows an erase. *)
Lemma cleared_holds contents s : 0 <= probe_bytes settings < 2 ^ 31 ->
  cleared settings True (honest contents) (entry_of contents) s ->
  exists dests : list (option path),
    forall i entry, cached_fc_logs_ (cycle_ s) !! i = Some entry -> 0 < le_size entry ->
    (exists sent, known_duplicate settings True (honest contents) (entry_of contents) sent entry
                    (w_db (downloader_ s))) \/
    exists dest, dests !! i = Some (Some dest) /\
      (holds (w_storage (downloader_ s)) dest (contents (le_id entry)) \/
       exists j, (i < j)%nat /\ dests !! j = Some (Some dest)).
Proof using Type.
  intros Hp (_ & _ & _ & _ & (Hall & sent0 & db0 & st0 & rs & db1 & st1 & Hrun & Hs & Hk & Hroot & Hfiles)).
  destruct (archive_run_keeps _ _ _ _ _ _ _ _ _ _ _ Hrun) as (dests & Hl & _ & _ & Hkept).
  exists dests. intros i entry Hi Hpos.
  destruct (archive_run_result _ _ _ _ _ _ _ _ _ _ _ Hrun i entry Hi) as [r Hr].
  specialize (Hkept i entry r Hi Hr). 
  rewrite forallb_forall in Hs. specialize (Hs r (proj1 (list_elem_of_In _ _) (list_elem_of_lookup_2 _ _ _ Hr))).
  destruct r; try done.
  - left. exists sent0. destruct Hkept as (db & c & ? & ? & ?). exists db, c. auto.
  - right. destruct Hkept as (dest & Hd & Hu & [Hst|Hlater]); exists dest; (split; [done|]); [left|by right].
    rewrite Forall_lookup in Hall. destruct (stored_holds contents sent0 entry st1 dest Hp (Hall i entry Hi) Hpos Hst)
      as (node & Hn & Hb). exists node. by rewrite Hfiles.
Qed.
End Erase.

(** * Properties *)

(** C1. No log is erased that was not saved.  Whatever the vehicle, the link and
    the companion do, and however the threads interleave: a step of the service
    that sends LOG_ERASE is either asked for by a datagram the service has received
    before, an erase request with the configured token, or the logs listed by the
    cycle are not none, each of them was downloaded and verified or confirmed as a
    duplicate in a cycle that was not cancelled, the catalog has its row, and erasing
    is enabled. *)
Theorem erase_is_justified `{Platform} `{JsonLibrary} settings companion recording heartbeat_timeout_sec
    fuel bind o w ts t :
  0 <= probe_bytes settings < 2 ^ 31 -> cycle_fuel settings < Z.of_nat fuel ->
  link_ok False chunk_wf entry_ok w -> Forall (good_inbound chunk_wf entry_ok) (inbox o) ->
  let run := service_run settings companion recording heartbeat_timeout_sec fuel in
  let before := run ts (boot companion bind o w) in
  let after := run [t] before in
  erase_count (downloader_ (shared after)) <> erase_count (downloader_ (shared before)) ->
  justified settings (shared before) \/ asked companion (datagrams o) (shared before).
Proof. apply erase_step. Qed.

(** C2. Erased logs are in the archive.  When the link delivers the entries and
    the bytes of the flight controller's logs, in any order and with any losses,
    repetitions and delays, and the disk does not fail, then at a step of the
    service that sends LOG_ERASE without having received an erase request with the
    configured token, erasing is enabled and every non-empty log listed by the cycle
    is accounted for: it was skipped because the catalog has a row with its number
    and size whose probe digest is that of a probe just downloaded, or a file of the
    archive holds exactly its bytes, unless a later log of the same cycle was
    finished under the same file name. *)
Theorem erased_logs_are_archived `{Platform} `{JsonLibrary} settings companion recording heartbeat_timeout_sec
    fuel contents bind o w ts t :
  0 <= probe_bytes settings < 2 ^ 31 -> cycle_fuel settings < Z.of_nat fuel ->
  link_ok True (honest contents) (entry_of contents) w ->
  Forall (good_inbound (honest contents) (entry_of contents)) (inbox o) ->
  let run := service_run settings companion recording heartbeat_timeout_sec fuel in
  let before := run ts (boot companion bind o w) in
  let after := run [t] before in
  erase_count (downloader_ (shared after)) <> erase_count (downloader_ (shared before)) ->
  asked companion (datagrams o) (shared before) \/
  erase_after_success settings = true /\ cached_fc_logs_ (cycle_ (shared before)) <> [] /\
  exists dests : list (option path),
    forall i entry, cached_fc_logs_ (cycle_ (shared before)) !! i = Some entry -> 0 < le_size entry ->
    (exists sent, known_duplicate settings True (honest contents) (entry_of contents) sent entry
                    (w_db (downloader_ (shared before)))) \/
    exists dest, dests !! i = Some (Some dest) /\
      (holds (w_storage (downloader_ (shared before))) dest (contents (le_id entry)) \/
       exists j, (i < j)%nat /\ dests !! j = Some (Some dest)).
Proof.
  intros Hp Hf Hl Hin run before after Hne.
  destruct (erase_cleared settings companion recording heartbeat_timeout_sec fuel True (honest contents)
    (entry_of contents) bind o w ts t Hp Hf (honest_wf contents) (fun e He => proj1 He) Hl Hin Hne) as [Hc|];
    [right|by left].
  pose proof Hc as (He & Hn & _). split; [done|]. split; [done|]. by apply cleared_holds.
Qed.

(** ** A sample run *)

Definition sample_heartbeat (armed : bool) : Inbound :=
  Parsed (HeartbeatMessage {| i_sysid := 1; i_compid := 1; i_type := 2; i_autopilot := 3 |}
            (if armed then 128 else 0)).

(** The vehicle is seen, arms and disarms; five seconds pass. *)
Definition sample_outside : Outside :=
  {| inbox := [sample_heartbeat false; sample_heartbeat true; sample_heartbeat false];
     datagrams := []; connects := [true]; sends_ok := []; os_views := []; delays := [seconds 5];
     signals := 0 |}.

Definition plain_tick (elapsed : Z) (evs : list ThreadEvent) : Tick :=
  {| k_elapsed := elapsed; k_events := evs; k_connected := true; k_fresh := true;
     k_send_ok := true; k_disk_ok := true |}.

(** The flight controller lists its log, then sends it. *)
Definition sample_flight : World :=
  {| w_shared := w_shared sample_world; w_last_failure := NoFailure; w_progress := no_progress;
     w_progress_begin := 0; w_now := 5000; w_wall := 1700000001000000000; w_db := empty_database;
     w_storage := w_storage sample_world; w_sent := [];
     w_script := replicate 3 (plain_tick 0 [Receive (LogEntryFrame sample_entry)]) ++
                 replicate 8 (plain_tick 400000000 []) ++ replicate 200 sample_tick |}.

(** Up to the step of the main thread that sends LOG_ERASE. *)
Definition sample_schedule : list Thread :=
  replicate 40 Main ++ replicate 8 Receiver ++ replicate 20 Main ++ replicate 60 Receiver ++
  replicate 3 Time ++ replicate 38 Main.

Lemma sample_flight_ok : link_ok False chunk_wf entry_ok sample_flight.
Proof.
  split; [|split; constructor].
  assert (good_tick False chunk_wf entry_ok sample_tick) as Hdata.
  { split; [done|]. split; [|done]. repeat (constructor; [apply decoded_chunk; vm_compute; intuition congruence|]).
    constructor. }
  unfold sample_flight. cbn [w_script].
  rewrite !Forall_app. split_and!; apply Forall_replicate; [| |exact Hdata];
    (split; [done|]; split; [|done]); repeat constructor; simpl; try done; unfold entry_ok; simpl; lia.
Qed.

(** The service with default settings and no companion. *)
Abbreviation sample_run := (service_run default_download default_companion default_recording 10).
Abbreviation sample_boot := (boot default_companion (true, true, true) sample_outside sample_flight).

(** Whatever fuel is left, the schedule ends in an erase. *)
Lemma sample_run_erases rest :
  let before := sample_run (80 + rest) sample_schedule sample_boot in
  let after := sample_run (80 + rest) [Main] before in
  erase_count (downloader_ (shared after)) <> erase_count (downloader_ (shared before)).
Proof. vm_compute. discriminate. Qed.

Lemma erase_is_justified_witness :
  let fuel := (80 + Z.to_nat (cycle_fuel default_download))%nat in
  let before := sample_run fuel sample_schedule sample_boot in
  justified default_download (shared before) \/ asked default_companion [] (shared before).
Proof.
  intros fuel before.
  refine (erase_is_justified default_download default_companion default_recording 10 fuel
    (true, true, true) sample_outside sample_flight sample_schedule Main
    _ _ sample_flight_ok _ (sample_run_erases (Z.to_nat (cycle_fuel default_download)))).
  - simpl. lia.
  - unfold fuel. rewrite Nat2Z.inj_add, Z2Nat.id; [lia|]. vm_compute. discriminate.
  - repeat constructor.
Defined.

Lemma sample_flight_honest : link_ok True (honest sample_contents) (entry_of sample_contents) sample_flight.
Proof.
  split; [|split; constructor].
  assert (good_tick True (honest sample_contents) (entry_of sample_contents) sample_tick) as Hdata.
  { split; [done|]. split; [|done].
    repeat (constructor; [first [apply (data_frame_honest 0)|apply (data_frame_honest 1)|apply (data_frame_honest 2)]; lia|]).
    constructor. }
  unfold sample_flight. cbn [w_script].
  rewrite !Forall_app. split_and!; apply Forall_replicate; [| |exact Hdata];
    (split; [done|]; split; [|done]); repeat constructor; simpl; try done; vm_compute; intuition congruence.
Qed.

Lemma erased_logs_are_archived_witness :
  let fuel := (80 + Z.to_nat (cycle_fuel default_download))%nat in
  let before := sample_run fuel sample_schedule sample_boot in
  asked default_companion [] (shared before) \/
  erase_after_success default_download = true /\ cached_fc_logs_ (cycle_ (shared before)) <> [] /\
  exists dests : list (option path),
    forall i entry, cached_fc_logs_ (cycle_ (shared before)) !! i = Some entry -> 0 < le_size entry ->
    (exists sent, known_duplicate default_download True (honest sample_contents) (entry_of sample_contents) sent
                    entry (w_db (downloader_ (shared before)))) \/
    exists dest, dests !! i = Some (Some dest) /\
      (holds (w_storage (downloader_ (shared before))) dest (sample_contents (le_id entry)) \/
       exists j, (i < j)%nat /\ dests !! j = Some (Some dest)).
Proof.
  intros fuel before.
  refine (erased_logs_are_archived default_download default_companion default_recording 10 fuel sample_contents
    (true, true, true) sample_outside sample_flight sample_schedule Main
    _ _ sample_flight_honest _ (sample_run_erases (Z.to_nat (cycle_fuel default_download)))).
  - simpl. lia.
  - unfold fuel. rewrite Nat2Z.inj_add, Z2Nat.id; [lia|]. vm_compute. discriminate.
  - repeat constructor.
Defined.
