(* ===== verification/ClientStream.v ===== *)
(** The client's bytes ([MavlinkClient::rxLoop], [sendMessage]): reading from a
    transport until the MAVLink parser has a message, and the proof that the
    messages the service takes from its inbox are those, whatever the transport. *)

From S2P Require Import Prelude LogProtocol Types Storage Session Downloader DownloaderProofs ArchiveProofs.
From S2P Require Import FlightMonitor Client Transports Threads Service.
From S2P Require Import Json JsonSample CompanionTypes CompanionServer VideoRecorder.
Open Scope Z_scope.

Section Stream.
Context {T I : Type} `{TransportLaws T I}.

(** [mavlink_parse_char], of the MAVLink library, with its state. *)
Context {P : Type} (mavlink_parse_char : P -> Z -> P * option Message).

(** What the loop comes to: a message, the end of the stream, or a transport that
    blocks; with the states it leaves. *)
Inductive ReadResult :=
| GotMessage (m : Message) (p : P) (t : T) (input : list I)
| StreamEnded (t : T) (input : list I)
| StillReading (p : P) (t : T) (input : list I).

(** The turns of [rxLoop] up to the next message; [None]: out of fuel. *)
Fixpoint read_parsed (fuel : nat) (p : P) (t : T) (input : list I) : option ReadResult :=
  match fuel with
  | O => None
  | S fuel' =>
      match tr_readByte t input with
      | (ReadByte b, t', input') =>
          let '(p', m) := mavlink_parse_char p b in
          match m with
          | Some m => Some (GotMessage m p' t' input')
          | None => read_parsed fuel' p' t' input'
          end
      | (ReadEnd, t', input') => Some (StreamEnded t' input')
      | (Blocked, t', input') => Some (StillReading p t' input')
      end
  end.

(** [sendMessage]: [mavlink_msg_to_send_buffer] makes the buffer, [sent] is what
    the system call returns. *)
Definition sendMessage (c : Client) (buffer : list Z) (sent : Z) (t : T) : bool :=
  if negb (cl_connected c && tr_isConnected t) then false else tr_send buffer sent t.

(** The bytes still to come, and the inbox they make. *)
Definition coming (t : T) (input : list I) : list Z := tr_pending t ++ (tr_stream input).1.

Definition inbox_of (p : P) (t : T) (input : list I) : list Inbound :=
  (Parsed <$> messages mavlink_parse_char p (coming t input)) ++
  (if (tr_stream input).2 then [StreamClosed] else []).

(** Reading takes the next item of the inbox. *)
Lemma read_parsed_inbox fuel : forall p t input, tr_ready t -> (length (coming t input) < fuel)%nat ->
  match read_parsed fuel p t input with
  | Some (GotMessage m p' t' input') =>
      inbox_of p t input = Parsed m :: inbox_of p' t' input' /\ tr_ready t'
  | Some (StreamEnded t' _) => inbox_of p t input = [StreamClosed] /\ tr_isConnected t' = false
  | Some (StillReading p' t' input') =>
      inbox_of p t input = [] /\ inbox_of p' t' input' = [] /\ tr_ready t'
  | None => False
  end.
Proof using Type.
  induction fuel as [|fuel IH]; intros p t input Ht Hf; [lia|]. cbn [read_parsed].
  pose proof (tr_read_next t input Ht) as Hr. unfold inbox_of, coming in *.
  destruct (tr_readByte t input) as [[r t'] input'].
  destruct (tr_pending t ++ (tr_stream input).1) as [|b bytes] eqn:E.
  - destruct (tr_stream input).2 eqn:Es; [by destruct Hr as [-> ?]|].
    destruct Hr as (-> & -> & ->). by rewrite E, Es.
  - destruct Hr as (-> & Ht' & Hb & He). simpl in Hf |- *. destruct (mavlink_parse_char p b) as [p' [m|]].
    + by rewrite Hb, He.
    + specialize (IH p' t' input' Ht' ltac:(rewrite Hb; lia)). by rewrite Hb, He in IH.
Qed.

(** The service's inbox is what the transport and the parser have to come. *)
Record reads_from (s : Service) (p : P) (t : T) (input : list I) : Prop := {
  rf_connected : cl_transport (client_ s) = tr_isConnected t;
  rf_inbox : tr_isConnected t = true -> tr_ready t /\ inbox (outside s) = inbox_of p t input;
}.

(** C28. Reading messages from the inbox refines reading bytes.  For every
    transport that keeps the interface's laws, and whatever the MAVLink parser
    does: when the service's inbox is what the parser finds in the bytes to come,
    the loop's next message is the one [read_message] takes, the end of the stream
    is its end, a loop that blocks is a read that waits, and the service's inbox is
    then again what is to come. *)
Theorem read_message_refines fuel p t input s :
  reads_from s p t input -> (length (coming t input) < fuel)%nat ->
  match read_parsed fuel p t input with
  | Some (GotMessage m p' t' input') =>
      exists s', run_alone read_message s = Some (Some m, s') /\ reads_from s' p' t' input'
  | Some (StreamEnded t' input') =>
      exists s', run_alone read_message s = Some (None, s') /\ reads_from s' p t' input'
  | Some (StillReading p' t' input') =>
      run_alone read_message s = None /\ reads_from s p' t' input'
  | None => False
  end.
Proof using Type.
  intros [Hc Hi] Hf. unfold read_message. cbn [run_alone]. rewrite Hc.
  destruct (tr_isConnected t) eqn:E.
  - destruct (Hi eq_refl) as [Ht Hin]. pose proof (read_parsed_inbox fuel p t input Ht Hf) as Hr. rewrite Hin.
    destruct (read_parsed fuel p t input) as [[m p' t' input'|t' input'|p' t' input']|]; [| | |done].
    + destruct Hr as [-> Ht']. eexists. split; [reflexivity|]. pose proof (tr_ready_connected t' Ht') as E'.
      split; simpl; [congruence|done].
    + destruct Hr as [-> E']. eexists. split; [reflexivity|]. split; simpl; [done|congruence].
    + destruct Hr as (Hnil & Hin' & Ht'). rewrite Hnil in *. split; [done|].
      pose proof (tr_ready_connected t' Ht') as E'. split; [congruence|]. intros _. by rewrite Hin'.
  - destruct fuel as [|fuel]; [lia|]. cbn [read_parsed]. rewrite tr_closed_read by done.
    exists s. split; [done|]. split; [congruence|]. rewrite E. done.
Qed.
End Stream.
Arguments ReadResult : clear implicits.

(** A parser that takes the byte 254 for the end of a heartbeat and counts bytes. *)
Definition sample_parser (n : Z) (b : Z) : Z * option Message :=
  (n + 1, if b =? 254 then Some (HeartbeatMessage {| i_sysid := n; i_compid := 1; i_type := 2; i_autopilot := 3 |} 128)
          else None).

(** Two datagrams, and an empty one. *)
Definition sample_input : list (option (list Z)) := [Some [1; 2]; Some [3; 254; 4]; Some []].
Definition open_udp : UdpTransport := (udp_connect true true None (udp_disconnect
  {| udp_connected := false; udp_socket := false; udp_resolved := false; rx_buffer := []; rx_buffer_pos := 0 |})).2.

Definition reading_service : Service :=
  set_client open (shared (boot default_companion (true, true, true)
    {| inbox := inbox_of sample_parser 0 open_udp sample_input; datagrams := []; connects := []; sends_ok := [];
       os_views := []; delays := []; signals := 0 |} sample_world)).

Lemma read_message_refines_witness :
  exists s', run_alone read_message reading_service =
    Some (Some (HeartbeatMessage {| i_sysid := 3; i_compid := 1; i_type := 2; i_autopilot := 3 |} 128), s').
Proof.
  pose proof (read_message_refines sample_parser 9 0 open_udp sample_input reading_service
    ltac:(split; [reflexivity|by split]) ltac:(vm_compute; lia)) as Hr.
  destruct Hr as (s' & E & _). by exists s'.
Defined.
