(* ===== verification/ServiceJobs.v ===== *)
(** The service's operations one at a time: the answers to companion requests,
    the turns of the main loop that start a cycle, cancellations and requests that
    are lost, the pages of the log list, and the destructor. *)

From S2P Require Import Prelude Effects LogProtocol Types FlightMonitor Database Storage.
From S2P Require Import Session Downloader DownloaderProofs ArchiveProofs Client Threads Service ServiceSafety ServiceProofs.
From S2P Require Import CompanionTypes CompanionServer VideoRecorder.
Open Scope Z_scope.

(** * What single operations do *)

(** The result of a run: a refusal, or an accepted job. *)
Ltac refuse :=
  eexists _, _; split; [reflexivity|]; cbn; split; [|split; [by intros _|done]]; split; [done|];
  try (by intros (? & _)).
Ltac accept tac :=
  eexists _, _; split; [reflexivity|]; cbn;
  split; [split; [intros _; split; [done|tac]|done]|];
  split; [by intros []|]; intros _; eexists; split; [reflexivity|]; split; [reflexivity|]; split;
  [by rewrite ?orb_true_r, ?orb_false_r|try reflexivity].

(** C24. A companion job is accepted exactly when it can run: the transport is
    connected and, for all but an erase, no job is in flight, the vehicle is
    disarmed and a download names at least one listed log.  An accepted request
    queues one command, a refused one leaves no trace; an erase cancels the job
    in flight.  Of a download's ids the listed ones are queued, in order, and the
    others reported. *)
Theorem requestCompanionJob_correct (kind : CompanionJobKind) (ids : list Z) (all : bool) (s : Service) :
  exists out s', run_alone (requestCompanionJob kind ids all) s = Some (out, s') /\
  let listed := le_id <$> cached_fc_logs_ (cycle_ s) in
  let busy := isArchiveBusy (state_ s) in
  (out_result out = Accepted <->
     isConnected (client_ s) = true /\
     (kind = JobEraseAll \/
      busy = false /\ isArmed s = false /\
      (kind = JobDownload -> all = true \/ exists id, id ∈ ids /\ id ∈ listed))) /\
  (out_result out <> Accepted -> s' = s) /\
  (out_result out = Accepted ->
     exists cmd, companion_commands_ s' = companion_commands_ s ++ [cmd] /\ state_ s' = state_ s /\
       sh_cancel (w_shared (downloader_ s')) =
         (sh_cancel (w_shared (downloader_ s)) || bool_decide (kind = JobEraseAll) && busy) /\
       match kind with
       | JobArchive => cmd = StartArchiveCommand
       | JobRefresh => cmd = RefreshLogsCommand
       | JobEraseAll => cmd = EraseAllLogsCommand
       | JobDownload =>
           exists valid, cmd = DownloadLogsCommand valid all /\
             (all = false -> valid = filter (fun id => id ∈ listed) ids /\
                             out_not_found out = filter (fun id => id ∉ listed) ids)
       end).
Proof.
  cbv zeta. unfold requestCompanionJob, currentState, isConnected_, isArmed. rewrite run_get.
  destruct (decide (kind = JobEraseAll)) as [->|Hne]; [rewrite run_get|].
  - destruct (isConnected (client_ s)) eqn:Hc; cbn [negb]; [|refuse].
    destruct (isArchiveBusy (state_ s)) eqn:Hb; accept ltac:(by left).
  - rewrite (bool_decide_eq_false_2 (kind = JobEraseAll)) by done.
    destruct (isArchiveBusy (state_ s)) eqn:Hb; [refuse; by intros (_ & [?|(? & _)])|]. rewrite run_get.
    destruct (armed_ (monitor_ s)) eqn:Ha; [refuse; by intros (_ & [?|(_ & ? & _)])|]. rewrite run_get.
    destruct (isConnected (client_ s)) eqn:Hc; cbn [negb]; [|refuse].
    destruct kind; [accept ltac:(by right)|accept ltac:(by right)|rewrite run_get|done].
    set (cached := cached_fc_logs_ (cycle_ s)).
    destruct all; cbn [negb andb].
    + accept ltac:(right; split_and!; [done|done|by left]). eexists. by split.
    + case_bool_decide as Hv.
      * refuse. intros (_ & [?|(_ & _ & Hx)]); [done|].
        destruct (Hx eq_refl) as [?|(id & Hid & Hin)]; [done|]. exfalso.
        apply (not_elem_of_nil id). rewrite <- Hv. unfold known_ids. by apply list_elem_of_filter.
      * assert (exists id, id ∈ ids /\ id ∈ le_id <$> cached) as Hid.
        { unfold known_ids in Hv. destruct (filter _ ids) as [|id rest] eqn:Ef; [done|].
          exists id. assert (id ∈ filter (fun id => id ∈ le_id <$> cached) ids) as Hin
            by (rewrite Ef; by left). by apply list_elem_of_filter in Hin as [? ?]. }
        accept ltac:(right; split_and!; [done|done|by right]). eexists. by split.
Qed.

(** The operations of the main and the receiving thread, run alone. *)
Definition process_alone `{Platform} settings heartbeat_timeout_sec fuel (s : Service) : option Service :=
  snd <$> run_alone (processState settings heartbeat_timeout_sec fuel) s.
Definition event_alone (e : Event) (s : Service) : option Service :=
  snd <$> run_alone (onFlightEvent e) s.

(** The turns of the main loop, without the other threads. *)
Fixpoint turns `{Platform} settings heartbeat_timeout_sec fuel (n : nat) (s : Service) : option Service :=
  match n with
  | O => Some s
  | S n' => process_alone settings heartbeat_timeout_sec fuel s ≫= turns settings heartbeat_timeout_sec fuel n'
  end.

Section Alone.
Context `{Platform} (settings : DownloadSettings) (heartbeat_timeout_sec : Z) (fuel : nat) (s : Service).
Local Abbreviation process := (process_alone settings heartbeat_timeout_sec fuel).
Local Abbreviation after_turn s := (on_downloader (pass_time (ms 100)) s).

Lemma disarm_event : state_ s = WaitDisarm ->
  event_alone VehicleDisarmed s =
    Some (setState Delay (set_requested true (set_disarm_time (w_now (downloader_ s)) s))).
Proof using Type.
  intros Hs. unfold event_alone, onFlightEvent, currentState, steady_clock. by rewrite run_get, Hs.
Qed.

Lemma disarm_event_busy : state_ s <> WaitDisarm -> isArchiveBusy (state_ s) = true ->
  event_alone VehicleDisarmed s =
    Some (on_downloader cancel_downloader (set_requested true (set_disarm_time (w_now (downloader_ s)) s))).
Proof using Type.
  intros Hs Hb. unfold event_alone, onFlightEvent, currentState, steady_clock.
  rewrite run_get, run_get. by rewrite decide_False, Hb.
Qed.

Lemma arm_event_busy : isArchiveBusy (state_ s) = true ->
  event_alone VehicleArmed s = Some (on_downloader cancel_downloader s).
Proof using Type.
  intros Hb. unfold event_alone, onFlightEvent, currentState. rewrite run_get.
  rewrite decide_False by (by intros Hs; rewrite Hs in Hb). by rewrite Hb.
Qed.

Lemma delay_turn : state_ s = Delay ->
  seconds (delay_after_disarm_sec settings) <= w_now (downloader_ s) - disarm_time_ s ->
  process s = Some (after_turn (setState Enumerate (on_downloader reset_downloader (set_requested false s)))).
Proof using Type.
  intros Hs Hd. unfold process_alone, processState, currentState, steady_clock.
  rewrite run_get, Hs, !run_get.
  by destruct (Z.leb_spec (seconds (delay_after_disarm_sec settings)) (w_now (downloader_ s) - disarm_time_ s)); [|lia].
Qed.

Lemma delay_waits : state_ s = Delay ->
  w_now (downloader_ s) - disarm_time_ s < seconds (delay_after_disarm_sec settings) ->
  process s = Some (after_turn s).
Proof using Type.
  intros Hs Hd. unfold process_alone, processState, currentState, steady_clock. rewrite run_get, Hs, !run_get.
  by destruct (Z.leb_spec (seconds (delay_after_disarm_sec settings)) (w_now (downloader_ s) - disarm_time_ s)); [lia|].
Qed.

Lemma enumerate_turn : state_ s = Enumerate -> process s = Some (after_turn (setState Archive s)).
Proof using Type. intros Hs. unfold process_alone, processState, currentState. by rewrite run_get, Hs. Qed.

Lemma manual_erase_turn : state_ s = ManualErase ->
  process s = Some (let s1 := on_downloader reset_downloader s in
    let s2 := set_downloader (eraseFlightControllerLogs settings (downloader_ s1)).2 s1 in
    let s3 := set_cycle (set_cache [] false (cycle_ s2)) s2 in
    after_turn (setState (if isArmed s3 then WaitDisarm else WaitArm) s3)).
Proof using Type.
  intros Hs. unfold process_alone, processState, currentState. rewrite run_get, Hs. unfold in_ManualErase, in_Cleanup, in_ConnectionLost.
  unfold resetDownloaderCancel. rewrite run_put. unfold call, atom. rewrite run_bind. cbn [run_alone].
  by destruct (eraseFlightControllerLogs settings (downloader_ (on_downloader reset_downloader s))).
Qed.

Lemma wait_arm_turn : state_ s = WaitArm ->
  heartbeatFresh heartbeat_timeout_sec (w_now (downloader_ s)) (client_ s) = true ->
  process s = Some (after_turn s).
Proof using Type.
  intros Hs Hf. unfold process_alone, processState, currentState, heartbeatFresh_.
  by rewrite run_get, Hs, run_get, Hf.
Qed.

(** A signal asks the main loop to end, and leaves a download that runs alone: only
    [stop] and the end of the loop cancel it. *)
Lemma signal_leaves_download u s' : run_alone signal_turn s = Some (u, s') ->
  running_ s' = false /\ downloader_ s' = downloader_ s.
Proof using Type.
  unfold signal_turn. cbn [run_alone]. destruct (signals (outside s)); [done|]. by intros [= <- <-].
Qed.

Lemma stop_cancels : snd <$> run_alone service_stop s = Some (on_downloader cancel_downloader (stop_running s)).
Proof using Type. done. Qed.

(** The destructor leaves nothing running: the main loop is asked to end, the download
    cancelled, no recording goes on, and the server's socket and the transport are
    closed; it waits for the two receiving threads. *)
Lemma destroy_closes : cl_rx_alive (client_ s) = false -> sv_rx (cp_server (companion_ s)) = false ->
  exists s', run_alone service_destroy s = Some (NextStopped, s') /\
    running_ s' = false /\ sh_cancel (w_shared (downloader_ s')) = true /\
    pid_ (cp_recorder (companion_ s')) <= 0 /\
    sv_socket (cp_server (companion_ s')) = false /\ cl_transport (client_ s') = false.
Proof using Type.
  intros Hc Hs. unfold service_destroy. rewrite run_bind.
  change (run_alone service_stop s) with (Some (tt, on_downloader cancel_downloader (stop_running s))). cbv iota.
  set (s1 := on_downloader cancel_downloader (stop_running s)). unfold destroy_recorder, on_recorder, atom.
  cbn [mbind prog_mbind prog_bind run_alone]. set (v := Build_OsView _ _ _ _ _ _ _).
  destruct (stop v (cp_recorder (companion_ s1))) as [ended r] eqn:E.
  assert (pid_ r <= 0) as Hr.
  { unfold stop in E. destruct (Z.leb_spec (pid_ (reapIfExited v (cp_recorder (companion_ s1)))) 0);
      injection E as _ <-; [done|]. unfold end_sync. case_match; simpl; lia. }
  assert (sv_rx (server_stop (cp_server (companion_ s))) = false /\
    sv_socket (server_stop (cp_server (companion_ s))) = false) as [Hrx Hsock].
  { unfold server_stop. destruct (sv_running (cp_server (companion_ s))), (sv_socket (cp_server (companion_ s))) eqn:Ek;
      simpl; by rewrite ?Ek. }
  unfold destroy_server, destroy_client, stop_server, disconnect, join_receiver, put, await, atom. cbn [mbind prog_mbind prog_bind run_alone].
  cbn [companion_ set_server set_companion set_recorder set_outside cp_server].
  change (companion_ s1) with (companion_ s). rewrite Hrx. cbn [negb].
  cbn [client_ set_client set_companion set_recorder set_outside set_server close cl_rx_alive].
  change (client_ s1) with (client_ s). rewrite Hc. cbn [negb].
  eexists. split; [reflexivity|]. by split_and!.
Qed.

Lemma erase_counted w : erase_count (eraseFlightControllerLogs settings w).2 = S (erase_count w).
Proof using Type.
  unfold eraseFlightControllerLogs, sendMessage, atomic, interfere, erase_count.
  destruct (k_send_ok _); simpl; rewrite filter_app, length_app; simpl; rewrite Nat.add_1_r; done.
Qed.
End Alone.

(** A disarm starts a cycle: from [WaitDisarm], the event and three turns of
    the main loop after the delay lead to [Archive], with the request consumed and
    no cancellation left over. *)
Theorem disarm_starts_cycle `{Platform} settings heartbeat_timeout_sec fuel (s : Service) d :
  state_ s = WaitDisarm -> seconds (delay_after_disarm_sec settings) <= d ->
  exists s1 s2 s3,
    event_alone VehicleDisarmed s = Some s1 /\ state_ s1 = Delay /\ archive_requested_ s1 = true /\
    process_alone settings heartbeat_timeout_sec fuel (on_downloader (pass_time d) s1) = Some s2 /\
    state_ s2 = Enumerate /\ archive_requested_ s2 = false /\
    sh_cancel (w_shared (downloader_ s2)) = false /\
    process_alone settings heartbeat_timeout_sec fuel s2 = Some s3 /\ state_ s3 = Archive.
Proof.
  intros Hs Hd. eexists _, _, _. split; [by apply disarm_event|]. split; [done|]. split; [done|].
  split; [apply delay_turn; [done|simpl; lia]|]. split; [done|]. split; [done|]. split; [done|].
  split; [by apply enumerate_turn|done].
Qed.

Definition sample_service (x : State) : Service :=
  setState x (shared sample_boot).

Lemma disarm_starts_cycle_witness :
  exists s1 s2 s3,
    event_alone VehicleDisarmed (sample_service WaitDisarm) = Some s1 /\ state_ s1 = Delay /\
    archive_requested_ s1 = true /\
    process_alone default_download 10 9 (on_downloader (pass_time (seconds 5)) s1) = Some s2 /\
    state_ s2 = Enumerate /\ archive_requested_ s2 = false /\
    sh_cancel (w_shared (downloader_ s2)) = false /\
    process_alone default_download 10 9 s2 = Some s3 /\ state_ s3 = Archive.
Proof.
  apply (disarm_starts_cycle default_download 10 9 (sample_service WaitDisarm) (seconds 5));
    [reflexivity|apply Z.le_refl].
Defined.

(** The delay ends, whatever is left of it, and the cycle starts with its cancel flag
    clear and the vehicle as it is. *)
Lemma delay_ends `{Platform} settings heartbeat_timeout_sec fuel n : forall s : Service, state_ s = Delay ->
  seconds (delay_after_disarm_sec settings) <= w_now (downloader_ s) - disarm_time_ s + Z.of_nat n * ms 100 ->
  exists k s', turns settings heartbeat_timeout_sec fuel k s = Some s' /\ state_ s' = Archive /\
    isArmed s' = isArmed s /\ sh_cancel (w_shared (downloader_ s')) = false.
Proof.
  induction n as [|n IH]; intros s Hs Hd;
    (destruct (Z.le_gt_cases (seconds (delay_after_disarm_sec settings)) (w_now (downloader_ s) - disarm_time_ s))
       as [Hle|Hgt]; [|try lia]).
  1,2: eexists 2%nat, _; cbn [turns]; rewrite delay_turn by done; cbn [mbind option_bind];
    rewrite enumerate_turn by done; by split_and!.
  destruct (IH (on_downloader (pass_time (ms 100)) s)) as (k & s' & E & Hrest); [done|simpl; lia|].
  exists (S k), s'. cbn [turns]. by rewrite delay_waits by done.
Qed.

(** C40. Arming during the delay after a disarm does not stop the cycle.  At whatever
    time of the delay the vehicle's heartbeat turns to armed, the event asks the
    downloader to cancel and the service stays in [Delay]; turns of the main loop then
    bring the delay to its end, where the request is dropped, and the cycle starts,
    not cancelled, with the vehicle armed. *)
Theorem arming_in_delay_is_forgotten `{Platform} settings heartbeat_timeout_sec fuel (s : Service) :
  state_ s = Delay -> vehicle_detected_ (monitor_ s) = true -> first_heartbeat_ (monitor_ s) = false ->
  isArmed s = false -> link_lost_ (monitor_ s) = false ->
  exists s1, run_alone (monitor_call (onHeartbeat (identity (monitor_ s)) true)) s = Some (tt, s1) /\
    state_ s1 = Delay /\ isArmed s1 = true /\ sh_cancel (w_shared (downloader_ s1)) = true /\
  exists n s2, turns settings heartbeat_timeout_sec fuel n s1 = Some s2 /\
    state_ s2 = Archive /\ isArmed s2 = true /\ sh_cancel (w_shared (downloader_ s2)) = false.
Proof.
  intros Hs Hd Hf Ha Hl. set (m := monitor_ s) in *.
  assert (onHeartbeat (identity m) true m = ([VehicleArmed], set_armed true m)) as Hm.
  { unfold onHeartbeat. rewrite bool_decide_eq_true_2 by done. rewrite Hd. cbn. rewrite Hl, Hf.
    unfold isArmed in Ha. fold m in Ha. by rewrite Ha. }
  set (s1 := on_downloader cancel_downloader (set_monitor (set_armed true m) s)).
  assert (run_alone (monitor_call (onHeartbeat (identity m) true)) s = Some (tt, s1)) as E.
  { transitivity (run_alone (onFlightEvents [VehicleArmed]) (set_monitor (set_armed true m) s)).
    - unfold monitor_call, atom. cbn [mbind prog_mbind prog_bind run_alone]. fold m. by rewrite Hm.
    - cbn [onFlightEvents]. rewrite run_bind.
      assert (run_alone (onFlightEvent VehicleArmed) (set_monitor (set_armed true m) s) = Some (tt, s1)) as ->;
        [|done].
      unfold onFlightEvent, currentState. rewrite run_get. cbn [state_ set_monitor]. by rewrite Hs. }
  exists s1. split; [done|]. split; [done|]. split; [done|]. split; [done|].
  destruct (delay_ends settings heartbeat_timeout_sec fuel
    (Z.to_nat (seconds (delay_after_disarm_sec settings) - (w_now (downloader_ s1) - disarm_time_ s1))) s1 Hs)
    as (k & s2 & Et & H2 & H3 & H4); [unfold ms; lia|].
  exists k, s2. by rewrite H3.
Qed.

Lemma arming_in_delay_is_forgotten_witness :
  let m := (onHeartbeat {| i_sysid := 1; i_compid := 1; i_type := 2; i_autopilot := 3 |} false new_monitor).2 in
  let s := set_monitor m (set_disarm_time 5000 (sample_service Delay)) in
  exists s1, run_alone (monitor_call (onHeartbeat (identity m) true)) s = Some (tt, s1) /\
    state_ s1 = Delay /\ isArmed s1 = true /\ sh_cancel (w_shared (downloader_ s1)) = true /\
  exists n s2, turns default_download 10 9 n s1 = Some s2 /\
    state_ s2 = Archive /\ isArmed s2 = true /\ sh_cancel (w_shared (downloader_ s2)) = false.
Proof. intros m s. by apply (arming_in_delay_is_forgotten default_download 10 9 s). Defined.

(** A disarm during a manual erase is lost: it sets the request and cancels,
    but the erase still goes out and ends in [WaitArm], where turns of the main
    loop leave the service as long as the link is up, with the request still set. *)
Theorem disarm_during_erase_is_lost `{Platform} settings heartbeat_timeout_sec fuel (s : Service) :
  state_ s = ManualErase -> isArmed s = false ->
  exists s1 s2,
    event_alone VehicleDisarmed s = Some s1 /\ archive_requested_ s1 = true /\
    process_alone settings heartbeat_timeout_sec fuel s1 = Some s2 /\
    erase_count (downloader_ s2) = S (erase_count (downloader_ s)) /\
    state_ s2 = WaitArm /\ archive_requested_ s2 = true /\
    (heartbeatFresh heartbeat_timeout_sec (w_now (downloader_ s2)) (client_ s2) = true ->
     exists s3, process_alone settings heartbeat_timeout_sec fuel s2 = Some s3 /\
       state_ s3 = WaitArm /\ archive_requested_ s3 = true).
Proof.
  intros Hs Ha. eexists _, _. split; [by apply disarm_event_busy; rewrite Hs|]. split; [done|].
  split; [by apply manual_erase_turn|]. cbv zeta.
  split; [exact (erase_counted settings _)|].
  unfold isArmed in *. cbn [monitor_ set_cycle set_downloader on_downloader set_requested set_disarm_time].
  rewrite Ha. split; [done|]. split; [done|]. intros Hf. eexists. split; [by apply wait_arm_turn|done].
Qed.

Lemma disarm_during_erase_is_lost_witness :
  exists s1 s2,
    event_alone VehicleDisarmed (sample_service ManualErase) = Some s1 /\ archive_requested_ s1 = true /\
    process_alone default_download 10 9 s1 = Some s2 /\
    erase_count (downloader_ s2) = S (erase_count (downloader_ (sample_service ManualErase))) /\
    state_ s2 = WaitArm /\ archive_requested_ s2 = true /\
    (heartbeatFresh 10 (w_now (downloader_ s2)) (client_ s2) = true ->
     exists s3, process_alone default_download 10 9 s2 = Some s3 /\
       state_ s3 = WaitArm /\ archive_requested_ s3 = true).
Proof. by apply (disarm_during_erase_is_lost default_download 10 9 (sample_service ManualErase)). Defined.

(** "Never queues a second job" holds only once the main thread has taken the
    first one: two requests in a row, by an idle service whose vehicle is
    disarmed, are both accepted and both queued. *)
Theorem two_jobs_queued (s : Service) :
  isArchiveBusy (state_ s) = false -> isArmed s = false -> isConnected (client_ s) = true ->
  exists s1 s2,
    run_alone (requestCompanionJob JobRefresh [] false) s = Some (outcome_of Accepted, s1) /\
    run_alone (requestCompanionJob JobArchive [] false) s1 = Some (outcome_of Accepted, s2) /\
    companion_commands_ s2 = companion_commands_ s ++ [RefreshLogsCommand; StartArchiveCommand].
Proof.
  intros Hb Ha Hc. exists (set_commands (companion_commands_ s ++ [RefreshLogsCommand]) s). eexists.
  split; [|split].
  - unfold requestCompanionJob, currentState, isConnected_. rewrite run_get, Hb.
    rewrite decide_False by done. by rewrite run_get, Ha, run_get, Hc.
  - unfold requestCompanionJob, currentState, isConnected_. rewrite run_get. cbn [state_ set_commands].
    rewrite Hb, decide_False by done. rewrite run_get.
    change (isArmed (set_commands _ s)) with (isArmed s). rewrite Ha, run_get. cbn [client_ set_commands].
    by rewrite Hc.
  - simpl. by rewrite <- app_assoc.
Qed.

Lemma two_jobs_queued_witness :
  let s := set_client open (sample_service WaitArm) in
  exists s1 s2,
    run_alone (requestCompanionJob JobRefresh [] false) s = Some (outcome_of Accepted, s1) /\
    run_alone (requestCompanionJob JobArchive [] false) s1 = Some (outcome_of Accepted, s2) /\
    companion_commands_ s2 = companion_commands_ s ++ [RefreshLogsCommand; StartArchiveCommand].
Proof. by apply (two_jobs_queued (set_client open (sample_service WaitArm))). Defined.

(** A page of the log list is the part of the cached listing it asks for, each
    log with the mark whether the catalog has it: consecutive pages put together
    are one page, and a page of everything from the start is the listing. *)
Theorem buildFcLogsPage_pages `{RowChoice} (s : Service) offset n m :
  0 <= offset -> 0 <= n -> 0 <= m -> offset + n + m < 2 ^ 31 ->
  zlen (cached_fc_logs_ (cycle_ s)) < 2 ^ 31 ->
  let page o l := pg_entries (buildFcLogsPage o l s) in
  page offset (n + m) = page offset n ++ page (offset + n) m /\
  (forall e, e ∈ page offset n ->
     fe_downloaded e = hasArchived (fe_id e) (fe_size e) (w_db (downloader_ s))) /\
  (zlen (cached_fc_logs_ (cycle_ s)) <= n ->
     fe_id <$> page 0 n = le_id <$> cached_fc_logs_ (cycle_ s)).
Proof.
  intros Ho Hn Hm Hb Hl. unfold buildFcLogsPage. cbn [pg_entries].
  set (cached := cached_fc_logs_ (cycle_ s)) in *. pose proof (zlen_nonneg cached) as H0. unfold zlen in *.
  rewrite !i32_small by lia. rewrite !Z.max_r by lia. split; [|split].
  - rewrite <- fmap_app. f_equal.
    set (len := Z.of_nat (length cached)).
    assert (forall o k, 0 <= o -> 0 <= k ->
      take (Z.to_nat (Z.min len (o + k) - o)) (drop (Z.to_nat o) cached) =
      take (Z.to_nat k) (drop (Z.to_nat o) cached)) as Hclip
      by (intros; apply take_clip; rewrite length_drop; lia).
    rewrite !Hclip, (Z2Nat.inj_add offset n), (Z2Nat.inj_add n m), <- drop_drop by lia.
    symmetry. apply take_take_drop.
  - intros e (e' & -> & _)%list_elem_of_fmap. done.
  - intros Hall. rewrite drop_0, take_ge by lia. rewrite <- list_fmap_compose. done.
Qed.

Definition sample_listing : Service :=
  set_cycle (set_cache [sample_entry; {| le_id := 2; le_num_logs := 2; le_last_log_num := 2;
                                         le_time_utc := 0; le_size := 7 |}] false
               (cycle_ (sample_service WaitArm))) (sample_service WaitArm).

Lemma buildFcLogsPage_pages_witness :
  let page o l := pg_entries (buildFcLogsPage o l sample_listing) in
  page 0 (1 + 1) = page 0 1 ++ page (0 + 1) 1 /\
  (forall e, e ∈ page 0 1 ->
     fe_downloaded e = hasArchived (fe_id e) (fe_size e) (w_db (downloader_ sample_listing))) /\
  (zlen (cached_fc_logs_ (cycle_ sample_listing)) <= 1 ->
     fe_id <$> page 0 1 = le_id <$> cached_fc_logs_ (cycle_ sample_listing)).
Proof. apply (buildFcLogsPage_pages sample_listing 0 1 1); try done; lia. Defined.
