(* ===== verification/ServiceCycle.v ===== *)
(** A whole archive cycle of the main loop, turn by turn: from the listing of the
    logs over the erasure to the cleanup and the waiting state, with what decides
    about LOG_ERASE and about a reconnection. *)

From S2P Require Import Prelude Effects LogProtocol Types FlightMonitor Database Storage Session.
From S2P Require Import Downloader DownloaderProofs ArchiveProofs Client Threads Service ServiceSafety ServiceProofs.
From S2P Require Import ServiceJobs CompanionTypes CompanionServer VideoRecorder.
Open Scope Z_scope.

(** When a finished cycle goes on to the erasure. *)
Definition may_erase (settings : DownloadSettings) (logs : list LogEntry) (result : ArchiveCycleResult) : bool :=
  negb (0 <? cy_cancelled result) && cy_all_archived result && erase_after_success settings &&
  negb (bool_decide (logs = [])).

(** When its outcome asks for a new connection; [failures]: the cycles that failed
    one after the other before. *)
Definition reconnect_due (settings : DownloadSettings) (failures : Z) (result : ArchiveCycleResult) : bool :=
  negb ((0 <? cy_cancelled result) && (cy_failed result =? 0)) &&
  negb (cy_all_archived result && (cy_failed result =? 0)) &&
  ((reconnect_on_transport_failure settings && isTransportFailure (cy_last_failure_reason result)) ||
   ((0 <? reconnect_after_consecutive_failures settings) &&
    (reconnect_after_consecutive_failures settings <=? failures + 1))).

Section Turns.
Context `{Platform} (settings : DownloadSettings) (heartbeat_timeout_sec : Z) (fuel : nat).
Context (Hprobe : 0 <= probe_bytes settings < 2 ^ 31) (Hfuel : cycle_fuel settings < Z.of_nat fuel).
Local Abbreviation process := (process_alone settings heartbeat_timeout_sec fuel).

(** What a turn keeps of the state machine. *)
Record same_flags (s s' : Service) : Prop := {
  sf_requested : archive_requested_ s' = archive_requested_ s;
  sf_monitor : monitor_ s' = monitor_ s;
}.

Lemma run_call_long {A} (m : M World A) (k : option A -> program Next) s a w' :
  m (downloader_ s) = (Ok a, w') ->
  run_alone (call_long m ≫= k) s = run_alone (k (Some a)) (set_downloader w' s).
Proof using Type. intros E. unfold call_long, call, atom. cbn [mbind prog_mbind prog_bind run_alone]. by rewrite E. Qed.

Lemma run_with_logs k s logs w' : enumerateLogs settings fuel (downloader_ s) = (Ok logs, w') ->
  run_alone (with_logs settings fuel k) s =
    run_alone (k logs) (set_cycle (set_cache logs false (cycle_ s)) (set_downloader w' s)).
Proof using Type. intros E. unfold with_logs. by rewrite (run_call_long _ _ _ _ _ E). Qed.

Lemma run_with_result logs k s result w' : archiveAll settings fuel logs (downloader_ s) = (Ok result, w') ->
  run_alone (with_result settings fuel logs k) s =
    run_alone (k result) (set_cycle (set_result result (cycle_ s)) (set_downloader w' s)).
Proof using Type. intros E. unfold with_result. by rewrite (run_call_long _ _ _ _ _ E). Qed.

(** The turn of [Archive], of a listing and an archiving that return. *)
Lemma archive_turn_run s logs w1 result w2 : state_ s = Archive ->
  enumerateLogs settings fuel (downloader_ s) = (Ok logs, w1) ->
  archiveAll settings fuel logs w1 = (Ok result, w2) ->
  process s = Some (on_downloader (pass_time (ms 100))
    (setState (if may_erase settings logs result then EraseAll else Cleanup)
      (set_cycle (set_result result (set_cache logs false (cycle_ s))) (set_downloader w2 s)))).
Proof using Type.
  intros Hs Ee Ea. unfold process_alone, processState, currentState. rewrite run_get, Hs.
  rewrite (run_with_logs _ _ _ _ Ee).
  rewrite (run_with_result logs _ (set_cycle (set_cache logs false (cycle_ s)) (set_downloader w1 s)) result w2 Ea).
  unfold may_erase. by destruct (_ && _).
Qed.

(** The listing and the downloads. *)
Lemma archive_turn s : state_ s = Archive -> link_ok False chunk_wf entry_ok (downloader_ s) ->
  exists s', process s = Some s' /\ same_flags s s' /\
    let logs := cached_fc_logs_ (cycle_ s') in
    let result := last_cycle_result_ (cycle_ s') in
    fc_logs_stale_ (cycle_ s') = false /\ Forall entry_ok logs /\
    (exists rs, counted default_cycle rs result /\ cy_all_archived result = forallb successful rs /\
       (length rs = length logs \/ last rs = Some ArchiveCancelled)) /\
    state_ s' = (if may_erase settings logs result then EraseAll else Cleanup) /\
    consecutive_archive_failures_ (cycle_ s') = consecutive_archive_failures_ (cycle_ s) /\
    erase_count (downloader_ s') = erase_count (downloader_ s).
Proof using Hfuel Hprobe.
  intros Hs Hl. set (w := downloader_ s) in *. pose proof (link_world _ _ _ _ Hl) as Hw.
  destruct (spec_total _ _ _ w (enumerate_entries settings fuel False chunk_wf entry_ok Hfuel w) Hw)
    as (logs & w1 & Ee & Hlogs & Hw1).
  destruct (spec_total _ _ _ w1 (archiveAll_spec settings False chunk_wf entry_ok (w_sent w) (fun c Hc => Hc)
    Hprobe False (w_db w) (w_storage w) (w_last_failure w) fuel logs Hlogs (or_intror Hfuel)) Hw1)
    as (result & w2 & Ea & rs & db' & st' & last' & (_ & Hc & Ha & Hlen & _) & (_ & _ & _ & _ & _ & Hsent)).
  eexists. split; [by eapply archive_turn_run|].
  split; [done|]. cbn. split; [done|]. split; [done|]. split; [by exists rs|]. split; [done|]. split; [done|].
  by apply (no_erase_count w).
Qed.

(** The erasure, unless it was cancelled meanwhile. *)
Lemma erase_turn s : state_ s = EraseAll ->
  exists s', process s = Some s' /\ same_flags s s' /\ cycle_ s' = cycle_ s /\ state_ s' = Cleanup /\
    erase_count (downloader_ s') =
      (erase_count (downloader_ s) + if (ld_cancelled settings (downloader_ s)).1 then 0 else 1)%nat.
Proof using Type.
  intros Hs. destruct (ld_cancelled settings (downloader_ s)) as [stop w] eqn:E.
  assert (erase_count w = erase_count (downloader_ s)) as Hw.
  { unfold ld_cancelled, atomic in E. by injection E as _ <-. }
  set (s1 := set_downloader w s).
  exists (on_downloader (pass_time (ms 100)) (setState Cleanup
    (if stop then s1 else set_downloader (eraseFlightControllerLogs settings w).2 s1))).
  split.
  { unfold process_alone, processState, currentState. rewrite run_get, Hs. unfold call, atom.
    cbn [mbind prog_mbind prog_bind run_alone]. rewrite E. destruct stop; [done|].
    cbn [downloader_ set_downloader mbind prog_mbind prog_bind run_alone].
    by destruct (eraseFlightControllerLogs settings w). }
  destruct stop; (split; [done|]); (split; [done|]); (split; [done|]).
  - rewrite Nat.add_0_r. exact Hw.
  - change (erase_count (eraseFlightControllerLogs settings w).2 = (erase_count (downloader_ s) + 1)%nat).
    rewrite erase_counted, Hw. lia.
Qed.

(** The cleanup, when no new connection is due. *)
Lemma cleanup_turn s : state_ s = Cleanup ->
  reconnect_due settings (consecutive_archive_failures_ (cycle_ s)) (last_cycle_result_ (cycle_ s)) = false ->
  exists s', process s = Some s' /\
    state_ s' = (if archive_requested_ s then Delay else if isArmed s then WaitDisarm else WaitArm) /\
    erase_count (downloader_ s') = erase_count (downloader_ s) /\
    w_storage (downloader_ s') = enforceStorageLimit (w_storage (downloader_ s)) /\
    w_db (downloader_ s') = w_db (cleanup_storage (downloader_ s)).
Proof using Type.
  intros Hs Hr. unfold reconnect_due in Hr. unfold process_alone, processState, currentState. rewrite run_get, Hs. unfold in_Cleanup.
  rewrite run_put, run_get, run_bind. cbn [cycle_ on_downloader set_downloader].
  set (s1 := on_downloader cleanup_storage s).
  assert (exists c, run_alone (evaluateArchiveOutcome settings heartbeat_timeout_sec (last_cycle_result_ (cycle_ s))) s1 =
                    Some (tt, set_cycle c s1)) as [c ->].
  { unfold evaluateArchiveOutcome. revert Hr. generalize (last_cycle_result_ (cycle_ s)) as r. intros r Hr.
    destruct ((0 <? cy_cancelled r) && (cy_failed r =? 0)); [exists (cycle_ s1); by destruct s|].
    destruct (cy_all_archived r && (cy_failed r =? 0)); [by eexists|]. cbn [negb andb] in Hr.
    rewrite run_put, run_get. change (cycle_ s1) with (cycle_ s).
    cbn [cycle_ set_cycle consecutive_archive_failures_ set_failures]. rewrite Hr. by eexists. }
  rewrite run_get. cbn [archive_requested_ set_cycle]. unfold returnToIdleState.
  change (archive_requested_ s1) with (archive_requested_ s).
  destruct (archive_requested_ s); (eexists; split; [reflexivity|done]).
Qed.
End Turns.

(** * Properties *)

(** C7. A cycle runs to its end.  Whatever the link delivers, from [Archive] a turn
    of the main loop lists the logs and takes them in order, counting their results;
    if none was cancelled, all were archived, erasing is enabled and there was a log,
    a second turn sends one LOG_ERASE, unless a cancellation came meanwhile, and
    otherwise none is sent; then the cleanup is reached.  When no new connection is
    due, one more turn enforces the storage limit and leads to the next cycle, if a
    disarm asked for it, and else to the state in which the vehicle's next arming or
    disarming is waited for. *)
Theorem cycle_completes `{Platform} settings heartbeat_timeout_sec fuel (s : Service) :
  0 <= probe_bytes settings < 2 ^ 31 -> cycle_fuel settings < Z.of_nat fuel ->
  state_ s = Archive -> link_ok False chunk_wf entry_ok (downloader_ s) ->
  let run := turns settings heartbeat_timeout_sec fuel in
  exists s1, run 1%nat s = Some s1 /\
  let logs := cached_fc_logs_ (cycle_ s1) in
  let result := last_cycle_result_ (cycle_ s1) in
  let erase := may_erase settings logs result in
  let stopped := (ld_cancelled settings (downloader_ s1)).1 in
  (exists rs, counted default_cycle rs result /\ cy_all_archived result = forallb successful rs /\
     (length rs = length logs \/ last rs = Some ArchiveCancelled)) /\
  exists s2, run (if erase then 1 else 0)%nat s1 = Some s2 /\ state_ s2 = Cleanup /\
  erase_count (downloader_ s2) =
    (erase_count (downloader_ s) + if erase && negb stopped then 1 else 0)%nat /\
  (reconnect_due settings (consecutive_archive_failures_ (cycle_ s)) result = false ->
   exists s3, run 1%nat s2 = Some s3 /\
     state_ s3 = (if archive_requested_ s then Delay else if isArmed s then WaitDisarm else WaitArm) /\
     erase_count (downloader_ s3) = erase_count (downloader_ s2) /\
     w_storage (downloader_ s3) = enforceStorageLimit (w_storage (downloader_ s2))).
Proof.
  intros Hp Hf Hs Hl run.
  destruct (archive_turn settings heartbeat_timeout_sec fuel Hp Hf s Hs Hl)
    as (s1 & E1 & [Hq1 Hm1] & _ & _ & Hrs & Hst1 & Hfail & He1).
  exists s1. split; [unfold run; simpl; by rewrite E1|]. intros logs result erase stopped. split; [done|].
  assert (exists s2, turns settings heartbeat_timeout_sec fuel (if erase then 1 else 0)%nat s1 = Some s2 /\
    same_flags s1 s2 /\ cycle_ s2 = cycle_ s1 /\ state_ s2 = Cleanup /\
    erase_count (downloader_ s2) = (erase_count (downloader_ s1) + if erase && negb stopped then 1 else 0)%nat)
    as (s2 & E2 & [Hq2 Hm2] & Hc2 & Hst2 & He2).
  { fold logs result erase in Hst1. destruct erase.
    - destruct (erase_turn settings heartbeat_timeout_sec fuel s1 Hst1) as (s2 & E2 & Hsame & Hc & Hst2 & He2).
      exists s2. split; [simpl; by rewrite E2|]. split; [done|]. split; [done|]. split; [done|].
      rewrite He2. unfold stopped. by destruct (ld_cancelled settings (downloader_ s1)).1.
    - exists s1. by split_and!. }
  exists s2. split; [done|]. split; [done|]. split; [by rewrite He2, He1|]. intros Hr.
  destruct (cleanup_turn settings heartbeat_timeout_sec fuel s2 Hst2) as (s3 & E3 & Hst3 & He3 & Hw3 & _).
  { rewrite Hc2, Hfail. exact Hr. }
  exists s3. split; [unfold run; simpl; by rewrite E3|]. split; [|by split].
  rewrite Hst3, Hq2, Hq1. unfold isArmed. by rewrite Hm2, Hm1.
Qed.

Lemma cycle_completes_witness :
  let fuel := Z.to_nat (1 + cycle_fuel default_download) in
  let s := sample_service Archive in
  let run := turns default_download 10 fuel in
  exists s1, run 1%nat s = Some s1 /\
  let logs := cached_fc_logs_ (cycle_ s1) in
  let result := last_cycle_result_ (cycle_ s1) in
  let erase := may_erase default_download logs result in
  let stopped := (ld_cancelled default_download (downloader_ s1)).1 in
  (exists rs, counted default_cycle rs result /\ cy_all_archived result = forallb successful rs /\
     (length rs = length logs \/ last rs = Some ArchiveCancelled)) /\
  exists s2, run (if erase then 1 else 0)%nat s1 = Some s2 /\ state_ s2 = Cleanup /\
  erase_count (downloader_ s2) =
    (erase_count (downloader_ s) + if erase && negb stopped then 1 else 0)%nat /\
  (reconnect_due default_download (consecutive_archive_failures_ (cycle_ s)) result = false ->
   exists s3, run 1%nat s2 = Some s3 /\
     state_ s3 = (if archive_requested_ s then Delay else if isArmed s then WaitDisarm else WaitArm) /\
     erase_count (downloader_ s3) = erase_count (downloader_ s2) /\
     w_storage (downloader_ s3) = enforceStorageLimit (w_storage (downloader_ s2))).
Proof.
  intros fuel s. apply (cycle_completes default_download 10 fuel s).
  - simpl. lia.
  - assert (0 <= cycle_fuel default_download) by (vm_compute; discriminate). unfold fuel. rewrite Z2Nat.id; lia.
  - reflexivity.
  - exact sample_flight_ok.
Defined.

(** The cycle of the sample flight sends its LOG_ERASE and returns to waiting. *)
Example sample_cycle :
  match turns default_download 10 80 3 (sample_service Archive) with
  | Some s => state_ s = WaitArm /\ erase_count (downloader_ s) = 1%nat /\
              cy_downloaded (last_cycle_result_ (cycle_ s)) = 1
  | None => False
  end.
Proof. vm_compute. split_and!; reflexivity. Qed.
