(* ===== verification/CycleSuccess.v ===== *)
(** Completeness of a cycle: when every log that was listed is new and answered, all
    of them are archived, LOG_ERASE is sent, and the cycle ends with the catalog's
    rows marked as erased.

    [all_answered] follows the run: each log is answered in the world its turn begins
    in. *)

From S2P Require Import Prelude Effects LogProtocol Types FlightMonitor DataFlash Database Storage Session.
From S2P Require Import Downloader DownloaderProofs ArchiveProofs ArchiveSuccess RereadSuccess Client Threads Service.
From S2P Require Import ServiceSafety ServiceProofs ServiceJobs ServiceCycle.
Open Scope Z_scope.

(** Every log, when its turn comes, is new to the catalog, answered and accepted. *)
Fixpoint all_answered `{Platform} (settings : DownloadSettings) (contents : Z -> list Z) (fuel : nat)
    (logs : list LogEntry) (w : World) : Prop :=
  match logs with
  | [] => True
  | entry :: logs' =>
      let w1 := (ld_cancelled settings w).2 in
      0 < le_size entry < 2 ^ 31 /\ le_size entry = zlen (contents (le_id entry)) /\
      accepted settings entry (contents (le_id entry)) /\
      findCandidate (le_id entry) (le_size entry) (w_db w1) = None /\
      answered settings (le_id entry) (contents (le_id entry)) w1 /\
      second_answers settings fuel entry (contents (le_id entry)) w1 /\
      all_answered settings contents fuel logs' (archiveOne settings fuel entry w1).2
  end.

(** Results that are all counted as [r]. *)
Lemma occurrences_all r rs : occurrences r rs = zlen rs -> rs = replicate (length rs) r.
Proof.
  unfold occurrences, zlen. induction rs as [|r' rs IH]; [done|]. rewrite filter_cons. intros Hn.
  pose proof (length_filter (fun x => x = r) rs) as Hle. case_decide as Hr; simpl in Hn; [|lia].
  simpl. rewrite Hr. f_equal. apply IH. lia.
Qed.

Section Cycle.
Context `{Platform} (settings : DownloadSettings) (contents : Z -> list Z) (fuel : nat).
Context (Hprobe : 0 <= probe_bytes settings < 2 ^ 31) (Hretry : 0 <= retry_count settings).
Context (Hcount : verify_fc_reread_sample_count settings < 2 ^ 31).
Context (Hfuel : cycle_fuel settings < Z.of_nat fuel).

Local Abbreviation honest_link := (link_ok True (honest contents) (fun _ => True)).

(** The counters after [n] more downloads. *)
Definition downloads (n : Z) (c : ArchiveCycleResult) : ArchiveCycleResult :=
  {| cy_downloaded := cy_downloaded c + n; cy_skipped := cy_skipped c; cy_failed := cy_failed c;
     cy_cancelled := cy_cancelled c; cy_all_archived := cy_all_archived c;
     cy_last_failure_reason := cy_last_failure_reason c |}.

Lemma cancelled_link w : honest_link w -> honest_link (ld_cancelled settings w).2.
Proof using Type.
  intros Hw. destruct (read_op settings True (honest contents) (fun _ => True) (w_sent w) (w_db w) (w_storage w)
    (w_last_failure w) (fun w => sh_cancel (w_shared w)) w (link_world _ _ _ w Hw)) as [(Hs & Hsh & _) _].
  by split.
Qed.

(** The loop over logs that are all answered. *)
Lemma answered_loop logs : forall c w, honest_link w -> all_answered settings contents fuel logs w ->
  exists w', archive_loop settings fuel logs false c w = (Ok (false, downloads (zlen logs) c), w') /\ honest_link w'.
Proof using All.
  induction logs as [|entry logs IH]; intros c w Hw Hans; cbn [archive_loop].
  { exists w. split; [|done]. unfold downloads, zlen. simpl. rewrite Z.add_0_r. by destruct c. }
  destruct Hans as (Hs & Hlen & Hacc & Hnew & Ha & Hsecond & Hrest). set (w1 := (ld_cancelled settings w).2) in *.
  assert (ld_cancelled settings w = (false, w1)) as Ec.
  { destruct Ha as ((Hc & _) & _). subst w1. unfold ld_cancelled, atomic in *.
    destruct (interfere settings w) as [k w']. cbn [fst snd] in *. by rewrite Hc. }
  unfold mbind at 1, M_bind at 1, op at 1. rewrite Ec.
  destruct (answered_archives settings contents fuel entry w1 Hprobe Hretry Hcount Hs Hlen Hacc
    (cancelled_link w Hw) Hnew Ha Hsecond Hfuel) as (w2 & E2 & _ & Hw2).
  unfold mbind at 1, M_bind at 1. rewrite E2. unfold mbind at 1, M_bind at 1, op at 1.
  rewrite E2 in Hrest. destruct (IH (count_result Downloaded (w_last_failure w2) c) w2 Hw2 Hrest) as (w' & E & Hw').
  exists w'. split; [|done]. rewrite E. unfold downloads. cbn.
  by replace (cy_downloaded c + 1 + zlen logs) with (cy_downloaded c + zlen (entry :: logs)) by (unfold zlen; simpl; lia).
Qed.

Lemma all_answered_entries logs : forall w, all_answered settings contents fuel logs w -> Forall entry_ok logs.
Proof using Type.
  induction logs as [|entry logs IH]; intros w Hans; [constructor|]. destruct Hans as (Hs & _ & _ & _ & _ & _ & Hrest).
  constructor; [unfold entry_ok; lia|by eapply IH].
Qed.

(** A cycle over them: every one is downloaded, archived with its bytes and catalogued. *)
Lemma answered_cycle sent0 db st last logs w :
  good_world True (honest contents) (fun _ => True) (exactly sent0 db st last) w ->
  all_answered settings contents fuel logs w ->
  exists w', archiveAll settings fuel logs w =
    (Ok {| cy_downloaded := zlen logs; cy_skipped := 0; cy_failed := 0; cy_cancelled := 0;
           cy_all_archived := true; cy_last_failure_reason := NoFailure |}, w') /\
    archive_run settings True (honest contents) (fun _ => True) sent0 db st logs
      (replicate (length logs) Downloaded) (w_db w') (w_storage w') /\
    no_erase_since sent0 (w_sent w').
Proof using All.
  intros Hw Hans. assert (honest_link w) as Hl by (destruct Hw as (Hs & Hsh & _); by split).
  destruct (answered_loop logs default_cycle w Hl Hans) as (w1 & E & _).
  destruct (spec_total _ _ _ w (archiveAll_spec settings True (honest contents) (fun _ => True) sent0
    (honest_wf contents) Hprobe False db st last fuel logs (all_answered_entries logs w Hans) (or_intror Hfuel)) Hw)
    as (c & w' & Hrun & rs & db' & st' & last' & (Har & (Hd & _) & Ha & Hl' & _) & (_ & _ & <- & <- & _ & Hsent)).
  assert (c = {| cy_downloaded := zlen logs; cy_skipped := 0; cy_failed := 0; cy_cancelled := 0;
                 cy_all_archived := true; cy_last_failure_reason := NoFailure |}) as ->.
  { revert Hrun. unfold archiveAll, with_scope_exit. unfold mbind at 1, M_bind at 1. rewrite E. by intros [= <- _]. }
  exists w'. split; [exact Hrun|]. split; [|done]. cbn in Hd, Ha.
  assert (length rs = length logs) as Hlen.
  { destruct Hl' as [|Hl']; [done|]. apply last_Some in Hl' as [l ->]. rewrite forallb_app in Ha. simpl in Ha.
    by rewrite andb_false_r in Ha. }
  rewrite Hlen, take_ge in Har by lia. rewrite <- Hlen, <- (occurrences_all Downloaded rs); [done|].
  unfold zlen in *. lia.
Qed.
End Cycle.

(** The erasure that nobody cancels: the request, and the rows when it was sent. *)
Lemma erase_turn_marks `{Platform} settings heartbeat_timeout_sec fuel s :
  state_ s = EraseAll -> (ld_cancelled settings (downloader_ s)).1 = false ->
  exists s' sent, process_alone settings heartbeat_timeout_sec fuel s = Some s' /\ state_ s' = Cleanup /\
    w_sent (downloader_ s') = w_sent (downloader_ s) ++ [(LogErase, sent)] /\
    (sent = true -> w_db (downloader_ s') = markAllErased (w_db (downloader_ s))) /\
    (sent = false -> w_db (downloader_ s') = w_db (downloader_ s)) /\
    w_storage (downloader_ s') = w_storage (downloader_ s).
Proof.
  intros Hs Hc. destruct (ld_cancelled settings (downloader_ s)) as [stop w] eqn:E. simpl in Hc. subst stop.
  assert (w_sent w = w_sent (downloader_ s) /\ w_db w = w_db (downloader_ s) /\
    w_storage w = w_storage (downloader_ s)) as (Hw & Hdb & Hst).
  { unfold ld_cancelled, atomic in E. by injection E as _ <-. }
  unfold process_alone, processState, currentState. rewrite run_get, Hs. unfold call, atom.
  cbn [mbind prog_mbind prog_bind run_alone]. rewrite E. cbn [downloader_ set_downloader mbind prog_mbind prog_bind run_alone].
  unfold eraseFlightControllerLogs, sendMessage, atomic. destruct (interfere settings w) as [k w'] eqn:Ei.
  assert (w_sent w' = w_sent w /\ w_db w' = w_db w /\ w_storage w' = w_storage w) as (Hw' & Hdb' & Hst')
    by (unfold interfere in Ei; by injection Ei as _ <-).
  destruct (k_send_ok k) eqn:Ek; (eexists _, _; split; [reflexivity|]); (split; [done|]); cbn;
    rewrite Hw', Hw, Hst', Hst, Hdb', Hdb; by split_and!.
Qed.

(** * Properties *)

(** C8. A whole cycle does what it is for.  From [Archive], when the enumeration finds
    some logs and every one of them is new to the catalog, accepted by the checks and
    answered in its turn, once more for the samples that are read again, one turn of
    the main loop downloads them all: the file of each is stored with exactly its
    bytes and catalogued, the counters say so, and no LOG_ERASE was sent yet.  Unless
    a cancellation comes in between, the second turn sends it, once, and when the message went out every row is marked as erased; then
    comes the cleanup. *)
Theorem cycle_succeeds `{Platform} settings contents heartbeat_timeout_sec fuel (s : Service) logs w1 :
  0 <= probe_bytes settings < 2 ^ 31 -> 0 <= retry_count settings ->
  verify_fc_reread_sample_count settings < 2 ^ 31 -> erase_after_success settings = true ->
  cycle_fuel settings < Z.of_nat fuel ->
  state_ s = Archive -> link_ok True (honest contents) (fun _ => True) (downloader_ s) ->
  enumerateLogs settings fuel (downloader_ s) = (Ok logs, w1) -> logs <> [] ->
  all_answered settings contents fuel logs w1 ->
  let run := turns settings heartbeat_timeout_sec fuel in
  let w := downloader_ s in
  exists s1, run 1%nat s = Some s1 /\ state_ s1 = EraseAll /\ cached_fc_logs_ (cycle_ s1) = logs /\
    cy_downloaded (last_cycle_result_ (cycle_ s1)) = zlen logs /\
    cy_all_archived (last_cycle_result_ (cycle_ s1)) = true /\
    archive_run settings True (honest contents) (fun _ => True) (w_sent w) (w_db w) (w_storage w) logs
      (replicate (length logs) Downloaded) (w_db (downloader_ s1)) (w_storage (downloader_ s1)) /\
    no_erase_since (w_sent w) (w_sent (downloader_ s1)) /\
    ((ld_cancelled settings (downloader_ s1)).1 = false ->
     exists s2 sent, run 1%nat s1 = Some s2 /\ state_ s2 = Cleanup /\
       w_sent (downloader_ s2) = w_sent (downloader_ s1) ++ [(LogErase, sent)] /\
       (sent = true -> w_db (downloader_ s2) = markAllErased (w_db (downloader_ s1)))).
Proof.
  intros Hp Hr Hre Her Hf Hs Hl Ee Hne Hans run w.
  destruct (spec_run _ _ _ _ w _ _ (enumerate_entries settings fuel True (honest contents) (fun _ => True) Hf w)
    (link_world _ _ _ w Hl) Ee) as [_ Hw1].
  destruct (answered_cycle settings contents fuel Hp Hr Hre Hf _ _ _ _ logs w1 Hw1 Hans)
    as (w2 & Ea & Har & Hsent).
  pose proof (archive_turn_run settings heartbeat_timeout_sec fuel s logs w1 _ w2 Hs Ee Ea) as Hturn.
  unfold may_erase in Hturn. rewrite Her, bool_decide_eq_false_2 in Hturn by done. cbn [cy_cancelled cy_all_archived] in Hturn.
  change (negb (0 <? 0) && true && true && negb false) with true in Hturn. cbv iota in Hturn.
  set (s1 := on_downloader _ _) in Hturn.
  exists s1. split; [unfold run; cbn [turns]; rewrite Hturn; reflexivity|]. do 6 (split; [done|]). intros Hc.
  destruct (erase_turn_marks settings heartbeat_timeout_sec fuel s1 eq_refl Hc)
    as (s2 & sent & E2 & Hst2 & Hsent2 & Hdb2 & _).
  exists s2, sent. split; [unfold run; cbn [turns]; rewrite E2; reflexivity|done].
Qed.

(** ** A flight whose log is answered *)

Definition answered_flight : World :=
  {| w_shared := w_shared sample_world; w_last_failure := NoFailure; w_progress := no_progress;
     w_progress_begin := 0; w_now := 5000; w_wall := 1700000001000000000; w_db := empty_database;
     w_storage := w_storage sample_world; w_sent := [];
     w_script := replicate 3 (plain_tick 0 [Receive (LogEntryFrame sample_entry)]) ++
                 replicate 8 (plain_tick 400000000 []) ++ replicate 60 quiet_tick ++ [sample_tick] ++
                 replicate 60 quiet_tick ++ [sample_tick] |}.

Definition answered_service : Service := setState Archive (set_downloader answered_flight (sample_service Archive)).

Definition listed_world : World := (enumerateLogs default_download 80 answered_flight).2.

Lemma listing rest : enumerateLogs default_download (80 + rest) answered_flight = (Ok [sample_entry], listed_world).
Proof. vm_compute. reflexivity. Qed.

(** The world the download of the listed log begins in. *)
Definition first_world : World := (ld_cancelled default_download listed_world).2.

Lemma first_script :
  w_script first_world = replicate (8 + 51) quiet_tick ++ [sample_tick] ++ replicate 60 quiet_tick ++ [sample_tick].
Proof. vm_compute. reflexivity. Qed.

Lemma first_answered : answered default_download 1 sample_content first_world.
Proof. by apply (sample_answered _ 51 60 first_script); [vm_compute|]. Qed.

Lemma first_downloaded_script rest :
  w_script (before_reread default_download (80 + rest) sample_entry (ld_cancelled default_download first_world).2).2 =
    replicate (2 + 47) quiet_tick ++ [sample_tick].
Proof. vm_compute. reflexivity. Qed.

Lemma first_again rest : second_answers default_download (80 + rest) sample_entry sample_content first_world.
Proof. apply (sample_second _ _ 47 (first_downloaded_script rest)). lia. Qed.

Lemma answered_flight_ok : link_ok True (honest sample_contents) (fun _ => True) answered_flight.
Proof.
  split; [|exact (proj2 sample_link_ok)]. unfold answered_flight. cbn [w_script].
  apply Forall_app. split; [|apply Forall_app; split; [|apply sample_script_link]];
    apply Forall_replicate; (split; [done|split; [repeat constructor; done|done]]).
Qed.

Lemma cycle_succeeds_witness :
  let fuel := (80 + Z.to_nat (cycle_fuel default_download))%nat in
  exists s1, turns default_download 10 fuel 1 answered_service = Some s1 /\ state_ s1 = EraseAll /\
    cached_fc_logs_ (cycle_ s1) = [sample_entry] /\ cy_downloaded (last_cycle_result_ (cycle_ s1)) = 1 /\
    ((ld_cancelled default_download (downloader_ s1)).1 = false ->
     exists s2 sent, turns default_download 10 fuel 1 s1 = Some s2 /\ state_ s2 = Cleanup /\
       w_sent (downloader_ s2) = w_sent (downloader_ s1) ++ [(LogErase, sent)] /\
       (sent = true -> w_db (downloader_ s2) = markAllErased (w_db (downloader_ s1)))).
Proof.
  intros fuel.
  destruct (cycle_succeeds default_download sample_contents 10 fuel answered_service [sample_entry] listed_world)
    as (s1 & H1 & H2 & H3 & H4 & _ & _ & _ & H5).
  - simpl. lia.
  - simpl. lia.
  - simpl. lia.
  - reflexivity.
  - unfold fuel. rewrite Nat2Z.inj_add, Z2Nat.id; [lia|]. vm_compute. discriminate.
  - reflexivity.
  - exact answered_flight_ok.
  - apply listing.
  - discriminate.
  - split; [simpl; lia|]. split; [vm_compute; reflexivity|]. split; [exact sample_accepted|].
    split; [vm_compute; reflexivity|]. split; [exact first_answered|]. split; [apply first_again|exact I].
  - exists s1. split; [exact H1|]. split; [exact H2|]. split; [exact H3|]. split; [exact H4|exact H5].
Defined.
