(* ===== verification/ServiceFaults.v ===== *)
(** Faults of the service: a link timeout seen on the receiving thread terminates the
    process, and LOG_ERASE is sent for logs whose archives were evicted. *)

From S2P Require Import Prelude Effects LogProtocol Types FlightMonitor Database Storage.
From S2P Require Import Session Downloader DownloaderProofs ArchiveProofs Client Threads.
From S2P Require Import Json JsonSample CompanionTypes CompanionProtocol CompanionServer VideoRecorder.
From S2P Require Import Service ServiceSafety ServiceProofs ServiceJobs ServiceCycle CycleSuccess.
Open Scope Z_scope.

(** * The receiving thread joins itself *)

(** The receiving thread is between two messages, and [m] is the next one. *)
Record receives (m : Message) (s : Service) : Prop := {
  re_alive : cl_rx_alive (client_ s) = true;
  re_running : cl_running (client_ s) = true;
  re_transport : cl_transport (client_ s) = true;
  re_message : exists rest, inbox (outside s) = Parsed m :: rest;
  re_process : terminated s = false;
}.

(** The message brings the flight monitor no news, and the link counts as up. *)
Definition no_news (m : Message) (s : Service) : Prop :=
  link_lost_ (monitor_ s) = false /\
  match m with
  | LogMessage _ => True
  | HeartbeatMessage i base_mode => (onHeartbeat i (armed_flag base_mode) (monitor_ s)).1 = []
  end.

(** The states in which a lost link is acted on. *)
Definition watches_link (x : State) : Prop := isArchiveBusy x = false /\ x <> ConnectionLost /\ x <> Boot.

Lemma no_news_link i armed m : (onHeartbeat i armed m).1 = [] -> link_lost_ m = false ->
  link_lost_ (onHeartbeat i armed m).2 = false.
Proof.
  unfold onHeartbeat. destruct m as [a d l sy co ty au f]. cbn. intros He ->. revert He.
  destruct d; cbn; [|done]. destruct (bool_decide _); cbn; [|done]. by destruct f, armed, a.
Qed.

Section SelfJoin.
Context `{Platform} `{JsonLibrary} (settings : DownloadSettings) (companion : CompanionSettings)
  (recording : RecordingSettings) (heartbeat_timeout_sec : Z) (fuel : nat).
Local Abbreviation body := (body settings companion recording heartbeat_timeout_sec fuel).
Local Abbreviation run := (service_run settings companion recording heartbeat_timeout_sec fuel).

(** The end of [onMavlinkMessage], on the receiving thread. *)
Definition after_message : program Next :=
  fresh ← heartbeatFresh_ heartbeat_timeout_sec;
  (if negb fresh then monitor_call onLinkTimeout else mret tt);;
  mret NextReceive.

(** Six steps of the thread: to the end of the message's own handling. *)
Lemma message_handled m s : receives m s -> no_news m s ->
  exists s1, steps_alone body terminated 6 (Ret NextReceive) s = Some (after_message, s1) /\
    terminated s1 = false /\ delays (outside s1) = delays (outside s) /\ state_ s1 = state_ s /\
    link_lost_ (monitor_ s1) = false /\ cl_last_heartbeat (client_ s1) = w_now (downloader_ s1).
Proof using Type.
  intros [Ha Hr Ht [rest Hin] Hp] [Hl Hm].
  destruct s as [x ar ru dt cl mo cy cc cs w o te]. destruct cl, o. cbn in *. subst.
  destruct m as [f|i b].
  - eexists. split; [reflexivity|]. by split_and!.
  - pose proof (no_news_link _ _ _ Hm Hl) as Hl'. destruct (onHeartbeat i (armed_flag b) mo) as [ev mo'] eqn:E.
    cbn in Hm, Hl'. subst ev. eexists. split; [cbn; rewrite E; reflexivity|]. by split_and!.
Qed.

(** Seven more, when the heartbeat is not fresh: the process is gone. *)
Lemma timeout_terminates s : terminated s = false -> link_lost_ (monitor_ s) = false ->
  watches_link (state_ s) -> heartbeatFresh heartbeat_timeout_sec (w_now (downloader_ s)) (client_ s) = false ->
  exists p s1, steps_alone body terminated 7 after_message s = Some (p, s1) /\ terminated s1 = true /\
    w_db (downloader_ s1) = w_db (downloader_ s) /\ w_storage (downloader_ s1) = w_storage (downloader_ s).
Proof using Type.
  intros Hp Hl (Hb & Hc & Hboot) Hf.
  destruct s as [x ar ru dt cl mo cy cc cs w o te]. destruct mo as [ma md ml sy co ty au fh]. cbn in *. subst te ml.
  unfold after_message, heartbeatFresh_.
  cbn [steps_alone terminated get atom mbind prog_mbind prog_bind downloader_ client_]. rewrite Hf.
  destruct x; try done; (eexists _, _; split; [reflexivity|done]).
Qed.

(** Two steps of the time. *)
Lemma time_passes s d rest : terminated s = false -> delays (outside s) = d :: rest ->
  exists s1, steps_alone body terminated 2 (Ret NextTime) s = Some (Ret NextTime, s1) /\
    s1 = on_downloader (pass_time d) (set_outside (with_delays rest (outside s)) s).
Proof using Type.
  intros Hp Hd. destruct s as [x ar ru dt cl mo cy cc cs w o te]. destruct o. cbn in *. subst.
  eexists. by split.
Qed.
End SelfJoin.

Lemma none_cancelled rs : forallb successful rs = true -> occurrences ArchiveCancelled rs = 0.
Proof.
  unfold occurrences. induction rs as [|r rs IH]; [done|]. cbn [forallb]. intros [Hr Hrs]%andb_true_iff.
  rewrite filter_cons_False by (by intros ->). by apply IH.
Qed.

(** A cycle that archives everything and downloads nothing: the files and the rows stay
    as they are, and the erasure is next. *)
Lemma skipping_cycle `{Platform} settings fuel : 0 <= probe_bytes settings < 2 ^ 31 ->
  cycle_fuel settings < Z.of_nat fuel -> forall (s : Service) logs w1 result w2,
  link_ok False chunk_wf entry_ok (downloader_ s) ->
  enumerateLogs settings fuel (downloader_ s) = (Ok logs, w1) ->
  archiveAll settings fuel logs w1 = (Ok result, w2) ->
  cy_all_archived result = true -> cy_downloaded result = 0 ->
  (erase_after_success settings = true -> logs <> [] -> may_erase settings logs result = true) /\
  w_storage w2 = w_storage (downloader_ s) /\ archived_logs (w_db w2) = archived_logs (w_db (downloader_ s)).
Proof.
  intros Hprobe Hfuel s logs w1 result w2 Hl Ee Ea Hall Hdown. set (w := downloader_ s) in *.
  destruct (spec_run _ _ _ _ w _ _ (enumerate_entries settings fuel False chunk_wf entry_ok Hfuel w)
    (link_world _ _ _ w Hl) Ee) as [Hlogs Hw1].
  destruct (spec_run _ _ _ _ w1 _ _ (archiveAll_spec settings False chunk_wf entry_ok (w_sent w) (fun c Hc => Hc)
    Hprobe False (w_db w) (w_storage w) (w_last_failure w) fuel logs Hlogs (or_intror Hfuel)) Hw1 Ea)
    as (rs & db' & st' & last' & (Hrun & (Hd & _ & _ & Hcancelled) & Ha & _) & (_ & _ & <- & <- & _)).
  rewrite Ha in Hall. cbn in Hd, Hcancelled.
  destruct (skipped_run _ _ _ _ _ _ _ _ _ _ _ Hrun Hall ltac:(lia)) as [-> ->].
  split; [|done]. intros Her Hne. unfold may_erase. rewrite Ha, Hall, Her, bool_decide_eq_false_2, Hcancelled by done.
  rewrite none_cancelled by done. done.
Qed.

(** ** A vehicle on the ground *)

(** It sends two heartbeats; eleven seconds pass while the second is handled. *)
Definition slow_outside : Outside :=
  {| inbox := [sample_heartbeat false; sample_heartbeat false]; datagrams := []; connects := [true];
     sends_ok := []; os_views := []; delays := [seconds 11]; signals := 0 |}.

(** Up to the end of the first heartbeat's handling. *)
Definition slow_run : Sys Service Next Thread :=
  service_run default_download default_companion default_recording 10 80
    (replicate 20 Main ++ replicate 8 Receiver ++ replicate 20 Main)
    (boot default_companion (true, true, true) slow_outside sample_flight).

(** * The archive is evicted *)

(** The flight controller lists its log, for a listing that lasts its three seconds. *)
Definition listing_ticks : list Tick :=
  replicate 3 (plain_tick 0 [Receive (LogEntryFrame sample_entry)]) ++ replicate 8 (plain_tick 400000000 []).

(** A flight controller that still has its log after the first LOG_ERASE, and a
    storage limit below the size of the log. *)
Definition small_disk : World :=
  {| w_shared := w_shared sample_world; w_last_failure := NoFailure; w_progress := no_progress;
     w_progress_begin := 0; w_now := 5000; w_wall := 1700000001000000000; w_db := empty_database;
     w_storage := {| st_root := ["var"%string]; st_max_size_gb := 0; st_fs := ∅; st_partial_counter := 0 |};
     w_sent := [];
     w_script := listing_ticks ++ replicate 60 sample_tick ++ listing_ticks ++ replicate 60 sample_tick |}.

(** The service in [Archive], and a disarm came meanwhile. *)
Definition two_flights : Service :=
  set_requested true (set_downloader small_disk (sample_service Archive)).

(** It downloads the log and sends its LOG_ERASE; the cleanup is next. *)
Definition before_cleanup : Service :=
  Eval vm_compute in default two_flights (turns default_download 10 80 2 two_flights).

(** The cleanup, five seconds later the end of the delay, and the second listing is next. *)
Definition second_cycle : Service :=
  Eval vm_compute in default two_flights
    (s ← turns default_download 10 80 1 before_cleanup;
     turns default_download 10 80 2 (on_downloader (pass_time (seconds 5)) s)).

Definition second_listing : World :=
  Eval vm_compute in (enumerateLogs default_download 80 (downloader_ second_cycle)).2.

Definition second_archive : World :=
  Eval vm_compute in (archiveAll default_download 80 [sample_entry] second_listing).2.

Definition only_skipped : ArchiveCycleResult :=
  {| cy_downloaded := 0; cy_skipped := 1; cy_failed := 0; cy_cancelled := 0; cy_all_archived := true;
     cy_last_failure_reason := NoFailure |}.

Lemma second_cycle_lists rest :
  enumerateLogs default_download (80 + rest) (downloader_ second_cycle) = (Ok [sample_entry], second_listing).
Proof. vm_compute. reflexivity. Qed.

Lemma second_cycle_skips rest :
  archiveAll default_download (80 + rest) [sample_entry] second_listing = (Ok only_skipped, second_archive).
Proof. vm_compute. reflexivity. Qed.

(** The turn of the cleanup. *)
Definition cleaned_service : Service :=
  Eval vm_compute in default two_flights (turns default_download 10 80 1 before_cleanup).

Lemma before_cleanup_turn rest :
  process_alone default_download 10 (80 + rest) before_cleanup = Some cleaned_service.
Proof. vm_compute. reflexivity. Qed.

(** The archive of the first cycle. *)
Definition first_archive : path :=
  ["var"; "logs"; "%Y-%m-%d1699920000"; "%Y-%m-%d_%H-%M-%S1700000004.bin"]%string.

(** Its row in the catalog. *)
Definition first_digest : string := "9ec51d8f0b4c08d03c1f30e70b787276215be7002f747951424edbc12fe04f94".

Definition first_row : Row :=
  Eval vm_compute in
  default {| row_log_id := 0; row_log_size := 0; row_log_time_utc := 0; row_probe_sha256 := ""; row_probe_bytes := 0;
             row_archive_time := 0; row_duration_ms := 0; row_filename := ""; row_erased := false |}
    (archived_logs (w_db (downloader_ before_cleanup)) !! first_digest).

Lemma second_cycle_link : link_ok False chunk_wf entry_ok (downloader_ second_cycle).
Proof.
  assert (good_tick False chunk_wf entry_ok sample_tick) as Hdata
    by (destruct sample_flight_ok as [Hs _]; rewrite Forall_forall in Hs; apply Hs;
        unfold sample_flight; cbn [w_script]; rewrite !elem_of_app; right; right; by left).
  split.
  - assert (w_script (downloader_ second_cycle) = replicate 2 sample_tick ++ listing_ticks ++ replicate 60 sample_tick)
      as -> by (vm_compute; reflexivity).
    unfold listing_ticks. rewrite !Forall_app. split_and!; apply Forall_replicate; try exact Hdata;
      (split; [done|]; split; [|done]); repeat constructor; simpl; try done; unfold entry_ok; simpl; lia.
  - split; [|repeat constructor; unfold entry_ok; simpl; lia]. cbn [second_cycle downloader_ w_shared sh_chunks].
    repeat (constructor; [vm_compute; intuition congruence|]). constructor.
Qed.

(** * Properties *)

(** C37. A link timeout on the receiving thread ends the process.  A message that brings
    the flight monitor no news refreshes the heartbeat; when its own handling lasts
    longer than the heartbeat timeout, the check that follows finds the link lost, and
    in every state that acts on that the thread closes the client and joins itself.
    [std::thread::join] of the calling thread throws, nothing catches it, and the
    process is terminated, whatever the other threads are doing: no thread takes
    another step. *)
Theorem link_timeout_terminates `{Platform} `{JsonLibrary} settings companion recording heartbeat_timeout_sec fuel
    (c : Sys Service Next Thread) m d rest :
  threads c Receiver = Ret NextReceive -> threads c Time = Ret NextTime ->
  receives m (shared c) -> no_news m (shared c) -> watches_link (state_ (shared c)) ->
  delays (outside (shared c)) = d :: rest -> seconds heartbeat_timeout_sec < d ->
  let run := service_run settings companion recording heartbeat_timeout_sec fuel in
  exists ts, let after := run ts c in
    terminated (shared after) = true /\ forall ts', run ts' after = after.
Proof.
  intros Hr Ht Hm Hn Hw Hd Hlong run.
  destruct (message_handled settings companion recording heartbeat_timeout_sec fuel m (shared c) Hm Hn)
    as (s1 & E1 & Hp1 & Hd1 & Hst1 & Hl1 & Hh1).
  destruct (steps_alone_run _ _ Receiver 6 _ _ _ _ c Hr eq_refl E1) as (Hs1 & Hr1 & Ho1).
  set (c1 := run_schedule _ _ (replicate 6 Receiver) c) in *.
  destruct (time_passes settings companion recording heartbeat_timeout_sec fuel s1 d rest Hp1 ltac:(congruence))
    as (s2 & E2 & Hs2).
  assert (threads c1 Time = Ret NextTime) as Ht1 by (by rewrite Ho1).
  destruct (steps_alone_run _ _ Time 2 _ _ _ _ c1 Ht1 Hs1 E2) as (Hs2' & _ & Ho2).
  set (c2 := run_schedule _ _ (replicate 2 Time) c1) in *.
  destruct (timeout_terminates settings companion recording heartbeat_timeout_sec fuel s2)
    as (p & s3 & E3 & Hp3 & _); [subst s2; try done..|].
  { cbn. rewrite Hst1. exact Hw. }
  { unfold heartbeatFresh. cbn. rewrite Hh1. apply Z.leb_gt. lia. }
  assert (threads c2 Receiver = after_message heartbeat_timeout_sec) as Hr2 by (by rewrite Ho2).
  destruct (steps_alone_run _ _ Receiver 7 _ _ _ _ c2 Hr2 Hs2' E3) as (Hs3 & _ & _).
  exists (replicate 6 Receiver ++ replicate 2 Time ++ replicate 7 Receiver). intros after.
  assert (shared after = s3) as Ha.
  { rewrite <- Hs3. unfold after, run, service_run. rewrite !run_schedule_app. reflexivity. }
  split; [by rewrite Ha|]. intros ts'. apply halted_run. by rewrite Ha.
Qed.

Lemma link_timeout_terminates_witness :
  let run := service_run default_download default_companion default_recording 10 80 in
  state_ (shared slow_run) = WaitArm /\ terminated (shared slow_run) = false /\
  exists ts, let after := run ts slow_run in
    terminated (shared after) = true /\ forall ts', run ts' after = after.
Proof.
  split; [vm_compute; reflexivity|]. split; [vm_compute; reflexivity|].
  apply (link_timeout_terminates default_download default_companion default_recording 10 80 slow_run
    (HeartbeatMessage {| i_sysid := 1; i_compid := 1; i_type := 2; i_autopilot := 3 |} 0) (seconds 11) []).
  - vm_compute. reflexivity.
  - vm_compute. reflexivity.
  - split; [vm_compute; reflexivity..| |vm_compute; reflexivity]. exists []. vm_compute. reflexivity.
  - split; vm_compute; reflexivity.
  - split; [vm_compute; reflexivity|]. split; vm_compute; discriminate.
  - vm_compute. reflexivity.
  - vm_compute. reflexivity.
Defined.

(** C13. A log whose archive was evicted counts as archived.  The cleanup deletes the
    file of a log, which its row in the catalog names, for the storage limit, and
    leaves the row.  When a
    later cycle finds the same catalog and files, still lists the log and takes
    everything it lists for duplicates, it goes on to the erasure without looking for
    a file: LOG_ERASE is sent while the log's file is gone. *)
Theorem evicted_log_is_erased `{Platform} settings heartbeat_timeout_sec fuel (s0 : Service) entry dest node
    (key : string) row :
  0 <= probe_bytes settings < 2 ^ 31 -> cycle_fuel settings < Z.of_nat fuel ->
  erase_after_success settings = true ->
  let run := turns settings heartbeat_timeout_sec fuel in
  let listed s := archived_logs (w_db (downloader_ s)) !! key = Some row /\
    hasArchived (le_id entry) (le_size entry) (w_db (downloader_ s)) = true in
  let file s := st_fs (w_storage (downloader_ s)) !! dest in
  state_ s0 = Cleanup ->
  reconnect_due settings (consecutive_archive_failures_ (cycle_ s0)) (last_cycle_result_ (cycle_ s0)) = false ->
  archived_logs (w_db (downloader_ s0)) !! key = Some row -> row_log_id row = le_id entry ->
  row_log_size row = le_size entry -> row_filename row = path_string dest -> file s0 = Some node ->
  st_fs (enforceStorageLimit (w_storage (downloader_ s0))) !! dest = None ->
  exists s1, run 1%nat s0 = Some s1 /\ listed s1 /\ file s1 = None /\
  forall s logs w1 result w2,
    state_ s = Archive -> link_ok False chunk_wf entry_ok (downloader_ s) ->
    w_db (downloader_ s) = w_db (downloader_ s1) -> w_storage (downloader_ s) = w_storage (downloader_ s1) ->
    enumerateLogs settings fuel (downloader_ s) = (Ok logs, w1) -> entry ∈ logs ->
    archiveAll settings fuel logs w1 = (Ok result, w2) ->
    cy_all_archived result = true -> cy_downloaded result = 0 ->
    exists s2, run 1%nat s = Some s2 /\ state_ s2 = EraseAll /\ entry ∈ cached_fc_logs_ (cycle_ s2) /\
      listed s2 /\ file s2 = None /\
      ((ld_cancelled settings (downloader_ s2)).1 = false ->
       exists s3 sent, run 1%nat s2 = Some s3 /\
         w_sent (downloader_ s3) = w_sent (downloader_ s2) ++ [(LogErase, sent)] /\ file s3 = None).
Proof.
  intros Hprobe Hfuel Herase run listed file Hs0 Hr Hkey Hid Hsize Hname Hfile Hev.
  destruct (cleanup_turn settings heartbeat_timeout_sec fuel s0 Hs0 Hr) as (s1 & E1 & _ & _ & Hst1 & Hdb1).
  exists s1. split; [unfold run; cbn [turns]; by rewrite E1|].
  assert (forall s, archived_logs (w_db (downloader_ s)) !! key = Some row -> listed s) as Hlisted
    by (intros s Hrow; split; [done|]; apply hasArchived_spec; exists key, row; by split_and!).
  assert (listed s1) as Hrow1 by (apply Hlisted; by rewrite Hdb1).
  assert (file s1 = None) as Hfile1 by (unfold file; by rewrite Hst1).
  split; [done|]. split; [done|]. intros s logs w1 result w2 Hs Hl Hdb Hst Ee Hin Ea Hall Hdown.
  destruct (skipping_cycle settings fuel Hprobe Hfuel s logs w1 result w2 Hl Ee Ea Hall Hdown)
    as (Hmay & Hst2 & Hrows).
  pose proof (archive_turn_run settings heartbeat_timeout_sec fuel s logs w1 result w2 Hs Ee Ea) as Hturn.
  rewrite Hmay in Hturn by (try done; intros ->; by apply not_elem_of_nil in Hin). set (s2 := on_downloader _ _) in Hturn.
  assert (file s2 = None) as Hfile2.
  { unfold file in *. change (w_storage (downloader_ s2)) with (w_storage w2). by rewrite Hst2, Hst. }
  exists s2. split; [unfold run; cbn [turns]; by rewrite Hturn|]. split; [done|]. split; [done|].
  split; [|split; [done|]].
  { apply Hlisted. change (w_db (downloader_ s2)) with (w_db w2). rewrite Hrows, Hdb. apply Hrow1. }
  intros Hc. destruct (erase_turn_marks settings heartbeat_timeout_sec fuel s2 eq_refl Hc)
    as (s3 & sent & E3 & _ & Hsent & _ & _ & Hst3).
  exists s3, sent. split; [unfold run; cbn [turns]; by rewrite E3|]. split; [done|].
  unfold file in *. by rewrite Hst3.
Qed.

Lemma evicted_log_is_erased_witness :
  let fuel := (80 + Z.to_nat (cycle_fuel default_download))%nat in
  let run := turns default_download 10 fuel in
  let file s := st_fs (w_storage (downloader_ s)) !! first_archive in
  (n_bytes <$> file before_cleanup) = Some sample_content /\
  exists s1, run 1%nat before_cleanup = Some s1 /\ file s1 = None /\
  exists s2, run 1%nat second_cycle = Some s2 /\ state_ s2 = EraseAll /\
    sample_entry ∈ cached_fc_logs_ (cycle_ s2) /\
    (archived_logs (w_db (downloader_ s2)) !! first_digest = Some first_row /\
     hasArchived (le_id sample_entry) (le_size sample_entry) (w_db (downloader_ s2)) = true) /\ file s2 = None /\
    ((ld_cancelled default_download (downloader_ s2)).1 = false ->
     exists s3 sent, run 1%nat s2 = Some s3 /\
       w_sent (downloader_ s3) = w_sent (downloader_ s2) ++ [(LogErase, sent)] /\ file s3 = None).
Proof.
  intros fuel run file. split; [vm_compute; reflexivity|].
  destruct (evicted_log_is_erased default_download 10 fuel before_cleanup sample_entry first_archive
    (default {| n_bytes := []; n_mtime := 0 |} (file before_cleanup)) first_digest first_row)
    as (s1 & E1 & _ & Hf1 & Hlater).
  - simpl. lia.
  - unfold fuel. rewrite Nat2Z.inj_add, Z2Nat.id; [lia|]. vm_compute. discriminate.
  - reflexivity.
  - reflexivity.
  - vm_compute. reflexivity.
  - vm_compute. reflexivity.
  - reflexivity.
  - reflexivity.
  - vm_compute. reflexivity.
  - vm_compute. reflexivity.
  - vm_compute. reflexivity.
  - exists s1. split; [exact E1|]. split; [exact Hf1|].
    pose proof (before_cleanup_turn (Z.to_nat (cycle_fuel default_download))) as Eb.
    fold fuel in Eb. unfold turns in E1. rewrite Eb in E1. injection E1 as <-.
    apply (Hlater second_cycle [sample_entry] second_listing only_skipped second_archive).
    + reflexivity.
    + exact second_cycle_link.
    + reflexivity.
    + reflexivity.
    + apply second_cycle_lists.
    + by left.
    + apply second_cycle_skips.
    + reflexivity.
    + reflexivity.
Defined.
