(* ===== verification/ServiceCompanion.v ===== *)
(** The service behind its companion server: the callbacks keep what the server
    relies on; what each request does ([served]), so that every request to the service
    is taken, done and answered; what a status says; and that a cancellation does not
    wait for the main loop. *)

From S2P Require Import Prelude Effects LogProtocol Types FlightMonitor Database Storage.
From S2P Require Import Session Downloader DownloaderProofs ArchiveProofs Client Threads.
From S2P Require Import Json JsonSample CompanionTypes CompanionProtocol CompanionServer VideoRecorder.
From S2P Require Import Service ServiceSafety ServiceProofs ServiceJobs.
Open Scope Z_scope.

(** The texts sent so far. *)
Definition answers_sent (s : Service) : list string := (cp_answers (companion_ s)).*1.

Section Callbacks.
Context `{Platform} `{JsonLibrary} (settings : CompanionSettings) (recording : RecordingSettings)
  (heartbeat_timeout_sec : Z).
Local Abbreviation callbacks := (companion_callbacks recording heartbeat_timeout_sec).

Lemma ret_returns {A} (a : A) : returns answers_sent (mret a).
Proof using Type. intros s. by exists a, s. Qed.

Lemma bind_returns {A B} (p : program A) (k : A -> program B) :
  returns answers_sent p -> (forall a, returns answers_sent (k a)) -> returns answers_sent (p ≫= k).
Proof using Type.
  intros Hp Hk s. destruct (Hp s) as (a & s1 & E & <-). destruct (Hk a s1) as (b & s2 & E2 & ?).
  exists b, s2. by rewrite run_bind, E.
Qed.

Lemma get_returns {A} (f : Service -> A) : returns answers_sent (get f).
Proof using Type. intros s. by eexists _, _. Qed.

Lemma put_returns (f : Service -> Service) : (forall s, companion_ (f s) = companion_ s) ->
  returns answers_sent (put f).
Proof using Type. intros Hf s. eexists _, _. split; [done|]. unfold answers_sent. by rewrite Hf. Qed.

Lemma recorder_returns {A} (f : OsView -> Recorder -> A * Recorder) : returns answers_sent (on_recorder f).
Proof using Type.
  intros s. unfold on_recorder, atom. cbn [run_alone]. cbv zeta.
  match goal with |- context [f ?v ?r] => destruct (f v r) as [a r'] end. by eexists _, _.
Qed.

Lemma job_gate_returns kind ids all : returns answers_sent (requestCompanionJob kind ids all).
Proof using Type.
  unfold requestCompanionJob, currentState, isConnected_, push, requestDownloaderCancel. cbv zeta.
  repeat first
    [ apply ret_returns | apply get_returns | by apply put_returns
    | apply bind_returns; [|intros ?]
    | match goal with
      | |- returns _ (if ?b then _ else _) => destruct b
      | |- returns _ (match ?k with _ => _ end) => destruct k
      end ].
Qed.

Lemma service_callbacks_return : callbacks_return callbacks answers_sent.
Proof using Type.
  split; cbn [companion_callbacks snapshot_fn fc_logs_fn job_gate cancel_fn rec_start_fn rec_stop_fn
              push_command send_datagram].
  - unfold buildSnapshot, currentState, isConnected_, heartbeatFresh_.
    repeat (apply bind_returns; [first [apply get_returns|apply recorder_returns]|intros ?]). apply ret_returns.
  - intros o l. apply get_returns.
  - apply job_gate_returns.
  - intros p [= <-]. by apply put_returns.
  - intros p [= <-]. apply recorder_returns.
  - intros p [= <-]. apply recorder_returns.
  - intros cmd. by apply put_returns.
  - intros text s. eexists _, _. split; [done|]. unfold answers_sent. simpl. by rewrite fmap_app.
Qed.
End Callbacks.

(** What a request leaves alone. *)
Definition aside (s s' : Service) : Prop :=
  state_ s' = state_ s /\ cp_server (companion_ s') = cp_server (companion_ s) /\
  monitor_ s' = monitor_ s /\ client_ s' = client_ s /\ cycle_ s' = cycle_ s /\
  w_storage (downloader_ s') = w_storage (downloader_ s) /\ w_db (downloader_ s') = w_db (downloader_ s) /\
  w_sent (downloader_ s') = w_sent (downloader_ s) /\ datagrams (outside s') = datagrams (outside s).

#[export] Instance aside_refl : Reflexive aside.
Proof. by intros s. Qed.
#[export] Instance aside_trans : Transitive aside.
Proof. intros s1 s2 s3. unfold aside. intuition congruence. Qed.

Section Aside.
Context `{Platform} `{JsonLibrary} (settings : CompanionSettings) (recording : RecordingSettings)
  (heartbeat_timeout_sec : Z).
Local Abbreviation ok := (@steps_in Service aside).

Lemma recorder_aside {A} (f : OsView -> Recorder -> A * Recorder) : ok (on_recorder f).
Proof using Type.
  split; [|done]. intros s b s'. cbv zeta. destruct (f _ _) as [a r]. by intros [= _ <-].
Qed.

Lemma job_aside kind ids all : ok (requestCompanionJob kind ids all).
Proof using Type.
  unfold requestCompanionJob, currentState, isConnected_, push, requestDownloaderCancel. cbv zeta.
  steps_in_walk fail.
Qed.

Lemma request_aside text :
  ok (handleRequest settings (companion_callbacks recording heartbeat_timeout_sec) text).
Proof using Type.
  apply (handleRequest_ok _ _ (@steps_in Service aside)).
  - cbn [companion_callbacks snapshot_fn].
    unfold buildSnapshot, currentState, isConnected_, heartbeatFresh_.
    steps_in_walk ltac:(apply recorder_aside).
  - intros o l. apply steps_in_get, _.
  - intros answer. split; [|done]. by intros s b s' [= _ <-].
  - intros req _ _. unfold permitted. cbn [companion_callbacks job_gate cancel_fn push_command
      rec_start_fn rec_stop_fn].
    split_and!; intros; simplify_eq; try apply job_aside; try apply recorder_aside.
    split; [intros ? [= <-]|]; by apply steps_in_put.
Qed.
End Aside.

(** A service that serves: the server runs, and [text] is the next datagram. *)
Record serves (text : string) (s : Service) : Prop := {
  serves_server : cp_server (companion_ s) =
    {| sv_running := true; sv_socket := true; sv_rx := true;
       sv_keepalive := sv_keepalive (cp_server (companion_ s)) |};
  serves_next : exists rest, datagrams (outside s) = Datagram text :: rest;
  serves_size : 0 < string_size text <= Z.of_nat kMaxDatagram;
}.

Lemma substring_all n text : (String.length text <= n)%nat -> String.substring 0 n text = text.
Proof.
  revert n. induction text as [|c text IH]; intros [|n] Hn; simpl in *; try done; [lia|]. f_equal. apply IH. lia.
Qed.

(** The turn of the companion thread for a datagram is its request's handling. *)
Lemma companion_turn_serves `{Platform} `{JsonLibrary} settings recording heartbeat_timeout_sec text s :
  serves text s ->
  let s1 := set_outside (with_datagrams (tail (datagrams (outside s))) (outside s)) s in
  run_alone (companion_turn settings recording heartbeat_timeout_sec) s =
  run_alone (continues ← handleRequest settings (companion_callbacks recording heartbeat_timeout_sec) text;
             if continues : bool then mret tt else put (set_server rx_exits)) s1.
Proof.
  intros [Hsv [rest Hd] Hsize] s1. unfold companion_turn, server_turn. rewrite run_bind.
  unfold await at 1. cbn [run_alone]. rewrite Hsv. cbn [sv_rx]. rewrite run_bind, run_bind.
  cbn [run_alone get atom]. rewrite Hsv. cbn [sv_running negb]. rewrite run_bind.
  unfold recvfrom. cbn [run_alone]. rewrite Hsv. cbn [sv_socket]. rewrite Hd.
  unfold string_size in *. rewrite substring_all by lia. rewrite (proj2 (Z.leb_gt _ _)) by lia.
  rewrite run_bind. subst s1. by rewrite Hd.
Qed.

(** ** What a request asks for *)

(** The service without the datagram that is taken. *)
Definition taken (s : Service) : Service :=
  set_outside (with_datagrams (tail (datagrams (outside s))) (outside s)) s.

Section Served.
Context `{Platform} `{JsonLibrary} (settings : CompanionSettings) (recording : RecordingSettings)
  (heartbeat_timeout_sec : Z) (req : CompanionRequest).

Local Abbreviation id := (rq_id req).
Local Abbreviation client := (rq_client req).
Local Abbreviation budget := (u64 (max_response_bytes settings)).

(** The request's selection of logs is not empty and not too long. *)
Definition selects : Prop :=
  (rq_sel_all req = true \/ rq_sel_ids req <> []) /\ i32 (zlen (rq_sel_ids req)) <= kMaxIdsPerRequest.

(** The job an operation stands for, with its selection. *)
Inductive asks_job : CompanionJobKind -> list Z -> bool -> Prop :=
| asks_archive : rq_op req = "archive.start"%string -> asks_job JobArchive [] false
| asks_refresh : rq_op req = "logs.refresh"%string -> asks_job JobRefresh [] false
| asks_download : rq_op req = "logs.download"%string -> selects ->
    asks_job JobDownload (rq_sel_ids req) (rq_sel_all req)
| asks_erase : rq_op req = "logs.erase"%string -> asks_job JobEraseAll [] false.

(** From [s] to [s2] the service does what the request asks for; the response says so. *)
Inductive served (s : Service) : Service -> option SerializedResponse -> Prop :=
| served_refused : refused settings req = true -> served s s (buildError id "bad_token" client)
| served_status snap s2 : rq_op req = "status"%string ->
    run_alone (buildSnapshot recording heartbeat_timeout_sec) s = Some (snap, s2) ->
    served s s2 (Some (buildStatus id snap budget client))
| served_page : rq_op req = "fc.logs"%string ->
    served s s (buildFcLogs id
      (buildFcLogsPage (rq_offset req) (Z.min (rq_limit req) (max_fc_logs_per_response settings)) s) budget client)
| served_caps : rq_op req = "caps"%string ->
    served s s (buildCaps id (max_request_bytes settings) (max_response_bytes settings)
      (max_fc_logs_per_response settings) budget client)
| served_job kind ids all out s2 : refused settings req = false -> asks_job kind ids all ->
    run_alone (requestCompanionJob kind ids all) s = Some (out, s2) -> served s s2 (job_response req out)
| served_cancel : refused settings req = false -> rq_op req = "archive.cancel"%string ->
    served s (set_commands (companion_commands_ s ++ [CancelArchiveCommand]) (on_downloader cancel_downloader s))
      (buildJobAck id false client)
| served_rec_start result s2 : refused settings req = false -> rq_op req = "rec.start"%string ->
    run_alone (on_recorder (start recording)) s = Some (result, s2) -> served s s2 (rec_response req result)
| served_rec_stop ended s2 : refused settings req = false -> rq_op req = "rec.stop"%string ->
    run_alone (on_recorder stop) s = Some (ended, s2) -> served s s2 (buildRecAck id false client)
| served_bad : refused settings req = false ->
    (rq_op req = "logs.download"%string /\ ~ selects \/ rq_op req ∉ all_ops) ->
    served s s (buildError id "bad_request" client).
End Served.

Section Serving.
Context `{Platform} `{JsonLaws} (settings : CompanionSettings) (recording : RecordingSettings)
  (heartbeat_timeout_sec : Z) (text : string) (req : CompanionRequest).
Context (Hreq : admitted settings text = Some req).
Local Abbreviation callbacks := (companion_callbacks recording heartbeat_timeout_sec).
Local Abbreviation served := (served settings recording heartbeat_timeout_sec req).

(** How a request's handling ends: done, and answered. *)
Definition served_and_answered (s : Service) (p : program bool) : Prop :=
  exists s2 r ok s', run_alone p s = Some (true, s') /\ served s s2 (Some r) /\
    run_alone (send_answer (resp_json r)) s2 = Some (ok, s') /\
    (echo_text (rq_id req) (rq_client req) (resp_json r) \/
     rq_op req = "status"%string /\ resp_json r = ""%string /\ exists snap,
       run_alone (buildSnapshot recording heartbeat_timeout_sec) s = Some (snap, s2) /\
       ~ fits (u64 (max_response_bytes settings)) (minimal_status (rq_id req) snap (rq_client req))).

Lemma answer_run r s : exists ok s', run_alone (send_answer (resp_json r)) s = Some (ok, s') /\
  run_alone (answer callbacks (Some r)) s = Some (true, s').
Proof using Type. by eexists _, _. Qed.

Lemma served_same p q s : run_alone p s = run_alone q s -> served_and_answered s p -> served_and_answered s q.
Proof using Type. intros E. unfold served_and_answered. by rewrite E. Qed.

(** A step with its result, then the answer. *)
Lemma served_by {A} (p : program A) (respond : A -> option SerializedResponse) s a s2 :
  run_alone p s = Some (a, s2) -> served s s2 (respond a) ->
  answers (rq_id req) (rq_client req) (respond a) ->
  served_and_answered s (a ← p; answer callbacks (respond a)).
Proof using Type.
  intros E Hs (r & Hr & Hecho). rewrite Hr in Hs. destruct (answer_run r s2) as (ok & s' & Es & Ea).
  exists s2, r, ok, s'. rewrite run_bind, E, Hr. split_and!; [done..|by left].
Qed.

(** Nothing but the answer. *)
Lemma served_at_once resp s : served s s resp -> answers (rq_id req) (rq_client req) resp ->
  served_and_answered s (answer callbacks resp).
Proof using Type. intros Hs Ha. by apply (served_by (Ret tt) (fun _ => resp) s tt s). Qed.

Lemma served_job_run kind ids all s : refused settings req = false -> asks_job req kind ids all ->
  served_and_answered s (run_job callbacks req kind ids all).
Proof using Hreq H1.
  intros Hr Hj. destruct (job_gate_returns kind ids all s) as (out & s2 & E & _).
  apply (served_by _ (job_response req) s out s2 E); [by eapply served_job|].
  apply (job_response_echo settings callbacks answers_sent (service_callbacks_return recording heartbeat_timeout_sec)).
  exact (admitted_client settings text req Hreq).
Qed.

(** The status is sent even if it fits no budget. *)
Lemma served_status_run s : rq_op req = "status"%string ->
  served_and_answered s (
    snap ← buildSnapshot recording heartbeat_timeout_sec;
    answer callbacks (Some (buildStatus (rq_id req) snap (u64 (max_response_bytes settings)) (rq_client req)))).
Proof using H1.
  intros Hop. destruct (snapshot_returns _ _ (service_callbacks_return recording heartbeat_timeout_sec) s)
    as (snap & s2 & E & _). cbn [snapshot_fn companion_callbacks] in E.
  set (r := buildStatus (rq_id req) snap (u64 (max_response_bytes settings)) (rq_client req)).
  destruct (buildStatus_answers (rq_id req) snap (u64 (max_response_bytes settings)) (rq_client req)) as [Hempty|Hecho].
  - destruct (answer_run r s2) as (ok & s' & Es & Ea). exists s2, r, ok, s'. rewrite run_bind, E.
    split; [exact Ea|]. split; [by eapply served_status|]. split; [exact Es|]. right. split; [done|]. split; [done|].
    exists snap. split; [done|]. apply buildStatus_empty. exact Hempty.
  - apply (served_by _ (fun snap => Some (buildStatus (rq_id req) snap (u64 (max_response_bytes settings)) (rq_client req)))
      s snap s2 E); [by eapply served_status|by exists r].
Qed.

Local Ltac op_case Hop :=
  match goal with |- context [String.eqb (rq_op req) ?op] => destruct (String.eqb_spec (rq_op req) op) as [Hop|?] end.

Lemma handleRequest_served s : served_and_answered s (handleRequest settings callbacks text).
Proof using H1 Hreq.
  pose proof (admitted_client settings text req Hreq) as Hc. unfold handleRequest. rewrite Hreq.
  destruct (refused settings req) eqn:Hr; [apply served_at_once; [by apply served_refused|auto with json]|].
  unfold dispatch, bad_request. cbv zeta.
  op_case Hop; [by apply served_status_run|].
  op_case Hop.
  { cbn [fc_logs_fn companion_callbacks].
    set (page := buildFcLogsPage (rq_offset req) (Z.min (rq_limit req) (max_fc_logs_per_response settings))).
    apply (served_by (get page)
      (fun p => buildFcLogs (rq_id req) p (u64 (max_response_bytes settings)) (rq_client req))
      s (page s) s eq_refl); [by apply served_page|auto with json]. }
  op_case Hop; [apply served_at_once; [by apply served_caps|auto with json]|].
  op_case Hop; [apply served_job_run; [done|by constructor]|].
  op_case Hop; [apply served_job_run; [done|by constructor]|].
  op_case Hop.
  { destruct (negb (rq_sel_all req) && bool_decide (rq_sel_ids req = [])) eqn:E1;
      [|destruct (kMaxIdsPerRequest <? i32 (zlen (rq_sel_ids req))) eqn:E2].
    - apply served_at_once; [|auto with json]. apply served_bad; [done|]. left. split; [done|]. intros [Hs _].
      apply andb_true_iff in E1 as [E1 E1']. apply bool_decide_eq_true in E1'. apply negb_true_iff in E1.
      destruct Hs as [Hs|Hs]; congruence.
    - apply served_at_once; [|auto with json]. apply served_bad; [done|]. left. split; [done|]. intros [_ Hs]. zb. lia.
    - apply served_job_run; [done|]. constructor; [done|]. zb. split; [|lia].
      apply andb_false_iff in E1 as [E1|E1]; [left; by apply negb_false_iff|right; by apply bool_decide_eq_false in E1]. }
  op_case Hop; [apply served_job_run; [done|by constructor]|].
  op_case Hop.
  { cbn [cancel_fn push_command companion_callbacks].
    set (s2 := set_commands (companion_commands_ s ++ [CancelArchiveCommand]) (on_downloader cancel_downloader s)).
    apply (served_same (put (fun _ => s2);; answer callbacks (buildJobAck (rq_id req) false (rq_client req))));
      [reflexivity|].
    apply (served_by (put (fun _ => s2)) (fun _ => buildJobAck (rq_id req) false (rq_client req)) s tt s2 eq_refl);
      [by apply served_cancel|auto with json]. }
  op_case Hop.
  { cbn [rec_start_fn companion_callbacks].
    destruct (recorder_returns (start recording) s) as (result & s2 & E & _).
    apply (served_by _ (rec_response req) s result s2 E); [by eapply served_rec_start|].
    unfold rec_response. destruct result; auto with json. }
  op_case Hop.
  { cbn [rec_stop_fn companion_callbacks]. destruct (recorder_returns stop s) as (ended & s2 & E & _).
    apply (served_by _ (fun _ => buildRecAck (rq_id req) false (rq_client req)) s ended s2 E);
      [by eapply served_rec_stop|auto with json]. }
  apply served_at_once; [|auto with json]. apply served_bad; [done|]. right.
  unfold all_ops. rewrite !not_elem_of_cons. split_and!; try done. apply not_elem_of_nil.
Qed.
End Serving.

(** * Properties *)

(** C18. The service answers its companion: when the next datagram is a request,
    the companion thread, left alone, takes it, does what it asks for, once
    ([served]: the job is handed to the gate with the request's selection, the cancel
    flag and its command are set, the recorder is started or stopped, or nothing is
    changed), and sends one answer, the one for the outcome.  The answer carries the
    request's number and client; only a status that fits no budget is sent empty.  The
    server goes on, and neither the state machine nor the flight data nor the
    archives change. *)
Theorem service_answers `{Platform} `{JsonLaws} settings recording heartbeat_timeout_sec text req s :
  serves text s -> admitted settings text = Some req ->
  let s1 := taken s in
  exists s2 r ok s',
    run_alone (companion_turn settings recording heartbeat_timeout_sec) s = Some (tt, s') /\
    datagrams (outside s) = Datagram text :: datagrams (outside s') /\
    served settings recording heartbeat_timeout_sec req s1 s2 (Some r) /\
    run_alone (send_answer (resp_json r)) s2 = Some (ok, s') /\
    answers_sent s' = answers_sent s ++ [resp_json r] /\
    (echo_text (rq_id req) (rq_client req) (resp_json r) \/
     rq_op req = "status" /\ resp_json r = "" /\ exists snap,
       run_alone (buildSnapshot recording heartbeat_timeout_sec) s1 = Some (snap, s2) /\
       ~ fits (u64 (max_response_bytes settings)) (minimal_status (rq_id req) snap (rq_client req))) /\
    aside s1 s'.
Proof.
  intros Hs Hreq s1. rewrite (companion_turn_serves settings recording heartbeat_timeout_sec text s Hs).
  cbv zeta. fold (taken s). fold s1.
  destruct (handleRequest_served settings recording heartbeat_timeout_sec text req Hreq s1)
    as (s2 & r & ok & s' & E & Hserved & Hsend & Hecho).
  pose proof (steps_in_run aside _ (request_aside settings recording heartbeat_timeout_sec text) _ _ _ E) as Haside.
  pose proof (handleRequest_sends settings (companion_callbacks recording heartbeat_timeout_sec)
    answers_sent text (service_callbacks_return recording heartbeat_timeout_sec)) as Hh.
  rewrite Hreq in Hh. destruct (Hh s1) as (answer & s'' & E' & Hsent & _). rewrite E in E'. injection E' as <-.
  exists s2, r, ok, s'. rewrite run_bind, E. split; [done|].
  split; [|split; [exact Hserved|split; [exact Hsend|split; [|by split]]]].
  - destruct Haside as (_ & _ & _ & _ & _ & _ & _ & _ & ->). destruct (serves_next _ _ Hs) as [rest Hd].
    unfold s1, taken. cbn. by rewrite Hd.
  - assert (answers_sent s' = answers_sent s2 ++ [resp_json r]) as Hanswer
      by (injection Hsend as _ <-; unfold answers_sent; cbn; by rewrite fmap_app).
    rewrite Hsent. f_equal. rewrite Hsent in Hanswer. by apply app_inj_tail in Hanswer as [_ ->].
Qed.

(** C19. A cancellation does not wait for the main loop: handling an authorised
    [archive.cancel] sets the downloader's cancel flag there and then, whatever
    the main loop is in the middle of, queues a command for the log besides, and
    acknowledges. *)
Theorem cancel_is_immediate `{Platform} `{JsonLaws} settings recording heartbeat_timeout_sec text req s :
  serves text s -> admitted settings text = Some req -> authorised settings req ->
  rq_op req = "archive.cancel" ->
  exists s', run_alone (companion_turn settings recording heartbeat_timeout_sec) s = Some (tt, s') /\
    sh_cancel (w_shared (downloader_ s')) = true /\ state_ s' = state_ s /\
    companion_commands_ s' = companion_commands_ s ++ [CancelArchiveCommand] /\
    answers_sent s' = answers_sent s ++ [json_dump_replace (job_ack (rq_id req) false (rq_client req))].
Proof.
  intros Hs Hreq Hauth Hop. rewrite (companion_turn_serves settings recording heartbeat_timeout_sec text s Hs).
  cbv zeta. set (s1 := set_outside _ s). unfold handleRequest. rewrite Hreq.
  assert (refused settings req = false) as ->.
  { unfold refused. destruct Hauth as [_ [Ht|Ht]]; rewrite Ht; [by rewrite andb_false_r|].
    by rewrite String.eqb_refl, andb_false_r. }
  assert (utf8 (rq_client req) = true) as Hc by exact (admitted_client settings text req Hreq).
  unfold dispatch. cbv zeta. rewrite Hop.
  cbn [String.eqb Ascii.eqb Bool.eqb cancel_fn companion_callbacks push_command].
  unfold buildJobAck. rewrite dumped_ok by (unfold job_ack; auto 10 with json).
  eexists. split; [reflexivity|]. split_and!; try done. unfold answers_sent. simpl. by rewrite fmap_app.
Qed.

(** ** Samples *)

(** A service in the middle of a cycle, with the next datagram. *)
Definition busy_service (text : string) : Service :=
  set_outside (with_datagrams [Datagram text] sample_outside)
    (set_server (fun _ => {| sv_running := true; sv_socket := true; sv_rx := true; sv_keepalive := false |})
       (sample_service Archive)).

Definition cancel_text : string :=
  json_dump_replace (request_document
    {| rq_version := 1; rq_id := 9; rq_op := "archive.cancel"; rq_token := ""; rq_client := "";
       rq_offset := 0; rq_limit := 8; rq_sel_ids := []; rq_sel_all := false |}).

Definition cancel_request : option CompanionRequest := Eval vm_compute in admitted unlocked cancel_text.

Lemma busy_serves : serves cancel_text (busy_service cancel_text).
Proof. split; [done|by eexists|]. vm_compute. split; [done|discriminate]. Qed.

Lemma cancel_is_immediate_witness :
  exists s', run_alone (companion_turn unlocked default_recording 10) (busy_service cancel_text) = Some (tt, s') /\
    sh_cancel (w_shared (downloader_ s')) = true /\ state_ s' = Archive.
Proof.
  assert (admitted unlocked cancel_text = cancel_request) as Hreq by (vm_compute; reflexivity).
  unfold cancel_request in Hreq.
  destruct (cancel_is_immediate unlocked default_recording 10 cancel_text _ _ busy_serves Hreq)
    as (s' & E & Hc & Hs & _); [split; [reflexivity|by left]|reflexivity|].
  exists s'. split; [exact E|]. split; [exact Hc|exact Hs].
Defined.

Lemma service_answers_witness :
  let s := busy_service cancel_text in
  exists req s2 r ok s', admitted unlocked cancel_text = Some req /\
    run_alone (companion_turn unlocked default_recording 10) s = Some (tt, s') /\
    datagrams (outside s) = Datagram cancel_text :: datagrams (outside s') /\
    served unlocked default_recording 10 req (taken s) s2 (Some r) /\
    run_alone (send_answer (resp_json r)) s2 = Some (ok, s') /\
    answers_sent s' = answers_sent s ++ [resp_json r].
Proof.
  intros s. assert (admitted unlocked cancel_text = cancel_request) as Hreq by (vm_compute; reflexivity).
  unfold cancel_request in Hreq.
  destruct (service_answers unlocked default_recording 10 cancel_text _ _ busy_serves Hreq)
    as (s2 & r & ok & s' & E & Hd & Hserved & Hsend & Ha & _).
  eexists _, s2, r, ok, s'. split; [exact Hreq|]. split; [exact E|]. split; [exact Hd|]. split; [exact Hserved|].
  split; [exact Hsend|exact Ha].
Defined.
