(* ===== verification/Program.v ===== *)
(** The program (src/main.cpp): from the command line to the running service.

    [main] loads the configuration, constructs the service from it (the constructors
    of DroneLogService.cpp and StorageManager.cpp), which opens the catalog, and runs
    it.  The [machine] is what the program finds: the files, the catalog, the clocks
    and what the link will bring; directories are implicit in the model of the file
    system.  [calls] says which of the SQLite calls that open the catalog fail; the
    later ones succeed.

    The theorem composes the loader with the service: what the configuration file
    says decides when LOG_ERASE is sent. *)

From S2P Require Import Prelude Effects Types Json JsonSample CompanionTypes CompanionProtocol Config.
From S2P Require Import Transports LogProtocol Session SessionProofs Storage Database FlightMonitor Downloader Sqlite.
From S2P Require Import DownloaderProofs ArchiveProofs Threads CompanionServer Client Service ServiceSafety ServiceProofs.
Open Scope Z_scope.

Definition kDefaultConfigPath : string := "/etc/mcls/config.toml".

(** [argv[1]], if there is one. *)
Definition config_path (argv : list string) : string :=
  match argv with
  | _ :: path :: _ => path
  | _ => kDefaultConfigPath
  end.

Section Program.
Context `{Platform} `{JsonLibrary} `{TomlLibrary}.

(** The components of a path ([std::filesystem::path]). *)
Context (components : string -> path).

(** The constructor, on the files of the disk. *)
Definition new_storage (settings : StorageSettings) (fs : FileSystem) : Storage :=
  {| st_root := components (directory settings); st_max_size_gb := max_size_gb settings;
     st_fs := fs; st_partial_counter := 0 |}.

(** [StorageManager::initialize]; its directories are implicit. *)
Definition storage_initialize (s : Storage) : Storage := cleanupPartials s.

(** [None]: the configuration could not be read, it names no known transport, or the
    catalog could not be opened, and the program returns 1. *)
Definition main (argv : list string) (bind : bool * bool * bool) (o : Outside) (machine : World)
    (calls : list (option SqlError)) : option (Config * Sys Service Next Thread) :=
  config ← loadFromFile (config_path argv);
  _ ← createTransport (transport (cfg_transport config));
  let storage := new_storage (cfg_storage config) (st_fs (w_storage machine)) in
  match initialize (new_connection (w_db machine) calls) with
  | (Ok _, database) =>
      Some (config, boot (cfg_companion config) bind o
        (new_downloader (w_now machine) (w_wall machine) (db_tables database)
           (storage_initialize storage) (w_script machine)))
  | _ => None
  end.

(** The service with the settings of its configuration. *)
Definition program_run (config : Config) (fuel : nat) :
    list Thread -> Sys Service Next Thread -> Sys Service Next Thread :=
  service_run (cfg_download config) (cfg_companion config) (cfg_recording config)
    (heartbeat_timeout_sec (cfg_transport config)) fuel.

Lemma link_ok_new good_chunk good_entry reliable now wall db st w :
  link_ok reliable good_chunk good_entry w ->
  link_ok reliable good_chunk good_entry (new_downloader now wall db st (w_script w)).
Proof using Type. intros [Hs _]. by repeat split. Qed.

(** The program starts exactly when it reads its configuration, the transport it names
    is TCP or UDP, and no call that opens the catalog fails. *)
Lemma main_starts argv bind o machine calls : calls_ok (new_connection (w_db machine) calls) ->
  is_Some (main argv bind o machine calls) <->
  (exists config, loadFromFile (config_path argv) = Some config /\
     (lower (transport (cfg_transport config)) = "tcp" \/ lower (transport (cfg_transport config)) = "udp")%string) /\
  Forall (fun call => call = None) (take 4 calls).
Proof using Type.
  intros Hc. pose proof (initialize_opens _ Hc) as Ho. simpl db_calls in Ho. rewrite <- Ho. unfold main.
  destruct (loadFromFile (config_path argv)) as [config|]; simpl; [|split; [by intros []|by intros [(c & ? & _) _]]].
  assert (is_Some (createTransport (transport (cfg_transport config))) <->
    (lower (transport (cfg_transport config)) = "tcp" \/ lower (transport (cfg_transport config)) = "udp")%string) as Ht.
  { unfold createTransport. destruct (String.eqb_spec (lower (transport (cfg_transport config))) "tcp") as [->|Hn1];
      [split; [by left|done]|]. destruct (String.eqb_spec (lower (transport (cfg_transport config))) "udp") as [->|Hn2];
      [split; [by right|done]|]. split; [by intros []|by intros []]. }
  destruct (createTransport (transport (cfg_transport config))) as [kind|]; simpl.
  - cbv zeta. destruct (initialize _) as [[[]|e|] database]; simpl; (split; [intros Hs|intros [_ Hs]]); try done.
    all: try by destruct Hs.
    split; [|done]. exists config. split; [done|]. by apply Ht.
  - split; [by intros []|]. intros [(c & [= <-] & Hkind) _]. by apply Ht in Hkind as [].
Qed.

(** What the loader makes of a file that disables erasing and sets a token. *)
Lemma loaded_settings path (table : toml_table) c (d s : toml_table) tok : loadFromFile path = Some c ->
  parse_file path = Some table ->
  as_table table "download" = Some d -> value_bool d "erase_after_success" = Some false ->
  as_table table "companion" = Some s -> value_string s "token" = Some tok ->
  erase_after_success (cfg_download c) = false /\ token (cfg_companion c) = tok.
Proof using Type.
  unfold loadFromFile. intros Hc Hp Hd He Hs Ht. rewrite Hp in Hc. simpl in Hc. injection Hc as <-.
  unfold section. simpl.
  rewrite Hd, Hs. simpl. unfold bool_at, string_at. by rewrite He, Ht.
Qed.
End Program.

(** C3. Erasing can be switched off.  If the configuration file disables
    [erase_after_success] and sets a companion token, then in every run of the
    program a step that sends LOG_ERASE was asked for: among the datagrams the
    program has received by then is a request [logs.erase] with the token of the
    file. *)
Theorem program_erases_on_request_only `{Platform} `{JsonLibrary} `{TomlLibrary} components argv bind o machine
    calls (table d s : toml_table) tok config start fuel ts t :
  parse_file (config_path argv) = Some table ->
  as_table table "download" = Some d -> value_bool d "erase_after_success" = Some false ->
  as_table table "companion" = Some s -> value_string s "token" = Some tok -> tok <> ""%string ->
  main components argv bind o machine calls = Some (config, start) ->
  0 <= probe_bytes (cfg_download config) < 2 ^ 31 -> cycle_fuel (cfg_download config) < Z.of_nat fuel ->
  link_ok False chunk_wf entry_ok machine -> Forall (good_inbound chunk_wf entry_ok) (inbox o) ->
  let before := program_run config fuel ts start in
  let after := program_run config fuel [t] before in
  erase_count (downloader_ (shared after)) <> erase_count (downloader_ (shared before)) ->
  exists pre text req, datagrams o = (pre ++ datagrams (outside (shared before)))%list /\ Datagram text ∈ pre /\
    admitted (cfg_companion config) (String.substring 0 kMaxDatagram text) = Some req /\
    rq_op req = "logs.erase"%string /\ rq_token req = tok.
Proof.
  intros Hp Hd He Hs Ht Hne Hmain Hprobe Hf Hl Hin before after Herase.
  unfold main in Hmain. apply bind_Some in Hmain as (c & Hc & Hmain).
  apply bind_Some in Hmain as (kind & _ & Hmain). cbv zeta in Hmain.
  destruct (initialize _) as [[[]| |] database]; try done. injection Hmain as <- <-.
  destruct (loaded_settings _ _ _ _ _ _ Hc Hp Hd He Hs Ht) as [Hoff Htok].
  destruct (erase_step _ _ _ _ fuel bind o _ ts t Hprobe Hf
    (link_ok_new _ _ _ _ _ _ _ machine Hl) Hin Herase) as [[Hj _]|(pre & text & Hi & Hpre & req & Ha & [_ Hauth] & Hop)];
    [congruence|].
  exists pre, text, req. split_and!; try done. destruct Hauth as [Hno|Htk]; congruence.
Qed.

(** ** A sample run *)

Definition sample_document : list (string * TomlValue) :=
  [("download", TomlTable [("erase_after_success", TomlBool false)]);
   ("companion", TomlTable [("enabled", TomlBool true); ("token", TomlString "key")])]%string.

#[export] Instance sample_toml : TomlLibrary := document_library (Some sample_document).

Definition erase_text : string :=
  json_dump_replace (request_document
    {| rq_version := 1; rq_id := 3; rq_op := "logs.erase"; rq_token := "key"; rq_client := "";
       rq_offset := 0; rq_limit := 8; rq_sel_ids := []; rq_sel_all := false |}).

(** A vehicle on the ground, and a companion that asks to erase. *)
Definition erase_outside : Outside :=
  with_datagrams [Datagram erase_text]
    {| inbox := [sample_heartbeat false]; datagrams := []; connects := [true]; sends_ok := [];
       os_views := []; delays := []; signals := 0 |}.

Definition sample_config : Config := default default_config (loadFromFile "config.toml").

Definition sample_start : Sys Service Next Thread :=
  boot (cfg_companion sample_config) (true, true, true) erase_outside
    (new_downloader (w_now sample_flight) (w_wall sample_flight) (w_db sample_flight)
       (storage_initialize (new_storage (fun d => [d]) (cfg_storage sample_config) (st_fs (w_storage sample_flight))))
       (w_script sample_flight)).

(** Up to the step of the main thread that sends LOG_ERASE. *)
Definition erase_schedule : list Thread :=
  replicate 40 Main ++ replicate 20 Receiver ++ replicate 20 Main ++ replicate 20 Companion ++ replicate 10 Main.

Lemma sample_program_erases rest :
  let before := program_run sample_config (80 + rest) erase_schedule sample_start in
  let after := program_run sample_config (80 + rest) [Main] before in
  erase_count (downloader_ (shared after)) <> erase_count (downloader_ (shared before)).
Proof. vm_compute. discriminate. Qed.

Lemma program_erases_on_request_only_witness :
  let before := program_run sample_config (80 + Z.to_nat (cycle_fuel default_download)) erase_schedule sample_start in
  exists pre text req, datagrams erase_outside = (pre ++ datagrams (outside (shared before)))%list /\
    Datagram text ∈ pre /\
    admitted (cfg_companion sample_config) (String.substring 0 kMaxDatagram text) = Some req /\
    rq_op req = "logs.erase"%string /\ rq_token req = "key"%string.
Proof.
  intros before. refine (program_erases_on_request_only (fun d => [d]) ["mcls"; "config.toml"]%string (true, true, true)
    erase_outside sample_flight [] sample_document _ _ "key" sample_config sample_start
    (80 + Z.to_nat (cycle_fuel default_download)) erase_schedule Main
    eq_refl eq_refl eq_refl eq_refl eq_refl _ eq_refl _ _ sample_flight_ok _
    (sample_program_erases (Z.to_nat (cycle_fuel default_download)))).
  - discriminate.
  - vm_compute. split; [discriminate|done].
  - change (cycle_fuel (cfg_download sample_config)) with (cycle_fuel default_download).
    rewrite Nat2Z.inj_add, Z2Nat.id; [lia|]. vm_compute. discriminate.
  - repeat constructor.
Defined.
